(* ===== verification/_CoqProject ===== *)
-Q . S2P
Prelude.v
RustStr.v
HttpTypes.v
Request.v
Response.v
Router.v
Float64.v
RateLimiter.v
Net.v
Config.v
Metrics.v
Semaphore.v
AcceptLoop.v
Sql.v
Effects.v
Pool.v
Database.v
Session.v
Auth.v
StaticFiles.v
Proxy.v
Task.v
Handlers.v
Routing.v
Connection.v
Tower.v
Server.v
Progress.v
SessionSafety.v
Items.v
Tokens.v
Browser.v
System.v
Tls.v
Redirect.v
Startup.v
Main.v
