(* ===== verification/Prelude.v ===== *)
(** * Verification of rust-highperf-server

    The program is an HTTP/1.1 and HTTP/2 server on Tokio and Hyper (its Rust
    sources are in [src/src/]).  [main.rs] loads a configuration from the
    environment and runs [Server::run]: an accept loop filters peers by address,
    caps the number of connections with a semaphore, and spawns a task per
    connection; a task drives its requests through a stack of Tower services
    (logging, rate limiter, concurrency limiter, body collection with counters)
    into a router built once per connection; handlers use a SQL database, browser
    sessions kept in it, JSON web tokens, templates, static files and, when
    configured, a reverse proxy.  A shutdown signal stops the loop and drains the
    connections.

    ** Files and what they model

    - [Prelude]: results with the monad that gives [?] its meaning, machine
      integers, runs of a step relation, list lookups, the [server] hint database
      and the tactics the other files share.
    - [RustStr]: what the sources use of [str], [u8], [char] and UTF-8.
    - [HttpTypes]: the data of the [http] crate; what the crate decides is the
      interface [HttpCrate], with [http_crate_ascii] an implementation.
    - [Request], [Response], [Router]: [http/request.rs], [http/response.rs],
      [http/router.rs]; accessors and percent-decoding, the response builder,
      patterns and dispatch.
    - [Float64], [RateLimiter]: binary64 arithmetic with its rounding, and the
      token buckets of [middleware/rate_limiter.rs] computed in it.
    - [Net], [Config]: the standard library's address parser and [config.rs].
    - [Metrics]: [metrics.rs], counters and exposition.
    - [Semaphore], [AcceptLoop]: permits and the limiter of
      [middleware/concurrency.rs]; the accept loop and drain of [server/mod.rs]
      as a labelled step relation ([exec]) over the main task and all connection
      tasks, one step per atomic action.
    - [Sql], [Effects], [Pool]: the tables and statements of [db/], with the
      database engine the interface [Sql] (statements in, rows out, with the
      meaning of each statement the program sends; [mem_sql] implements it); async
      code as programs, trees of database calls, UUID draws, clock readings,
      counter loads and calls to the outside (files, the upstream, the blocking
      pool: [Outside], logged in the [World]) ([Io]), run alone ([run_io]) or one
      call at a time ([advance]), with a logic for what every call does whatever
      happens in between ([always]) and a bound on the calls ([at_most]);
      [db/pool.rs].
    - [Database], [Session], [Auth]: [db/models.rs], [session/mod.rs],
      [middleware/auth.rs] as such programs; Argon2 and the token library are the
      interfaces [Argon2] and [Jwt], implemented by [toy_argon2] and [toy_jwt].
    - [StaticFiles], [Proxy], [Task]: [static_files/], [proxy/mod.rs],
      [server/task.rs], as such programs, and [fib] of [server/connection.rs].
    - [Handlers]: every route of [build_router] ([server/connection.rs]), each
      handler a program, and the responses of [templates/mod.rs].
    - [Routing]: what those routes answer to which request, as a reference.
    - [Connection]: the request pipeline of [handle_connection] with
      [middleware/logging.rs], all requests of the server interleaved, and the
      loop that drives one connection.
    - [Tower]: the layers and services of [middleware/], the futures their calls
      give, and [ServiceBuilder]'s composition, as a machine of its own.
    - [Server]: handlers and pipeline together: the pipeline with the handler programs in it,
      one step per call, over the one database and the counters they share.
    - [Progress], [SessionSafety], [Items], [Tokens], [Browser]: that such runs never
      stall a request, what they can do to a session token, and the item store, bearer
      tokens and browser sessions as their clients see them.
    - [System]: the whole server: the accept loop and its tasks, the loop of each
      connection, and the requests that arrive over them, meeting in the peer's
      address, the shutdown value, the counters and the requests a connection takes
      with it when it closes; and the end of the runtime after the main task.
    - [Tls], [Redirect], [Startup], [Main]: [tls/acceptor.rs]; [run_http_redirect] and
      its response; [Server::run] and [accept_loop] of [server/mod.rs] up to the
      loop, with the state the server starts from; [main.rs], [shutdown_signal] and
      [bin/password_hash.rs].

    ** What the theorems show

    - Security, in every interleaving of all requests call by call: items change
      only by a handler that saw a verifying bearer token or a live session with
      its CSRF token, accounts never, and sessions appear only for credentials that
      were accepted ([Server.database_authorised]); a session never changes hands and
      its end is final ([SessionSafety.session_end_is_final]); a login's cookie names the
      account that logged in to whoever sees it, until a logout after which it names
      none ([Browser.login_flow], [Browser.logout_flow]); a bearer token is issued
      only for accepted credentials and opens the admin routes for its hour and no
      longer ([Tokens.token_flow]); nothing changes for a peer
      the address filter refuses ([System.database_behind_filter]); the file system
      is asked only for paths in the static directory and the upstream only for
      clients' requests, without their hop-by-hop fields ([Server.outside_confined]);
      both limits hold; no handler gets an oversized body.
    - Handlers: every request is answered by the handler its method and path name
      ([Routing.routing]), and an admitted request always has a next step of its
      own, at most sixteen in all ([Progress.request_progress]); the item store is
      linearizable: each answer is that of one operation on the items at the moment
      of one of the handler's calls, or a refusal or a failure for a reason the
      handler observed ([Items.items_linearizable]); and a request for a file has
      exactly the outcomes it should.
    - Refinement: the server with its handlers is the pipeline with something in
      its handling stage ([Server.server_refines_pipeline]), so what is proved of
      [Connection.Pipe] holds of it; that pipeline is the composed Tower stack, each
      response what the stack's future resolves to, logged once
      ([Tower.tower_is_pipeline]); and the whole server refines its accept loop
      and its requests ([System.system_refines]); the rate limiter is a bucket per
      client; path matching is an inductive specification.
    - Rate limiting: buckets stay within their bounds in floating point, eviction
      is unobservable, clients do not influence each other, the burst is exactly the
      configured rate, and the server applies all this to the requests of each
      address whatever is interleaved ([Connection.rate_limit_per_client]).
    - Shutdown: the main task returns after boundedly many steps
      ([AcceptLoop.shutdown_returns]), never misses its wake-up, and from a clean
      state ends early only when nothing is served ([System.drain_leaves_nothing]);
      the drain cuts no request short before its timeout forces the exit
      ([System.shutdown_never_cuts]).
    - Round trips and references: percent-decoding and form lookup against an
      encoder, pattern matching against an inductive specification, first-match
      dispatch, content length, exposition and scrape, address lists, cookies, the
      life of an item and of a session, redirect locations, Fibonacci.
    - Start-up and errors: configuration errors are exactly the faults of the
      environment; database errors leave the tables alone; a server that starts has
      the limits, TLS and redirect of its configuration; the bootstrap account is
      there in every state it reaches, and older accounts are untouched.

    Some lemmas record behaviour that departs from what the code or its comments
    intend: [AcceptLoop.drain_returns_early] (a notification stored in normal
    operation ends a later drain at once), [Connection.gauge_leaks] (early
    returns and dropped requests stay in the [requests_active] gauge; the two
    limiter counters are never incremented), [Connection.redirect_counts_as_4xx],
    [StaticFiles.dot_component_served] (a [.] segment is skipped, not refused), [Connection.keep_alive_is_lifetime]
    (the keep-alive timer is never re-armed), [Response.text_extra_content_type]
    and [Proxy.relay_duplicates_content_length] (appended, not replaced, header
    fields), [Browser.logout_ignores_failure] (a logout that failed answered as one
    that did not), [Proxy.strip_prefix_moves_authority] (a stripped path that moves the
    request to another host), [Startup.ready_before_database] (ready before the
    database is open), [Request.percent_decode_replaces_invalid],
    [Config.unparsable_allow_list_admits_all], and [Startup.startup_panics] (limits
    that load but that a semaphore cannot hold).

    ** Conventions and bounds

    A [w]-bit integer is a [Z] with its wrap-around written out.  Texts are byte
    strings.  Recursion is structural, or by fuel that is a length of the input
    ([RustStr.utf8_chunks], with [utf8_chunks_fuel_enough]) or a number of digits
    ([RustStr.show_uint]); no theorem is about a run that gave out.
    Handler programs are finite trees, of at most thirteen calls.  The clock, the
    UUIDs drawn and the replies of the outside, call by call, are an interface
    ([Effects.Env]), so the theorems hold for any; where one needs a clock that does
    not run backwards it says so ([ordered]).

    ** What is not modelled

    Socket and HTTP framing (Hyper), the TLS handshake (rustls), scheduling
    beyond the interleavings of the step relations, how log lines are written, and
    memory exhaustion.  A database call is atomic, and a bounded pool that makes a
    caller wait only delays its call.  Paths are texts, so a symbolic link in the
    static directory is the file system's reply; what reading an open file yields
    while it is sent is known when it is opened.  In [System] the requests of an
    HTTP/1 connection go when its future is dropped and those of an HTTP/2
    connection are tasks of their own, as Hyper runs them; which of the two a
    connection speaks, when its future completes and when a stream is reset are
    events, and so is the shutdown, whichever future an entry point was given for
    it.  When the main task has returned the runtime drops the connection tasks that
    are left, one by one, each at an await; the process is gone when a run ends, and
    how long a blocking task holds it up is not modelled. *)
From stdpp Require Export base list gmap strings numbers sorting.
From Stdlib Require Export ZArith Lia.
From Stdlib Require Ascii String.
Export Stdlib.Strings.Ascii (ascii(..)).
Export (notations) Stdlib.Strings.Ascii.
#[global] Arguments String.append : simpl nomatch.
#[global] Arguments Ascii.eqb : simpl never.
#[global] Arguments String.eqb : simpl never.
#[export] Set Default Goal Selector "!".

(** ** Results

    [result E A] is Rust's [Result<A, E>]; its monad instance gives the
    [x ← e; k] notation the meaning of the [?] operator. *)

Inductive result (E A : Type) : Type :=
| Ok (a : A)
| Err (e : E).
Arguments Ok {E A} a.
Arguments Err {E A} e.

#[export] Instance result_ret E : MRet (result E) := fun A a => Ok a.

#[export] Instance result_bind E : MBind (result E) := fun A B f r =>
  match r with Ok a => f a | Err e => Err e end.

#[export] Instance result_fmap E : FMap (result E) := fun A B f r =>
  match r with Ok a => Ok (f a) | Err e => Err e end.

#[export] Instance result_eq_dec {E A} `{EqDecision E, EqDecision A} :
  EqDecision (result E A).
Proof. solve_decision. Defined.

Definition map_err {E F A} (f : E → F) (r : result E A) : result F A :=
  match r with Ok a => Ok a | Err e => Err (f e) end.

(** [Result::ok] and [Option::ok_or]. *)
Definition ok {E A} (r : result E A) : option A :=
  match r with Ok a => Some a | Err _ => None end.

Definition ok_or {E A} (e : E) (o : option A) : result E A :=
  match o with Some a => Ok a | None => Err e end.

Definition is_ok {E A} (r : result E A) : bool :=
  match r with Ok _ => true | Err _ => false end.

Lemma bind_Ok {E A B} (r : result E A) (f : A → result E B) b :
  r ≫= f = Ok b ↔ ∃ a, r = Ok a ∧ f a = Ok b.
Proof. destruct r; simpl; naive_solver. Qed.

Lemma bind_Err {E A B} (r : result E A) (f : A → result E B) e :
  r ≫= f = Err e ↔ r = Err e ∨ ∃ a, r = Ok a ∧ f a = Err e.
Proof. destruct r; simpl; naive_solver. Qed.

Lemma ok_or_Ok {E A} (e : E) (o : option A) a : ok_or e o = Ok a ↔ o = Some a.
Proof. destruct o; simpl; naive_solver. Qed.

Lemma ok_or_Err {E A} (e e' : E) (o : option A) : ok_or e o = Err e' ↔ o = None ∧ e = e'.
Proof. destruct o; simpl; naive_solver. Qed.

Lemma map_err_Ok {E F A} (f : E → F) (r : result E A) a : map_err f r = Ok a ↔ r = Ok a.
Proof. destruct r; simpl; naive_solver. Qed.

(** ** Machine integers

    An unsigned w-bit integer is a [Z] in [0, 2^w); wrapping is written out. *)

Definition u16_max : Z := 2 ^ 16 - 1.
Definition u32_max : Z := 2 ^ 32 - 1.
Definition u64_max : Z := 2 ^ 64 - 1.
Definition usize_max : Z := u64_max.

Definition wrap_u64 (z : Z) : Z := z mod 2 ^ 64.

Definition wrap_i64 (z : Z) : Z := (z + 2 ^ 63) mod 2 ^ 64 - 2 ^ 63.

Lemma wrap_u64_small z : (0 ≤ z ≤ u64_max)%Z → wrap_u64 z = z.
Proof. unfold wrap_u64, u64_max. intros ?. apply Z.mod_small. lia. Qed.

Lemma wrap_u64_range z : (0 ≤ wrap_u64 z ≤ u64_max)%Z.
Proof.
  unfold wrap_u64, u64_max. pose proof (Z.mod_pos_bound z (2 ^ 64)). lia.
Qed.

Lemma wrap_i64_small z : (- 2 ^ 63 ≤ z < 2 ^ 63)%Z → wrap_i64 z = z.
Proof. unfold wrap_i64. intros ?. rewrite Z.mod_small; lia. Qed.

(** ** Automation *)

(** The development's rewrite and resolution hints. *)
Create HintDb server.
Create Rewrite HintDb server.

#[export] Hint Rewrite @length_app @length_map : server.
#[export] Hint Resolve wrap_u64_small wrap_i64_small : server.

(** Opens the existentials and conjunctions of the context. *)
Ltac open_hyps :=
  repeat match goal with
  | H : ∃ _, _ |- _ => destruct H
  | H : _ ∧ _ |- _ => destruct H
  end.

(** Case analysis on the scrutinee of a [match] or [if], remembering the
    equation. *)
Ltac case_scrut :=
  match goal with
  | |- context [match ?x with _ => _ end] =>
      lazymatch x with
      | context [match _ with _ => _ end] => fail
      | _ => destruct x eqn:?
      end
  end.

Ltac case_scrut_in H :=
  match type of H with
  | context [match ?x with _ => _ end] =>
      lazymatch x with
      | context [match _ with _ => _ end] => fail
      | _ => destruct x eqn:?
      end
  end.

(** Follows every branch of a result-valued computation in hypothesis [H],
    discarding the ones that cannot produce the stated value. *)
Ltac result_cases H := repeat (case_scrut_in H; simplify_eq/=).

(** ** Lists and options *)

(** [Iterator::find_map]: the first [Some] the function returns. *)
Fixpoint find_map {A B} (f : A → option B) (l : list A) : option B :=
  match l with
  | [] => None
  | x :: l' => match f x with Some b => Some b | None => find_map f l' end
  end.

(** [Iterator::find]. *)
Fixpoint find_first {A} (p : A → bool) (l : list A) : option A :=
  match l with
  | [] => None
  | x :: l' => if p x then Some x else find_first p l'
  end.

Lemma find_map_app {A B} (f : A → option B) l1 l2 :
  find_map f (l1 ++ l2) =
  match find_map f l1 with Some b => Some b | None => find_map f l2 end.
Proof. induction l1 as [|x l1 IH]; simpl; [done|]. by destruct (f x). Qed.

Lemma find_map_None {A B} (f : A → option B) l :
  find_map f l = None ↔ Forall (λ x, f x = None) l.
Proof.
  induction l as [|x l IH]; simpl; [by split|].
  rewrite Forall_cons, <- IH. destruct (f x); naive_solver.
Qed.

Lemma find_map_Some {A B} (f : A → option B) l b :
  find_map f l = Some b ↔
  ∃ l1 x l2, l = l1 ++ x :: l2 ∧ Forall (λ y, f y = None) l1 ∧ f x = Some b.
Proof.
  split.
  - induction l as [|x l IH]; simpl; [done|]. destruct (f x) eqn:E; intros Hb.
    + exists [], x, l. naive_solver.
    + destruct (IH Hb) as (l1 & y & l2 & -> & HF & Hy).
      exists (x :: l1), y, l2. auto using Forall_cons.
  - intros (l1 & x & l2 & -> & HF & Hx). rewrite find_map_app.
    apply find_map_None in HF. rewrite HF. simpl. by rewrite Hx.
Qed.

Lemma find_map_ext {A B} (f g : A → option B) l :
  (∀ x, f x = g x) → find_map f l = find_map g l.
Proof. intros E. induction l as [|x l IH]; simpl; [done|]. by rewrite E, IH. Qed.

Lemma find_first_Some {A} (p : A → bool) l x :
  find_first p l = Some x ↔
  ∃ l1 l2, l = l1 ++ x :: l2 ∧ Forall (λ y, p y = false) l1 ∧ p x = true.
Proof.
  split.
  - induction l as [|y l IH]; simpl; [done|]. destruct (p y) eqn:E; intros Hx.
    + simplify_eq. by exists [], l.
    + destruct (IH Hx) as (l1 & l2 & -> & HF & Hp).
      exists (y :: l1), l2. auto using Forall_cons.
  - intros (l1 & l2 & -> & HF & Hp). induction HF as [|y l1 Hy _ IH]; simpl.
    + by rewrite Hp.
    + by rewrite Hy.
Qed.

Lemma find_first_app {A} (p : A → bool) l1 l2 :
  find_first p (l1 ++ l2) =
  match find_first p l1 with Some x => Some x | None => find_first p l2 end.
Proof. induction l1 as [|y l1 IH]; simpl; [done|]. by destruct (p y). Qed.

Lemma find_first_None {A} (p : A → bool) l :
  find_first p l = None ↔ Forall (λ y, p y = false) l.
Proof.
  induction l as [|y l IH]; simpl; [by split|].
  rewrite Forall_cons, <- IH. destruct (p y); naive_solver.
Qed.

(** ** Reachability *)

(** States reachable from an initial state by a labelled step relation, with
    the labels of the run in order. *)
Inductive run {S L : Type} (step : S → L → S → Prop) : S → list L → S → Prop :=
| run_nil s : run step s [] s
| run_cons s l s' ls s'' :
    step s l s' → run step s' ls s'' → run step s (l :: ls) s''.

#[export] Hint Constructors run : server.

Lemma run_invariant {S L} (step : S → L → S → Prop) (I : S → Prop) s ls s' :
  (∀ a l b, I a → step a l b → I b) → I s → run step s ls s' → I s'.
Proof. intros Hpres Hs Hrun. induction Hrun; eauto. Qed.

Lemma run_app {S L} (step : S → L → S → Prop) s ls s' ls' s'' :
  run step s ls s' → run step s' ls' s'' → run step s (ls ++ ls') s''.
Proof. intros H. induction H; simpl; eauto with server. Qed.

Lemma run_snoc {S L} (step : S → L → S → Prop) s ls l s'' :
  run step s (ls ++ [l]) s'' ↔ ∃ s', run step s ls s' ∧ step s' l s''.
Proof.
  split.
  - revert s. induction ls as [|k ls IH]; intros s H; inversion H as [|? ? s1 ? ? Hs Hr]; subst.
    + inversion Hr; subst. exists s. split; [constructor|done].
    + apply IH in Hr as (s' & ? & ?). exists s'. split; [by econstructor|done].
  - intros (s' & H & ?). apply (run_app _ _ ls s' [l]); eauto with server.
Qed.

(** Induction on a run from its end, remembering the labels. *)
Lemma run_ind_r {S L} (step : S → L → S → Prop) (s0 : S) (P : list L → S → Prop) :
  P [] s0 →
  (∀ ls s l s', run step s0 ls s → P ls s → step s l s' → P (ls ++ [l]) s') →
  ∀ ls s, run step s0 ls s → P ls s.
Proof.
  intros H0 Hs ls. induction ls as [|l ls IH] using rev_ind; intros s Hr.
  - inversion Hr; by subst.
  - apply run_snoc in Hr as (s' & Hr & Hl). eauto.
Qed.
