(* ===== verification/RustStr.v ===== *)
(** * Rust's [str] and integer parsing

    A Rust [&str], [String], [&[u8]] or [Bytes] is a [string], read as its
    sequence of bytes ([ascii] is an 8-bit byte).  This file holds the standard
    library functions on them that the server calls: [split], [splitn],
    [split_once], [strip_prefix], [trim], [trim_end_matches], [replace],
    [find]/[rfind], [char::to_digit], [str::parse] for unsigned integers,
    [to_string] on them, [from_utf8] and [from_utf8_lossy].  A separator is
    always an ASCII character in the sources, so splitting a UTF-8 text at the
    character is splitting its bytes. *)
From S2P Require Import Prelude.
Local Open Scope Z_scope.

(** ** Bytes *)

Definition code (c : ascii) : Z := Z.of_N (Ascii.N_of_ascii c).

Definition byte_of (z : Z) : ascii := Ascii.ascii_of_N (Z.to_N z).

Definition byte_in (lo hi : Z) (c : ascii) : bool :=
  (lo <=? code c)%Z && (code c <=? hi)%Z.

(** [char::to_digit], for a radix of at most 36. *)
Definition to_digit (radix : Z) (c : ascii) : option Z :=
  let d :=
    if byte_in 48 57 c then code c - 48
    else if byte_in 97 122 c then code c - 87
    else if byte_in 65 90 c then code c - 55
    else radix in
  if (d <? radix)%Z then Some d else None.

(** ** Searching and cutting *)

Fixpoint str_forall (p : ascii → bool) (s : string) : bool :=
  match s with
  | "" => true
  | String c s' => p c && str_forall p s'
  end.

(** [str::split(char)]: always at least one piece, empty pieces kept. *)
Fixpoint split (sep : ascii) (s : string) : list string :=
  match s with
  | "" => [""]
  | String c s' =>
      if Ascii.eqb c sep then "" :: split sep s'
      else match split sep s' with
           | h :: t => String c h :: t
           | [] => [String c ""]
           end
  end.

(** A text with its final newline. *)
Definition line (s : string) : string := s +:+ String "010" "".

(** [[T]::join]. *)
Definition join (sep : string) (l : list string) : string := String.concat sep l.

(** [str::split_once(char)]. *)
Fixpoint split_once (sep : ascii) (s : string) : option (string * string) :=
  match s with
  | "" => None
  | String c s' =>
      if Ascii.eqb c sep then Some ("", s')
      else match split_once sep s' with
           | Some (k, v) => Some (String c k, v)
           | None => None
           end
  end.

(** The two calls to [next] on [str::splitn(2, char)]: the first piece, always
    there, and the rest of the text after the first separator. *)
Definition splitn2 (sep : ascii) (s : string) : string * option string :=
  match split_once sep s with
  | Some (k, v) => (k, Some v)
  | None => (s, None)
  end.

(** [str::strip_prefix]. *)
Fixpoint strip_prefix (p s : string) : option string :=
  match p, s with
  | "", _ => Some s
  | String a p', String b s' => if Ascii.eqb a b then strip_prefix p' s' else None
  | String _ _, "" => None
  end.

Definition starts_with (p s : string) : bool :=
  match strip_prefix p s with Some _ => true | None => false end.

(** [str::replace(char, &str)]. *)
Fixpoint replace (from : ascii) (to : string) (s : string) : string :=
  match s with
  | "" => ""
  | String c s' =>
      if Ascii.eqb c from then to +:+ replace from to s'
      else String c (replace from to s')
  end.

Fixpoint rev_append_str (s acc : string) : string :=
  match s with
  | "" => acc
  | String c s' => rev_append_str s' (String c acc)
  end.

Definition str_rev (s : string) : string := rev_append_str s "".

Fixpoint drop_while (p : ascii → bool) (s : string) : string :=
  match s with
  | "" => ""
  | String c s' => if p c then drop_while p s' else s
  end.

(** [str::trim_end_matches(char)]. *)
Definition trim_end_matches (c : ascii) (s : string) : string :=
  str_rev (drop_while (Ascii.eqb c) (str_rev s)).

(** [&s[..i]] for the index [i] of the first occurrence [str::find] returns,
    with the occurrence kept ([..=i]) or not. *)
Fixpoint upto_first (c : ascii) (s : string) : option string :=
  match s with
  | "" => None
  | String a s' =>
      if Ascii.eqb a c then Some (String a "")
      else String a <$> upto_first c s'
  end.

(** [&s[..i]] for the index [str::rfind] returns. *)
Fixpoint before_last (c : ascii) (s : string) : option string :=
  match s with
  | "" => None
  | String a s' =>
      match before_last c s' with
      | Some t => Some (String a t)
      | None => if Ascii.eqb a c then Some "" else None
      end
  end.

(** ** [str::trim]

    The characters of Unicode's White_Space property, by their UTF-8 bytes. *)

Definition is_ws1 (a : ascii) : bool := byte_in 9 13 a || (code a =? 32)%Z.

Definition is_ws2 (a b : ascii) : bool :=
  (code a =? 0xC2)%Z && ((code b =? 0x85)%Z || (code b =? 0xA0)%Z).

Definition is_ws3 (a b c : ascii) : bool :=
  ((code a =? 0xE1) && (code b =? 0x9A) && (code c =? 0x80))%Z
  || ((code a =? 0xE2)%Z && (code b =? 0x80)%Z
      && (byte_in 0x80 0x8A c || (code c =? 0xA8)%Z || (code c =? 0xA9)%Z || (code c =? 0xAF)%Z))
  || ((code a =? 0xE2) && (code b =? 0x81) && (code c =? 0x9F))%Z
  || ((code a =? 0xE3) && (code b =? 0x80) && (code c =? 0x80))%Z.

Fixpoint trim_start (s : string) : string :=
  match s with
  | "" => ""
  | String a s1 =>
      if is_ws1 a then trim_start s1
      else match s1 with
           | String b s2 =>
               if is_ws2 a b then trim_start s2
               else match s2 with
                    | String c s3 => if is_ws3 a b c then trim_start s3 else s
                    | "" => s
                    end
           | "" => s
           end
  end.

(** The same on a reversed text, whose characters read back to front. *)
Fixpoint trim_start_rev (s : string) : string :=
  match s with
  | "" => ""
  | String a s1 =>
      if is_ws1 a then trim_start_rev s1
      else match s1 with
           | String b s2 =>
               if is_ws2 b a then trim_start_rev s2
               else match s2 with
                    | String c s3 => if is_ws3 c b a then trim_start_rev s3 else s
                    | "" => s
                    end
           | "" => s
           end
  end.

Definition trim (s : string) : string :=
  str_rev (trim_start_rev (str_rev (trim_start s))).

(** ** Unsigned integers *)

(** The digit loop of [from_str_radix(10)]: [checked_mul], then [checked_add]. *)
Fixpoint parse_digits (max acc : Z) (s : string) : option Z :=
  match s with
  | "" => Some acc
  | String c s' =>
      match to_digit 10 c with
      | None => None
      | Some d =>
          if (max <? acc * 10)%Z then None
          else if (max <? acc * 10 + d)%Z then None
          else parse_digits max (acc * 10 + d) s'
      end
  end.

(** [str::parse::<uN>] where [max] is [uN::MAX]: an empty text and a lone sign
    are errors, one leading plus sign is accepted. *)
Definition parse_uint (max : Z) (s : string) : option Z :=
  match s with
  | "" => None
  | String c s' =>
      if (Ascii.eqb c "+" || Ascii.eqb c "-") && String.eqb s' "" then None
      else if Ascii.eqb c "+" then parse_digits max 0 s'
      else parse_digits max 0 s
  end.

(** [uN::to_string]; [Z.log2 n + 1] bounds the number of decimal digits. *)
Fixpoint show_digits (fuel : nat) (n : Z) (acc : string) : string :=
  match fuel with
  | O => acc
  | S fuel' =>
      let acc' := String (byte_of (48 + n mod 10)) acc in
      if (n <? 10)%Z then acc' else show_digits fuel' (n / 10) acc'
  end.

Definition show_uint (n : Z) : string :=
  show_digits (S (Z.to_nat (Z.log2 n))) n "".

(** ** UTF-8 *)

(** One step of the standard library's UTF-8 decoder: a well-formed character
    (its bytes) or a maximal ill-formed subsequence, and the rest. *)
Inductive chunk : Type :=
| Good (c : string)
| Bad.

Definition cont (c : ascii) : bool := byte_in 0x80 0xBF c.

(** The second byte a three-byte lead accepts. *)
Definition ok3 (a b : ascii) : bool :=
  ((code a =? 0xE0)%Z && byte_in 0xA0 0xBF b)
  || (byte_in 0xE1 0xEC a && cont b)
  || ((code a =? 0xED)%Z && byte_in 0x80 0x9F b)
  || (byte_in 0xEE 0xEF a && cont b).

(** The second byte a four-byte lead accepts. *)
Definition ok4 (a b : ascii) : bool :=
  ((code a =? 0xF0)%Z && byte_in 0x90 0xBF b)
  || (byte_in 0xF1 0xF3 a && cont b)
  || ((code a =? 0xF4)%Z && byte_in 0x80 0x8F b).

Definition utf8_next (s : string) : option (chunk * string) :=
  match s with
  | "" => None
  | String a s1 =>
      Some (
        if (code a <? 0x80)%Z then (Good (String a ""), s1)
        else if byte_in 0xC2 0xDF a then
          match s1 with
          | String b s2 =>
              if cont b then (Good (String a (String b "")), s2) else (Bad, s1)
          | "" => (Bad, s1)
          end
        else if byte_in 0xE0 0xEF a then
          match s1 with
          | String b s2 =>
              if ok3 a b then
                match s2 with
                | String c s3 =>
                    if cont c then (Good (String a (String b (String c ""))), s3)
                    else (Bad, s2)
                | "" => (Bad, s2)
                end
              else (Bad, s1)
          | "" => (Bad, s1)
          end
        else if byte_in 0xF0 0xF4 a then
          match s1 with
          | String b s2 =>
              if ok4 a b then
                match s2 with
                | String c s3 =>
                    if cont c then
                      match s3 with
                      | String d s4 =>
                          if cont d
                          then (Good (String a (String b (String c (String d "")))), s4)
                          else (Bad, s3)
                      | "" => (Bad, s3)
                      end
                    else (Bad, s2)
                | "" => (Bad, s2)
                end
              else (Bad, s1)
          | "" => (Bad, s1)
          end
        else (Bad, s1))
  end.

Fixpoint utf8_chunks_fuel (n : nat) (s : string) : list chunk :=
  match n with
  | O => []
  | S n' =>
      match utf8_next s with
      | None => []
      | Some (c, rest) => c :: utf8_chunks_fuel n' rest
      end
  end.

(** Every step consumes a byte, so the length is fuel enough. *)
Definition utf8_chunks (s : string) : list chunk :=
  utf8_chunks_fuel (String.length s) s.

Definition is_good (c : chunk) : bool :=
  match c with Good _ => true | Bad => false end.

(** [std::str::from_utf8(s).is_ok()]. *)
Definition utf8_valid (s : string) : bool := forallb is_good (utf8_chunks s).

(** U+FFFD REPLACEMENT CHARACTER. *)
Definition replacement : string :=
  String (byte_of 0xEF) (String (byte_of 0xBF) (String (byte_of 0xBD) "")).

Definition chunk_text (c : chunk) : string :=
  match c with Good g => g | Bad => replacement end.

Definition concat_str (l : list string) : string := join "" l.

(** [String::from_utf8_lossy]. *)
Definition from_utf8_lossy (s : string) : string :=
  concat_str (chunk_text <$> utf8_chunks s).

(** [String::from_utf8] and [std::str::from_utf8]. *)
Definition from_utf8 (s : string) : option string :=
  if utf8_valid s then Some s else None.

(** ** Lemmas on bytes and text *)

Lemma code_range c : 0 ≤ code c < 256.
Proof. unfold code. pose proof (Ascii.N_ascii_bounded c). lia. Qed.

Lemma code_byte_of z : 0 ≤ z < 256 → code (byte_of z) = z.
Proof.
  intros H. unfold code, byte_of. rewrite Ascii.N_ascii_embedding; lia.
Qed.

Lemma byte_of_code c : byte_of (code c) = c.
Proof. unfold code, byte_of. by rewrite N2Z.id, Ascii.ascii_N_embedding. Qed.

Lemma byte_in_spec lo hi c : byte_in lo hi c = true ↔ lo ≤ code c ≤ hi.
Proof. unfold byte_in. lia. Qed.

Lemma eqb_code a b : Ascii.eqb a b = (code a =? code b).
Proof.
  destruct (Ascii.eqb_spec a b) as [->|Hne]; [lia|].
  symmetry. apply Z.eqb_neq. intros E. apply Hne.
  rewrite <- (byte_of_code a), <- (byte_of_code b). by rewrite E.
Qed.

(** Evaluates the codes of literal characters. *)
Ltac eval_code :=
  repeat match goal with
  | |- context [code ?c] =>
      lazymatch c with
      | Ascii _ _ _ _ _ _ _ _ =>
          let v := eval vm_compute in (code c) in change (code c) with v
      end
  end.

Lemma append_assoc s t u : (s +:+ t) +:+ u = s +:+ (t +:+ u).
Proof. induction s; simpl; congruence. Qed.

Lemma append_nil_r s : s +:+ "" = s.
Proof. induction s; simpl; congruence. Qed.

Lemma length_append s t :
  String.length (s +:+ t) = (String.length s + String.length t)%nat.
Proof. induction s; simpl; lia. Qed.

#[export] Hint Rewrite append_assoc append_nil_r length_append : server.

Lemma str_forall_app p s t :
  str_forall p (s +:+ t) = str_forall p s && str_forall p t.
Proof. induction s; simpl; [done|]. by rewrite IHs, andb_assoc. Qed.

Lemma str_forall_impl (p q : ascii → bool) s :
  (∀ c, p c = true → q c = true) → str_forall p s = true → str_forall q s = true.
Proof.
  intros Hpq. induction s as [|c s IH]; simpl; [done|].
  rewrite !andb_true_iff. naive_solver.
Qed.

(** ** Lemmas on splitting *)

(** No byte of the text is the separator. *)
Definition no_char (sep : ascii) : string → bool :=
  str_forall (λ c, negb (Ascii.eqb c sep)).

Lemma split_cons sep s : ∃ h t, split sep s = h :: t.
Proof.
  induction s as [|c s (h & t & E)]; simpl; [eauto|].
  rewrite E. destruct (Ascii.eqb c sep); eauto.
Qed.

Lemma split_pieces sep s : Forall (λ p, no_char sep p = true) (split sep s).
Proof.
  induction s as [|c s IH]; simpl; [repeat constructor|].
  destruct (Ascii.eqb c sep) eqn:E; [by constructor|].
  destruct (split_cons sep s) as (h & t & Es). rewrite Es in *.
  inversion_clear IH. constructor; [|done]. unfold no_char in *. simpl.
  by rewrite E.
Qed.

Lemma join_cons sep x y l :
  join sep (x :: y :: l) = x +:+ (sep +:+ join sep (y :: l)).
Proof. done. Qed.

Lemma join_singleton sep x : join sep [x] = x.
Proof. done. Qed.

(** Joining the pieces with the separator gives the text back. *)
Lemma join_split sep s : join (String sep "") (split sep s) = s.
Proof.
  induction s as [|c s IH]; [done|]. simpl split.
  destruct (split_cons sep s) as (h & t & Es). rewrite Es in *.
  destruct (Ascii.eqb_spec c sep) as [->|_].
  - rewrite join_cons, IH. done.
  - destruct t as [|u t].
    + rewrite !join_singleton in *. by subst.
    + rewrite join_cons in *. simpl. by rewrite <- IH.
Qed.

Lemma split_no_sep sep s : no_char sep s = true → split sep s = [s].
Proof.
  unfold no_char. induction s as [|c s IH]; simpl; [done|].
  rewrite andb_true_iff, negb_true_iff. intros [-> H]. by rewrite IH.
Qed.

Lemma split_app sep p s :
  no_char sep p = true → split sep (p +:+ String sep s) = p :: split sep s.
Proof.
  unfold no_char. induction p as [|c p IH]; simpl.
  - intros _. by rewrite Ascii.eqb_refl.
  - rewrite andb_true_iff, negb_true_iff. intros [-> H]. by rewrite IH.
Qed.

(** Splitting a joined list of separator-free pieces gives the list back. *)
Lemma split_join sep l :
  l ≠ [] → Forall (λ p, no_char sep p = true) l →
  split sep (join (String sep "") l) = l.
Proof.
  intros Hne HF. induction HF as [|x l Hx HF IH]; [done|].
  destruct l as [|y l].
  - rewrite join_singleton. by apply split_no_sep.
  - rewrite join_cons. change (String sep "" +:+ ?t) with (String sep t).
    rewrite split_app by done. by rewrite IH.
Qed.

Lemma split_once_app sep k v :
  no_char sep k = true → split_once sep (k +:+ String sep v) = Some (k, v).
Proof.
  unfold no_char. induction k as [|c k IH]; simpl.
  - intros _. by rewrite Ascii.eqb_refl.
  - rewrite andb_true_iff, negb_true_iff. intros [-> H]. by rewrite IH.
Qed.

Lemma split_once_Some sep s k v :
  split_once sep s = Some (k, v) ↔ s = k +:+ String sep v ∧ no_char sep k = true.
Proof.
  split; [|intros [-> ?]; by apply split_once_app].
  revert k v. induction s as [|c s IH]; simpl; [done|]. intros k v.
  destruct (Ascii.eqb_spec c sep) as [->|Hne].
  - intros [= <- <-]. done.
  - destruct (split_once sep s) as [[k' v']|] eqn:E; [|done]. intros [= <- <-].
    destruct (IH k' v' eq_refl) as [-> Hk]. split; [done|].
    unfold no_char in *. simpl. rewrite Hk, (proj2 (Ascii.eqb_neq _ _) Hne). done.
Qed.

Lemma split_once_None sep s : split_once sep s = None ↔ no_char sep s = true.
Proof.
  unfold no_char. induction s as [|c s IH]; simpl; [done|].
  destruct (Ascii.eqb c sep); simpl; [done|].
  rewrite <- IH. destruct (split_once sep s) as [[]|]; done.
Qed.

Lemma strip_prefix_app p s : strip_prefix p (p +:+ s) = Some s.
Proof. induction p; simpl; [done|]. by rewrite Ascii.eqb_refl. Qed.

Lemma strip_prefix_Some p s t : strip_prefix p s = Some t ↔ s = p +:+ t.
Proof.
  split; [|intros ->; apply strip_prefix_app].
  revert s. induction p as [|a p IH]; intros [|b s]; simpl; try congruence.
  destruct (Ascii.eqb_spec a b) as [->|]; [|done]. intros H. f_equal. auto.
Qed.

Lemma replace_no_char from to s : no_char from s = true → replace from to s = s.
Proof.
  unfold no_char. induction s as [|c s IH]; simpl; [done|].
  rewrite andb_true_iff, negb_true_iff. intros [-> H]. by rewrite IH.
Qed.

Lemma rev_append_str_app s t acc :
  rev_append_str (s +:+ t) acc = rev_append_str t (rev_append_str s acc).
Proof. revert acc. induction s; simpl; [done|]. auto. Qed.

Lemma rev_append_str_spec s acc : rev_append_str s acc = str_rev s +:+ acc.
Proof.
  unfold str_rev. revert acc. induction s as [|c s IH]; intros acc; [done|]. simpl.
  rewrite IH, (IH (String c "")). by rewrite append_assoc.
Qed.

Lemma str_rev_app s t : str_rev (s +:+ t) = str_rev t +:+ str_rev s.
Proof. unfold str_rev. by rewrite rev_append_str_app, rev_append_str_spec. Qed.

Lemma str_rev_involutive s : str_rev (str_rev s) = s.
Proof.
  induction s as [|c s IH]; [done|].
  change (String c s) with (String c "" +:+ s). by rewrite !str_rev_app, IH.
Qed.

(** ** Lemmas on decimal integers *)

Definition is_digit (c : ascii) : bool := byte_in 48 57 c.

Lemma to_digit_range r c d : to_digit r c = Some d → 0 ≤ d < r.
Proof.
  unfold to_digit. cbv zeta.
  destruct (byte_in 48 57 c) eqn:E1; [|destruct (byte_in 97 122 c) eqn:E2;
    [|destruct (byte_in 65 90 c) eqn:E3]];
  rewrite ?byte_in_spec in *; case_match; intros; simplify_eq; lia.
Qed.

Lemma to_digit10_byte d : 0 ≤ d < 10 → to_digit 10 (byte_of (48 + d)) = Some d.
Proof.
  intros H. unfold to_digit, byte_in. rewrite code_byte_of by lia.
  repeat case_match; f_equal; lia.
Qed.

Lemma show_digits_digits fuel n acc :
  0 ≤ n → str_forall is_digit acc = true →
  str_forall is_digit (show_digits fuel n acc) = true.
Proof.
  revert n acc. induction fuel as [|fuel IH]; intros n acc Hn Hacc; [done|].
  pose proof (Z.mod_pos_bound n 10).
  assert (Hd : str_forall is_digit (String (byte_of (48 + n mod 10)) acc) = true).
  { simpl. rewrite Hacc, andb_true_r. apply byte_in_spec. rewrite code_byte_of; lia. }
  cbn [show_digits]. destruct (n <? 10); [done|]. apply IH; [|done].
  apply Z.div_pos; lia.
Qed.

Lemma parse_show_digits fuel n acc M :
  0 ≤ n < 10 ^ Z.of_nat fuel → n ≤ M → fuel ≠ O →
  parse_digits M 0 (show_digits fuel n acc) = parse_digits M n acc.
Proof.
  revert n acc. induction fuel as [|fuel IH]; intros n acc [Hn Hlt] HM Hf; [done|].
  pose proof (Z.mod_pos_bound n 10). pose proof (Z.div_mod n 10).
  assert (Hstep : ∀ a, a * 10 + n mod 10 = n →
    parse_digits M a (String (byte_of (48 + n mod 10)) acc) = parse_digits M n acc).
  { intros a Ha. cbn [parse_digits]. rewrite to_digit10_byte by lia.
    rewrite Ha. destruct (M <? a * 10) eqn:?; [lia|]. destruct (M <? n) eqn:?; [lia|done]. }
  cbn [show_digits]. destruct (n <? 10) eqn:E.
  - apply Hstep. rewrite Z.mod_small; lia.
  - assert (n / 10 < 10 ^ Z.of_nat fuel).
    { apply Z.div_lt_upper_bound; [lia|]. rewrite <- Z.pow_succ_r by lia.
      by rewrite <- Nat2Z.inj_succ. }
    rewrite IH; [apply Hstep; lia| |lia|].
    + split; [apply Z.div_pos; lia|done].
    + intros ->. simpl in *. lia.
Qed.

Lemma show_uint_digits n : 0 ≤ n → str_forall is_digit (show_uint n) = true.
Proof. intros H. by apply show_digits_digits. Qed.

Lemma show_digits_length fuel n acc :
  fuel ≠ O → (String.length acc < String.length (show_digits fuel n acc))%nat.
Proof.
  revert n acc. induction fuel as [|fuel IH]; intros n acc Hf; [done|].
  cbn [show_digits]. destruct (n <? 10); [simpl; lia|].
  destruct fuel; [simpl; lia|].
  specialize (IH (n / 10) (String (byte_of (48 + n mod 10)) acc) ltac:(done)).
  cbn [String.length] in IH. lia.
Qed.

Lemma parse_digits_show M n : 0 ≤ n ≤ M → parse_digits M 0 (show_uint n) = Some n.
Proof.
  intros H. unfold show_uint. rewrite parse_show_digits; [done| |lia|done].
  split; [lia|]. rewrite Nat2Z.inj_succ, Z2Nat.id by apply Z.log2_nonneg.
  destruct (Z.eq_dec n 0) as [->|]; [done|].
  apply Z.lt_le_trans with (2 ^ Z.succ (Z.log2 n)); [apply Z.log2_spec; lia|].
  apply Z.pow_le_mono_l. lia.
Qed.

(** [n.to_string().parse() == Ok(n)], at every width. *)
Lemma parse_show_uint M n : 0 ≤ n ≤ M → parse_uint M (show_uint n) = Some n.
Proof.
  intros H. pose proof (parse_digits_show M n H) as Hp.
  pose proof (show_uint_digits n ltac:(lia)) as Hd.
  assert (String.length (show_uint n) ≠ 0%nat).
  { pose proof (show_digits_length (S (Z.to_nat (Z.log2 n))) n "" ltac:(done)).
    unfold show_uint. simpl in *. lia. }
  unfold parse_uint. destruct (show_uint n) as [|c s]; [done|].
  simpl in Hd. apply andb_true_iff in Hd as [Hc _]. apply byte_in_spec in Hc.
  assert (Ascii.eqb c "+" = false) as -> by (rewrite eqb_code; eval_code; lia).
  assert (Ascii.eqb c "-" = false) as -> by (rewrite eqb_code; eval_code; lia).
  done.
Qed.

Lemma parse_digits_bound M acc s n :
  0 ≤ acc ≤ M → parse_digits M acc s = Some n → 0 ≤ n ≤ M.
Proof.
  revert acc. induction s as [|c s IH]; intros acc Ha; cbn [parse_digits].
  { intros [= ->]. lia. }
  destruct (to_digit 10 c) as [d|] eqn:Hd; [|done].
  destruct (M <? acc * 10) eqn:?; [done|].
  destruct (M <? acc * 10 + d) eqn:?; [done|]. apply IH.
  apply to_digit_range in Hd. lia.
Qed.

Lemma parse_uint_bound M s n : 0 ≤ M → parse_uint M s = Some n → 0 ≤ n ≤ M.
Proof.
  intros HM. unfold parse_uint. intros H. repeat case_match; try done;
    (eapply parse_digits_bound; [|done]); lia.
Qed.

Lemma show_uint_inj M n m :
  0 ≤ n ≤ M → 0 ≤ m ≤ M → show_uint n = show_uint m → n = m.
Proof.
  intros Hn Hm E. apply parse_digits_show in Hn, Hm. congruence.
Qed.

(** ** Lemmas on UTF-8 *)

Lemma utf8_next_shorter s c rest :
  utf8_next s = Some (c, rest) → (String.length rest < String.length s)%nat.
Proof.
  unfold utf8_next. intros H. result_cases H; simpl; lia.
Qed.

Lemma utf8_chunks_fuel_enough n m s :
  (String.length s ≤ n)%nat → (String.length s ≤ m)%nat →
  utf8_chunks_fuel n s = utf8_chunks_fuel m s.
Proof.
  revert m s. induction n as [|n IH]; intros m s Hn Hm.
  - destruct s; [|simpl in Hn; lia]. by destruct m.
  - destruct m as [|m]; [destruct s; [done|simpl in Hm; lia]|].
    simpl. destruct (utf8_next s) as [[c rest]|] eqn:E; [|done].
    apply utf8_next_shorter in E. f_equal. apply IH; lia.
Qed.

(** The decoder's defining equation, free of fuel. *)
Lemma utf8_chunks_unfold s :
  utf8_chunks s =
  match utf8_next s with None => [] | Some (c, rest) => c :: utf8_chunks rest end.
Proof.
  unfold utf8_chunks at 1. destruct s as [|a s]; [done|].
  cbn [String.length utf8_chunks_fuel].
  destruct (utf8_next (String a s)) as [[c rest]|] eqn:E; [|done].
  apply utf8_next_shorter in E. f_equal. simpl in E.
  apply utf8_chunks_fuel_enough; lia.
Qed.

Lemma utf8_next_good s g rest :
  utf8_next s = Some (Good g, rest) → s = g +:+ rest.
Proof. unfold utf8_next. intros H. result_cases H; done. Qed.

(** What follows a well-formed character does not change how it is read. *)
Lemma utf8_next_good_app s g rest t :
  utf8_next s = Some (Good g, rest) → utf8_next (s +:+ t) = Some (Good g, rest +:+ t).
Proof. unfold utf8_next. intros H. result_cases H; simpl; repeat case_match; congruence. Qed.

Lemma utf8_next_good_self s g rest :
  utf8_next s = Some (Good g, rest) → utf8_next g = Some (Good g, "").
Proof. unfold utf8_next. intros H. result_cases H; simpl; repeat case_match; congruence. Qed.

Lemma utf8_valid_unfold s :
  utf8_valid s =
  match utf8_next s with
  | None => true
  | Some (Good _, rest) => utf8_valid rest
  | Some (Bad, _) => false
  end.
Proof.
  unfold utf8_valid. rewrite utf8_chunks_unfold.
  by destruct (utf8_next s) as [[[g|] rest]|].
Qed.

Lemma string_length_ind (P : string → Prop) :
  (∀ s, (∀ t, (String.length t < String.length s)%nat → P t) → P s) → ∀ s, P s.
Proof.
  intros H s. induction s as [s IH] using (induction_ltof1 _ String.length). apply H, IH.
Qed.

Lemma utf8_valid_app s t :
  utf8_valid s = true → utf8_valid (s +:+ t) = utf8_valid t.
Proof.
  induction s as [s IH] using string_length_ind. intros Hs.
  rewrite utf8_valid_unfold in Hs.
  destruct (utf8_next s) as [[[g|] rest]|] eqn:E; [|done|].
  - rewrite utf8_valid_unfold, (utf8_next_good_app _ _ _ t E).
    apply IH; [by eapply utf8_next_shorter|done].
  - by destruct s.
Qed.

Lemma concat_str_cons x l : concat_str (x :: l) = x +:+ concat_str l.
Proof. destruct l; [symmetry; apply append_nil_r|done]. Qed.

Lemma from_utf8_lossy_unfold s :
  from_utf8_lossy s =
  match utf8_next s with
  | None => ""
  | Some (c, rest) => chunk_text c +:+ from_utf8_lossy rest
  end.
Proof.
  unfold from_utf8_lossy. rewrite utf8_chunks_unfold.
  destruct (utf8_next s) as [[c rest]|]; [|done].
  rewrite fmap_cons. apply concat_str_cons.
Qed.

Lemma from_utf8_lossy_valid s : utf8_valid s = true → from_utf8_lossy s = s.
Proof.
  induction s as [s IH] using string_length_ind. intros Hs.
  rewrite utf8_valid_unfold in Hs. rewrite from_utf8_lossy_unfold.
  destruct (utf8_next s) as [[[g|] rest]|] eqn:E; [|done|by destruct s].
  rewrite IH; [|by eapply utf8_next_shorter|done]. simpl.
  symmetry. by apply utf8_next_good.
Qed.

(** The lossy decoder always produces a well-formed [String]. *)
Lemma utf8_valid_lossy s : utf8_valid (from_utf8_lossy s) = true.
Proof.
  induction s as [s IH] using string_length_ind. rewrite from_utf8_lossy_unfold.
  destruct (utf8_next s) as [[c rest]|] eqn:E; [|done].
  rewrite utf8_valid_app; [apply IH; by eapply utf8_next_shorter|].
  destruct c as [g|]; [|done]. simpl.
  rewrite utf8_valid_unfold, (utf8_next_good_self _ _ _ E). done.
Qed.

Definition is_ascii (c : ascii) : bool := code c <? 0x80.

Lemma utf8_valid_ascii s : str_forall is_ascii s = true → utf8_valid s = true.
Proof.
  unfold is_ascii. induction s as [|c s IH]; [done|]. simpl.
  rewrite andb_true_iff. intros [Hc Hs]. rewrite utf8_valid_unfold. simpl.
  rewrite Hc. auto.
Qed.
