(* ===== verification/HttpTypes.v ===== *)
(** * The [http] crate's data

    [Method], [Uri], [HeaderMap] and [Response] come from the [http] crate that
    hyper re-exports.  The data is written out here: a header map is the list of
    its fields in insertion order, names in lower case, repeated names allowed.
    What the crate decides about texts (which are header names and values) is
    the interface [HttpCrate]: the development is proved against its documented
    laws, and [http_crate_ascii] is one implementation of them. *)
From S2P Require Import Prelude RustStr.
Local Open Scope Z_scope.

(** ** Header names and values *)

(** The visible ASCII bytes, 32 to 126. *)
Definition visible (c : ascii) : bool := byte_in 32 126 c.

(** The bytes of the header names the server writes: lower-case letters, digits
    and the hyphen. *)
Definition name_byte (c : ascii) : bool :=
  byte_in 97 122 c || is_digit c || Ascii.eqb c "-".

Definition name_ok (n : string) : bool :=
  str_forall name_byte n && negb (String.eqb n "").

Definition ascii_lower (c : ascii) : ascii :=
  if byte_in 65 90 c then byte_of (code c + 32) else c.

Fixpoint str_map (f : ascii → ascii) (s : string) : string :=
  match s with
  | "" => ""
  | String c s' => String (f c) (str_map f s')
  end.

Class HttpCrate : Type := {
  (** [HeaderName::try_from]: the normalised name, or an error. *)
  hn_parse : string → option string;
  (** [HeaderValue::from_str] and [HeaderValue::try_from] succeed. *)
  hv_valid : string → bool;
  (** [HeaderValue::to_str] succeeds. *)
  hv_to_str_ok : string → bool;
  hn_parse_folds : ∀ n, name_ok (str_map ascii_lower n) = true →
    hn_parse n = Some (str_map ascii_lower n);
  hv_valid_visible : ∀ v, str_forall visible v = true → hv_valid v = true;
  hv_to_str_visible : ∀ v, str_forall visible v = true → hv_to_str_ok v = true;
  hv_to_str_valid : ∀ v, hv_to_str_ok v = true → hv_valid v = true;
  hv_to_str_app : ∀ v w, hv_to_str_ok v = true → hv_to_str_ok w = true →
    hv_to_str_ok (v +:+ w) = true;
  hv_to_str_utf8 : ∀ v, hv_to_str_ok v = true → utf8_valid v = true;
}.

Lemma name_byte_lower c : name_byte c = true → ascii_lower c = c.
Proof.
  unfold name_byte, ascii_lower, is_digit. rewrite eqb_code. eval_code. unfold byte_in. intros H.
  assert ((65 <=? code c) && (code c <=? 90) = false) as ->; [|done]. lia.
Qed.

Lemma name_ok_lower n : name_ok n = true → str_map ascii_lower n = n.
Proof.
  unfold name_ok. intros [Hn _]%andb_true_iff. induction n as [|c n IH]; simpl in *; [done|].
  apply andb_true_iff in Hn as [Hc Hn]. by rewrite name_byte_lower, IH.
Qed.

Lemma hn_parse_lower `{HttpCrate} n : name_ok n = true → hn_parse n = Some n.
Proof. intros Hn. rewrite hn_parse_folds; rewrite (name_ok_lower n) by done; done. Qed.

Abbreviation HeaderMap := (list (string * string)).

(** [HeaderMap::get]: the first value of the name. *)
Definition header_get (m : HeaderMap) (name : string) : option string :=
  snd <$> find_first (λ kv, String.eqb kv.1 name) m.

(** [HeaderMap::get_all]. *)
Definition header_get_all (m : HeaderMap) (name : string) : list string :=
  snd <$> filter (λ kv, kv.1 = name) m.

(** [HeaderMap::append]. *)
Definition header_append (m : HeaderMap) (name value : string) : HeaderMap :=
  m ++ [(name, value)].

(** [HeaderMap::insert]: the new value replaces every earlier one; the field
    keeps the place of the first of them, or is added at the end. *)
Fixpoint header_insert (m : HeaderMap) (name value : string) : HeaderMap :=
  match m with
  | [] => [(name, value)]
  | kv :: m' =>
      if String.eqb kv.1 name
      then (name, value) :: filter (λ kv', kv'.1 ≠ name) m'
      else kv :: header_insert m' name value
  end.

(** ** Requests and responses *)

Record Uri : Type := mkUri {
  uri_path : string;
  uri_query : option string;
}.

(** [http::request::Parts]. *)
Record Parts : Type := mkParts {
  p_method : string;
  p_uri : Uri;
  p_headers : HeaderMap;
}.

(** A [BoxBody<Bytes, Infallible>]: one buffer, or the data frames of a
    stream. *)
Inductive HttpBody : Type :=
| FullBody (b : string)
| StreamBody (frames : list string).

(** What a reader of the body collects. *)
Definition body_bytes (b : HttpBody) : string :=
  match b with
  | FullBody s => s
  | StreamBody fs => concat_str fs
  end.

(** [http::Response<HttpBody>]. *)
Record HttpResponse : Type := mkResponse {
  status : Z;
  headers : HeaderMap;
  body : HttpBody;
}.

(** [http::response::Builder]: the parts so far, or the first error. *)
Definition Builder : Type := option (Z * HeaderMap).

Definition builder_status (st : Z) : Builder := Some (st, []).

(** [Builder::header] appends; it never replaces an earlier field. *)
Definition builder_header `{HttpCrate} (b : Builder) (name value : string) : Builder :=
  match b with
  | None => None
  | Some (st, hs) =>
      match hn_parse name with
      | Some n => if hv_valid value then Some (st, header_append hs n value) else None
      | None => None
      end
  end.

(** [Builder::body]. *)
Definition builder_body (b : Builder) (bd : HttpBody) : option HttpResponse :=
  match b with
  | Some (st, hs) => Some (mkResponse st hs bd)
  | None => None
  end.

(** [Response::new]: status 200 and no headers. *)
Definition response_new (bd : HttpBody) : HttpResponse := mkResponse 200 [] bd.

(** ** An implementation of the interface

    Names are RFC 9110 tokens folded to lower case; a value is any byte from 32
    on but DEL, or a tab; [to_str] wants visible ASCII or tabs. *)

(** The token punctuation [!#$%&'*+-.^_`|~]. *)
Definition is_tchar (c : ascii) : bool :=
  is_digit c || byte_in 65 90 c || byte_in 94 122 c
  || bool_decide (code c ∈ [33; 35; 36; 37; 38; 39; 42; 43; 45; 46; 124; 126]).

Definition token_parse (n : string) : option string :=
  if str_forall is_tchar n && negb (String.eqb n "")
  then Some (str_map ascii_lower n) else None.

Definition value_byte (c : ascii) : bool :=
  ((32 <=? code c) && negb (code c =? 127)) || (code c =? 9).

Definition to_str_byte (c : ascii) : bool := visible c || (code c =? 9).

Lemma name_byte_tchar c : name_byte (ascii_lower c) = true → is_tchar c = true.
Proof.
  unfold name_byte, ascii_lower, is_tchar, is_digit. pose proof (code_range c).
  destruct (byte_in 65 90 c) eqn:E; [intros _; by rewrite !orb_true_r|].
  rewrite eqb_code. eval_code. unfold byte_in in *. intros Hb.
  destruct (decide (code c = 45)) as [E'|]; [rewrite E'; reflexivity|].
  rewrite !orb_true_iff in *. left. lia.
Qed.

Program Definition http_crate_ascii : HttpCrate := {|
  hn_parse := token_parse;
  hv_valid := str_forall value_byte;
  hv_to_str_ok := str_forall to_str_byte;
|}.
Next Obligation.
  intros n [Hn Hne]%andb_true_iff. unfold token_parse.
  assert (Hl : str_forall is_tchar n = true).
  { clear Hne. induction n as [|c n IH]; simpl in *; [done|].
    apply andb_true_iff in Hn as [Hc Hn]. by rewrite (name_byte_tchar c Hc), IH. }
  rewrite Hl. by destruct n.
Qed.
Next Obligation.
  intros v. apply str_forall_impl. intros c. unfold visible, value_byte, byte_in. lia.
Qed.
Next Obligation.
  intros v. apply str_forall_impl. intros c. unfold to_str_byte. by intros ->.
Qed.
Next Obligation.
  intros v. apply str_forall_impl. intros c.
  unfold to_str_byte, visible, value_byte, byte_in. lia.
Qed.
Next Obligation. intros v w Hv Hw. by rewrite str_forall_app, Hv, Hw. Qed.
Next Obligation.
  intros v Hv. apply utf8_valid_ascii. revert Hv. apply str_forall_impl. intros c.
  unfold to_str_byte, visible, is_ascii, byte_in. lia.
Qed.

(** ** Lemmas on header maps *)

Lemma header_get_cons k v m name :
  header_get ((k, v) :: m) name =
  if String.eqb k name then Some v else header_get m name.
Proof. unfold header_get. simpl. by destruct (String.eqb k name). Qed.

Lemma header_get_app m1 m2 name :
  header_get (m1 ++ m2) name =
  match header_get m1 name with Some v => Some v | None => header_get m2 name end.
Proof.
  induction m1 as [|[k v] m1 IH]; [done|]. rewrite <- app_comm_cons, !header_get_cons.
  by destruct (String.eqb k name).
Qed.

Lemma header_get_insert m name v : header_get (header_insert m name v) name = Some v.
Proof.
  induction m as [|[k w] m IH]; simpl.
  - by rewrite header_get_cons, String.eqb_refl.
  - destruct (String.eqb k name) eqn:E; rewrite header_get_cons.
    + by rewrite String.eqb_refl.
    + by rewrite E.
Qed.

Lemma header_get_filter_ne m name n :
  n ≠ name → header_get (filter (λ kv, kv.1 ≠ name) m) n = header_get m n.
Proof.
  intros Hn. induction m as [|[k w] m IH]; [done|]. rewrite filter_cons, header_get_cons.
  simpl. case_decide as Hk.
  - rewrite header_get_cons. by rewrite IH.
  - subst k.
    destruct (String.eqb_spec name n) as [->|]; [done|]. apply IH.
Qed.

Lemma header_get_insert_ne m name n v :
  n ≠ name → header_get (header_insert m name v) n = header_get m n.
Proof.
  intros Hn. induction m as [|[k w] m IH]; simpl.
  - rewrite header_get_cons. destruct (String.eqb_spec name n); [congruence|done].
  - destruct (String.eqb_spec k name) as [->|Hk]; rewrite !header_get_cons.
    + destruct (String.eqb_spec name n); [congruence|]. by apply header_get_filter_ne.
    + by rewrite IH.
Qed.

(** After an [insert] the name has exactly one value. *)
Lemma header_get_all_insert m name v :
  header_get_all (header_insert m name v) name = [v].
Proof.
  unfold header_get_all. induction m as [|[k w] m IH]; simpl.
  - rewrite filter_cons_True by done. done.
  - destruct (String.eqb_spec k name) as [->|Hk].
    + rewrite filter_cons_True by done. rewrite list_filter_filter. simpl.
      assert (filter (λ kv : string * string, kv.1 = name ∧ kv.1 ≠ name) m = []) as ->; [|done].
      clear. induction m as [|x m IH]; [done|]. rewrite filter_cons_False; [done|]. naive_solver.
    + rewrite filter_cons_False by done. done.
Qed.
