(* ===== verification/Request.v ===== *)
(** * HTTP requests ([src/src/http/request.rs])

    [HttpRequest] and its accessors, with the percent decoder written as the
    byte loop of the source.  The theorems relate the decoder and the
    [key=value&...] lookup to an encoder and to a lookup in the list of pairs
    the text encodes. *)
From S2P Require Import Prelude RustStr HttpTypes.
Local Open Scope Z_scope.

(** ** Data *)

Record HttpRequest : Type := mkRequest {
  req_method : string;
  req_uri : Uri;
  req_headers : HeaderMap;
  req_body : string;
  path_params : gmap string string;
}.

(** ** Operations *)

Definition from_parts (parts : Parts) (bd : string) : HttpRequest :=
  mkRequest (p_method parts) (p_uri parts) (p_headers parts) bd ∅.

Definition path (r : HttpRequest) : string := uri_path (req_uri r).

Definition query (r : HttpRequest) : option string := uri_query (req_uri r).

(** The [while] loop of [percent_decode], on the bytes from index [i] on; the
    guard [i + 2 < bytes.len()] is that two more bytes follow. *)
Fixpoint unescape (s : string) : string :=
  match s with
  | "" => ""
  | String c rest =>
      match rest with
      | String hi (String lo rest') =>
          if Ascii.eqb c "%" then
            match to_digit 16 hi, to_digit 16 lo with
            | Some h, Some l =>
                String (byte_of (Z.land (Z.lor (Z.shiftl h 4) l) 255)) (unescape rest')
            | _, _ => String c (unescape rest)
            end
          else String c (unescape rest)
      | _ => String c (unescape rest)
      end
  end.

Definition percent_decode (s : string) : string :=
  let out := unescape (replace "+" " " s) in
  match from_utf8 out with
  | Some t => t
  | None => from_utf8_lossy out
  end.

(** The closure [query_param] and [form_param] give to [find_map]. *)
Definition pair_value (key pair : string) : option string :=
  let '(k, v) := splitn2 "=" pair in
  if String.eqb (percent_decode k) key
  then Some (percent_decode (default "" v)) else None.

Definition query_param (r : HttpRequest) (key : string) : option string :=
  q ← query r; find_map (pair_value key) (split "&" q).

Definition form_param (r : HttpRequest) (key : string) : option string :=
  t ← from_utf8 (req_body r); find_map (pair_value key) (split "&" t).

Definition path_param (r : HttpRequest) (key : string) : option string :=
  path_params r !! key.

Definition header `{HttpCrate} (r : HttpRequest) (name : string) : option string :=
  v ← header_get (req_headers r) name; if hv_to_str_ok v then Some v else None.

(** ** Specification: an encoder *)

Definition unreserved (c : ascii) : bool :=
  is_digit c || byte_in 65 90 c || byte_in 97 122 c
  || bool_decide (code c ∈ [45; 46; 95; 126]).

Definition hex_digit (d : Z) : ascii := byte_of (if d <? 10 then 48 + d else 55 + d).

(** One byte: itself when unreserved, [%XX] otherwise. *)
Definition encode_byte (c : ascii) : string :=
  if unreserved c then String c ""
  else String "%" (String (hex_digit (code c / 16)) (String (hex_digit (code c mod 16)) "")).

Fixpoint percent_encode (s : string) : string :=
  match s with
  | "" => ""
  | String c s' => encode_byte c +:+ percent_encode s'
  end.

Definition encode_pair (kv : string * string) : string :=
  percent_encode kv.1 +:+ String "=" (percent_encode kv.2).

(** [application/x-www-form-urlencoded] text of a list of pairs. *)
Definition encode_pairs (l : list (string * string)) : string :=
  join "&" (encode_pair <$> l).

(** The value of the first pair with the key. *)
Definition assoc (key : string) (l : list (string * string)) : option string :=
  find_map (λ kv, if String.eqb kv.1 key then Some kv.2 else None) l.

(** ** Lemmas *)

Lemma to_digit_hex d : 0 ≤ d < 16 → to_digit 16 (hex_digit d) = Some d.
Proof.
  intros H. unfold to_digit, hex_digit, byte_in.
  destruct (d <? 10) eqn:E; rewrite code_byte_of by lia; cbv zeta;
    repeat case_match; f_equal; lia.
Qed.

Lemma nibbles n : 0 ≤ n < 256 →
  Z.land (Z.lor (Z.shiftl (n / 16) 4) (n mod 16)) 255 = n.
Proof.
  intros H. change 255 with (Z.ones 8). rewrite Z.land_ones by lia.
  assert (n mod 16 = Z.land n (Z.ones 4)) as -> by (by rewrite Z.land_ones).
  change (n / 16) with (n / 2 ^ 4). rewrite <- Z.shiftr_div_pow2 by lia.
  rewrite <- Z.ldiff_ones_r by lia.
  assert (Z.lor (Z.ldiff n (Z.ones 4)) (Z.land n (Z.ones 4)) = n) as ->.
  { apply Z.bits_inj'. intros i Hi. rewrite Z.lor_spec, Z.ldiff_spec, Z.land_spec.
    by destruct (Z.testbit n i), (Z.testbit (Z.ones 4) i). }
  apply Z.mod_small. lia.
Qed.

Lemma unescape_other c t : c ≠ "%"%char → unescape (String c t) = String c (unescape t).
Proof.
  intros Hc. apply Ascii.eqb_neq in Hc. destruct t as [|h [|l t]]; simpl; [done|done|].
  by rewrite Hc.
Qed.

Lemma unescape_hex c t :
  unescape (String "%" (String (hex_digit (code c / 16))
    (String (hex_digit (code c mod 16)) t))) = String c (unescape t).
Proof.
  pose proof (code_range c).
  assert (0 ≤ code c / 16 < 16).
  { split; [apply Z.div_pos; lia|apply Z.div_lt_upper_bound; lia]. }
  pose proof (Z.mod_pos_bound (code c) 16).
  cbn [unescape]. rewrite Ascii.eqb_refl.
  rewrite (to_digit_hex (code c / 16)), (to_digit_hex (code c mod 16)) by lia.
  by rewrite nibbles, byte_of_code by lia.
Qed.

Lemma unreserved_not c d :
  unreserved c = true → unreserved d = false → Ascii.eqb c d = false.
Proof. intros Hc Hd. destruct (Ascii.eqb_spec c d); congruence. Qed.

Lemma unescape_encode s t : unescape (percent_encode s +:+ t) = s +:+ unescape t.
Proof.
  induction s as [|c s IH]; [done|]. cbn [percent_encode]. unfold encode_byte.
  destruct (unreserved c) eqn:E; cbn [String.append].
  - rewrite unescape_other; [by rewrite IH|]. intros ->. by vm_compute in E.
  - by rewrite unescape_hex, IH.
Qed.

(** The encoder's output only has bytes that are unreserved, or [%]. *)
Lemma percent_encode_no_char d s :
  unreserved d = false → d ≠ "%"%char → no_char d (percent_encode s) = true.
Proof.
  intros Hd Hp. unfold no_char. induction s as [|c s IH]; [done|]. simpl.
  rewrite str_forall_app, IH, andb_true_r. unfold encode_byte.
  pose proof (code_range c).
  assert (Hx : ∀ n, 0 ≤ n < 16 → negb (Ascii.eqb (hex_digit n) d) = true).
  { intros n Hn. rewrite unreserved_not; [done| |done].
    unfold unreserved, hex_digit, is_digit, byte_in.
    destruct (n <? 10) eqn:?; rewrite code_byte_of by lia; rewrite !orb_true_iff; left; lia. }
  destruct (unreserved c) eqn:E; simpl; rewrite ?Hx, ?andb_true_r.
  - by rewrite unreserved_not.
  - apply negb_true_iff, Ascii.eqb_neq. congruence.
  - pose proof (Z.mod_pos_bound (code c) 16). lia.
  - split; [apply Z.div_pos; lia|apply Z.div_lt_upper_bound; lia].
Qed.

Lemma percent_decode_encode_lossy s : percent_decode (percent_encode s) = from_utf8_lossy s.
Proof.
  unfold percent_decode. rewrite replace_no_char by (by apply percent_encode_no_char).
  rewrite <- (append_nil_r (percent_encode s)), unescape_encode. simpl.
  rewrite append_nil_r. unfold from_utf8.
  destruct (utf8_valid s) eqn:E; [|done]. by rewrite from_utf8_lossy_valid.
Qed.

Lemma percent_decode_encode_valid s :
  utf8_valid s = true → percent_decode (percent_encode s) = s.
Proof. intros H. by rewrite percent_decode_encode_lossy, from_utf8_lossy_valid. Qed.

Lemma pair_value_encode key kv :
  utf8_valid kv.1 = true → utf8_valid kv.2 = true →
  pair_value key (encode_pair kv) = if String.eqb kv.1 key then Some kv.2 else None.
Proof.
  intros H1 H2. unfold pair_value, encode_pair, splitn2.
  rewrite split_once_app by (by apply percent_encode_no_char).
  simpl. by rewrite !percent_decode_encode_valid.
Qed.

Lemma encode_pair_no_amp kv : no_char "&" (encode_pair kv) = true.
Proof.
  pose proof (percent_encode_no_char "&" kv.1 eq_refl ltac:(done)) as H1.
  pose proof (percent_encode_no_char "&" kv.2 eq_refl ltac:(done)) as H2.
  unfold encode_pair, no_char in *. rewrite str_forall_app, H1. simpl. by rewrite H2.
Qed.

Lemma find_pair_encode key l :
  l ≠ [] → Forall (λ kv, utf8_valid kv.1 = true ∧ utf8_valid kv.2 = true) l →
  find_map (pair_value key) (split "&" (encode_pairs l)) = assoc key l.
Proof.
  intros Hne HF. unfold encode_pairs. rewrite split_join.
  - induction HF as [|kv l [H1 H2] HF IH]; [done|]. unfold assoc in *. simpl.
    rewrite pair_value_encode by done. destruct (String.eqb kv.1 key); [done|].
    destruct l; [done|]. by apply IH.
  - by destruct l.
  - apply Forall_fmap. apply Forall_true. intros kv. apply encode_pair_no_amp.
Qed.

Lemma percent_encode_ascii s : str_forall is_ascii (percent_encode s) = true.
Proof.
  induction s as [|c s IH]; [done|]. cbn [percent_encode].
  rewrite str_forall_app, IH, andb_true_r. pose proof (code_range c). unfold encode_byte.
  assert (Hx : ∀ n, 0 ≤ n < 16 → is_ascii (hex_digit n) = true).
  { intros n Hn. unfold is_ascii, hex_digit. destruct (n <? 10) eqn:?; rewrite code_byte_of; lia. }
  destruct (unreserved c) eqn:E; simpl; rewrite ?Hx, ?andb_true_r; try done.
  - unfold unreserved, is_digit, byte_in in E. unfold is_ascii.
    rewrite !orb_true_iff, bool_decide_eq_true, !elem_of_cons, elem_of_nil in E. lia.
  - pose proof (Z.mod_pos_bound (code c) 16). lia.
  - split; [apply Z.div_pos; lia|apply Z.div_lt_upper_bound; lia].
Qed.

Lemma encode_pairs_ascii l : str_forall is_ascii (encode_pairs l) = true.
Proof.
  assert (Hp : ∀ kv, str_forall is_ascii (encode_pair kv) = true).
  { intros kv. unfold encode_pair. rewrite str_forall_app. simpl.
    by rewrite !percent_encode_ascii. }
  unfold encode_pairs. induction l as [|kv [|kv' l] IH]; [done|apply Hp|].
  rewrite !fmap_cons, join_cons, !str_forall_app, Hp. apply IH.
Qed.

Lemma unescape_no_percent s : no_char "%" s = true → unescape s = s.
Proof.
  unfold no_char. induction s as [|c s IH]; [done|].
  simpl str_forall. rewrite andb_true_iff, negb_true_iff, Ascii.eqb_neq.
  intros [Hc Hs]. by rewrite unescape_other, IH.
Qed.

Lemma unescape_cons3 c h l t :
  unescape (String c (String h (String l t))) =
  if Ascii.eqb c "%" then
    match to_digit 16 h, to_digit 16 l with
    | Some x, Some y => String (byte_of (Z.land (Z.lor (Z.shiftl x 4) y) 255)) (unescape t)
    | _, _ => String c (unescape (String h (String l t)))
    end
  else String c (unescape (String h (String l t))).
Proof. done. Qed.

Lemma unescape_length s : (String.length (unescape s) ≤ String.length s)%nat.
Proof.
  induction s as [s IH] using string_length_ind.
  destruct s as [|c [|h [|l t]]]; [simpl; lia..|].
  pose proof (IH t ltac:(simpl; lia)). pose proof (IH (String h (String l t)) ltac:(simpl; lia)).
  rewrite unescape_cons3.
  destruct (Ascii.eqb c "%"), (to_digit 16 h), (to_digit 16 l); cbn [String.length] in *; lia.
Qed.

(** ** Properties *)

(** C24: Decoding undoes encoding: for every well-formed UTF-8 text, [percent_decode] of its percent-encoding is the text itself. *)
Theorem percent_decode_roundtrip (s : string) :
  utf8_valid s = true → percent_decode (percent_encode s) = s.
Proof. apply percent_decode_encode_valid. Qed.

Lemma percent_decode_roundtrip_witness :
  utf8_valid "a b&c=%+" = true ∧ percent_decode (percent_encode "a b&c=%+") = "a b&c=%+".
Proof. split; [reflexivity|]. apply (percent_decode_roundtrip "a b&c=%+"). reflexivity. Defined.

(** C25: [query_param] on a URI whose query string encodes a non-empty list of pairs, and [form_param] on a body that does, both return the value of the first pair with the key, and [None] when no pair has it. *)
Theorem param_lookup_first_pair (r : HttpRequest) (l : list (string * string)) (key : string) :
  l ≠ [] →
  Forall (λ kv, utf8_valid kv.1 = true ∧ utf8_valid kv.2 = true) l →
  (query r = Some (encode_pairs l) → query_param r key = assoc key l) ∧
  (req_body r = encode_pairs l → form_param r key = assoc key l).
Proof.
  intros Hne HF. unfold query_param, form_param. split.
  - intros ->. simpl. by apply find_pair_encode.
  - intros ->. unfold from_utf8. rewrite utf8_valid_ascii by apply encode_pairs_ascii.
    simpl. by apply find_pair_encode.
Qed.

Lemma param_lookup_first_pair_witness :
  query_param (mkRequest "GET" (mkUri "/s" (Some "q=a%20b&q=c&n=1")) [] "q=a%20b&q=c&n=1" ∅) "q"
    = Some "a b".
Proof.
  refine (proj1 (param_lookup_first_pair
    (mkRequest "GET" (mkUri "/s" (Some "q=a%20b&q=c&n=1")) [] "q=a%20b&q=c&n=1" ∅)
    [("q", "a b"); ("q", "c"); ("n", "1")] "q" _ _) _).
  - discriminate.
  - repeat constructor.
  - reflexivity.
Defined.

(** C26: [percent_decode] is total, always returns well-formed UTF-8, and leaves a well-formed text with neither [%] nor [+] as it is. *)
Theorem percent_decode_well_formed (s : string) :
  utf8_valid (percent_decode s) = true ∧
  (utf8_valid s = true → no_char "%" s = true → no_char "+" s = true →
   percent_decode s = s).
Proof.
  unfold percent_decode, from_utf8. split.
  - destruct (utf8_valid (unescape (replace "+" " " s))) eqn:E; [done|].
    apply utf8_valid_lossy.
  - intros Hv Hp Hplus. rewrite replace_no_char, unescape_no_percent by done.
    by rewrite Hv.
Qed.

Lemma percent_decode_well_formed_witness :
  percent_decode "no_encoding" = "no_encoding".
Proof. apply (percent_decode_well_formed "no_encoding"); reflexivity. Defined.

(** Decoded bytes that are not UTF-8 come back as U+FFFD, not as the undecoded
    text. *)
Lemma percent_decode_replaces_invalid : percent_decode "%FF" = replacement.
Proof. reflexivity. Qed.
