(* ===== verification/Response.v ===== *)
(** * HTTP responses ([src/src/http/response.rs])

    [ResponseBuilder] and its finishers, on top of the [http] crate's own
    builder, whose [header] appends and whose [body] fails when a name or value
    was refused. *)
From S2P Require Import Prelude RustStr HttpTypes.
Local Open Scope Z_scope.

(** ** Data and operations *)

Definition SERVER_HEADER : string := "rust-highperf-server/0.1".

Definition full_body (bytes : string) : HttpBody := FullBody bytes.

Record ResponseBuilder : Type := mkBuilder {
  rb_status : Z;
  extra_headers : list (string * string);
}.

Definition rb_new (st : Z) : ResponseBuilder := mkBuilder st [].
Definition rb_ok : ResponseBuilder := rb_new 200.
Definition bad_request : ResponseBuilder := rb_new 400.
Definition not_found : ResponseBuilder := rb_new 404.
Definition method_not_allowed : ResponseBuilder := rb_new 405.
Definition internal_error : ResponseBuilder := rb_new 500.

Definition rb_header (key value : string) (rb : ResponseBuilder) : ResponseBuilder :=
  mkBuilder (rb_status rb) (extra_headers rb ++ [(key, value)]).

Definition byte_len (s : string) : Z := Z.of_nat (String.length s).

Section Response.
Context `{HttpCrate}.

(** The loop over [extra_headers]. *)
Definition add_extra (b : Builder) (hs : list (string * string)) : Builder :=
  fold_left (λ b kv, builder_header b kv.1 kv.2) hs b.

(** The [Err] arm of [build] and [stream_body]. *)
Definition build_failed : HttpResponse :=
  default (response_new (full_body ""))
    (builder_body (builder_header (builder_status 500) "server" SERVER_HEADER)
       (full_body (line "Internal Server Error"))).

Definition build (rb : ResponseBuilder) (content_type : string) (bytes : string) : HttpResponse :=
  let b := builder_status (rb_status rb) in
  let b := builder_header b "content-type" content_type in
  let b := builder_header b "content-length" (show_uint (byte_len bytes)) in
  let b := builder_header b "server" SERVER_HEADER in
  match builder_body (add_extra b (extra_headers rb)) (full_body bytes) with
  | Some resp => resp
  | None => build_failed
  end.

Definition stream_body (rb : ResponseBuilder) (content_type : string) (bd : HttpBody)
    (content_length : Z) : HttpResponse :=
  let b := builder_status (rb_status rb) in
  let b := builder_header b "content-type" content_type in
  let b := builder_header b "content-length" (show_uint content_length) in
  let b := builder_header b "server" SERVER_HEADER in
  match builder_body (add_extra b (extra_headers rb)) bd with
  | Some resp => resp
  | None => build_failed
  end.

Definition text_plain : string := "text/plain; charset=utf-8".

Definition text (bytes : string) (rb : ResponseBuilder) : HttpResponse :=
  build rb text_plain bytes.

(** [json]: the serialiser's result is an argument. *)
Definition json {E} (serialised : result E string) (rb : ResponseBuilder) : HttpResponse :=
  match serialised with
  | Ok vec => build rb "application/json" vec
  | Err _ => text (line "Internal Server Error") internal_error
  end.

Definition bytes_body (content_type bytes : string) (rb : ResponseBuilder) : HttpResponse :=
  build rb content_type bytes.

Definition empty (rb : ResponseBuilder) : HttpResponse := build rb text_plain "".

(** ** Lemmas *)

Lemma visible_valid v : str_forall visible v = true → hv_valid v = true.
Proof. apply hv_valid_visible. Qed.

Lemma digits_valid n : 0 ≤ n → hv_valid (show_uint n) = true.
Proof.
  intros Hn. apply visible_valid. pose proof (show_uint_digits n Hn) as Hd.
  revert Hd. apply str_forall_impl. intros c. unfold is_digit, visible, byte_in. lia.
Qed.

(** Names and values of the fields the finishers write. *)
Ltac solve_header :=
  first [done | by apply digits_valid | by apply visible_valid].

Lemma builder_header_ok st hs name v :
  name_ok name = true → hv_valid v = true →
  builder_header (Some (st, hs)) name v = Some (st, hs ++ [(name, v)]).
Proof. intros Hn Hv. unfold builder_header. by rewrite hn_parse_lower, Hv. Qed.

Lemma add_extra_None hs : add_extra None hs = None.
Proof. induction hs; simpl; done. Qed.

Lemma add_extra_cons b k v hs :
  add_extra b ((k, v) :: hs) = add_extra (builder_header b k v) hs.
Proof. done. Qed.

(** A builder only ever gains fields at the end. *)
Lemma add_extra_prefix st hs extra st' hs' :
  add_extra (Some (st, hs)) extra = Some (st', hs') →
  st' = st ∧ ∃ more, hs' = hs ++ more.
Proof.
  revert hs. induction extra as [|[k v] extra IH]; intros hs.
  { intros [= <- <-]. split; [done|]. exists []. by rewrite app_nil_r. }
  rewrite add_extra_cons. unfold builder_header.
  destruct (hn_parse k) as [n|], (hv_valid v); rewrite ?add_extra_None; [|done..].
  intros [-> [more ->]]%IH. split; [done|].
  exists ((n, v) :: more). unfold header_append. by rewrite <- app_assoc.
Qed.

Lemma add_extra_ok st hs extra :
  Forall (λ kv, name_ok kv.1 = true ∧ hv_valid kv.2 = true) extra →
  add_extra (Some (st, hs)) extra = Some (st, hs ++ extra).
Proof.
  intros HF. revert hs.
  induction HF as [|[k v] extra [Hk Hv] HF IH]; intros hs.
  - by rewrite app_nil_r.
  - rewrite add_extra_cons, builder_header_ok, IH by done. by rewrite <- app_assoc.
Qed.

Lemma build_failed_eq :
  build_failed = mkResponse 500 [("server", SERVER_HEADER)]
    (FullBody (line "Internal Server Error")).
Proof.
  unfold build_failed, builder_status.
  by rewrite builder_header_ok by solve_header.
Qed.

(** The three fields every finisher writes, in order. *)
Definition std_headers (content_type : string) (len : Z) : HeaderMap :=
  [("content-type", content_type); ("content-length", show_uint len);
   ("server", SERVER_HEADER)].

(** [stream_body] is the general finisher; [build] is it with a buffer. *)
Lemma build_stream rb ct bytes :
  build rb ct bytes = stream_body rb ct (full_body bytes) (byte_len bytes).
Proof. done. Qed.

Lemma stream_body_cases rb ct bd len :
  0 ≤ len →
  stream_body rb ct bd len = build_failed ∨
  (hv_valid ct = true ∧ ∃ more, stream_body rb ct bd len =
     mkResponse (rb_status rb) (std_headers ct len ++ more) bd).
Proof.
  intros Hlen. unfold stream_body, builder_status.
  destruct (hv_valid ct) eqn:Hct.
  - rewrite !builder_header_ok by solve_header.
    simpl. destruct (add_extra _ _) as [[st hs]|] eqn:E; [|by left].
    apply add_extra_prefix in E as [-> [more ->]]. right. by split; [|exists more].
  - left. unfold builder_header at 3. rewrite hn_parse_lower, Hct by done.
    simpl. by rewrite add_extra_None.
Qed.

Lemma stream_body_ok rb ct bd len :
  0 ≤ len → hv_valid ct = true →
  Forall (λ kv, name_ok kv.1 = true ∧ hv_valid kv.2 = true) (extra_headers rb) →
  stream_body rb ct bd len =
    mkResponse (rb_status rb) (std_headers ct len ++ extra_headers rb) bd.
Proof.
  intros Hlen Hct HF. unfold stream_body, builder_status.
  rewrite !builder_header_ok by solve_header.
  by rewrite add_extra_ok.
Qed.

Lemma byte_len_nonneg s : 0 ≤ byte_len s.
Proof. unfold byte_len. lia. Qed.

Lemma text_plain_valid : hv_valid text_plain = true.
Proof. by apply visible_valid. Qed.

Lemma build_ok rb ct bytes :
  hv_valid ct = true →
  Forall (λ kv, name_ok kv.1 = true ∧ hv_valid kv.2 = true) (extra_headers rb) →
  build rb ct bytes =
    mkResponse (rb_status rb) (std_headers ct (byte_len bytes) ++ extra_headers rb)
      (FullBody bytes).
Proof. intros. rewrite build_stream. apply stream_body_ok; auto using byte_len_nonneg. Qed.

(** A finisher with no extra headers keeps its status. *)
Lemma text_plain_response st bytes :
  text bytes (rb_new st) =
    mkResponse st (std_headers text_plain (byte_len bytes)) (FullBody bytes).
Proof. unfold text. rewrite build_ok; [|apply text_plain_valid|constructor]. done. Qed.

(** The fallback too carries the server's name. *)
Lemma build_has_server_header (rb : ResponseBuilder) (ct bytes : string) :
  header_get (headers (build rb ct bytes)) "server" = Some SERVER_HEADER.
Proof.
  rewrite build_stream.
  destruct (stream_body_cases rb ct (full_body bytes) (byte_len bytes) (byte_len_nonneg _))
    as [->|(_ & more & ->)].
  - rewrite build_failed_eq. reflexivity.
  - cbn [headers]. rewrite header_get_app. reflexivity.
Qed.

(** ** Properties *)

(** C36: A finished response carries the server's name as its first [server] header, and is the fallback [500] without a [content-length], or has the builder's status, the given bytes as its body and a [content-length] that parses back to the number of those bytes; it is the latter whenever the content type and every extra header are acceptable. *)
Theorem build_content_length (rb : ResponseBuilder) (ct bytes : string) :
  byte_len bytes ≤ u64_max →
  let resp := build rb ct bytes in
  header_get (headers resp) "server" = Some SERVER_HEADER ∧
  (resp = build_failed ∧ status resp = 500 ∧ header_get (headers resp) "content-length" = None
   ∨ status resp = rb_status rb ∧ body resp = FullBody bytes ∧
     (header_get (headers resp) "content-length" ≫= parse_uint u64_max) = Some (byte_len bytes)) ∧
  (hv_valid ct = true →
   Forall (λ kv, name_ok kv.1 = true ∧ hv_valid kv.2 = true) (extra_headers rb) →
   resp = mkResponse (rb_status rb)
     (std_headers ct (byte_len bytes) ++ extra_headers rb) (FullBody bytes)).
Proof.
  intros Hlen resp. split; [apply build_has_server_header|]. split; [|by apply build_ok]. unfold resp. rewrite build_stream.
  pose proof (byte_len_nonneg bytes).
  destruct (stream_body_cases rb ct (full_body bytes) (byte_len bytes) (byte_len_nonneg _))
    as [->|(_ & more & ->)].
  - left. rewrite build_failed_eq. done.
  - right. split; [done|]. split; [done|]. cbn [headers]. rewrite header_get_app.
    change (header_get (std_headers ct (byte_len bytes)) "content-length")
      with (Some (show_uint (byte_len bytes))).
    apply parse_show_uint. lia.
Qed.

End Response.

Lemma build_content_length_witness :
  byte_len "hello" ≤ u64_max ∧
  @build http_crate_ascii rb_ok text_plain "hello" =
    mkResponse 200 (std_headers text_plain 5) (FullBody "hello").
Proof.
  split; [done|].
  apply (@build_content_length http_crate_ascii rb_ok text_plain "hello"); [done|done|constructor].
Defined.

(** An extra [content-type] does not replace the finisher's own: both are sent,
    the finisher's first. *)
Lemma text_extra_content_type `{HttpCrate} st ct bytes :
  hv_valid ct = true →
  header_get_all (headers (text bytes (rb_header "content-type" ct (rb_new st)))) "content-type"
    = [text_plain; ct].
Proof.
  intros Hct. unfold text. rewrite build_ok; [reflexivity|apply text_plain_valid|].
  simpl. by repeat constructor.
Qed.
