(* ===== verification/Router.v ===== *)
(** * Routing ([src/src/http/router.rs])

    Patterns, [RouteEntry::match_path], registration and [Router::dispatch].
    A handler's result type is a parameter [R] (a handler is an async function
    with effects elsewhere), with [respond] for the two responses the router
    itself produces. *)
From S2P Require Import Prelude RustStr HttpTypes Request Response.

(** ** Patterns *)

Inductive PathSegment : Type :=
| Literal (lit : string)
| Param (name : string)
| Wildcard (name : string).

(** [split('/').filter(|s| !s.is_empty())]. *)
Definition path_segments (p : string) : list string :=
  filter (λ s, s ≠ "") (split "/" p).

Definition parse_segment (seg : string) : PathSegment :=
  match strip_prefix "*" seg with
  | Some name => Wildcard name
  | None =>
      match strip_prefix ":" seg with
      | Some name => Param name
      | None => Literal seg
      end
  end.

Definition parse_pattern (pattern : string) : list PathSegment :=
  parse_segment <$> path_segments pattern.

Definition is_wildcard (s : PathSegment) : bool :=
  match s with Wildcard _ => true | _ => false end.

Definition has_wildcard (segs : list PathSegment) : bool :=
  match last segs with Some s => is_wildcard s | None => false end.

(** The [for] loop of [match_path]: [segs] is what is left of the pattern at
    index [i]. *)
Fixpoint match_from (path_segs : list string) (i : nat) (segs : list PathSegment)
    (params : gmap string string) : option (gmap string string) :=
  match segs with
  | [] => Some params
  | Literal lit :: segs' =>
      match path_segs !! i with
      | Some s => if String.eqb s lit then match_from path_segs (S i) segs' params else None
      | None => None
      end
  | Param name :: segs' =>
      match path_segs !! i with
      | Some s => match_from path_segs (S i) segs' (<[name := s]> params)
      | None => None
      end
  | Wildcard name :: _ =>
      if (i <? length path_segs)%nat
      then Some (<[name := join "/" (drop i path_segs)]> params)
      else Some params
  end.

(** [RouteEntry::match_path], on the entry's segments. *)
Definition match_path (segs : list PathSegment) (p : string) : option (gmap string string) :=
  let path_segs := path_segments p in
  if has_wildcard segs then
    if (length path_segs <? length segs - 1)%nat then None
    else match_from path_segs 0 segs ∅
  else if negb (length path_segs =? length segs)%nat then None
  else match_from path_segs 0 segs ∅.

(** ** The router *)

Section Router.
Context `{HttpCrate} {R : Type} (respond : HttpResponse → R).

Record RouteEntry : Type := mkRoute {
  rt_method : string;
  rt_segments : list PathSegment;
  rt_handler : HttpRequest → R;
}.

(** The registered routes, in order. *)
Definition router_new : list RouteEntry := [].

Definition add (method pattern : string) (handler : HttpRequest → R)
    (routes : list RouteEntry) : list RouteEntry :=
  routes ++ [mkRoute method (parse_pattern pattern) handler].

Definition get := add "GET".
Definition post := add "POST".
Definition put := add "PUT".
Definition delete_route := add "DELETE".

(** The sentinel method [*]. *)
Definition any := add "*".

Definition method_ok (rt : RouteEntry) (method : string) : bool :=
  String.eqb (rt_method rt) "*" || String.eqb (rt_method rt) method.

Definition with_params (req : HttpRequest) (params : gmap string string) : HttpRequest :=
  mkRequest (req_method req) (req_uri req) (req_headers req) (req_body req) params.

Fixpoint dispatch_loop (routes : list RouteEntry) (req : HttpRequest)
    (any_path_matched : bool) : R :=
  match routes with
  | [] =>
      if any_path_matched then respond (empty method_not_allowed)
      else respond (text (line "404 Not Found") not_found)
  | rt :: routes' =>
      match match_path (rt_segments rt) (path req) with
      | Some params =>
          if method_ok rt (req_method req) then rt_handler rt (with_params req params)
          else dispatch_loop routes' req true
      | None => dispatch_loop routes' req any_path_matched
      end
  end.

Definition dispatch (routes : list RouteEntry) (req : HttpRequest) : R :=
  dispatch_loop routes req false.

(** ** Specification of matching *)

(** [seg_match segs ps b]: the path components [ps] match the pattern, binding
    the names of [b] in order. *)
Inductive seg_match : list PathSegment → list string → list (string * string) → Prop :=
| sm_nil : seg_match [] [] []
| sm_literal lit segs ps b :
    seg_match segs ps b → seg_match (Literal lit :: segs) (lit :: ps) b
| sm_param name s segs ps b :
    seg_match segs ps b → seg_match (Param name :: segs) (s :: ps) ((name, s) :: b)
| sm_wild name s ps : seg_match [Wildcard name] (s :: ps) [(name, join "/" (s :: ps))]
| sm_wild_end name : seg_match [Wildcard name] [] [].

(** The documented shape: a wildcard only as the last segment. *)
Fixpoint wildcard_last (segs : list PathSegment) : bool :=
  match segs with
  | [] => true
  | s :: segs' => (negb (is_wildcard s) || bool_decide (segs' = [])) && wildcard_last segs'
  end.

(** The [HashMap] of inserting the bindings in order. *)
Definition params_of (b : list (string * string)) : gmap string string :=
  foldl (λ m kv, <[kv.1 := kv.2]> m) ∅ b.

Definition route_matches (req : HttpRequest) (rt : RouteEntry) : bool :=
  bool_decide (is_Some (match_path (rt_segments rt) (path req))).

Definition route_accepts (req : HttpRequest) (rt : RouteEntry) : bool :=
  route_matches req rt && method_ok rt (req_method req).

(** The components of a path for a pattern and values for its names. *)
Fixpoint fill (segs : list PathSegment) (values : list string) : list string :=
  match segs, values with
  | Literal lit :: segs', _ => lit :: fill segs' values
  | _ :: segs', v :: values' => v :: fill segs' values'
  | _, _ => []
  end.

Definition render_path (segs : list PathSegment) (values : list string) : string :=
  String "/" (join "/" (fill segs values)).

Fixpoint param_names (segs : list PathSegment) : list string :=
  match segs with
  | [] => []
  | Literal _ :: segs' => param_names segs'
  | (Param n | Wildcard n) :: segs' => n :: param_names segs'
  end.

(** A path component: not empty, without a slash. *)
Definition component (s : string) : Prop := s ≠ "" ∧ no_char "/" s = true.

(** ** Lemmas *)

Lemma path_segments_component p : Forall component (path_segments p).
Proof.
  unfold path_segments. apply Forall_forall. intros s [Hs Hin]%list_elem_of_filter.
  split; [done|]. pose proof (split_pieces "/" p) as HF.
  rewrite Forall_forall in HF. by apply HF.
Qed.

Lemma split_app_join p q :
  split "/" (p +:+ String "/" q) = split "/" p ++ split "/" q.
Proof.
  induction p as [|c p IH]; [done|]. cbn [String.append split]. rewrite IH.
  destruct (split_cons "/" p) as (h & t & ->).
  by destruct (Ascii.eqb c "/").
Qed.

Lemma path_segments_app p q :
  path_segments (p +:+ String "/" q) = path_segments p ++ path_segments q.
Proof. unfold path_segments. by rewrite split_app_join, filter_app. Qed.

Lemma path_segments_join l :
  Forall component l → path_segments (String "/" (join "/" l)) = l.
Proof.
  intros HF. change (String "/" (join "/" l)) with ("" +:+ String "/" (join "/" l)).
  rewrite path_segments_app. simpl.
  assert (Hid : ∀ k, Forall component k → filter (λ s, s ≠ "") k = k).
  { intros k. induction 1 as [|s k [Hs _] Hk IH]; [done|].
    rewrite filter_cons_True by done. by rewrite IH. }
  destruct l as [|x l]; [done|]. unfold path_segments.
  rewrite split_join; [by apply Hid|done|].
  eapply Forall_impl; [done|]. by intros s [].
Qed.

Lemma wildcard_last_has s segs :
  has_wildcard (s :: segs) =
  match segs with [] => is_wildcard s | _ => has_wildcard segs end.
Proof. by destruct segs. Qed.

Lemma params_of_snoc b k v : params_of (b ++ [(k, v)]) = <[k := v]> (params_of b).
Proof. unfold params_of. by rewrite foldl_app. Qed.

(** The loop from index [i] matches the components from [i] on, when the
    lengths agree as the guards of [match_path] check. *)
Lemma match_from_spec path_segs i segs b0 m :
  wildcard_last segs = true →
  (has_wildcard segs = false → (length path_segs - i)%nat = length segs) →
  match_from path_segs i segs (params_of b0) = Some m ↔
  ∃ b, seg_match segs (drop i path_segs) b ∧ m = params_of (b0 ++ b).
Proof.
  revert i b0. induction segs as [|s segs IH]; intros i b0 Hw Hlen; simpl.
  { rewrite drop_ge by (specialize (Hlen eq_refl); simpl in Hlen; lia).
    split.
    - intros [= <-]. exists []. rewrite app_nil_r. split; [constructor|done].
    - intros (b & Hb & ->). inversion Hb; subst. by rewrite app_nil_r. }
  simpl in Hw. apply andb_true_iff in Hw as [Hs Hw].
  rewrite wildcard_last_has in Hlen.
  assert (Hnext : is_wildcard s = false → has_wildcard segs = false →
                  (length path_segs - S i)%nat = length segs).
  { intros Hsw Hh. assert (length path_segs - i = S (length segs))%nat; [|lia].
    apply Hlen. by destruct segs. }
  destruct s as [lit|name|name].
  - destruct (path_segs !! i) as [x|] eqn:Hx.
    + rewrite (drop_S _ _ _ Hx). destruct (String.eqb_spec x lit) as [->|Hne].
      * rewrite IH by auto. split; intros (b & Hb & ->); exists b; split; try done.
        -- by constructor.
        -- by inversion Hb.
      * split; [done|]. intros (b & Hb & _). inversion Hb; congruence.
    + rewrite drop_ge by (by apply lookup_ge_None). split; [done|].
      intros (b & Hb & _). inversion Hb.
  - destruct (path_segs !! i) as [x|] eqn:Hx.
    + rewrite (drop_S _ _ _ Hx), <- params_of_snoc, IH by auto.
      split; intros (b & Hb & ->).
      * exists ((name, x) :: b). split; [by constructor|]. by rewrite <- app_assoc.
      * inversion Hb; subst. eexists. split; [done|]. by rewrite <- app_assoc.
    + rewrite drop_ge by (by apply lookup_ge_None). split; [done|].
      intros (b & Hb & _). inversion Hb.
  - simpl in Hs. apply bool_decide_eq_true in Hs as ->.
    destruct (Nat.ltb_spec i (length path_segs)) as [Hlt|Hge].
    + apply lookup_lt_is_Some_2 in Hlt as [x Hx]. rewrite (drop_S _ _ _ Hx).
      rewrite <- params_of_snoc. split.
      * intros [= <-]. eexists. split; [constructor|done].
      * intros (b & Hb & ->). by inversion Hb.
    + rewrite drop_ge by done. split.
      * intros [= <-]. exists []. split; [constructor|]. by rewrite app_nil_r.
      * intros (b & Hb & ->). inversion Hb; subst. by rewrite app_nil_r.
Qed.

Lemma seg_match_length segs ps b :
  seg_match segs ps b →
  if has_wildcard segs then (length segs ≤ S (length ps))%nat else length ps = length segs.
Proof.
  induction 1 as [|lit segs ps b Hm IH|name s segs ps b Hm IH| |]; simpl; try lia; try done;
    destruct segs as [|s' segs]; rewrite ?wildcard_last_has in *; simpl in *;
    try (inversion Hm; subst; simpl; lia); by case_match; lia.
Qed.

Lemma dispatch_loop_spec routes req flag :
  dispatch_loop routes req flag =
  match find_first (route_accepts req) routes with
  | Some rt =>
      rt_handler rt (with_params req (default ∅ (match_path (rt_segments rt) (path req))))
  | None =>
      if flag || existsb (route_matches req) routes
      then respond (empty method_not_allowed)
      else respond (text (line "404 Not Found") not_found)
  end.
Proof.
  revert flag. induction routes as [|rt routes IH]; intros flag; simpl.
  { by rewrite orb_false_r. }
  unfold route_accepts at 1, route_matches at 1 2.
  destruct (match_path (rt_segments rt) (path req)) as [params|] eqn:E; simpl.
  - destruct (method_ok rt (req_method req)); simpl; [by rewrite E|].
    rewrite IH. simpl. by rewrite orb_true_r.
  - apply IH.
Qed.

(** [dispatch] reaches a route that accepts behind routes that do not. *)
Lemma dispatch_at (l1 : list RouteEntry) rt l2 req params :
  Forall (λ r, route_accepts req r = false) l1 →
  match_path (rt_segments rt) (path req) = Some params →
  method_ok rt (req_method req) = true →
  dispatch (l1 ++ rt :: l2) req = rt_handler rt (with_params req params).
Proof.
  intros Hl1 Hp Hm. unfold dispatch. rewrite dispatch_loop_spec.
  assert (find_first (route_accepts req) (l1 ++ rt :: l2) = Some rt) as ->.
  { apply find_first_Some. exists l1, l2. split; [done|]. split; [done|].
    unfold route_accepts, route_matches. by rewrite Hp, Hm. }
  by rewrite Hp.
Qed.

Lemma dispatch_nth (routes : list RouteEntry) k rt req params :
  routes !! k = Some rt →
  Forall (λ r, route_accepts req r = false) (take k routes) →
  match_path (rt_segments rt) (path req) = Some params →
  method_ok rt (req_method req) = true →
  dispatch routes req = rt_handler rt (with_params req params).
Proof.
  intros Hk Hl Hp Hm. rewrite <- (take_drop_middle routes k rt Hk). by apply dispatch_at.
Qed.

Lemma seg_match_fill segs values :
  length values = length (param_names segs) → wildcard_last segs = true →
  seg_match segs (fill segs values) (zip (param_names segs) values).
Proof.
  revert values. induction segs as [|s segs IH]; intros values Hlen Hw; simpl.
  { destruct values; [constructor|done]. }
  simpl in Hw. apply andb_true_iff in Hw as [Hs Hw].
  destruct s as [lit|name|name]; simpl in *.
  - constructor. by apply IH.
  - destruct values as [|v values]; [done|]. simpl in *. constructor. apply IH; [lia|done].
  - apply bool_decide_eq_true in Hs as ->.
    destruct values as [|v [|? ?]]; [done| |done]. apply (sm_wild name v []).
Qed.

Lemma fill_component segs values :
  Forall component values →
  (∀ lit, Literal lit ∈ segs → component lit) → Forall component (fill segs values).
Proof.
  intros HV. revert values HV. induction segs as [|s segs IH]; intros values HV HL; [constructor|].
  assert (HL' : ∀ lit, Literal lit ∈ segs → component lit) by (intros; apply HL; by right).
  destruct s as [lit|name|name]; simpl.
  - constructor; [apply HL; by left|]. by apply IH.
  - destruct HV; [constructor|]. constructor; [done|]. by apply IH.
  - destruct HV; [constructor|]. constructor; [done|]. by apply IH.
Qed.

Lemma params_of_lookup names values n v :
  NoDup names → (n, v) ∈ zip names values → params_of (zip names values) !! n = Some v.
Proof.
  intros Hnd Hin.
  assert (E : ∀ b : list (string * string), params_of b = list_to_map (reverse b)).
  { intros b. induction b as [|[k w] b IH] using rev_ind; [done|].
    by rewrite params_of_snoc, reverse_snoc, IH. }
  rewrite E. apply elem_of_list_to_map_1; [|by apply elem_of_reverse].
  rewrite fmap_reverse, reverse_Permutation. eapply sublist_NoDup; [apply Hnd|]. clear.
  revert values. induction names as [|x names IH]; intros [|w values]; simpl;
    auto using sublist_nil_l. by apply sublist_skip.
Qed.

(** The guards of [match_path] pass on a path that matches, so the loop's result
    is its result. *)
Lemma match_path_complete segs p b :
  wildcard_last segs = true → seg_match segs (path_segments p) b →
  match_path segs p = Some (params_of b).
Proof.
  intros Hw Hb. pose proof (seg_match_length _ _ _ Hb) as Hl.
  assert (Hf : match_from (path_segments p) 0 segs ∅ = Some (params_of b)).
  { apply (match_from_spec (path_segments p) 0 segs []); [done| |by exists b].
    intros Hh. by rewrite Hh, Nat.sub_0_r in *. }
  unfold match_path. destruct (has_wildcard segs).
  - by destruct (Nat.ltb_spec (length (path_segments p)) (length segs - 1)); [lia|].
  - by rewrite Hl, Nat.eqb_refl.
Qed.

Lemma match_path_sound segs p m :
  wildcard_last segs = true → match_path segs p = Some m →
  ∃ b, seg_match segs (path_segments p) b ∧ m = params_of b.
Proof.
  intros Hw. unfold match_path.
  pose proof (match_from_spec (path_segments p) 0 segs [] m Hw) as Hspec.
  rewrite Nat.sub_0_r, drop_0 in Hspec. destruct (has_wildcard segs) eqn:Hh.
  - case_match; [done|]. by apply Hspec.
  - destruct (Nat.eqb_spec (length (path_segments p)) (length segs)); [|done].
    by apply Hspec.
Qed.

(** ** Properties *)

(** C22: for a pattern whose wildcard, if any, comes last, [match_path] succeeds
    exactly when the path's non-empty components match the pattern segment by
    segment, and the parameters are the captured components, a repeated name
    keeping its last capture. *)
Theorem match_path_refines_seg_match (segs : list PathSegment) (p : string)
    (m : gmap string string) :
  wildcard_last segs = true →
  match_path segs p = Some m ↔
  ∃ b, seg_match segs (path_segments p) b ∧ m = params_of b.
Proof.
  intros Hw. split; [by apply match_path_sound|].
  intros (b & Hb & ->). by apply match_path_complete.
Qed.

(** C23: [dispatch] runs the handler of the first registered route whose pattern
    and method both accept the request, on the request with that route's captures;
    when some pattern matches but no route accepts it answers [405], and when no
    pattern matches [404]. *)
Theorem dispatch_first_match (routes : list RouteEntry) (req : HttpRequest) :
  (∀ l1 rt l2 params,
     routes = l1 ++ rt :: l2 → Forall (λ r, route_accepts req r = false) l1 →
     match_path (rt_segments rt) (path req) = Some params →
     method_ok rt (req_method req) = true →
     dispatch routes req = rt_handler rt (with_params req params)) ∧
  (Forall (λ r, route_accepts req r = false) routes →
   dispatch routes req =
     respond (if existsb (route_matches req) routes
              then mkResponse 405 (std_headers text_plain 0) (FullBody "")
              else mkResponse 404 (std_headers text_plain 14)
                     (FullBody (line "404 Not Found")))).
Proof.
  split; [intros l1 rt l2 params -> Hl1 Hp Hm; by apply dispatch_at|].
  - intros HF. unfold dispatch. rewrite dispatch_loop_spec. apply find_first_None in HF. rewrite HF. simpl.
    destruct (existsb _ _); f_equal.
    + apply (text_plain_response 405 "").
    + apply text_plain_response.
Qed.

(** Captures round-trip: for a pattern with distinct parameter names and its path
    filled in with components, [match_path] succeeds and each name maps to the
    component that was filled in. *)
Lemma match_path_roundtrip (segs : list PathSegment) (values : list string) :
  wildcard_last segs = true → NoDup (param_names segs) →
  length values = length (param_names segs) →
  Forall component values → (∀ lit, Literal lit ∈ segs → component lit) →
  ∃ m, match_path segs (render_path segs values) = Some m ∧
       ∀ n v, (n, v) ∈ zip (param_names segs) values → m !! n = Some v.
Proof.
  intros Hw Hnd Hlen HV HL. exists (params_of (zip (param_names segs) values)).
  split; [|intros; by apply params_of_lookup].
  apply match_path_complete; [done|]. unfold render_path.
  rewrite path_segments_join by (by apply fill_component). by apply seg_match_fill.
Qed.

End Router.

(** ** Witnesses *)

Lemma match_path_refines_seg_match_witness :
  wildcard_last (parse_pattern "/files/:kind/*path") = true ∧
  match_path (parse_pattern "/files/:kind/*path") "/files//img/a/b.png" =
    Some (params_of [("kind", "img"); ("path", "a/b.png")]).
Proof.
  split; [reflexivity|].
  apply (match_path_refines_seg_match (parse_pattern "/files/:kind/*path")
           "/files//img/a/b.png"); [reflexivity|].
  exists [("kind", "img"); ("path", "a/b.png")]. split; [|reflexivity].
  apply sm_literal, sm_param, (sm_wild "path" "a" ["b.png"]).
Defined.

(** Handlers of a concrete router, told apart by their number. *)
Definition demo_routes : list (@RouteEntry (nat + HttpResponse)) :=
  get "/echo/:msg" (λ _, inl 2%nat) (post "/items" (λ _, inl 1%nat) (get "/" (λ _, inl 0%nat) [])).

Definition demo_request (m p : string) : HttpRequest := mkRequest m (mkUri p None) [] "" ∅.

Lemma dispatch_first_match_witness :
  @dispatch http_crate_ascii _ inr demo_routes (demo_request "GET" "/echo/hi") = inl 2%nat ∧
  @dispatch http_crate_ascii _ inr demo_routes (demo_request "GET" "/items") =
    inr (mkResponse 405 (std_headers text_plain 0) (FullBody "")).
Proof.
  split.
  - refine (proj1 (@dispatch_first_match http_crate_ascii _ inr demo_routes
      (demo_request "GET" "/echo/hi")) _ _ [] {["msg" := "hi"]} eq_refl _ _ _);
      [repeat constructor|reflexivity|reflexivity].
  - refine (proj2 (@dispatch_first_match http_crate_ascii _ inr demo_routes
      (demo_request "GET" "/items")) _). repeat constructor.
Defined.

Example match_path_roundtrip_example :
  ∃ m, match_path (parse_pattern "/users/:uid/posts/:pid")
         (render_path (parse_pattern "/users/:uid/posts/:pid") ["42"; "7"]) = Some m ∧
       ∀ n v, (n, v) ∈ [("uid", "42"); ("pid", "7")] → m !! n = Some v.
Proof.
  apply (match_path_roundtrip (parse_pattern "/users/:uid/posts/:pid") ["42"; "7"]);
    [reflexivity| |reflexivity| |].
  - apply (bool_decide_unpack _). by vm_compute.
  - repeat constructor; done.
  - intros lit Hl. vm_compute in Hl. set_unfold in Hl.
    repeat destruct Hl as [Hl|Hl]; try done; simplify_eq; by split.
Defined.
