(* ===== verification/Float64.v ===== *)
(** * Binary64 arithmetic

    Rust's [f64] is IEEE 754 binary64, rounding to nearest, ties to even: the
    Standard Library's [SpecFloat] at precision 53 and maximal exponent 1024
    computes it exactly.  This file defines the operations the rate limiter
    uses and proves what its correctness rests on: rounding stays on the same
    side of every representable number, so sums and products of non-negative
    numbers are non-negative, do not fall below their operands, and differences
    do not exceed them; and integers below 2^53 are exact. *)
From S2P Require Import Prelude.
From Stdlib Require Import SpecFloat.
Local Open Scope Z_scope.

(** ** Operations *)

Abbreviation f64 := spec_float.

Definition prec : Z := 53.
Definition emax : Z := 1024.

Definition f64_add : f64 → f64 → f64 := SFadd prec emax.
Definition f64_sub : f64 → f64 → f64 := SFsub prec emax.
Definition f64_mul : f64 → f64 → f64 := SFmul prec emax.
Definition f64_div : f64 → f64 → f64 := SFdiv prec emax.

(** [a <= b]; [a >= b] is [f64_leb b a]. *)
Definition f64_leb : f64 → f64 → bool := SFleb.
Definition f64_ltb : f64 → f64 → bool := SFltb.

(** [f64::min]: the other argument when one is NaN. *)
Definition f64_min (a b : f64) : f64 :=
  match a, b with
  | S754_nan, _ => b
  | _, S754_nan => a
  | _, _ => if f64_ltb a b then a else b
  end.

(** [n as f64] and [f64::from(n)] for an integer. *)
Definition f64_of_Z (n : Z) : f64 := binary_normalize prec emax n 0 false.

Definition f64_one : f64 := f64_of_Z 1.

(** ** Values

    A finite number [m * 2^e] is compared through the integer
    [m * 2^(e + 5000)]; every exponent that occurs is far above [-5000]. *)

Definition val (m e : Z) : Z := m * 2 ^ (e + 5000).
#[global] Arguments val : simpl never.

Abbreviation fe := (fexp prec emax).

(** A non-negative number: zero, a positive one in canonical form, or positive
    infinity. *)
Definition nonneg (x : f64) : Prop :=
  match x with
  | S754_zero _ => True
  | S754_finite s m e => s = false ∧ bounded prec emax m e = true
  | S754_infinity s => s = false
  | S754_nan => False
  end.

Definition finite (x : f64) : Prop :=
  match x with S754_zero _ | S754_finite _ _ _ => True | _ => False end.

(** [x ≤ y] on non-negative numbers, by value. *)
Definition f_le (x y : f64) : Prop :=
  match x, y with
  | S754_zero _, _ => True
  | S754_finite _ m e, S754_finite _ m' e' => val (Zpos m) e ≤ val (Zpos m') e'
  | S754_infinity _, S754_infinity _ => True
  | _, S754_infinity _ => True
  | _, _ => False
  end.

(** ** Digits *)

Lemma digits2_pos_bounds p :
  2 ^ (Zpos (digits2_pos p) - 1) ≤ Zpos p < 2 ^ Zpos (digits2_pos p).
Proof.
  induction p as [p IH|p IH|]; [| |done]; cbn [digits2_pos];
    rewrite Pos2Z.inj_succ;
    replace (Z.succ (Zpos (digits2_pos p)) - 1) with (Z.succ (Zpos (digits2_pos p) - 1)) by lia;
    rewrite !Z.pow_succ_r by lia; lia.
Qed.

Lemma Zdigits2_bounds m :
  0 < m → 2 ^ (Zdigits2 m - 1) ≤ m < 2 ^ Zdigits2 m ∧ 1 ≤ Zdigits2 m.
Proof.
  intros Hm. destruct m as [|p|p]; [lia| |lia]. cbn [Zdigits2].
  pose proof (digits2_pos_bounds p). lia.
Qed.

Lemma Zdigits2_unique m d : 0 < d → 2 ^ (d - 1) ≤ m < 2 ^ d → Zdigits2 m = d.
Proof.
  intros Hd [H1 H2]. assert (0 < 2 ^ (d - 1)) by (apply Z.pow_pos_nonneg; lia).
  destruct (Zdigits2_bounds m ltac:(lia)) as [[H3 H4] H5].
  destruct (Z.lt_trichotomy (Zdigits2 m) d) as [Hlt|[Heq|Hgt]]; [|done|].
  - assert (2 ^ Zdigits2 m ≤ 2 ^ (d - 1)) by (apply Z.pow_le_mono_r; lia). lia.
  - assert (2 ^ d ≤ 2 ^ (Zdigits2 m - 1)) by (apply Z.pow_le_mono_r; lia). lia.
Qed.

Lemma Zdigits2_le m d : 0 ≤ m < 2 ^ d → 0 ≤ d → 0 ≤ Zdigits2 m ≤ d.
Proof.
  intros [H1 H2] Hd. destruct (decide (m = 0)) as [->|]; [done|].
  destruct (Zdigits2_bounds m ltac:(lia)) as [[H3 H4] H5]. split; [lia|].
  destruct (Z.le_gt_cases (Zdigits2 m) d); [done|].
  assert (2 ^ d ≤ 2 ^ (Zdigits2 m - 1)) by (apply Z.pow_le_mono_r; lia). lia.
Qed.

Lemma fe_unfold e : fe e = Z.max (e - 53) (-1074).
Proof. done. Qed.

(** ** Shifting *)

Lemma shr_1_spec mrs :
  0 ≤ shr_m mrs →
  shr_m (shr_1 mrs) = shr_m mrs / 2 ∧
  (shr_m mrs mod 2 = 0 → shr_r mrs = false → shr_s mrs = false →
   shr_r (shr_1 mrs) = false ∧ shr_s (shr_1 mrs) = false).
Proof.
  destruct mrs as [m r s]. cbn [shr_m shr_r shr_s]. intros Hm.
  destruct m as [|[p|p|]|p]; [| | | |lia]; cbn [shr_1 shr_m shr_r shr_s].
  - by split; [|intros _ -> ->].
  - split; [|intros H; rewrite Pos2Z.inj_xI in H].
    + rewrite Pos2Z.inj_xI. symmetry. rewrite Z.mul_comm, Z.add_comm.
      rewrite Z.div_add by lia. done.
    + rewrite Z.add_comm, Z.mul_comm, Z.mod_add in H by lia. done.
  - split; [|by intros _ -> ->]. rewrite Pos2Z.inj_xO, Z.mul_comm, Z.div_mul by lia. done.
  - split; [done|]. intros H. by vm_compute in H.
Qed.

Lemma iter_shr_1_spec p mrs :
  0 ≤ shr_m mrs →
  shr_m (iter_pos shr_1 p mrs) = shr_m mrs / 2 ^ Zpos p ∧
  (shr_m mrs mod 2 ^ Zpos p = 0 → shr_r mrs = false → shr_s mrs = false →
   shr_r (iter_pos shr_1 p mrs) = false ∧ shr_s (iter_pos shr_1 p mrs) = false).
Proof.
  assert (Hcomb : ∀ a i j mrs0 mrs1 mrs2, 0 ≤ i → 0 ≤ j → shr_m mrs0 = a → 0 ≤ a →
    (shr_m mrs1 = a / 2 ^ i ∧ (a mod 2 ^ i = 0 → shr_r mrs0 = false → shr_s mrs0 = false →
       shr_r mrs1 = false ∧ shr_s mrs1 = false)) →
    (shr_m mrs2 = shr_m mrs1 / 2 ^ j ∧ (shr_m mrs1 mod 2 ^ j = 0 → shr_r mrs1 = false →
       shr_s mrs1 = false → shr_r mrs2 = false ∧ shr_s mrs2 = false)) →
    shr_m mrs2 = a / 2 ^ (i + j) ∧ (a mod 2 ^ (i + j) = 0 → shr_r mrs0 = false →
       shr_s mrs0 = false → shr_r mrs2 = false ∧ shr_s mrs2 = false)).
  { intros a i j mrs0 mrs1 mrs2 Hi Hj Ha Hpos [E1 B1] [E2 B2].
    assert (0 < 2 ^ i) by (apply Z.pow_pos_nonneg; lia).
    assert (0 < 2 ^ j) by (apply Z.pow_pos_nonneg; lia).
    rewrite Z.pow_add_r by lia. split.
    - rewrite E2, E1, Z.div_div by lia. done.
    - intros Hm Hr Hs.
      assert (Hmi : a mod 2 ^ i = 0).
      { rewrite Z.rem_mul_r in Hm by lia.
        pose proof (Z.mod_pos_bound a (2 ^ i)).
        pose proof (Z.mod_pos_bound (a / 2 ^ i) (2 ^ j)). nia. }
      destruct (B1 Hmi Hr Hs) as [Hr1 Hs1]. apply B2; [|done|done].
      rewrite E1. rewrite Z.rem_mul_r, Hmi in Hm by lia. nia. }
  revert mrs. induction p as [p IH|p IH|]; intros mrs Hm; cbn [iter_pos].
  - replace (Zpos p~1) with (1 + (Zpos p + Zpos p)) by lia.
    pose proof (shr_1_spec mrs Hm) as H1.
    assert (0 ≤ shr_m (shr_1 mrs)) by (rewrite (proj1 H1); apply Z.div_pos; lia).
    pose proof (IH (shr_1 mrs) ltac:(done)) as H2.
    assert (0 ≤ shr_m (iter_pos shr_1 p (shr_1 mrs))).
    { rewrite (proj1 H2). apply Z.div_pos; [lia|]. apply Z.pow_pos_nonneg; lia. }
    eapply Hcomb; [lia|lia|done|done|exact H1|].
    eapply Hcomb; [lia|lia|done|done|exact H2|]. by apply IH.
  - replace (Zpos p~0) with (Zpos p + Zpos p) by lia.
    pose proof (IH mrs Hm) as H2.
    assert (0 ≤ shr_m (iter_pos shr_1 p mrs)).
    { rewrite (proj1 H2). apply Z.div_pos; [lia|]. apply Z.pow_pos_nonneg; lia. }
    eapply Hcomb; [lia|lia|done|done|exact H2|]. by apply IH.
  - apply shr_1_spec. done.
Qed.

(** ** Rounding *)

Lemma shr_fexp_spec m e l mrs e' :
  0 ≤ m → e ≤ fe (Zdigits2 m + e) → shr_fexp prec emax m e l = (mrs, e') →
  e' = fe (Zdigits2 m + e) ∧ shr_m mrs = m / 2 ^ (e' - e) ∧
  (l = loc_Exact → m mod 2 ^ (e' - e) = 0 → shr_r mrs = false ∧ shr_s mrs = false).
Proof.
  intros Hm He. unfold shr_fexp.
  assert (Hrec : shr_m (shr_record_of_loc m l) = m) by (by destruct l as [|[]]).
  assert (Hex : l = loc_Exact → shr_r (shr_record_of_loc m l) = false ∧
                shr_s (shr_record_of_loc m l) = false) by (by intros ->).
  destruct (fe (Zdigits2 m + e) - e) as [|p|p] eqn:En; [| |lia]; cbn [shr].
  - intros [= <- <-]. replace (e - e) with 0 by lia. rewrite Z.div_1_r.
    split; [lia|]. by split; [|intros ->; auto].
  - intros [= <- <-]. replace (e + Zpos p - e) with (Zpos p) by lia.
    destruct (iter_shr_1_spec p (shr_record_of_loc m l) ltac:(by rewrite Hrec)) as [E B].
    rewrite Hrec in *. split; [lia|]. split; [done|].
    intros Hl Hmod. destruct (Hex Hl). by apply B.
Qed.

Lemma round_nearest_even_spec mrs :
  shr_m mrs ≤ round_nearest_even (shr_m mrs) (loc_of_shr_record mrs) ≤ shr_m mrs + 1 ∧
  (shr_r mrs = false → shr_s mrs = false →
   round_nearest_even (shr_m mrs) (loc_of_shr_record mrs) = shr_m mrs).
Proof.
  destruct mrs as [m [] []]; cbn [shr_m shr_r shr_s loc_of_shr_record round_nearest_even];
    (split; [try destruct (Z.even m); lia|by intros]).
Qed.

(** What a positive number in canonical form satisfies. *)
Lemma bounded_spec m e :
  bounded prec emax m e = true ↔
  fe (Zdigits2 (Zpos m) + e) = e ∧ e ≤ 971.
Proof.
  unfold bounded, canonical_mantissa. cbn [Zdigits2]. change (emax - prec) with 971. lia.
Qed.

Lemma bounded_range m e :
  bounded prec emax m e = true →
  0 < Zpos m < 2 ^ 53 ∧ -1074 ≤ e ≤ 971 ∧ (e = -1074 ∨ 2 ^ 52 ≤ Zpos m).
Proof.
  intros [Hc He]%bounded_spec. rewrite fe_unfold in Hc.
  destruct (Zdigits2_bounds (Zpos m) ltac:(lia)) as [[H1 H2] H3].
  assert (2 ^ Zdigits2 (Zpos m) ≤ 2 ^ 53) by (apply Z.pow_le_mono_r; lia).
  split; [lia|]. split; [lia|]. destruct (decide (e = -1074)); [by left|]. right.
  replace (Zdigits2 (Zpos m) - 1) with 52 in H1 by lia. done.
Qed.

Lemma val_shift m e k : 0 ≤ k → -5000 ≤ e → val (m * 2 ^ k) e = val m (e + k).
Proof.
  intros Hk He. unfold val. replace (e + k + 5000) with (k + (e + 5000)) by lia.
  rewrite (Z.pow_add_r 2 k) by lia. ring.
Qed.

Lemma val_le_same m m' e : -5000 ≤ e → val m e ≤ val m' e ↔ m ≤ m'.
Proof.
  intros He. unfold val. assert (0 < 2 ^ (e + 5000)) by (apply Z.pow_pos_nonneg; lia). nia.
Qed.

Lemma val_lt_same m m' e : -5000 ≤ e → val m e < val m' e ↔ m < m'.
Proof.
  intros He. unfold val. assert (0 < 2 ^ (e + 5000)) by (apply Z.pow_pos_nonneg; lia). nia.
Qed.

Lemma val_pos m e : 0 < m → -5000 ≤ e → 0 < val m e.
Proof. intros Hm He. unfold val. apply Z.mul_pos_pos; [lia|]. apply Z.pow_pos_nonneg; lia. Qed.

(** The mantissa after rounding, renormalised: a carry to [2^53] moves into the
    exponent and loses nothing. *)
Lemma renormalise m e mrs e' :
  -1074 ≤ e → 0 ≤ m → (2 ^ 52 ≤ m ≤ 2 ^ 53 ∨ m ≤ 2 ^ 52 ∧ e = -1074) →
  shr_fexp prec emax m e loc_Exact = (mrs, e') →
  e ≤ e' ∧ m = shr_m mrs * 2 ^ (e' - e) ∧
  (∀ p, shr_m mrs = Zpos p → fe (Zdigits2 (Zpos p) + e') = e').
Proof.
  intros He Hm Hcase Hs.
  destruct (decide (m = 2 ^ 53)) as [->|Hne].
  - assert (Hd : Zdigits2 (2 ^ 53) = 54) by done.
    apply shr_fexp_spec in Hs as (-> & Hsm & _); [|done|rewrite Hd, fe_unfold; lia].
    rewrite Hd, fe_unfold in *. replace (Z.max (54 + e - 53) (-1074)) with (e + 1) in * by lia.
    replace (e + 1 - e) with 1 in * by lia. change (2 ^ 53 / 2 ^ 1) with (2 ^ 52) in Hsm.
    rewrite Hsm. split; [lia|]. split; [done|]. intros p <-.
    change (Zdigits2 (2 ^ 52)) with 53. rewrite fe_unfold. lia.
  - assert (Hfe : fe (Zdigits2 m + e) = e).
    { rewrite fe_unfold. destruct Hcase as [Hc|[Hc ->]].
      - assert (Zdigits2 m = 53) as ->; [|lia]. apply Zdigits2_unique; [lia|].
        change (53 - 1) with 52. lia.
      - pose proof (Zdigits2_le m 53 ltac:(lia) ltac:(lia)). lia. }
    apply shr_fexp_spec in Hs as (-> & Hsm & _); [|done|lia].
    rewrite Hfe in *. replace (e - e) with 0 in * by lia.
    rewrite Z.div_1_r in Hsm. rewrite Hsm. split; [lia|]. split; [lia|].
    intros p <-. done.
Qed.

(** The rounded mantissa sits between the floor and the floor plus one, with the
    position of its leading bit known. *)
Lemma rounded_range m e f :
  0 ≤ m → e ≤ fe (Zdigits2 m + e) → f = m / 2 ^ (fe (Zdigits2 m + e) - e) →
  0 ≤ f ∧ (2 ^ 52 ≤ f < 2 ^ 53 ∨ f < 2 ^ 52 ∧ fe (Zdigits2 m + e) = -1074).
Proof.
  intros Hm He ->. set (d := Zdigits2 m) in *. set (n := fe (d + e) - e).
  assert (Hn : 0 ≤ n) by (unfold n; lia).
  assert (0 < 2 ^ n) by (apply Z.pow_pos_nonneg; lia).
  split; [by apply Z.div_pos|].
  destruct (decide (m = 0)) as [->|Hm0].
  { right. split; [by rewrite Z.div_0_l by lia|].
    assert (d = 0) by done. unfold n in *. rewrite fe_unfold in *. lia. }
  destruct (Zdigits2_bounds m ltac:(lia)) as [[H1 H2] H3]. fold d in H1, H2, H3.
  unfold n in *. clearbody n. rewrite fe_unfold in *.
  destruct (Z.le_gt_cases (-1074) (d + e - 53)) as [Hbig|Hsmall].
  - left. replace (Z.max (d + e - 53) (-1074) - e) with (d - 53) in * by lia.
    split.
    + apply Z.div_le_lower_bound; [lia|]. rewrite <- Z.pow_add_r by lia.
      by replace (d - 53 + 52) with (d - 1) by lia.
    + apply Z.div_lt_upper_bound; [lia|]. rewrite <- Z.pow_add_r by lia.
      by replace (d - 53 + 53) with d by lia.
  - right. split; [|lia]. replace (Z.max (d + e - 53) (-1074)) with (-1074) in * by lia.
    apply Z.div_lt_upper_bound; [lia|]. rewrite <- Z.pow_add_r by lia.
    eapply Z.lt_le_trans; [done|]. apply Z.pow_le_mono_r; lia.
Qed.

(** A representable number below the exact value is not above its floor at the
    rounding exponent. *)
Lemma representable_floor m e my ey :
  0 < m → -5000 ≤ e → e ≤ fe (Zdigits2 m + e) → bounded prec emax my ey = true →
  let e' := fe (Zdigits2 m + e) in
  val (Zpos my) ey ≤ val m e → val (Zpos my) ey ≤ val (m / 2 ^ (e' - e)) e'.
Proof.
  intros Hm He Hle Hb e' Hv.
  destruct (bounded_range _ _ Hb) as (Hmy & Hey & _). apply bounded_spec in Hb as [Hc _].
  assert (He' : -1074 ≤ e') by (unfold e'; rewrite fe_unfold; lia).
  assert (Hee : e ≤ e') by exact Hle.
  assert (0 < 2 ^ (e' - e)) by (apply Z.pow_pos_nonneg; lia).
  destruct (Z.le_gt_cases e' ey) as [Hge|Hlt].
  - replace ey with (e' + (ey - e')) in Hv |- * by lia.
    rewrite <- val_shift in Hv |- * by lia. apply val_le_same; [lia|].
    apply Z.div_le_lower_bound; [done|].
    replace e' with (e + (e' - e)) in Hv at 2 by lia. rewrite <- val_shift in Hv by lia.
    apply val_le_same in Hv; lia.
  - rewrite fe_unfold in Hc. unfold e' in *. rewrite fe_unfold in *.
    destruct (Zdigits2_bounds (Zpos my) ltac:(lia)) as [[_ H2] Hdy].
    destruct (Zdigits2_bounds m Hm) as [[H1 _] _].
    set (d := Zdigits2 m) in *. set (dy := Zdigits2 (Zpos my)) in *.
    assert (Hex : Z.max (d + e - 53) (-1074) = d + e - 53) by lia. rewrite Hex in *.
    apply Z.le_trans with (val (2 ^ 52) (d + e - 53)).
    + apply Z.le_trans with (val (2 ^ dy) ey).
      { apply val_le_same; lia. }
      rewrite <- (Z.mul_1_l (2 ^ dy)), <- (Z.mul_1_l (2 ^ 52)), !val_shift by lia.
      unfold val. apply Z.mul_le_mono_nonneg_l; [lia|]. apply Z.pow_le_mono_r; lia.
    + apply val_le_same; [lia|]. apply Z.div_le_lower_bound; [lia|].
      rewrite <- Z.pow_add_r by lia. by replace (d + e - 53 - e + 52) with (d - 1) by lia.
Qed.

(** A representable number not below the exact value is not below the floor plus
    one, unless nothing is cut off. *)
Lemma representable_ceil m e my ey :
  0 < m → -5000 ≤ e → e ≤ fe (Zdigits2 m + e) → bounded prec emax my ey = true →
  let e' := fe (Zdigits2 m + e) in
  val m e ≤ val (Zpos my) ey → m mod 2 ^ (e' - e) ≠ 0 →
  val (m / 2 ^ (e' - e) + 1) e' ≤ val (Zpos my) ey.
Proof.
  intros Hm He Hle Hb e' Hv Hmod.
  destruct (bounded_range _ _ Hb) as (Hmy & Hey & _). apply bounded_spec in Hb as [Hc _].
  assert (He' : -1074 ≤ e') by (unfold e'; rewrite fe_unfold; lia).
  assert (Hee : e ≤ e') by exact Hle.
  assert (H0 : 0 < 2 ^ (e' - e)) by (apply Z.pow_pos_nonneg; lia).
  destruct (Z.le_gt_cases e' ey) as [Hge|Hlt].
  - replace ey with (e' + (ey - e')) in Hv |- * by lia.
    rewrite <- val_shift in Hv |- * by lia. apply val_le_same; [lia|].
    replace e' with (e + (e' - e)) in Hv at 2 by lia. rewrite <- val_shift in Hv by lia.
    apply val_le_same in Hv; [|lia].
    pose proof (Z.div_mod m (2 ^ (e' - e)) ltac:(lia)).
    pose proof (Z.mod_pos_bound m (2 ^ (e' - e)) H0). nia.
  - exfalso. rewrite fe_unfold in Hc. unfold e' in *. rewrite fe_unfold in *.
    destruct (Zdigits2_bounds (Zpos my) ltac:(lia)) as [[_ H2] Hdy].
    destruct (Zdigits2_bounds m Hm) as [[H1 _] Hd].
    set (d := Zdigits2 m) in *. set (dy := Zdigits2 (Zpos my)) in *.
    apply (Z.lt_irrefl (val m e)). eapply Z.le_lt_trans; [done|].
    apply Z.lt_le_trans with (val (2 ^ dy) ey); [apply val_lt_same; lia|].
    apply Z.le_trans with (val (2 ^ (d - 1)) e); [|apply val_le_same; lia].
    rewrite <- (Z.mul_1_l (2 ^ dy)), <- (Z.mul_1_l (2 ^ (d - 1))), !val_shift by lia.
    unfold val. apply Z.mul_le_mono_nonneg_l; [lia|]. apply Z.pow_le_mono_r; lia.
Qed.

(** A number in canonical form with too large an exponent is above every
    representable one. *)
Lemma overflow_above p e my ey :
  971 < e → fe (Zdigits2 (Zpos p) + e) = e → bounded prec emax my ey = true →
  val (Zpos my) ey < val (Zpos p) e.
Proof.
  intros He Hcan Hb. destruct (bounded_range _ _ Hb) as (H1 & H2 & _).
  rewrite fe_unfold in Hcan.
  destruct (Zdigits2_bounds (Zpos p) ltac:(lia)) as [[H3 _] _].
  replace (Zdigits2 (Zpos p)) with 53 in H3 by lia.
  apply Z.lt_le_trans with (val (2 ^ 53) 971).
  - apply Z.lt_le_trans with (val (2 ^ 53) ey); [apply val_lt_same; lia|].
    unfold val. apply Z.mul_le_mono_nonneg_l; [lia|]. apply Z.pow_le_mono_r; lia.
  - apply Z.le_trans with (val (2 ^ 52) e); [|apply val_le_same; lia].
    rewrite <- (Z.mul_1_l (2 ^ 53)), <- (Z.mul_1_l (2 ^ 52)), !val_shift by lia.
    unfold val. apply Z.mul_le_mono_nonneg_l; [lia|]. apply Z.pow_le_mono_r; lia.
Qed.

(** A significand that is the shifted one or the next stays above every number
    that is not above the input. *)
Lemma rounded_above m e q my ey :
  0 ≤ m → -5000 ≤ e → e ≤ fe (Zdigits2 m + e) → bounded prec emax my ey = true →
  let e' := fe (Zdigits2 m + e) in
  m / 2 ^ (e' - e) ≤ q → val (Zpos my) ey ≤ val m e → val (Zpos my) ey ≤ val q e'.
Proof.
  intros Hm He Hle Hb e' Hq Hv. destruct (bounded_range _ _ Hb). pose proof (val_pos (Zpos my) ey).
  destruct (decide (m = 0)) as [->|]; [unfold val in Hv at 2; lia|].
  etrans; [apply (representable_floor m e); done || lia|].
  apply val_le_same; [unfold e'; rewrite fe_unfold; lia|done].
Qed.

(** One that is exact when nothing is lost stays below every number that is not
    below it. *)
Lemma rounded_below m e q my ey :
  0 ≤ m → -5000 ≤ e → e ≤ fe (Zdigits2 m + e) → bounded prec emax my ey = true →
  let e' := fe (Zdigits2 m + e) in
  q ≤ m / 2 ^ (e' - e) + 1 → (m mod 2 ^ (e' - e) = 0 → q = m / 2 ^ (e' - e)) →
  val m e ≤ val (Zpos my) ey → val q e' ≤ val (Zpos my) ey.
Proof.
  intros Hm He Hle Hb e' Hq Hexact Hv.
  assert (He1 : -1074 ≤ e') by (unfold e'; rewrite fe_unfold; lia).
  assert (Hee : e ≤ e') by done.
  destruct (decide (m mod 2 ^ (e' - e) = 0)) as [Hz|Hnz].
  - rewrite Hexact by done. etrans; [|done]. replace e' with (e + (e' - e)) at 2 by lia.
    rewrite <- val_shift by lia. apply val_le_same; [lia|].
    pose proof (Z.div_mod m (2 ^ (e' - e))). lia.
  - assert (m ≠ 0) by (intros ->; rewrite Z.mod_0_l in Hnz; [done|apply Z.pow_nonzero; lia]).
    etrans; [|apply (representable_ceil m e); done || lia]. apply val_le_same; [lia|done].
Qed.

(** Rounding a non-negative exact value: the result is non-negative and in
    canonical form, and stays on the same side of every representable number. *)
Lemma round_aux_spec m e l :
  0 ≤ m → -5000 ≤ e → e ≤ fe (Zdigits2 m + e) →
  let r := binary_round_aux prec emax false m e l in
  nonneg r ∧
  (∀ my ey, bounded prec emax my ey = true →
     val (Zpos my) ey ≤ val m e → f_le (S754_finite false my ey) r) ∧
  (l = loc_Exact → ∀ my ey, bounded prec emax my ey = true →
     val m e ≤ val (Zpos my) ey → f_le r (S754_finite false my ey)).
Proof.
  intros Hm He Hle. unfold binary_round_aux.
  destruct (shr_fexp prec emax m e l) as [mrs e1] eqn:E1.
  apply shr_fexp_spec in E1 as (-> & Hf & Hexact); [|done|done].
  destruct (round_nearest_even_spec mrs) as [Hrne Hrne0].
  pose proof (rounded_range m e (shr_m mrs) Hm Hle Hf) as [Hf0 Hfc].
  set (mx := round_nearest_even _ _) in *.
  destruct (shr_fexp prec emax mx (fe (Zdigits2 m + e)) loc_Exact) as [mrs2 e2] eqn:E2.
  assert (He1 : -1074 ≤ fe (Zdigits2 m + e)) by (rewrite fe_unfold; lia).
  apply renormalise in E2 as (He2 & Hmx & Hcan); [|lia|lia|lia].
  change (emax - prec) with 971.
  assert (Hval : val (shr_m mrs2) e2 = val mx (fe (Zdigits2 m + e))).
  { rewrite Hmx, val_shift by lia. f_equal. lia. }
  assert (Hpos : 0 ≤ shr_m mrs2).
  { assert (0 < 2 ^ (e2 - fe (Zdigits2 m + e))) by (apply Z.pow_pos_nonneg; lia). nia. }
  assert (Hlow : ∀ my ey, bounded prec emax my ey = true →
    val (Zpos my) ey ≤ val m e → val (Zpos my) ey ≤ val (shr_m mrs2) e2).
  { intros my ey Hb Hv. rewrite Hval. apply rounded_above; try done. lia. }
  assert (Hup : l = loc_Exact → ∀ my ey, bounded prec emax my ey = true →
    val m e ≤ val (Zpos my) ey → val (shr_m mrs2) e2 ≤ val (Zpos my) ey).
  { intros Hl my ey Hb Hv. rewrite Hval. apply rounded_below; try done; [lia|].
    intros Hz. destruct (Hexact Hl Hz). by rewrite Hrne0. }
  destruct (shr_m mrs2) as [|p|p] eqn:Ep; [| |lia].
  - split; [done|]. split; [|by intros; simpl]. intros my ey Hb Hv. exfalso.
    pose proof (Hlow my ey Hb Hv) as Hl0. destruct (bounded_range _ _ Hb).
    pose proof (val_pos (Zpos my) ey). unfold val in Hl0 at 2. lia.
  - destruct (e2 <=? 971) eqn:Ee; simpl.
    + split; [split; [done|]; apply bounded_spec; split; [by apply Hcan|lia]|]. by split.
    + split; [done|]. split; [done|]. intros Hl my ey Hb Hv.
      pose proof (Hup Hl my ey Hb Hv).
      pose proof (overflow_above p e2 my ey ltac:(lia) (Hcan p eq_refl) Hb). lia.
Qed.

(** ** Order *)

Lemma canonical_exp_lt m1 e1 m2 e2 :
  bounded prec emax m1 e1 = true → bounded prec emax m2 e2 = true → e1 < e2 →
  val (Zpos m1) e1 < val (Zpos m2) e2.
Proof.
  intros H1%bounded_range H2%bounded_range Hlt.
  apply Z.lt_le_trans with (val (2 ^ 53) e1); [apply val_lt_same; lia|].
  apply Z.le_trans with (val (2 ^ 52) e2); [|apply val_le_same; lia].
  rewrite <- (Z.mul_1_l (2 ^ 53)), <- (Z.mul_1_l (2 ^ 52)), !val_shift by lia.
  unfold val. apply Z.mul_le_mono_nonneg_l; [lia|]. apply Z.pow_le_mono_r; lia.
Qed.

Lemma val_inj m1 e1 m2 e2 :
  bounded prec emax m1 e1 = true → bounded prec emax m2 e2 = true →
  val (Zpos m1) e1 = val (Zpos m2) e2 → m1 = m2 ∧ e1 = e2.
Proof.
  intros H1 H2 Hv. destruct (Z.lt_trichotomy e1 e2) as [Hlt|[->|Hgt]].
  - pose proof (canonical_exp_lt _ _ _ _ H1 H2 Hlt). lia.
  - split; [|done]. apply bounded_range in H2.
    apply Pos2Z.inj, Z.le_antisymm; apply (val_le_same _ _ e2); lia.
  - pose proof (canonical_exp_lt _ _ _ _ H2 H1 Hgt). lia.
Qed.

(** The comparison of the hardware is the order on values. *)
Lemma f64_compare_spec m1 e1 m2 e2 :
  bounded prec emax m1 e1 = true → bounded prec emax m2 e2 = true →
  SFcompare (S754_finite false m1 e1) (S754_finite false m2 e2) =
    Some (val (Zpos m1) e1 ?= val (Zpos m2) e2).
Proof.
  intros H1 H2. cbn [SFcompare]. f_equal. destruct (Z.compare_spec e1 e2) as [->|Hlt|Hgt].
  - apply bounded_range in H1. change (Pos.compare_cont Eq m1 m2) with (Zpos m1 ?= Zpos m2).
    unfold val. rewrite Z.mul_comm, (Z.mul_comm (Zpos m2)).
    apply Zmult_compare_compat_l. apply Z.lt_gt, Z.pow_pos_nonneg; lia.
  - symmetry. by apply Z.compare_lt_iff, canonical_exp_lt.
  - symmetry. by apply Z.compare_gt_iff, canonical_exp_lt.
Qed.

Lemma f64_leb_spec x y : nonneg x → nonneg y → f64_leb x y = true ↔ f_le x y.
Proof.
  unfold f64_leb, SFleb. intros Hx Hy.
  destruct x as [sx|sx| |sx mx ex], y as [sy|sy| |sy my ey]; simpl in Hx, Hy;
    try done; open_hyps; subst; try done.
  rewrite f64_compare_spec by done. simpl.
  destruct (Z.compare_spec (val (Zpos mx) ex) (val (Zpos my) ey));
    split; intros; first [done|lia|exfalso; lia].
Qed.

Lemma f64_ltb_spec x y : nonneg x → nonneg y → f64_ltb x y = true ↔ ¬ f_le y x.
Proof.
  unfold f64_ltb, SFltb. intros Hx Hy.
  destruct x as [sx|sx| |sx mx ex], y as [sy|sy| |sy my ey]; simpl in Hx, Hy;
    try done; open_hyps; subst; try (simpl; naive_solver).
  rewrite f64_compare_spec by done. simpl.
  destruct (Z.compare_spec (val (Zpos mx) ex) (val (Zpos my) ey));
    split; intros; first [done|lia|exfalso; lia].
Qed.

Lemma f_le_refl x : nonneg x → f_le x x.
Proof. destruct x; simpl; done || lia. Qed.

Lemma f_le_trans x y z : f_le x y → f_le y z → f_le x z.
Proof.
  destruct x, y, z; simpl; try done; try lia.
Qed.

Lemma f_le_total x y : nonneg x → nonneg y → f_le x y ∨ f_le y x.
Proof. destruct x, y; simpl; try tauto; lia. Qed.

(** ** Operations on non-negative numbers *)

Lemma iter_xO p n : Zpos (Pos.iter xO p n) = Zpos p * 2 ^ Zpos n.
Proof.
  induction n as [|n IH] using Pos.peano_ind; [simpl; lia|].
  rewrite Pos.iter_succ. rewrite Pos2Z.inj_xO, IH, Pos2Z.inj_succ, Z.pow_succ_r by lia. lia.
Qed.

Lemma shl_align_spec m e e' mz ez :
  -5000 ≤ e' → shl_align m e e' = (mz, ez) →
  ez = Z.min e e' ∧ ez ≤ e ∧ Zpos mz = Zpos m * 2 ^ (e - ez).
Proof.
  unfold shl_align. intros He'. destruct (e' - e) as [|p|p] eqn:Ed; intros [= <- <-].
  - split; [lia|]. split; [lia|]. replace (e - e) with 0 by lia. lia.
  - split; [lia|]. split; [lia|]. replace (e - e) with 0 by lia. lia.
  - split; [lia|]. split; [lia|]. rewrite iter_xO. do 2 f_equal. lia.
Qed.

Lemma Zdigits2_shift m k : 0 ≤ k → Zdigits2 (Zpos m * 2 ^ k) = Zdigits2 (Zpos m) + k.
Proof.
  intros Hk. destruct (Zdigits2_bounds (Zpos m) ltac:(lia)) as [[H1 H2] H3].
  assert (0 < 2 ^ k) by (apply Z.pow_pos_nonneg; lia).
  apply Zdigits2_unique; [lia|].
  replace (Zdigits2 (Zpos m) + k - 1) with (Zdigits2 (Zpos m) - 1 + k) by lia.
  rewrite !Z.pow_add_r by lia. nia.
Qed.

(** Rounding an exact dyadic value [m * 2^e]. *)
Lemma normalize_spec m e :
  0 ≤ m → -5000 ≤ e →
  let r := binary_normalize prec emax m e false in
  nonneg r ∧
  (∀ my ey, bounded prec emax my ey = true →
     val (Zpos my) ey ≤ val m e → f_le (S754_finite false my ey) r) ∧
  (∀ my ey, bounded prec emax my ey = true →
     val m e ≤ val (Zpos my) ey → f_le r (S754_finite false my ey)).
Proof.
  intros Hm He. destruct m as [|m|m]; [| |lia]; cbn [binary_normalize].
  - split; [done|]. split; [|done]. intros my ey Hb Hv.
    destruct (bounded_range _ _ Hb). pose proof (val_pos (Zpos my) ey).
    unfold val in Hv at 2. lia.
  - unfold binary_round.
    destruct (shl_align m e (fe (Zpos (digits2_pos m) + e))) as [mz ez] eqn:Ea.
    apply shl_align_spec in Ea as (Hez & Hle & Hmz); [|rewrite fe_unfold; lia].
    change (Zpos (digits2_pos m)) with (Zdigits2 (Zpos m)) in Hez.
    assert (Hd : Zdigits2 (Zpos mz) + ez = Zdigits2 (Zpos m) + e).
    { rewrite Hmz, Zdigits2_shift by lia. lia. }
    assert (-5000 ≤ ez) by (rewrite Hez, fe_unfold; lia).
    assert (Hv : val (Zpos mz) ez = val (Zpos m) e).
    { rewrite Hmz, val_shift by lia. f_equal. lia. }
    destruct (round_aux_spec (Zpos mz) ez loc_Exact) as (H1 & H2 & H3);
      [lia|done|rewrite Hd; lia|].
    rewrite Hv in *. split; [done|]. split; [done|]. by apply H3.
Qed.

Lemma align_val m e ez :
  -5000 ≤ ez ≤ e → val (Zpos (fst (shl_align m e ez))) ez = val (Zpos m) e.
Proof.
  intros H. destruct (shl_align m e ez) as [mz ez'] eqn:Ea.
  apply shl_align_spec in Ea as (Hez & Hle & Hmz); [|lia]. cbn [fst].
  rewrite Hmz. replace (Z.min e ez) with ez in Hez by lia. subst ez'.
  rewrite val_shift by lia. f_equal. lia.
Qed.

Lemma val_add m1 m2 e : val (m1 + m2) e = val m1 e + val m2 e.
Proof. unfold val. lia. Qed.

Lemma val_sub m1 m2 e : val (m1 - m2) e = val m1 e - val m2 e.
Proof. unfold val. lia. Qed.

Lemma f64_add_spec x y :
  nonneg x → nonneg y →
  nonneg (f64_add x y) ∧ f_le x (f64_add x y) ∧ f_le y (f64_add x y).
Proof.
  intros Hx Hy. unfold f64_add.
  destruct x as [sx|sx| |sx mx ex], y as [sy|sy| |sy my ey]; simpl in Hx, Hy;
    try done; open_hyps; subst; cbn [SFadd cond_Zopp];
    try (simpl; repeat split; done || lia); try (by destruct sx, sy).
  set (ez := Z.min ex ey).
  assert (Bx : bounded prec emax mx ex = true) by done.
  assert (By : bounded prec emax my ey = true) by done.
  destruct (bounded_range _ _ Bx) as (? & ? & _), (bounded_range _ _ By) as (? & ? & _).
  destruct (normalize_spec (Zpos (fst (shl_align mx ex ez)) + Zpos (fst (shl_align my ey ez))) ez)
    as (Rn & Rl & _); [lia|lia|].
  rewrite val_add, !align_val in Rl by lia.
  pose proof (val_pos (Zpos mx) ex). pose proof (val_pos (Zpos my) ey).
  split; [done|]. split; apply Rl; done || lia.
Qed.

(** Taking one from a number that is at least one. *)
Lemma f64_sub_spec x y :
  nonneg x → finite x → nonneg y → finite y → f_le y x →
  nonneg (f64_sub x y) ∧ finite (f64_sub x y) ∧ f_le (f64_sub x y) x.
Proof.
  intros Hx Fx Hy Fy Hle. unfold f64_sub.
  destruct x as [sx|sx| |sx mx ex], y as [sy|sy| |sy my ey]; simpl in Hx, Hy, Fx, Fy, Hle;
    try done; open_hyps; subst; cbn [SFsub cond_Zopp]; try (by destruct sx, sy);
    try (simpl; repeat split; done || lia).
  set (ez := Z.min ex ey).
  assert (Bx : bounded prec emax mx ex = true) by done.
  assert (By : bounded prec emax my ey = true) by done.
  destruct (bounded_range _ _ Bx) as (? & ? & _), (bounded_range _ _ By) as (? & ? & _).
  pose proof (align_val mx ex ez ltac:(lia)) as Ax. pose proof (align_val my ey ez ltac:(lia)) as Ay.
  destruct (normalize_spec (Zpos (fst (shl_align mx ex ez)) - Zpos (fst (shl_align my ey ez))) ez)
    as (Rn & _ & Ru); [|lia|].
  { assert (Zpos (fst (shl_align my ey ez)) ≤ Zpos (fst (shl_align mx ex ez))); [|lia].
    apply (val_le_same _ _ ez); lia. }
  rewrite val_sub, Ax, Ay in Ru. pose proof (val_pos (Zpos my) ey).
  specialize (Ru mx ex Bx ltac:(lia)). split; [done|]. split; [|done].
  by destruct (binary_normalize _ _ _ _ _).
Qed.

Lemma mul_exponent mx ex my ey :
  bounded prec emax mx ex = true → bounded prec emax my ey = true →
  ex + ey ≤ fe (Zdigits2 (Zpos (mx * my)) + (ex + ey)).
Proof.
  intros Bx By.
  destruct (bounded_range _ _ Bx) as (? & ? & Cx), (bounded_range _ _ By) as (? & ? & Cy).
  rewrite fe_unfold. destruct (Zdigits2_bounds (Zpos (mx * my)) ltac:(lia)) as [[_ Hlt] Hd].
  rewrite Pos2Z.inj_mul in Hlt at 1.
  destruct (decide (ex = -1074 ∧ ey = -1074)) as [[-> ->]|Hn]; [lia|].
  assert (2 ^ 52 < 2 ^ Zdigits2 (Zpos (mx * my))) by nia.
  assert (52 < Zdigits2 (Zpos (mx * my))); [|lia].
  apply (Z.pow_lt_mono_r_iff 2); [lia|lia|done].
Qed.

Lemma val_one : val 1 0 = 2 ^ 5000.
Proof. unfold val. by rewrite Z.mul_1_l. Qed.

Lemma f64_one_eq : f64_one = S754_finite false (2 ^ 52) (-52).
Proof. reflexivity. Qed.

(** A positive finite number. *)
Definition positive_fin (y : f64) : Prop :=
  ∃ m e, y = S754_finite false m e ∧ bounded prec emax m e = true.

Lemma f64_mul_spec x y :
  nonneg x → positive_fin y →
  nonneg (f64_mul x y) ∧ (f_le f64_one x → f_le y (f64_mul x y)).
Proof.
  intros Hx (my & ey & -> & By). unfold f64_mul. rewrite f64_one_eq.
  destruct x as [sx|sx| |sx mx ex]; simpl in Hx;
    try done; open_hyps; subst; cbn [SFmul xorb]; [done|].
  assert (Bx : bounded prec emax mx ex = true) by done.
  destruct (bounded_range _ _ Bx) as (? & ? & _), (bounded_range _ _ By) as (? & ? & _).
  destruct (round_aux_spec (Zpos (mx * my)) (ex + ey) loc_Exact) as (Rn & Rl & _);
    [lia|lia|by apply mul_exponent|].
  split; [done|]. cbn [f_le]. intros Hone. apply Rl; [done|].
  assert (Hmx : 2 ^ 5000 ≤ val (Zpos mx) ex).
  { etrans; [|exact Hone]. rewrite <- val_one.
    change (Zpos (2 ^ 52)) with (1 * 2 ^ 52). rewrite val_shift by lia. done. }
  apply (Z.mul_le_mono_pos_r _ _ (2 ^ 5000)); [by apply Z.pow_pos_nonneg|].
  apply Z.le_trans with (val (Zpos my) ey * val (Zpos mx) ex).
  { apply Z.mul_le_mono_nonneg_l; [|done]. pose proof (val_pos (Zpos my) ey). lia. }
  unfold val. rewrite Pos2Z.inj_mul.
  assert (E : 2 ^ (ex + ey + 5000) * 2 ^ 5000 = 2 ^ (ex + 5000) * 2 ^ (ey + 5000)).
  { rewrite <- !Z.pow_add_r by lia. f_equal. lia. }
  apply Z.eq_le_incl.
  transitivity (Zpos mx * Zpos my * (2 ^ (ex + 5000) * 2 ^ (ey + 5000))); [ring|].
  rewrite <- E. ring.
Qed.

(** Quotients of finite numbers by positive ones. *)
Lemma f64_div_nonneg x my ey :
  nonneg x → finite x → bounded prec emax my ey = true →
  nonneg (f64_div x (S754_finite false my ey)).
Proof.
  intros Hx Fx By. unfold f64_div.
  destruct x as [sx|sx| |sx mx ex]; simpl in Hx, Fx; try done; open_hyps; subst.
  cbn [SFdiv xorb]. destruct (SFdiv_core_binary _ _ _ _ _ _) as [[q e] l] eqn:Eq.
  assert (Bx : bounded prec emax mx ex = true) by done.
  destruct (bounded_range _ _ Bx) as (? & ? & _), (bounded_range _ _ By) as (? & ? & _).
  unfold SFdiv_core_binary in Eq. cbv zeta in Eq.
  set (dx := Zdigits2 (Zpos mx)) in *. set (dy := Zdigits2 (Zpos my)) in *.
  set (e0 := Z.min (fe (dx + ex - (dy + ey))) (ex - ey)) in *.
  set (s := ex - ey - e0) in *. assert (Hs : 0 ≤ s) by lia.
  assert (0 < 2 ^ s) by (apply Z.pow_pos_nonneg; lia).
  assert (Hm : (match s with 0 => Zpos mx | Zpos _ => Z.shiftl (Zpos mx) s | Zneg _ => 0 end)
               = Zpos mx * 2 ^ s).
  { destruct s as [|p|p]; [lia|by rewrite Z.shiftl_mul_pow2|lia]. }
  rewrite Hm in Eq.
  destruct (Z.div_eucl (Zpos mx * 2 ^ s) (Zpos my)) as [q' r'] eqn:Ed.
  assert (Hq : q' = Zpos mx * 2 ^ s / Zpos my) by (unfold Z.div; by rewrite Ed).
  injection Eq as <- <- <-.
  assert (Hq0 : 0 ≤ q') by (rewrite Hq; apply Z.div_pos; lia).
  assert (Hdig : dx + s - dy ≤ Zdigits2 q').
  { destruct (Z.le_gt_cases (dx + s - dy) 0) as [Hn|Hp].
    - destruct q'; simpl; lia.
    - destruct (Zdigits2_bounds (Zpos mx) ltac:(lia)) as [[Lx _] _].
      destruct (Zdigits2_bounds (Zpos my) ltac:(lia)) as [[_ Uy] Dy].
      fold dx in Lx. fold dy in Uy, Dy.
      assert (Hlow : 2 ^ (dx + s - dy - 1) ≤ q').
      { rewrite Hq. apply Z.div_le_lower_bound; [lia|].
        apply Z.le_trans with (2 ^ dy * 2 ^ (dx + s - dy - 1)).
        { apply Z.mul_le_mono_nonneg_r; [apply Z.pow_nonneg|]; lia. }
        rewrite <- Z.pow_add_r by lia.
        replace (dy + (dx + s - dy - 1)) with (dx - 1 + s) by lia.
        destruct (Zdigits2_bounds (Zpos mx) ltac:(lia)) as [_ Dx]. fold dx in Dx.
        rewrite Z.pow_add_r by lia. apply Z.mul_le_mono_nonneg_r; lia. }
      assert (0 < 2 ^ (dx + s - dy - 1)) by (apply Z.pow_pos_nonneg; lia).
      destruct (Zdigits2_bounds q' ltac:(lia)) as [[_ Uq] Dq].
      assert (dx + s - dy - 1 < Zdigits2 q'); [|lia].
      apply (Z.pow_lt_mono_r_iff 2); lia. }
  apply round_aux_spec; [done|unfold e0; rewrite fe_unfold; lia|].
  unfold s, e0 in *. clear Hm Hq Ed. rewrite !fe_unfold in *. lia.
Qed.

(** ** Integers *)

Lemma f64_of_Z_nonneg n : 0 ≤ n → nonneg (f64_of_Z n).
Proof. intros Hn. by apply normalize_spec. Qed.

(** The number of a small integer is exact: zero, or a canonical pair with that
    value. *)
Lemma f64_of_Z_exact n :
  0 ≤ n < 2 ^ 53 →
  n = 0 ∧ f64_of_Z n = S754_zero false ∨
  ∃ m e, f64_of_Z n = S754_finite false m e ∧ bounded prec emax m e = true ∧
         val (Zpos m) e = val n 0.
Proof.
  intros [H0 H1]. destruct n as [|n|n]; [by left| |lia]. right.
  destruct (normalize_spec (Zpos n) 0 H0 ltac:(lia)) as (Rn & Rl & Ru).
  fold (f64_of_Z (Zpos n)) in Rn, Rl, Ru.
  destruct (Zdigits2_bounds (Zpos n) ltac:(lia)) as [[L U] D].
  set (d := Zdigits2 (Zpos n)) in *.
  assert (Hd : d ≤ 53).
  { assert (d - 1 < 53); [|lia]. apply (Z.pow_lt_mono_r_iff 2); lia. }
  (* the canonical representation of [n] itself *)
  assert (Hrep : ∃ m e, bounded prec emax m e = true ∧ val (Zpos m) e = val (Zpos n) 0).
  { assert (Hp : 0 < Zpos n * 2 ^ (53 - d)).
    { apply Z.mul_pos_pos; [lia|]. apply Z.pow_pos_nonneg; lia. }
    exists (Z.to_pos (Zpos n * 2 ^ (53 - d))), (d - 53).
    rewrite Z2Pos.id by done. split.
    - apply bounded_spec. rewrite Z2Pos.id, Zdigits2_shift by lia. fold d.
      rewrite fe_unfold. lia.
    - rewrite val_shift by lia. f_equal. lia. }
  destruct Hrep as (m & e & Hb & Hv).
  specialize (Rl m e Hb ltac:(lia)). specialize (Ru m e Hb ltac:(lia)).
  destruct (f64_of_Z (Zpos n)) as [s|s| |s m' e']; simpl in Rl, Ru, Rn; try done.
  destruct Rn as [-> Hb']. exists m', e'. split; [done|]. split; [done|]. lia.
Qed.

Lemma f64_of_Z_finite n : 0 ≤ n < 2 ^ 53 → finite (f64_of_Z n).
Proof. intros Hn. destruct (f64_of_Z_exact n Hn) as [[_ ->]|(m & e & -> & _)]; done. Qed.

Lemma f64_of_Z_positive n : 1 ≤ n < 2 ^ 53 → positive_fin (f64_of_Z n).
Proof.
  intros Hn. destruct (f64_of_Z_exact n ltac:(lia)) as [[-> _]|(m & e & -> & Hb & _)]; [lia|].
  by exists m, e.
Qed.

Lemma f64_of_Z_le n k : 0 ≤ n < 2 ^ 53 → 0 ≤ k < 2 ^ 53 →
  f_le (f64_of_Z n) (f64_of_Z k) ↔ n ≤ k.
Proof.
  intros Hn Hk.
  destruct (f64_of_Z_exact n Hn) as [[-> ->]|(m & e & -> & Bm & Vm)],
    (f64_of_Z_exact k Hk) as [[-> ->]|(m' & e' & -> & Bm' & Vm')]; simpl; try (split; [lia|done]).
  - split; [done|]. intros Hle. apply bounded_range in Bm.
    pose proof (val_pos (Zpos m) e). unfold val in Vm at 2. nia.
  - rewrite Vm, Vm'. by apply val_le_same.
Qed.

(** Integers of any size: at least one stays at least one. *)
Lemma f64_of_Z_ge_one n : 1 ≤ n → f_le f64_one (f64_of_Z n).
Proof.
  intros Hn. rewrite f64_one_eq.
  destruct (normalize_spec n 0 ltac:(lia) ltac:(lia)) as (_ & Rl & _). apply Rl; [done|].
  change (Zpos (2 ^ 52)) with (1 * 2 ^ 52). rewrite val_shift by lia.
  apply val_le_same; lia.
Qed.

Lemma f64_of_Z_sub_one n : 1 ≤ n < 2 ^ 53 → f64_sub (f64_of_Z n) f64_one = f64_of_Z (n - 1).
Proof.
  intros Hn. rewrite f64_one_eq.
  destruct (f64_of_Z_exact n ltac:(lia)) as [[-> _]|(m & e & -> & Bm & Vm)]; [lia|].
  unfold f64_sub. cbn [SFsub cond_Zopp]. set (ez := Z.min e (-52)).
  destruct (bounded_range _ _ Bm) as (? & ? & _).
  pose proof (align_val m e ez ltac:(lia)) as Ax.
  pose proof (align_val (2 ^ 52) (-52) ez ltac:(lia)) as Ay.
  change (Zpos (2 ^ 52)) with (1 * 2 ^ 52) in Ay. rewrite val_shift in Ay by lia.
  change (-52 + 52) with 0 in Ay.
  set (a := Zpos (fst (shl_align m e ez))) in *.
  set (b := Zpos (fst (shl_align (2 ^ 52) (-52) ez))) in *.
  assert (Hab : val (a - b) ez = val (n - 1) 0) by (rewrite !val_sub; lia).
  assert (Hpos : 0 ≤ a - b).
  { apply (val_le_same _ _ ez); [lia|]. rewrite Hab. unfold val at 1. rewrite Z.mul_0_l.
    unfold val. apply Z.mul_nonneg_nonneg; [lia|]. apply Z.pow_nonneg. lia. }
  destruct (normalize_spec (a - b) ez Hpos ltac:(lia)) as (Rn & Rl & Ru). rewrite Hab in *.
  destruct (f64_of_Z_exact (n - 1) ltac:(lia)) as [[Hz ->]|(m' & e' & -> & Bm' & Vm')].
  - rewrite Hz in Hab. assert (a - b = 0) as ->; [|done].
    unfold val in Hab at 2. rewrite Z.mul_0_l in Hab. unfold val in Hab.
    assert (2 ^ (ez + 5000) ≠ 0) by (apply Z.pow_nonzero; lia). nia.
  - specialize (Rl m' e' Bm' ltac:(lia)). specialize (Ru m' e' Bm' ltac:(lia)).
    destruct (binary_normalize prec emax (a - b) ez false) as [s|s| |s m2 e2];
      simpl in Rl, Ru, Rn; try done. destruct Rn as [-> B2].
    destruct (val_inj m2 e2 m' e' B2 Bm' ltac:(lia)) as [-> ->]. done.
Qed.

(** Taking one from at least [n] leaves at least [n - 1], rounding included. *)
Lemma f64_sub_one_mono n x :
  1 ≤ n < 2 ^ 53 → nonneg x → finite x → f_le (f64_of_Z n) x →
  f_le (f64_of_Z (n - 1)) (f64_sub x f64_one).
Proof.
  intros Hn Hx Fx Hle. rewrite f64_one_eq.
  destruct (f64_of_Z_exact (n - 1) ltac:(lia)) as [[Hz ->]|(m' & e' & -> & Bm' & Vm')]; [done|].
  destruct (f64_of_Z_exact n ltac:(lia)) as [[-> _]|(m & e & E & Bm & Vm)]; [lia|].
  rewrite E in Hle. destruct x as [sx|sx| |sx mx ex]; simpl in Hx, Fx, Hle; try done.
  destruct Hx as [-> Bx]. unfold f64_sub. cbn [SFsub cond_Zopp]. set (ez := Z.min ex (-52)).
  destruct (bounded_range _ _ Bx) as (? & ? & _).
  pose proof (align_val mx ex ez ltac:(lia)) as Ax.
  pose proof (align_val (2 ^ 52) (-52) ez ltac:(lia)) as Ay.
  change (Zpos (2 ^ 52)) with (1 * 2 ^ 52) in Ay. rewrite val_shift in Ay by lia.
  change (-52 + 52) with 0 in Ay.
  set (a := Zpos (fst (shl_align mx ex ez))) in *.
  set (b := Zpos (fst (shl_align (2 ^ 52) (-52) ez))) in *.
  assert (Hab : val (n - 1) 0 ≤ val (a - b) ez) by (rewrite !val_sub; lia).
  assert (Hpos : 0 ≤ a - b).
  { apply (val_le_same _ _ ez); [lia|]. etrans; [|exact Hab]. unfold val at 1.
    rewrite Z.mul_0_l. unfold val. apply Z.mul_nonneg_nonneg; [lia|]. apply Z.pow_nonneg. lia. }
  destruct (normalize_spec (a - b) ez Hpos ltac:(lia)) as (_ & Rl & _).
  apply (Rl m' e' Bm'). lia.
Qed.

(** ** Minimum *)

Lemma f64_min_spec x y :
  nonneg x → nonneg y →
  nonneg (f64_min x y) ∧ f_le (f64_min x y) y ∧ (f_le y x → f64_min x y = y) ∧
  (f64_min x y = x ∨ f64_min x y = y) ∧ (¬ f_le y x → f64_min x y = x).
Proof.
  intros Hx Hy.
  assert (E : f64_min x y = if f64_ltb x y then x else y) by (by destruct x, y).
  rewrite E. pose proof (f64_ltb_spec x y Hx Hy) as Hs.
  destruct (f64_ltb x y) eqn:El.
  - assert (Hn : ¬ f_le y x) by (by apply Hs). split; [done|].
    split; [by destruct (f_le_total x y)|]. split; [done|]. split; [by left|done].
  - split; [done|]. split; [by apply f_le_refl|]. split; [done|].
    split; [by right|]. intros Hn. by apply Hs in Hn.
Qed.
