(* ===== verification/RateLimiter.v ===== *)
(** * Token-bucket rate limiter ([src/src/middleware/rate_limiter.rs])

    One token bucket per client address, its tokens in binary64, refilled from
    the elapsed wall-clock time at each use; stale buckets are evicted every
    [EVICT_EVERY_N_CHECKS] checks and by a background task.  An [Instant] is a
    number of nanoseconds on the monotonic clock, and every call to
    [Instant::now] is an argument.  [instant_min] is the earliest instant the
    platform can represent, which decides when [checked_sub] gives [None]. *)
From Stdlib Require Import Floats.SpecFloat.
From S2P Require Import Prelude RustStr HttpTypes Response Float64.
Local Open Scope Z_scope.

Definition NANOS_PER_SEC : Z := 1000000000.
Definition EVICT_EVERY_N_CHECKS : Z := 10000.
Definition STALE_BUCKET_TTL : Z := 300 * NANOS_PER_SEC.

(** [Instant::duration_since]: zero when the argument is later. *)
Definition duration_since (now earlier : Z) : Z := Z.max 0 (now - earlier).

(** [Duration::as_secs_f64]. *)
Definition as_secs_f64 (d : Z) : f64 :=
  f64_add (f64_of_Z (d / NANOS_PER_SEC))
          (f64_div (f64_of_Z (d mod NANOS_PER_SEC)) (f64_of_Z NANOS_PER_SEC)).

(** ** Token bucket *)

Record TokenBucket : Type := mkBucket {
  tokens : f64;
  capacity : f64;
  last_refill : Z;
  rate : f64;
}.

Definition bucket_new (rate_rps now : Z) : TokenBucket :=
  let cap := f64_of_Z rate_rps in
  mkBucket cap cap now cap.

(** The refill of [try_consume]: what the bucket holds before the test. *)
Definition refilled (b : TokenBucket) (now : Z) : f64 :=
  f64_min (f64_add (tokens b)
             (f64_mul (as_secs_f64 (duration_since now (last_refill b))) (rate b)))
          (capacity b).

Definition try_consume (b : TokenBucket) (now : Z) : bool * TokenBucket :=
  let t := refilled b now in
  if f64_leb f64_one t
  then (true, mkBucket (f64_sub t f64_one) (capacity b) now (rate b))
  else (false, mkBucket t (capacity b) now (rate b)).

(** ** The limiter *)

Section Limiter.
Context {IpAddr : Type} `{Countable IpAddr} (instant_min : Z).

Record RateLimiter : Type := mkLimiter {
  buckets : gmap IpAddr TokenBucket;
  rate_rps : Z;
  check_count : Z;
}.

Definition limiter_new (rps : Z) : RateLimiter := mkLimiter ∅ rps 0.

(** [Instant::checked_sub]. *)
Definition checked_sub (t d : Z) : option Z :=
  if t - d <? instant_min then None else Some (t - d).

Definition evict_stale (now : Z) (rl : RateLimiter) : RateLimiter :=
  match checked_sub now STALE_BUCKET_TTL with
  | Some cutoff =>
      mkLimiter (filter (λ kv, cutoff ≤ last_refill kv.2) (buckets rl))
        (rate_rps rl) (check_count rl)
  | None => rl
  end.

Definition bucket_count (rl : RateLimiter) : nat := size (buckets rl).

(** The instants one [check] reads: the sweep's, the new bucket's and
    [try_consume]'s. *)
Record Clock : Type := mkClock {
  at_sweep : Z;
  at_create : Z;
  at_consume : Z;
}.

(** [entry(ip).or_insert_with(..).try_consume()]. *)
Definition consume (ip : IpAddr) (c : Clock) (rl : RateLimiter) : bool * RateLimiter :=
  let b := default (bucket_new (rate_rps rl) (at_create c)) (buckets rl !! ip) in
  let '(ok, b') := try_consume b (at_consume c) in
  (ok, mkLimiter (<[ip := b']> (buckets rl)) (rate_rps rl) (check_count rl)).

Definition sweep_due (n : Z) : bool := (0 <? n) && (n mod EVICT_EVERY_N_CHECKS =? 0).

Definition check (ip : IpAddr) (c : Clock) (rl : RateLimiter) : bool * RateLimiter :=
  let n := check_count rl in
  let rl := mkLimiter (buckets rl) (rate_rps rl) (wrap_u64 (n + 1)) in
  let rl := if sweep_due n then evict_stale (at_sweep c) rl else rl in
  consume ip c rl.

(** ** The Tower service *)

Context `{HttpCrate}.

Definition too_many_requests : HttpResponse :=
  text (line "429 Too Many Requests") (rb_header "retry-after" "1" (rb_new 429)).

(** [RateLimiterService::call]: the response it answers with itself, or [None]
    when the request goes on to the inner service. *)
Definition limiter_call (ip : IpAddr) (c : Clock) (rl : RateLimiter)
    : option HttpResponse * RateLimiter :=
  let '(allowed, rl') := check ip c rl in
  (if allowed then None else Some too_many_requests, rl').

(** ** Specification

    The limiter's activity: checks by the connections, and sweeps of the
    background task of [start_eviction_task], in any order. *)

Inductive call : Type :=
| Check (ip : IpAddr) (c : Clock)
| Sweep (now : Z).

Definition call_step (rl : RateLimiter) (k : call) : option bool * RateLimiter :=
  match k with
  | Check ip c => let '(ok, rl') := check ip c rl in (Some ok, rl')
  | Sweep now => (None, evict_stale now rl)
  end.

Fixpoint decisions (rl : RateLimiter) (ks : list call) : list (option bool) :=
  match ks with
  | [] => []
  | k :: ks' => let '(d, rl') := call_step rl k in d :: decisions rl' ks'
  end.

(** The same activity on a limiter that keeps every bucket for ever. *)
Definition ideal_step (rl : RateLimiter) (k : call) : option bool * RateLimiter :=
  match k with
  | Check ip c => let '(ok, rl') := consume ip c rl in (Some ok, rl')
  | Sweep _ => (None, rl)
  end.

Fixpoint ideal_decisions (rl : RateLimiter) (ks : list call) : list (option bool) :=
  match ks with
  | [] => []
  | k :: ks' => let '(d, rl') := ideal_step rl k in d :: ideal_decisions rl' ks'
  end.

(** The clock does not run backwards along the calls. *)
Fixpoint ordered (t : Z) (ks : list call) : Prop :=
  match ks with
  | [] => True
  | Check _ c :: ks' =>
      t ≤ at_sweep c ≤ at_create c ∧ at_create c ≤ at_consume c ∧ ordered (at_consume c) ks'
  | Sweep now :: ks' => t ≤ now ∧ ordered now ks'
  end.

(** A bucket of a limiter at [rps] requests per second. *)
Definition bucket_ok (rps : Z) (b : TokenBucket) : Prop :=
  capacity b = f64_of_Z rps ∧ rate b = f64_of_Z rps ∧
  nonneg (tokens b) ∧ f_le (tokens b) (capacity b).

Definition limiter_ok (rl : RateLimiter) : Prop :=
  0 ≤ check_count rl ≤ u64_max ∧
  map_Forall (λ _, bucket_ok (rate_rps rl)) (buckets rl).

(** ** Lemmas *)

Lemma rps_range rps : 1 ≤ rps ≤ u32_max → 1 ≤ rps < 2 ^ 53.
Proof. unfold u32_max. lia. Qed.

Lemma as_secs_f64_spec d :
  0 ≤ d → nonneg (as_secs_f64 d) ∧ (NANOS_PER_SEC ≤ d → f_le f64_one (as_secs_f64 d)).
Proof.
  intros Hd. unfold as_secs_f64, NANOS_PER_SEC.
  pose proof (Z.mod_pos_bound d 1000000000 ltac:(lia)).
  assert (Hs : 0 ≤ d / 1000000000) by (apply Z.div_pos; lia).
  destruct (f64_of_Z_positive 1000000000 ltac:(lia)) as (m & e & -> & Hb).
  assert (Hr : nonneg (f64_of_Z (d mod 1000000000))) by (apply f64_of_Z_nonneg; lia).
  assert (Hf : finite (f64_of_Z (d mod 1000000000))) by (apply f64_of_Z_finite; lia).
  pose proof (f64_div_nonneg _ m e Hr Hf Hb) as Hq.
  destruct (f64_add_spec _ _ (f64_of_Z_nonneg _ Hs) Hq) as (Hn & Hl & _).
  split; [done|]. intros Hge. eapply f_le_trans; [|exact Hl].
  apply f64_of_Z_ge_one. apply Z.div_le_lower_bound; lia.
Qed.

(** The refilled amount is within the capacity, and is the capacity when a
    second has passed. *)
Lemma refilled_spec rps b now :
  1 ≤ rps ≤ u32_max → bucket_ok rps b →
  nonneg (refilled b now) ∧ f_le (refilled b now) (capacity b) ∧
  (NANOS_PER_SEC ≤ now - last_refill b ∨ tokens b = capacity b →
   refilled b now = capacity b).
Proof.
  intros Hr%rps_range (Hc & Hrt & Hn & Hle).
  assert (Hcap : nonneg (capacity b)) by (rewrite Hc; apply f64_of_Z_nonneg; lia).
  unfold refilled. set (el := duration_since now (last_refill b)).
  assert (Hel : 0 ≤ el) by (unfold el, duration_since; lia).
  destruct (as_secs_f64_spec el Hel) as [Hsn Hs1].
  destruct (f64_mul_spec (as_secs_f64 el) (rate b) Hsn) as [Hmn Hm1].
  { rewrite Hrt. by apply f64_of_Z_positive. }
  destruct (f64_add_spec (tokens b) _ Hn Hmn) as (Han & Hat & Ham).
  destruct (f64_min_spec _ (capacity b) Han Hcap) as (H1 & H2 & H3 & _).
  split; [done|]. split; [done|]. intros [Hsec|Hfull]; apply H3.
  - eapply f_le_trans; [|exact Ham]. rewrite Hc, <- Hrt. apply Hm1, Hs1.
    unfold el, duration_since. unfold NANOS_PER_SEC in *. lia.
  - by rewrite <- Hfull.
Qed.

Lemma f_le_finite x y : nonneg x → f_le x y → finite y → finite x.
Proof. destruct x, y; simpl; done. Qed.

Lemma one_nonneg : nonneg f64_one.
Proof. done. Qed.

Lemma try_consume_ok rps b now :
  1 ≤ rps ≤ u32_max → bucket_ok rps b → bucket_ok rps (try_consume b now).2.
Proof.
  intros Hr Hb. destruct (refilled_spec rps b now Hr Hb) as (Hn & Hle & _).
  apply rps_range in Hr. destruct Hb as (Hc & Hrt & _ & _).
  unfold try_consume. pose proof (f64_leb_spec f64_one (refilled b now) one_nonneg Hn) as Hl.
  destruct (f64_leb f64_one (refilled b now)); unfold bucket_ok; simpl; [|done].
  assert (Hf : finite (refilled b now)).
  { eapply f_le_finite; [done|done|]. rewrite Hc. apply f64_of_Z_finite. lia. }
  destruct (f64_sub_spec (refilled b now) f64_one Hn Hf one_nonneg I (proj1 Hl eq_refl))
    as (H1 & _ & H2).
  split; [done|]. split; [done|]. split; [done|]. by eapply f_le_trans.
Qed.

Lemma bucket_new_ok rps now : 1 ≤ rps ≤ u32_max → bucket_ok rps (bucket_new rps now).
Proof.
  intros Hr%rps_range. unfold bucket_ok, bucket_new. simpl. split; [done|]. split; [done|].
  pose proof (f64_of_Z_nonneg rps ltac:(lia)). split; [done|]. by apply f_le_refl.
Qed.

(** A bucket idle for a second behaves as a new one. *)
Lemma try_consume_stale rps b now t :
  1 ≤ rps ≤ u32_max → bucket_ok rps b → NANOS_PER_SEC ≤ now - last_refill b →
  try_consume b now = try_consume (bucket_new rps t) now.
Proof.
  intros Hr Hb Hs. pose proof (bucket_new_ok rps t Hr) as Hnew.
  destruct (refilled_spec rps b now Hr Hb) as (_ & _ & H1).
  destruct (refilled_spec rps _ now Hr Hnew) as (_ & _ & H2).
  destruct Hb as (Hc & Hrt & _). unfold try_consume. rewrite H1, H2 by tauto.
  simpl. by rewrite Hc, Hrt.
Qed.

Lemma evict_stale_lookup now rl ip :
  buckets (evict_stale now rl) !! ip =
  match buckets rl !! ip with
  | Some b =>
      if decide (instant_min ≤ now - STALE_BUCKET_TTL ∧ last_refill b < now - STALE_BUCKET_TTL)
      then None else Some b
  | None => None
  end.
Proof.
  unfold evict_stale, checked_sub. destruct (now - STALE_BUCKET_TTL <? instant_min) eqn:E.
  - destruct (buckets rl !! ip); [|done]. by rewrite decide_False by lia.
  - cbn [buckets]. rewrite map_lookup_filter. destruct (buckets rl !! ip) as [b|]; [|done].
    simpl. repeat case_guard || case_decide; done || lia.
Qed.

Lemma evict_stale_rate now rl :
  rate_rps (evict_stale now rl) = rate_rps rl ∧ check_count (evict_stale now rl) = check_count rl.
Proof. unfold evict_stale. by destruct (checked_sub _ _). Qed.

Lemma evict_stale_ok now rl : limiter_ok rl → limiter_ok (evict_stale now rl).
Proof.
  intros [Hn HF]. destruct (evict_stale_rate now rl) as [E1 E2]. split; [by rewrite E2|].
  intros ip b. rewrite evict_stale_lookup, E1.
  destruct (buckets rl !! ip) as [b'|] eqn:E; [|done].
  case_decide; [done|]. intros [= <-]. by apply (HF ip).
Qed.

Lemma consume_ok ip c rl :
  1 ≤ rate_rps rl ≤ u32_max → limiter_ok rl → limiter_ok (consume ip c rl).2.
Proof.
  intros Hr [Hn HF]. unfold consume.
  set (b := default (bucket_new (rate_rps rl) (at_create c)) (buckets rl !! ip)).
  assert (Hb : bucket_ok (rate_rps rl) b).
  { unfold b. destruct (buckets rl !! ip) as [b'|] eqn:E; simpl; [by apply (HF ip)|].
    by apply bucket_new_ok. }
  pose proof (try_consume_ok _ _ (at_consume c) Hr Hb) as Hb'.
  destruct (try_consume b (at_consume c)) as [ok b']. split; [done|]. simpl.
  by apply map_Forall_insert_2.
Qed.

Lemma check_ok ip c rl :
  1 ≤ rate_rps rl ≤ u32_max → limiter_ok rl → limiter_ok (check ip c rl).2.
Proof.
  intros Hr [Hn HF]. unfold check.
  set (rl1 := mkLimiter (buckets rl) (rate_rps rl) (wrap_u64 (check_count rl + 1))).
  assert (H1 : limiter_ok rl1) by (split; [apply wrap_u64_range|done]).
  destruct (sweep_due _); apply consume_ok; try done.
  - by rewrite (proj1 (evict_stale_rate _ _)).
  - by apply evict_stale_ok.
Qed.

Lemma consume_rate ip c rl : rate_rps (consume ip c rl).2 = rate_rps rl.
Proof. unfold consume. by destruct (try_consume _ _). Qed.

Lemma check_rate ip c rl : rate_rps (check ip c rl).2 = rate_rps rl.
Proof.
  unfold check. destruct (sweep_due _); rewrite consume_rate; [|done].
  by rewrite (proj1 (evict_stale_rate _ _)).
Qed.

Lemma call_step_ok k rl :
  1 ≤ rate_rps rl ≤ u32_max → limiter_ok rl →
  limiter_ok (call_step rl k).2 ∧ rate_rps (call_step rl k).2 = rate_rps rl.
Proof.
  intros Hr Hok. destruct k as [ip c|now]; simpl.
  - pose proof (check_ok ip c rl Hr Hok). pose proof (check_rate ip c rl).
    by destruct (check ip c rl).
  - split; [by apply evict_stale_ok|]. apply evict_stale_rate.
Qed.

Lemma limiter_new_ok rps : limiter_ok (limiter_new rps).
Proof. split; [unfold u64_max; simpl; lia|]. apply map_Forall_empty. Qed.

(** *** Eviction against the limiter that keeps every bucket *)

(** At instant [t], the limiter with eviction has the ideal one's buckets, less
    some not touched for [STALE_BUCKET_TTL]. *)
Definition evicts (t : Z) (rl irl : RateLimiter) : Prop :=
  rate_rps rl = rate_rps irl ∧
  ∀ ip, buckets rl !! ip = buckets irl !! ip ∨
        buckets rl !! ip = None ∧
        ∃ b, buckets irl !! ip = Some b ∧ last_refill b ≤ t - STALE_BUCKET_TTL.

Lemma evicts_later t t' rl irl : t ≤ t' → evicts t rl irl → evicts t' rl irl.
Proof.
  intros Ht [Hr HB]. split; [done|]. intros ip.
  destruct (HB ip) as [?|(? & b & ? & ?)]; [by left|]. right. split; [done|].
  exists b. split; [done|]. lia.
Qed.

Lemma evicts_sweep t now rl irl :
  t ≤ now → evicts t rl irl → evicts now (evict_stale now rl) irl.
Proof.
  intros Ht Hev. destruct (evicts_later _ _ _ _ Ht Hev) as [Hr HB].
  split; [by rewrite (proj1 (evict_stale_rate _ _))|]. intros ip.
  rewrite evict_stale_lookup. destruct (HB ip) as [E|(E & b & Eb & Hb)]; rewrite E.
  - destruct (buckets irl !! ip) as [b|]; [|by left]. case_decide as Hd; [|by left].
    right. split; [done|]. exists b. split; [done|]. lia.
  - right. split; [done|]. by exists b.
Qed.

Lemma evicts_consume t ip c rl irl :
  1 ≤ rate_rps irl ≤ u32_max → limiter_ok irl → evicts t rl irl →
  t ≤ at_create c ≤ at_consume c →
  (consume ip c rl).1 = (consume ip c irl).1 ∧
  evicts (at_consume c) (consume ip c rl).2 (consume ip c irl).2.
Proof.
  intros Hr [_ HF] [Hrate HB] Ht. unfold consume. rewrite Hrate.
  set (b1 := default _ (buckets rl !! ip)). set (b2 := default _ (buckets irl !! ip)).
  assert (E : try_consume b1 (at_consume c) = try_consume b2 (at_consume c)).
  { unfold b1, b2. destruct (HB ip) as [->|(-> & b & Eb & Hb)]; [done|]. rewrite Eb. simpl.
    symmetry. apply try_consume_stale; [done|by apply (HF ip)|].
    unfold STALE_BUCKET_TTL, NANOS_PER_SEC in *. lia. }
  rewrite E. destruct (try_consume b2 (at_consume c)) as [ok b]. split; [done|].
  split; [done|]. intros ip'. simpl. destruct (decide (ip' = ip)) as [->|Hne].
  - left. by rewrite !lookup_insert_eq.
  - rewrite !lookup_insert_ne by done.
    destruct (HB ip') as [?|(? & b' & ? & ?)]; [by left|]. right. split; [done|].
    exists b'. split; [done|]. lia.
Qed.

Lemma decisions_ideal t ks rl irl :
  1 ≤ rate_rps irl ≤ u32_max → limiter_ok irl → evicts t rl irl → ordered t ks →
  decisions rl ks = ideal_decisions irl ks.
Proof.
  revert t rl irl. induction ks as [|[ip c|now] ks IH]; intros t rl irl Hr Hok Hev Hord; [done|..].
  - destruct Hord as (H1 & H2 & H3). simpl. unfold check.
    set (rl0 := mkLimiter (buckets rl) (rate_rps rl) (wrap_u64 (check_count rl + 1))).
    set (rl1 := if sweep_due (check_count rl) then evict_stale (at_sweep c) rl0 else rl0).
    assert (He : evicts (at_sweep c) rl1 irl).
    { change (evicts t rl0 irl) in Hev. unfold rl1. destruct (sweep_due _); [apply (evicts_sweep t)|apply (evicts_later t)]; done || lia. }
    destruct (evicts_consume _ ip c _ _ Hr Hok He) as [E1 E2]; [lia|].
    pose proof (consume_ok ip c irl Hr Hok) as Hok'. pose proof (consume_rate ip c irl) as Hr'.
    destruct (consume ip c rl1) as [ok1 rl'], (consume ip c irl) as [ok2 irl'].
    simpl in *. subst ok2. f_equal. apply (IH (at_consume c)); try done. by rewrite Hr'.
  - destruct Hord as [H1 H2]. simpl. f_equal. apply (IH now); try done.
    by apply (evicts_sweep t).
Qed.

Lemma decisions_new rps t ks :
  1 ≤ rps ≤ u32_max → ordered t ks →
  decisions (limiter_new rps) ks = ideal_decisions (limiter_new rps) ks.
Proof.
  intros Hr Ho. apply (decisions_ideal t); [done|apply limiter_new_ok| |done].
  split; [done|]. intros ip. by left.
Qed.

(** *** One address on its own *)

(** The decisions on [ip]'s requests, in order. *)
Fixpoint decisions_of (ip : IpAddr) (ks : list call) (ds : list (option bool)) : list bool :=
  match ks, ds with
  | Check ip' _ :: ks', Some d :: ds' =>
      if decide (ip' = ip) then d :: decisions_of ip ks' ds' else decisions_of ip ks' ds'
  | _ :: ks', _ :: ds' => decisions_of ip ks' ds'
  | _, _ => []
  end.

(** The instants [ip]'s requests read. *)
Fixpoint clocks_of (ip : IpAddr) (ks : list call) : list Clock :=
  match ks with
  | Check ip' c :: ks' => if decide (ip' = ip) then c :: clocks_of ip ks' else clocks_of ip ks'
  | Sweep _ :: ks' => clocks_of ip ks'
  | [] => []
  end.

(** One bucket used at the given instants. *)
Fixpoint bucket_run (b : TokenBucket) (cs : list Clock) : list bool :=
  match cs with
  | [] => []
  | c :: cs' => let '(ok, b') := try_consume b (at_consume c) in ok :: bucket_run b' cs'
  end.

(** A bucket created full at the first of them. *)
Definition own_bucket_run (rps : Z) (cs : list Clock) : list bool :=
  match cs with
  | [] => []
  | c :: _ => bucket_run (bucket_new rps (at_create c)) cs
  end.

Lemma ideal_decisions_of ip ks irl :
  decisions_of ip ks (ideal_decisions irl ks) =
  match buckets irl !! ip with
  | Some b => bucket_run b (clocks_of ip ks)
  | None => own_bucket_run (rate_rps irl) (clocks_of ip ks)
  end.
Proof.
  revert irl. induction ks as [|[ip' c|now] ks IH]; intros irl; simpl.
  - by destruct (buckets irl !! ip).
  - unfold consume. set (b := default _ (buckets irl !! ip')).
    destruct (try_consume b (at_consume c)) as [ok b'] eqn:E. simpl.
    rewrite IH. simpl. case_decide as Hd.
    + subst ip'. rewrite lookup_insert_eq. unfold b in E.
      destruct (buckets irl !! ip); simpl in *; by rewrite E.
    + by rewrite lookup_insert_ne by done.
  - apply IH.
Qed.

(** *** A burst *)

Lemma refilled_ge rps b now n :
  1 ≤ rps ≤ u32_max → bucket_ok rps b → 0 ≤ n ≤ rps → f_le (f64_of_Z n) (tokens b) →
  f_le (f64_of_Z n) (refilled b now).
Proof.
  intros Hr%rps_range (Hc & Hrt & Hn & Hle) Hk Ht. unfold refilled.
  assert (Hcap : nonneg (capacity b)) by (rewrite Hc; apply f64_of_Z_nonneg; lia).
  destruct (as_secs_f64_spec (duration_since now (last_refill b))) as [Hsn _].
  { unfold duration_since. lia. }
  destruct (f64_mul_spec _ (rate b) Hsn) as [Hmn _].
  { rewrite Hrt. by apply f64_of_Z_positive. }
  destruct (f64_add_spec (tokens b) _ Hn Hmn) as (Han & Hat & _).
  destruct (f64_min_spec _ (capacity b) Han Hcap) as (_ & _ & _ & [->| ->] & _).
  - by eapply f_le_trans.
  - rewrite Hc. apply f64_of_Z_le; lia.
Qed.

(** A bucket that holds [n] tokens admits the next [n] requests, whenever they
    come. *)
Lemma bucket_run_admits rps b (n : nat) cs :
  1 ≤ rps ≤ u32_max → bucket_ok rps b → Z.of_nat n ≤ rps →
  f_le (f64_of_Z (Z.of_nat n)) (tokens b) →
  take n (bucket_run b cs) = replicate (n `min` length cs) true.
Proof.
  intros Hr. revert b cs. induction n as [|n IH]; intros b cs Hb Hn Ht; [done|].
  destruct cs as [|c cs]; [done|]. simpl.
  pose proof (try_consume_ok rps b (at_consume c) Hr Hb) as Hb'.
  pose proof (refilled_ge rps b (at_consume c) (Z.of_nat (S n)) Hr Hb ltac:(lia) Ht) as Hge.
  destruct (refilled_spec rps b (at_consume c) Hr Hb) as (Hrn & Hrc & _).
  pose proof (rps_range rps Hr) as Hr'. unfold try_consume in *.
  assert (H1 : f64_leb f64_one (refilled b (at_consume c)) = true).
  { apply f64_leb_spec; [done|done|]. eapply f_le_trans; [|exact Hge].
    apply f64_of_Z_ge_one. lia. }
  rewrite H1 in *. simpl in Hb'. simpl. f_equal. apply IH; [done|lia|]. cbn [tokens].
  replace (Z.of_nat n) with (Z.of_nat (S n) - 1) by lia. apply f64_sub_one_mono; [lia|done| |done].
  eapply f_le_finite; [done|done|]. rewrite (proj1 Hb). apply f64_of_Z_finite. lia.
Qed.

(** Without time passing nothing is refilled. *)
Lemma refilled_frozen rps n t :
  0 ≤ n ≤ rps → 1 ≤ rps ≤ u32_max →
  refilled (mkBucket (f64_of_Z n) (f64_of_Z rps) t (f64_of_Z rps)) t = f64_of_Z n.
Proof.
  intros Hn Hr%rps_range. unfold refilled, duration_since. simpl.
  replace (Z.max 0 (t - t)) with 0 by lia.
  change (as_secs_f64 0) with (S754_zero false).
  destruct (f64_of_Z_positive rps Hr) as (m & e & E & _).
  assert (Ez : f64_mul (S754_zero false) (f64_of_Z rps) = S754_zero false) by (by rewrite E).
  assert (Ea : f64_add (f64_of_Z n) (S754_zero false) = f64_of_Z n).
  { destruct (f64_of_Z_exact n ltac:(lia)) as [[_ ->]|(m' & e' & -> & _)]; done. }
  rewrite Ez, Ea.
  destruct (f64_min_spec (f64_of_Z n) (f64_of_Z rps)) as (_ & _ & H1 & _ & H2).
  1, 2: apply f64_of_Z_nonneg; lia.
  destruct (decide (n = rps)) as [->|Hne]; [apply H1, f_le_refl, f64_of_Z_nonneg; lia|].
  apply H2. rewrite f64_of_Z_le by lia. lia.
Qed.

Lemma bucket_run_frozen rps t (n k : nat) :
  1 ≤ rps ≤ u32_max → Z.of_nat n ≤ rps →
  bucket_run (mkBucket (f64_of_Z (Z.of_nat n)) (f64_of_Z rps) t (f64_of_Z rps))
    (replicate (n + k) (mkClock t t t)) = replicate n true ++ replicate k false.
Proof.
  intros Hr. pose proof (rps_range rps Hr) as Hr'. induction n as [|n IH]; intros Hn.
  - induction k as [|k IHk]; [done|].
    cbn [Nat.add replicate bucket_run app at_consume]. unfold try_consume.
    rewrite refilled_frozen by lia. f_equal. exact IHk.
  - cbn [Nat.add replicate bucket_run app at_consume]. unfold try_consume.
    rewrite refilled_frozen by lia. cbn [capacity rate].
    replace (f64_leb f64_one (f64_of_Z (Z.of_nat (S n)))) with true.
    + f_equal. rewrite f64_of_Z_sub_one by lia.
      replace (Z.of_nat (S n) - 1) with (Z.of_nat n) by lia. apply IH. lia.
    + symmetry. apply f64_leb_spec; [done|apply f64_of_Z_nonneg; lia|].
      apply f64_of_Z_ge_one. lia.
Qed.

(** ** Theorems *)

(** The state after a sequence of calls. *)
Fixpoint limiter_after (rl : RateLimiter) (ks : list call) : RateLimiter :=
  match ks with
  | [] => rl
  | k :: ks' => limiter_after (call_step rl k).2 ks'
  end.

Lemma decisions_snoc rl ks k :
  decisions rl (ks ++ [k]) =
    decisions rl ks ++ [(call_step (limiter_after rl ks) k).1].
Proof.
  revert rl. induction ks as [|k' ks IH]; intros rl; simpl.
  - by destruct (call_step rl k).
  - destruct (call_step rl k') as [d rl'] eqn:E. simpl. by rewrite IH.
Qed.

Lemma limiter_after_snoc rl ks k :
  limiter_after rl (ks ++ [k]) =
    (call_step (limiter_after rl ks) k).2.
Proof. revert rl. induction ks as [|k' ks IH]; intros rl; simpl; [done|apply IH]. Qed.

(** C20: however checks and sweeps interleave and whatever the clock reads,
    every bucket of a limiter keeps the configured capacity and refill rate and
    holds between zero and capacity tokens, never a NaN or an infinity, and the
    check counter stays a [u64]. *)
Theorem limiter_invariant rps ks :
  1 ≤ rps ≤ u32_max → limiter_ok (limiter_after (limiter_new rps) ks).
Proof.
  intros Hr. assert (Hok := limiter_new_ok rps). revert Hr Hok.
  change rps with (rate_rps (limiter_new rps)) at 1 2. generalize (limiter_new rps).
  induction ks as [|k ks IH]; intros rl Hr Hok; [done|]. simpl.
  destruct (call_step_ok k rl Hr Hok) as [H1 H2]. apply IH; [by rewrite H2|done].
Qed.

(** C18: evicting stale buckets is unobservable: on calls along a clock that does
    not run backwards, the limiter decides every request exactly as one that
    never forgets a bucket. *)
Theorem eviction_unobservable rps t ks :
  1 ≤ rps ≤ u32_max → ordered t ks →
  decisions (limiter_new rps) ks = ideal_decisions (limiter_new rps) ks.
Proof.
  apply decisions_new.
Qed.

(** Clients do not affect each other: the decisions on an address's requests
    are those of one token bucket of its own, created full at its first request
    and used only at its own requests. *)
Lemma limiter_isolates_clients rps t ip ks :
  1 ≤ rps ≤ u32_max → ordered t ks →
  decisions_of ip ks (decisions (limiter_new rps) ks) = own_bucket_run rps (clocks_of ip ks).
Proof.
  intros Hr Ho. by rewrite (decisions_new rps t), ideal_decisions_of.
Qed.

Lemma ordered_frozen t ip n :
  ordered t (replicate n (Check ip (mkClock t t t))).
Proof. induction n; simpl; [done|]. repeat split; done || lia. Qed.

Lemma clocks_of_replicate ip c n : clocks_of ip (replicate n (Check ip c)) = replicate n c.
Proof. induction n; simpl; [done|]. rewrite decide_True by done. by f_equal. Qed.

(** C19: the burst an address is granted and held to: its first [rate_rps]
    requests are all admitted, however they are spread in time and whatever other
    clients do; and of any number of requests at one instant exactly the first
    [rate_rps] are. *)
Theorem limiter_burst rps t ip :
  1 ≤ rps ≤ u32_max →
  (∀ ks, ordered t ks →
     take (Z.to_nat rps) (decisions_of ip ks (decisions (limiter_new rps) ks)) =
     replicate (Z.to_nat rps `min` length (clocks_of ip ks)) true) ∧
  (∀ k, let ks := replicate (Z.to_nat rps + k) (Check ip (mkClock t t t)) in
     decisions_of ip ks (decisions (limiter_new rps) ks) =
     replicate (Z.to_nat rps) true ++ replicate k false).
Proof.
  intros Hr. split.
  - intros ks Ho. rewrite (decisions_new rps t), ideal_decisions_of by done.
    simpl. destruct (clocks_of ip ks) as [|c cs] eqn:E; [by destruct (Z.to_nat rps)|].
    apply (bucket_run_admits rps); [done|by apply bucket_new_ok|lia|].
    rewrite Z2Nat.id by lia. apply f_le_refl, f64_of_Z_nonneg. lia.
  - intros k ks. rewrite (decisions_new rps t), ideal_decisions_of by (done || apply ordered_frozen).
    unfold ks. rewrite clocks_of_replicate. cbn [limiter_new buckets rate_rps].
    rewrite lookup_empty, <- (bucket_run_frozen rps t), Z2Nat.id by lia.
    destruct (Z.to_nat rps + k)%nat eqn:E; [lia|]. done.
Qed.

End Limiter.

(** ** Instances *)

Definition at_ (t : Z) : Clock := mkClock t t t.

(** Two clients at two requests per second, with a sweep by the background task
    long after the first went quiet. *)
Definition two_clients : list (call (IpAddr := Z)) :=
  [Check 1 (at_ 0); Check 2 (at_ 5); Check 1 (at_ 10); Check 1 (at_ 20);
   Sweep (400 * NANOS_PER_SEC); Check 1 (at_ (401 * NANOS_PER_SEC))].

Lemma two_clients_ordered : ordered 0 two_clients.
Proof. unfold two_clients, at_, NANOS_PER_SEC. simpl. lia. Qed.

Lemma limiter_invariant_witness :
  limiter_ok (limiter_after 0 (limiter_new 2) two_clients).
Proof. apply limiter_invariant. done. Defined.

Lemma eviction_unobservable_witness :
  decisions 0 (limiter_new 2) two_clients =
    [Some true; Some true; Some true; Some false; None; Some true] ∧
  decisions 0 (limiter_new 2) two_clients = ideal_decisions (limiter_new 2) two_clients.
Proof.
  split; [by vm_compute|]. apply (eviction_unobservable 0 2 0); [done|].
  apply two_clients_ordered.
Defined.

Example limiter_isolates_example :
  decisions_of 1 two_clients (decisions 0 (limiter_new 2) two_clients) =
  own_bucket_run 2 (clocks_of 1 two_clients).
Proof. apply (limiter_isolates_clients 0 2 0); [done|]. apply two_clients_ordered. Defined.

Lemma limiter_burst_witness :
  take (Z.to_nat 2) (decisions_of 1 two_clients (decisions 0 (limiter_new 2) two_clients)) =
    replicate (Z.to_nat 2 `min` length (clocks_of 1 two_clients)) true ∧
  decisions_of 1 (replicate (Z.to_nat 2 + 3) (Check 1 (mkClock 9 9 9)))
    (decisions 0 (limiter_new 2) (replicate (Z.to_nat 2 + 3) (Check 1 (mkClock 9 9 9)))) =
    replicate (Z.to_nat 2) true ++ replicate 3 false.
Proof.
  split.
  - apply (proj1 (limiter_burst 0 2 0 1 ltac:(done)) two_clients), two_clients_ordered.
  - exact (proj2 (limiter_burst 0 2 9 1 ltac:(done)) 3%nat).
Defined.
