(* ===== verification/Net.v ===== *)
(** * Internet addresses (the [core::net] types and their parser)

    The addresses the server binds, filters and rate-limits by, and the
    recursive-descent parser behind [str::parse::<IpAddr>] and
    [str::parse::<SocketAddr>].  A reader takes the input to its value and the
    rest; [None] leaves the input where it was, as [read_atomically] does. *)
From S2P Require Import Prelude RustStr.
Local Open Scope Z_scope.

Inductive IpAddr : Type :=
| V4 (a b c d : Z)
| V6 (groups : list Z).

#[export] Instance IpAddr_eq_dec : EqDecision IpAddr.
Proof. solve_decision. Defined.

#[export] Instance IpAddr_countable : Countable IpAddr.
Proof.
  refine (inj_countable'
    (λ ip, match ip with V4 a b c d => inl (a, b, c, d) | V6 g => inr g end)
    (λ x, match x with inl (a, b, c, d) => V4 a b c d | inr g => V6 g end) _).
  by intros [].
Defined.

Record SocketAddr : Type := mkSocketAddr {
  sa_ip : IpAddr;
  sa_port : Z;
  sa_scope : Z;
}.

(** ** The parser *)

Definition reader (A : Type) : Type := string → option (A * string).

Definition read_given_char (c : ascii) : reader () := λ s,
  match s with
  | String a s' => if Ascii.eqb a c then Some ((), s') else None
  | "" => None
  end.

Definition read_separator {A} (sep : ascii) (index : nat) (inner : reader A) : reader A := λ s,
  match index with
  | O => inner s
  | S _ => match read_given_char sep s with Some (_, s') => inner s' | None => None end
  end.

(** The digit loop with at most [max_digits]: value, count and rest. *)
Fixpoint read_digits (radix : Z) (max_digits : nat) (count : nat) (acc : Z) (s : string)
    : option (Z * nat * string) :=
  match s with
  | String c s' =>
      match to_digit radix c with
      | Some d =>
          if (max_digits <? S count)%nat then None
          else read_digits radix max_digits (S count) (acc * radix + d) s'
      | None => Some (acc, count, s)
      end
  | "" => Some (acc, count, s)
  end.

(** The digit loop with checked arithmetic, for a type of maximum [max]. *)
Fixpoint read_checked (radix max : Z) (count : nat) (acc : Z) (s : string)
    : option (Z * nat * string) :=
  match s with
  | String c s' =>
      match to_digit radix c with
      | Some d =>
          if max <? acc * radix then None
          else if max <? acc * radix + d then None
          else read_checked radix max (S count) (acc * radix + d) s'
      | None => Some (acc, count, s)
      end
  | "" => Some (acc, count, s)
  end.

(** [Parser::read_number] into an unsigned type of maximum [max]. *)
Definition read_number (max radix : Z) (max_digits : option nat) (allow_zero_prefix : bool)
    : reader Z := λ s,
  let has_leading_zero := starts_with "0" s in
  let result :=
    match max_digits with
    | Some m => read_digits radix m 0 0 s
    | None => read_checked radix max 0 0 s
    end in
  match result with
  | Some (n, digit_count, rest) =>
      if (digit_count =? 0)%nat then None
      else if negb allow_zero_prefix && has_leading_zero && (1 <? digit_count)%nat then None
      else if max <? n then None
      else Some (n, rest)
  | None => None
  end.

Definition read_octet (index : nat) : reader Z :=
  read_separator "." index (read_number 255 10 (Some 3%nat) false).

Definition read_ipv4_addr : reader IpAddr := λ s,
  '(a, s) ← read_octet 0 s;
  '(b, s) ← read_octet 1 s;
  '(c, s) ← read_octet 2 s;
  '(d, s) ← read_octet 3 s;
  Some (V4 a b c d, s).

(** [read_groups] into a slice of [i + left] groups, [i] of them read: the groups
    read, whether the last two were an embedded IPv4 address, and the rest. *)
Fixpoint read_groups (left i : nat) (s : string) : list Z * bool * string :=
  match left with
  | O => ([], false, s)
  | S left' =>
      let v4 := match left' with
                | O => None
                | S _ => read_separator ":" i read_ipv4_addr s
                end in
      match v4 with
      | Some (V4 a b c d, s') => ([a * 256 + b; c * 256 + d], true, s')
      | _ =>
          match read_separator ":" i (read_number u16_max 16 (Some 4%nat) true) s with
          | Some (g, s') =>
              let '(gs, v4, s'') := read_groups left' (S i) s' in (g :: gs, v4, s'')
          | None => ([], false, s)
          end
      end
  end.

Definition read_ipv6_addr : reader IpAddr := λ s,
  let '(head, head_ipv4, s) := read_groups 8 0 s in
  if (length head =? 8)%nat then Some (V6 head, s)
  else if head_ipv4 then None
  else
    '(_, s) ← read_given_char ":" s;
    '(_, s) ← read_given_char ":" s;
    let '(tail, _, s) := read_groups (8 - (length head + 1)) 0 s in
    Some (V6 (head ++ replicate (8 - length head - length tail) 0 ++ tail), s).

Definition read_ip_addr : reader IpAddr := λ s,
  match read_ipv4_addr s with
  | Some r => Some r
  | None => read_ipv6_addr s
  end.

Definition read_port : reader Z := λ s,
  '(_, s) ← read_given_char ":" s; read_number u16_max 10 None true s.

Definition read_scope_id : reader Z := λ s,
  '(_, s) ← read_given_char "%" s; read_number u32_max 10 None true s.

Definition read_socket_addr_v4 : reader SocketAddr := λ s,
  '(ip, s) ← read_ipv4_addr s;
  '(port, s) ← read_port s;
  Some (mkSocketAddr ip port 0, s).

Definition read_socket_addr_v6 : reader SocketAddr := λ s,
  '(_, s) ← read_given_char "[" s;
  '(ip, s) ← read_ipv6_addr s;
  let '(scope, s) := default (0, s) (read_scope_id s) in
  '(_, s) ← read_given_char "]" s;
  '(port, s) ← read_port s;
  Some (mkSocketAddr ip port scope, s).

(** [Parser::parse_with]: the whole input must be read. *)
Definition parse_with {A} (r : reader A) (s : string) : option A :=
  match r s with
  | Some (a, "") => Some a
  | _ => None
  end.

Definition parse_ip : string → option IpAddr := parse_with read_ip_addr.

Definition parse_socket_addr : string → option SocketAddr :=
  parse_with (λ s, match read_socket_addr_v4 s with
                   | Some r => Some r
                   | None => read_socket_addr_v6 s
                   end).

(** [Display] of an IPv4 address. *)
Definition show_v4 (a b c d : Z) : string :=
  join "." [show_uint a; show_uint b; show_uint c; show_uint d].

(** ** Lemmas *)

Definition octet (n : Z) : Prop := 0 ≤ n < 256.

(** The rest of the input does not go on with a digit. *)
Definition no_digit_ahead (s : string) : bool :=
  match s with String c _ => negb (is_digit c) | "" => true end.

Lemma to_digit10_spec c :
  to_digit 10 c = if is_digit c then Some (code c - 48) else None.
Proof.
  unfold to_digit, is_digit, byte_in. pose proof (code_range c).
  repeat case_scrut; simplify_eq/=; f_equal; lia.
Qed.

Fixpoint digits_value (acc : Z) (s : string) : Z :=
  match s with
  | "" => acc
  | String c s' => digits_value (acc * 10 + (code c - 48)) s'
  end.

Lemma read_digits_app maxd count acc s rest :
  str_forall is_digit s = true → no_digit_ahead rest = true →
  (count + String.length s ≤ maxd)%nat →
  read_digits 10 maxd count acc (s +:+ rest) =
  Some (digits_value acc s, (count + String.length s)%nat, rest).
Proof.
  intros Hs Hr. revert count acc. induction s as [|c s IH]; intros count acc Hl; simpl in *.
  - rewrite Nat.add_0_r. destruct rest as [|c rest]; [done|]. simpl in *.
    rewrite to_digit10_spec. by destruct (is_digit c).
  - apply andb_true_iff in Hs as [Hc Hs]. rewrite to_digit10_spec, Hc.
    replace (maxd <? S count)%nat with false by (symmetry; apply Nat.ltb_ge; lia).
    rewrite IH by (done || lia). by rewrite Nat.add_succ_comm.
Qed.

(** The decimal text of every octet is one to three digits with no leading
    zero. *)
Definition octet_text_ok (n : Z) : bool :=
  let s := show_uint n in
  (1 <=? String.length s)%nat && (String.length s <=? 3)%nat &&
  (digits_value 0 s =? n) && (negb (starts_with "0" s) || (String.length s =? 1)%nat).

Lemma octet_texts n : octet n → octet_text_ok n = true.
Proof.
  intros Hn. assert (H : forallb octet_text_ok (seqZ 0 256) = true) by (by vm_compute).
  rewrite forallb_forall in H. apply H, list_elem_of_In, elem_of_seqZ. unfold octet in Hn. lia.
Qed.

Lemma starts_with_app_ne p s t :
  (1 ≤ String.length s)%nat → starts_with (String p "") (s +:+ t) = starts_with (String p "") s.
Proof. destruct s as [|c s]; simpl; [lia|]. intros _. unfold starts_with. simpl. by destruct (Ascii.eqb p c). Qed.

Lemma read_number_octet n rest :
  octet n → no_digit_ahead rest = true →
  read_number 255 10 (Some 3%nat) false (show_uint n +:+ rest) = Some (n, rest).
Proof.
  intros Hn Hr. pose proof (octet_texts n Hn) as Ht. unfold octet, octet_text_ok in *.
  apply andb_true_iff in Ht as [[[H1 H2]%andb_true_iff H3]%andb_true_iff H4].
  apply Nat.leb_le in H1, H2. apply Z.eqb_eq in H3.
  unfold read_number. rewrite starts_with_app_ne by done.
  rewrite read_digits_app by (done || lia || (apply show_uint_digits; lia)).
  rewrite H3. cbn [Nat.add negb andb].
  destruct (String.length (show_uint n) =? 0)%nat eqn:E0; [apply Nat.eqb_eq in E0; lia|].
  replace (starts_with "0" (show_uint n) && (1 <? String.length (show_uint n))%nat) with false.
  - replace (255 <? n) with false; [done|]. symmetry. apply Z.ltb_ge. lia.
  - apply orb_true_iff in H4 as [H4|H4].
    + by destruct (starts_with "0" (show_uint n)).
    + apply Nat.eqb_eq in H4. rewrite H4. by rewrite andb_false_r.
Qed.

Lemma read_ipv4_show a b c d rest :
  octet a → octet b → octet c → octet d → no_digit_ahead rest = true →
  read_ipv4_addr (show_v4 a b c d +:+ rest) = Some (V4 a b c d, rest).
Proof.
  intros Ha Hb Hc Hd Hr. unfold show_v4. rewrite !join_cons, join_singleton.
  rewrite !append_assoc. unfold read_ipv4_addr, read_octet, read_separator.
  rewrite read_number_octet by done. simpl.
  do 3 (rewrite ?read_number_octet by done; simpl). done.
Qed.

Lemma parse_ip_show a b c d :
  octet a → octet b → octet c → octet d →
  parse_ip (show_v4 a b c d) = Some (V4 a b c d).
Proof.
  intros Ha Hb Hc Hd. pose proof (read_ipv4_show a b c d "" Ha Hb Hc Hd eq_refl) as E.
  rewrite append_nil_r in E. unfold parse_ip, parse_with, read_ip_addr. by rewrite E.
Qed.
