(* ===== verification/Config.v ===== *)
(** * Server configuration ([src/src/config.rs])

    [from_env] reads the process environment, a function from names to values
    ([None] for [env::var]'s error).  [parallelism] is the result of
    [std::thread::available_parallelism]. *)
From S2P Require Import Prelude RustStr Net.
Local Open Scope Z_scope.

Record ServerConfig : Type := mkConfig {
  addr : SocketAddr;
  workers : Z;
  max_blocking_threads : Z;
  log_level : string;
  static_dir : string;
  rate_limit_rps : Z;
  max_connections : Z;
  tls_cert_path : option string;
  tls_key_path : option string;
  http_redirect_port : option Z;
  max_body_bytes : Z;
  keep_alive_timeout_secs : Z;
  max_concurrent_requests : Z;
  shutdown_drain_secs : Z;
  db_url : string;
  jwt_secret : string;
  auth_username : string;
  auth_password : string;
  request_timeout_secs : Z;
  db_pool_size : Z;
  blocked_ips : list IpAddr;
  allowed_ips : list IpAddr;
  proxy_upstream : option string;
  proxy_strip_prefix : option string;
}.

Inductive ConfigError : Type :=
| InvalidAddr (s : string)
| InvalidValue (key value : string).

#[export] Instance ConfigError_eq_dec : EqDecision ConfigError.
Proof. solve_decision. Defined.

Definition Env : Type := string → option string.

Section FromEnv.
Context (env : Env) (parallelism : option Z).

Definition env_or (key dflt : string) : string := default dflt (env key).

(** A numeric setting with a default that must parse and be positive. *)
Definition positive_setting (key dflt : string) (max : Z) : result ConfigError Z :=
  let str := env_or key dflt in
  n ← ok_or (InvalidValue key str) (parse_uint max str);
  if n =? 0 then Err (InvalidValue key "must be > 0") else Ok n.

Definition workers_setting : result ConfigError Z :=
  match env "WORKERS" with
  | Some v =>
      n ← ok_or (InvalidValue "WORKERS" v) (parse_uint usize_max v);
      if n =? 0 then Err (InvalidValue "WORKERS" "must be > 0") else Ok n
  | None => Ok (default 4 parallelism)
  end.

Definition redirect_port_setting : result ConfigError (option Z) :=
  match env "HTTP_REDIRECT_PORT" with
  | Some v => p ← ok_or (InvalidValue "HTTP_REDIRECT_PORT" v) (parse_uint u16_max v); Ok (Some p)
  | None => Ok None
  end.

Definition parse_ip_list (s : string) : list IpAddr :=
  omap (λ ip, parse_ip (trim ip)) (split "," s).

Definition port_setting : result ConfigError Z :=
  let port_str := env_or "PORT" "8080" in
  ok_or (InvalidValue "PORT" port_str) (parse_uint u16_max port_str).

Definition addr_setting (port : Z) : result ConfigError SocketAddr :=
  let addr_str := env_or "HOST" "0.0.0.0" +:+ ":" +:+ show_uint port in
  ok_or (InvalidAddr addr_str) (parse_socket_addr addr_str).

Definition from_env : result ConfigError ServerConfig :=
  port ← port_setting;
  addr ← addr_setting port;
  workers ← workers_setting;
  max_blocking_threads ← positive_setting "BLOCKING_THREADS" "512" usize_max;
  let log_level := env_or "LOG_LEVEL" "info" in
  let static_dir := env_or "STATIC_DIR" "./static" in
  rate_limit_rps ← positive_setting "RATE_LIMIT_RPS" "100" u32_max;
  max_connections ← positive_setting "MAX_CONNECTIONS" "10000" usize_max;
  max_body_bytes ← positive_setting "MAX_BODY_BYTES" "4194304" usize_max;
  keep_alive_timeout_secs ← positive_setting "KEEP_ALIVE_TIMEOUT" "75" u64_max;
  max_concurrent_requests ← positive_setting "MAX_CONCURRENT_REQUESTS" "5000" usize_max;
  shutdown_drain_secs ← positive_setting "SHUTDOWN_DRAIN_SECS" "30" u64_max;
  http_redirect_port ← redirect_port_setting;
  let db_url := env_or "DATABASE_URL" "sqlite:./data.db" in
  let jwt_secret := env_or "JWT_SECRET" "change-me-in-production" in
  let auth_username := env_or "AUTH_USERNAME" "admin" in
  let auth_password := env_or "AUTH_PASSWORD" "secret" in
  request_timeout_secs ← positive_setting "REQUEST_TIMEOUT_SECS" "30" u64_max;
  db_pool_size ← positive_setting "DB_POOL_SIZE" "5" u32_max;
  let blocked_ips := parse_ip_list (env_or "BLOCKED_IPS" "") in
  let allowed_ips := parse_ip_list (env_or "ALLOWED_IPS" "") in
  Ok (mkConfig addr workers max_blocking_threads log_level static_dir rate_limit_rps
        max_connections (env "TLS_CERT_PATH") (env "TLS_KEY_PATH") http_redirect_port
        max_body_bytes keep_alive_timeout_secs max_concurrent_requests shutdown_drain_secs
        db_url jwt_secret auth_username auth_password request_timeout_secs db_pool_size
        blocked_ips allowed_ips (env "PROXY_UPSTREAM") (env "PROXY_STRIP_PREFIX")).

End FromEnv.

Definition is_blocked (c : ServerConfig) (ip : IpAddr) : bool :=
  bool_decide (ip ∈ blocked_ips c).

Definition is_allowed (c : ServerConfig) (ip : IpAddr) : bool :=
  match allowed_ips c with
  | [] => true
  | _ => bool_decide (ip ∈ allowed_ips c)
  end.

(** ** Specification *)

Definition between (lo hi n : Z) : Prop := lo ≤ n ≤ hi.

(** What a loaded configuration guarantees the components that run on it. *)
Record config_ok (c : ServerConfig) : Prop := {
  ok_workers : between 1 usize_max (workers c);
  ok_blocking : between 1 usize_max (max_blocking_threads c);
  ok_rps : between 1 u32_max (rate_limit_rps c);
  ok_connections : between 1 usize_max (max_connections c);
  ok_body : between 1 usize_max (max_body_bytes c);
  ok_keep_alive : between 1 u64_max (keep_alive_timeout_secs c);
  ok_concurrent : between 1 usize_max (max_concurrent_requests c);
  ok_drain : between 1 u64_max (shutdown_drain_secs c);
  ok_timeout : between 1 u64_max (request_timeout_secs c);
  ok_pool : between 1 u32_max (db_pool_size c);
  ok_redirect : ∀ p, http_redirect_port c = Some p → between 0 u16_max p;
}.

(** The numeric settings, with the maximum of their types. *)
Definition numeric_settings : list (string * Z) :=
  [("BLOCKING_THREADS", usize_max); ("RATE_LIMIT_RPS", u32_max); ("MAX_CONNECTIONS", usize_max);
   ("MAX_BODY_BYTES", usize_max); ("KEEP_ALIVE_TIMEOUT", u64_max);
   ("MAX_CONCURRENT_REQUESTS", usize_max); ("SHUTDOWN_DRAIN_SECS", u64_max);
   ("REQUEST_TIMEOUT_SECS", u64_max); ("DB_POOL_SIZE", u32_max); ("WORKERS", usize_max)].

(** An environment [from_env] accepts. *)
Record env_valid (env : Env) : Prop := {
  valid_numeric : ∀ key max v, (key, max) ∈ numeric_settings → env key = Some v →
    ∃ n, parse_uint max v = Some n ∧ n ≠ 0;
  valid_port : ∀ v, env "PORT" = Some v → is_Some (parse_uint u16_max v);
  valid_addr : ∀ port, parse_uint u16_max (env_or env "PORT" "8080") = Some port →
    is_Some (parse_socket_addr (env_or env "HOST" "0.0.0.0" +:+ ":" +:+ show_uint port));
  valid_redirect : ∀ v, env "HTTP_REDIRECT_PORT" = Some v → is_Some (parse_uint u16_max v);
}.

(** An error [from_env] may report about an environment. *)
Inductive env_error (env : Env) : ConfigError → Prop :=
| env_error_parse key max v :
    (key, max) ∈ ("PORT", u16_max) :: ("HTTP_REDIRECT_PORT", u16_max) :: numeric_settings →
    env key = Some v → parse_uint max v = None → env_error env (InvalidValue key v)
| env_error_zero key max v :
    (key, max) ∈ numeric_settings → env key = Some v → parse_uint max v = Some 0 →
    env_error env (InvalidValue key "must be > 0")
| env_error_addr port a :
    parse_uint u16_max (env_or env "PORT" "8080") = Some port →
    a = env_or env "HOST" "0.0.0.0" +:+ ":" +:+ show_uint port →
    parse_socket_addr a = None → env_error env (InvalidAddr a).

(** ** Lemmas *)

(** A default that parses to a positive number. *)
Definition good_default (dflt : string) (max : Z) : bool :=
  match parse_uint max dflt with Some n => negb (n =? 0) | None => false end.

Lemma positive_setting_Ok env key dflt max n :
  0 ≤ max → positive_setting env key dflt max = Ok n → between 1 max n.
Proof.
  intros Hm. unfold positive_setting, ok_or, mbind, result_bind. intros H.
  destruct (parse_uint max (env_or env key dflt)) as [k|] eqn:E; [|done].
  apply parse_uint_bound in E; [|done]. unfold between.
  destruct (Z.eqb_spec k 0); simplify_eq/=. lia.
Qed.

Lemma positive_setting_Err env key dflt max e :
  (key, max) ∈ numeric_settings → good_default dflt max = true →
  positive_setting env key dflt max = Err e → env_error env e.
Proof.
  intros Hin Hd. unfold good_default, positive_setting, ok_or, mbind, result_bind, env_or in *.
  destruct (env key) as [v|] eqn:Ek; simpl.
  - destruct (parse_uint max v) as [k|] eqn:E.
    + destruct (Z.eqb_spec k 0) as [->|]; [|done]. intros [= <-].
      by apply env_error_zero with (max := max) (v := v).
    + intros [= <-]. apply env_error_parse with (max := max); [|done|done]. by do 2 right.
  - destruct (parse_uint max dflt) as [k|]; [|done]. by destruct (k =? 0).
Qed.

Lemma positive_setting_valid env key dflt max :
  env_valid env → (key, max) ∈ numeric_settings → good_default dflt max = true →
  ∃ n, positive_setting env key dflt max = Ok n.
Proof.
  intros Hv Hin Hd. destruct (positive_setting env key dflt max) as [n|e] eqn:E; [by exists n|].
  exfalso. unfold good_default, positive_setting, ok_or, mbind, result_bind, env_or in *.
  destruct (env key) as [v|] eqn:Ek; simpl in E.
  - destruct (valid_numeric env Hv key max v Hin Ek) as (n & Hn & H0). rewrite Hn in E.
    by destruct (Z.eqb_spec n 0).
  - destruct (parse_uint max dflt) as [k|]; [|done]. by destruct (k =? 0).
Qed.

Lemma workers_setting_Ok env par n :
  (∀ p, par = Some p → between 1 usize_max p) →
  workers_setting env par = Ok n → between 1 usize_max n.
Proof.
  intros Hp. unfold workers_setting. destruct (env "WORKERS") as [v|].
  - rewrite bind_Ok. intros (k & Hk%ok_or_Ok & Hn). apply parse_uint_bound in Hk; [|done].
    unfold between. destruct (Z.eqb_spec k 0); simplify_eq/=. lia.
  - intros [= <-]. destruct par as [p|]; simpl; [by apply Hp|done].
Qed.

Lemma workers_setting_Err env par e : workers_setting env par = Err e → env_error env e.
Proof.
  unfold workers_setting. destruct (env "WORKERS") as [v|] eqn:Ev; [|done].
  rewrite bind_Err. intros [[Hk <-]%ok_or_Err|(k & Hk%ok_or_Ok & He)].
  - apply env_error_parse with (max := usize_max); [|done|done]. by repeat constructor.
  - destruct (Z.eqb_spec k 0) as [->|]; simplify_eq/=.
    apply env_error_zero with (max := usize_max) (v := v); [|done|done]. by repeat constructor.
Qed.

Lemma workers_setting_valid env par : env_valid env → ∃ n, workers_setting env par = Ok n.
Proof.
  intros Hv. unfold workers_setting. destruct (env "WORKERS") as [v|] eqn:Ev; [|by eexists].
  destruct (valid_numeric env Hv "WORKERS" usize_max v) as (n & -> & Hn); [|done|].
  - by repeat constructor.
  - simpl. destruct (Z.eqb_spec n 0); [done|]. by eexists.
Qed.

Lemma redirect_port_setting_Ok env p q :
  redirect_port_setting env = Ok p → p = Some q → between 0 u16_max q.
Proof.
  unfold redirect_port_setting. destruct (env _); [|intros [= <-]; done].
  rewrite bind_Ok. intros (k & Hk%ok_or_Ok & [= <-]) [= <-]. by apply parse_uint_bound in Hk.
Qed.

Lemma redirect_port_setting_Err env e : redirect_port_setting env = Err e → env_error env e.
Proof.
  unfold redirect_port_setting. destruct (env _) as [v|] eqn:Ev; [|done].
  rewrite bind_Err. intros [[Hk <-]%ok_or_Err|(k & _ & ?)]; [|done].
  apply env_error_parse with (max := u16_max); [|done|done]. by repeat constructor.
Qed.

Lemma port_setting_Err env e : port_setting env = Err e → env_error env e.
Proof.
  unfold port_setting. intros [Hk <-]%ok_or_Err. unfold env_or in *.
  destruct (env "PORT") as [v|] eqn:Ev; simpl in *; [|by vm_compute in Hk].
  apply env_error_parse with (max := u16_max); [|done|done]. by repeat constructor.
Qed.

Lemma addr_setting_Err env port e :
  port_setting env = Ok port → addr_setting env port = Err e → env_error env e.
Proof.
  intros Hp%ok_or_Ok [Hk <-]%ok_or_Err. by apply env_error_addr with (port := port).
Qed.

(** Splits a chain of settings into its successes, or into the first that
    failed and the successes before it. *)
Ltac settings H :=
  repeat match type of H with
  | (_ ≫= _) = Ok _ => apply bind_Ok in H as (? & ? & H)
  end.

Ltac failed_setting H :=
  repeat match type of H with
  | (_ ≫= _) = Err _ => apply bind_Err in H as [H|(? & ? & H)]
  end.

(** Proves that a key is one of [numeric_settings]. *)
Ltac is_setting := repeat constructor.

#[export] Hint Resolve positive_setting_Ok workers_setting_Ok redirect_port_setting_Ok : server.

(** ** Theorems *)

(** C37: a configuration that loads is within the types of its fields and has no
    zero limit: at least one worker thread, a positive rate limit, positive
    connection, body, concurrency and pool limits and positive timeouts. *)
Theorem from_env_config_ok env par c :
  (∀ p, par = Some p → between 1 usize_max p) → from_env env par = Ok c → config_ok c.
Proof.
  intros Hp H. unfold from_env in H. cbv zeta in H. settings H. injection H as <-.
  constructor; simpl; intros; eauto 2 with server.
  all: by (eapply positive_setting_Ok; [|eassumption]).
Qed.

(** Loading fails only with an error that is true of the environment. *)
Lemma from_env_Err env par e : from_env env par = Err e → env_error env e.
Proof.
  intros H. unfold from_env in H. cbv zeta in H. failed_setting H.
  all: try (by refine (positive_setting_Err _ _ _ _ _ _ _ H); [is_setting|]).
  - by apply port_setting_Err.
  - by eapply addr_setting_Err.
  - by eapply workers_setting_Err.
  - by apply redirect_port_setting_Err.
  - done.
Qed.

(** And succeeds on every environment whose values are valid. *)
Lemma from_env_valid env par : env_valid env → ∃ c, from_env env par = Ok c.
Proof.
  intros Hv. unfold from_env. cbv zeta.
  assert (Hport : ∃ p, port_setting env = Ok p).
  { unfold port_setting, env_or. destruct (env "PORT") as [v|] eqn:E; simpl; [|by eexists].
    destruct (valid_port env Hv v E) as [p ->]. by eexists. }
  destruct Hport as [port Hport]. rewrite Hport. cbn [mbind result_bind].
  assert (Ha : ∃ a, addr_setting env port = Ok a).
  { apply ok_or_Ok in Hport. destruct (valid_addr env Hv port Hport) as [a Ea].
    unfold addr_setting. rewrite Ea. by eexists. }
  destruct Ha as [a ->]. cbn [mbind result_bind].
  destruct (workers_setting_valid env par Hv) as [w ->]. cbn [mbind result_bind].
  assert (Hr : ∃ p, redirect_port_setting env = Ok p).
  { unfold redirect_port_setting. destruct (env _) as [v|] eqn:E; [|by eexists].
    destruct (valid_redirect env Hv v E) as [p ->]. by eexists. }
  destruct Hr as [rp Hr].
  repeat match goal with
  | |- context [positive_setting env ?k ?d ?m] =>
      destruct (positive_setting_valid env k d m Hv) as [? ->]; [is_setting|done|];
      cbn [mbind result_bind]
  | |- context [redirect_port_setting env] => rewrite Hr; cbn [mbind result_bind]
  end.
  by eexists.
Qed.

(** C38: loading reports exactly what is wrong: an error names a variable and the
    value it really has, which does not parse in its type or is the forbidden
    zero, or an address that does not parse; and an environment whose values are
    all valid, absent variables included, always loads. *)
Theorem from_env_errors env par :
  (∀ e, from_env env par = Err e → env_error env e) ∧
  (env_valid env → ∃ c, from_env env par = Ok c).
Proof. split; [intros e; apply from_env_Err|apply from_env_valid]. Qed.

(** ** Address lists *)

(** Printable ASCII, no blank. *)
Definition graphic (c : ascii) : bool := byte_in 33 126 c.

Definition blanks (n : nat) : string := Nat.iter n (String " ") "".

Lemma graphic_not_ws a b c :
  graphic a = true → is_ws1 a = false ∧ is_ws2 a b = false ∧ is_ws3 a b c = false.
Proof.
  unfold graphic. rewrite byte_in_spec. intros Ha.
  assert (Hne : ∀ z, z < 33 ∨ 126 < z → (code a =? z) = false) by (intros; apply Z.eqb_neq; lia).
  unfold is_ws1, is_ws2, is_ws3, byte_in. rewrite !Hne by lia.
  replace (code a <=? 13) with false by (symmetry; apply Z.leb_gt; lia).
  by rewrite !andb_false_r.
Qed.

Lemma graphic_not_ws_rev a b c :
  graphic a = true → is_ws2 b a = false ∧ is_ws3 c b a = false.
Proof.
  unfold graphic. rewrite byte_in_spec. intros Ha.
  assert (Hne : ∀ z, z < 33 ∨ 126 < z → (code a =? z) = false) by (intros; apply Z.eqb_neq; lia).
  assert (Hle : ∀ z, 126 < z → (z <=? code a) = false) by (intros; apply Z.leb_gt; lia).
  unfold is_ws2, is_ws3, byte_in. rewrite ?Hne, ?Hle by lia. by rewrite !andb_false_r.
Qed.

Lemma trim_start_graphic c s : graphic c = true → trim_start (String c s) = String c s.
Proof.
  intros Hc. simpl. destruct s as [|b [|d s]]; simpl.
  - by rewrite (proj1 (graphic_not_ws c c c Hc)).
  - destruct (graphic_not_ws c b c Hc) as (-> & -> & _). done.
  - destruct (graphic_not_ws c b d Hc) as (-> & -> & ->). done.
Qed.

Lemma trim_start_rev_graphic c s :
  graphic c = true → trim_start_rev (String c s) = String c s.
Proof.
  intros Hc. destruct (graphic_not_ws c c c Hc) as (H1 & _). simpl. rewrite H1.
  destruct s as [|b [|d s]]; simpl; [done|..].
  - destruct (graphic_not_ws_rev c b c Hc) as (-> & _). done.
  - destruct (graphic_not_ws_rev c b d Hc) as (-> & ->). done.
Qed.

Lemma trim_start_blanks n s : trim_start (blanks n +:+ s) = trim_start s.
Proof. induction n as [|n IH]; [done|]. exact IH. Qed.

Lemma trim_start_rev_blanks n s : trim_start_rev (blanks n +:+ s) = trim_start_rev s.
Proof. induction n as [|n IH]; [done|]. exact IH. Qed.

Lemma blanks_snoc n s : blanks n +:+ String " " s = String " " (blanks n +:+ s).
Proof. induction n as [|n IH]; [done|]. simpl. by rewrite IH. Qed.

Lemma str_rev_blanks n : str_rev (blanks n) = blanks n.
Proof.
  induction n as [|n IH]; [done|]. change (blanks (S n)) with (String " " "" +:+ blanks n).
  rewrite str_rev_app, IH. change (str_rev " ") with " ". by rewrite blanks_snoc, append_nil_r.
Qed.

(** Blanks around a text of printable characters are trimmed. *)
Lemma trim_padded i j a s b :
  graphic a = true → graphic b = true →
  trim (blanks i +:+ (String a s +:+ String b "") +:+ blanks j) = String a s +:+ String b "".
Proof.
  intros Ha Hb. unfold trim. rewrite trim_start_blanks.
  change ((String a s +:+ String b "") +:+ blanks j)
    with (String a ((s +:+ String b "") +:+ blanks j)).
  rewrite trim_start_graphic by done.
  change (String a ((s +:+ String b "") +:+ blanks j))
    with ((String a s +:+ String b "") +:+ blanks j).
  rewrite str_rev_app, str_rev_blanks, trim_start_rev_blanks, str_rev_app.
  change (str_rev (String b "")) with (String b ""). cbn [String.append].
  rewrite trim_start_rev_graphic by done.
  change (String b (str_rev (String a s))) with (str_rev (String b "") +:+ str_rev (String a s)).
  by rewrite <- str_rev_app, str_rev_involutive.
Qed.

Lemma show_uint_snoc n : 0 ≤ n → ∃ s c, show_uint n = s +:+ String c "" ∧ is_digit c = true.
Proof.
  intros Hn. unfold show_uint. cbn [show_digits]. set (c := byte_of (48 + n mod 10)).
  assert (Hc : is_digit c = true).
  { unfold is_digit, c. apply byte_in_spec. pose proof (Z.mod_pos_bound n 10 ltac:(lia)).
    rewrite code_byte_of by lia. lia. }
  destruct (n <? 10).
  - by exists "", c.
  - assert (E : ∀ fuel m acc, show_digits fuel m acc = show_digits fuel m "" +:+ acc).
    { induction fuel as [|fuel IH]; intros m acc; [done|]. cbn [show_digits].
      destruct (m <? 10); [done|].
      rewrite IH, (IH _ (String _ "")), append_assoc. done. }
    rewrite E. by eexists _, c.
Qed.

Lemma digit_graphic c : is_digit c = true → graphic c = true.
Proof. unfold is_digit, graphic. rewrite !byte_in_spec. lia. Qed.

Lemma show_uint_cons n : 0 ≤ n → ∃ c s, show_uint n = String c s ∧ is_digit c = true.
Proof.
  intros Hn. pose proof (show_uint_digits n Hn) as Hd.
  destruct (show_uint_snoc n Hn) as (s & c & E & Hc). rewrite E in *.
  destruct s as [|a s]; [by exists c, ""|]. simpl in *.
  apply andb_true_iff in Hd as [Ha _]. by eexists a, _.
Qed.

(** An entry of a list: an IPv4 address and the blanks around it. *)
Record entry : Type := mkEntry {
  pad_left : nat; e_a : Z; e_b : Z; e_c : Z; e_d : Z; pad_right : nat;
}.

Definition entry_ok (e : entry) : Prop :=
  octet (e_a e) ∧ octet (e_b e) ∧ octet (e_c e) ∧ octet (e_d e).

Definition entry_ip (e : entry) : IpAddr := V4 (e_a e) (e_b e) (e_c e) (e_d e).

Definition entry_text (e : entry) : string :=
  blanks (pad_left e) +:+ show_v4 (e_a e) (e_b e) (e_c e) (e_d e) +:+ blanks (pad_right e).

Lemma trim_entry e :
  entry_ok e → trim (entry_text e) = show_v4 (e_a e) (e_b e) (e_c e) (e_d e).
Proof.
  intros (Ha & Hb & Hc & Hd). unfold octet in *. unfold entry_text, show_v4.
  rewrite !join_cons, join_singleton.
  destruct (show_uint_cons (e_a e) ltac:(lia)) as (c1 & s1 & -> & H1).
  destruct (show_uint_snoc (e_d e) ltac:(lia)) as (s2 & c2 & -> & H2).
  set (mid := s1 +:+ "." +:+ show_uint (e_b e) +:+ "." +:+ show_uint (e_c e) +:+ "." +:+ s2).
  assert (E : String c1 s1 +:+ "." +:+ show_uint (e_b e) +:+ "." +:+ show_uint (e_c e) +:+ "." +:+
              (s2 +:+ String c2 "") = String c1 mid +:+ String c2 "").
  { change (String c1 s1) with (String c1 "" +:+ s1).
    change (String c1 mid) with (String c1 "" +:+ mid). unfold mid. by rewrite !append_assoc. }
  rewrite E. apply trim_padded; by apply digit_graphic.
Qed.

Lemma no_comma_blanks n : no_char "," (blanks n) = true.
Proof. by induction n. Qed.

Lemma no_comma_digits s : str_forall is_digit s = true → no_char "," s = true.
Proof.
  apply str_forall_impl. intros c. unfold is_digit. rewrite byte_in_spec, eqb_code.
  change (code ",") with 44. intros. apply negb_true_iff, Z.eqb_neq. lia.
Qed.

Lemma no_comma_app s t : no_char "," (s +:+ t) = no_char "," s && no_char "," t.
Proof. apply str_forall_app. Qed.

Lemma no_comma_entry e : entry_ok e → no_char "," (entry_text e) = true.
Proof.
  intros (Ha & Hb & Hc & Hd). unfold octet in *. unfold entry_text, show_v4.
  rewrite !join_cons, join_singleton, !no_comma_app, !no_comma_blanks.
  change (no_char "," ".") with true.
  by rewrite !(no_comma_digits (show_uint _)) by (apply show_uint_digits; lia).
Qed.

(** The address lists read back: a comma-separated list of IPv4 addresses,
    with blanks around them, parses to exactly those addresses in order. *)
Lemma parse_ip_list_roundtrip (es : list entry) :
  Forall entry_ok es → parse_ip_list (join "," (map entry_text es)) = map entry_ip es.
Proof.
  intros HF. destruct es as [|e es]; [done|]. unfold parse_ip_list.
  rewrite split_join; [|done|].
  - clear -HF. induction HF as [|x l Hx HF IH]; [done|]. simpl. rewrite trim_entry by done.
    destruct Hx as (Ha & Hb & Hc & Hd). rewrite parse_ip_show by done. by f_equal.
  - apply Forall_map. eapply Forall_impl; [exact HF|]. apply no_comma_entry.
Qed.

(** A value with no address that parses leaves the allow list empty, which
    admits everyone. *)
Lemma unparsable_allow_list_admits_all env par c ip :
  env "ALLOWED_IPS" = Some "10.0.0.0/8, localhost" → from_env env par = Ok c →
  is_allowed c ip = true.
Proof.
  intros He H. unfold from_env in H. cbv zeta in H. settings H. injection H as <-.
  unfold is_allowed, env_or. simpl. by rewrite He.
Qed.

(** ** Instances *)

Definition env_of (l : list (string * string)) : Env := λ k,
  snd <$> find_first (λ kv, String.eqb kv.1 k) l.

(** The configuration of an environment that loads. *)
Definition loaded (env : Env) : ServerConfig :=
  match from_env env None with
  | Ok c => c
  | Err _ => mkConfig (mkSocketAddr (V4 0 0 0 0) 0 0) 0 0 "" "" 0 0 None None None 0 0 0 0 "" "" ""
               "" 0 0 [] [] None None
  end.

Definition sample_env : Env :=
  env_of [("HOST", "[::1]"); ("PORT", "+443"); ("WORKERS", "8"); ("RATE_LIMIT_RPS", "007");
          ("BLOCKED_IPS", "1.2.3.4, fe80::1 ,nonsense"); ("HTTP_REDIRECT_PORT", "80")].

Example from_env_sample :
  (λ c, (addr c, workers c, rate_limit_rps c, blocked_ips c, http_redirect_port c))
    <$> from_env sample_env None =
  Ok (mkSocketAddr (V6 [0; 0; 0; 0; 0; 0; 0; 1]) 443 0, 8, 7,
      [V4 1 2 3 4; V6 [0xfe80; 0; 0; 0; 0; 0; 0; 1]], Some 80).
Proof. by vm_compute. Qed.

Lemma from_env_config_ok_witness :
  ∃ c, from_env sample_env (Some 4) = Ok c ∧ config_ok c.
Proof.
  eexists. split; [by vm_compute|].
  apply (from_env_config_ok sample_env (Some 4)); [|by vm_compute].
  intros p [= <-]. done.
Defined.

Example parse_ip_list_example :
  parse_ip_list "1.2.3.4 ,  255.0.10.99" = [V4 1 2 3 4; V4 255 0 10 99].
Proof.
  apply (parse_ip_list_roundtrip [mkEntry 0 1 2 3 4 1; mkEntry 2 255 0 10 99 0]).
  repeat constructor; simpl; unfold octet; lia.
Defined.
