(* ===== verification/Metrics.v ===== *)
(** * Metrics ([src/src/metrics.rs])

    The shared atomic counters and their Prometheus rendering.  [fetch_add] and
    [fetch_sub] on an [AtomicU64] wrap around. *)
From S2P Require Import Prelude RustStr.
Local Open Scope Z_scope.

Record Metrics : Type := mkMetrics {
  requests_total : Z;
  requests_active : Z;
  responses_2xx : Z;
  responses_4xx : Z;
  responses_5xx : Z;
  rate_limited : Z;
  concurrency_limited : Z;
  timed_out : Z;
  connections_accepted : Z;
  connections_rejected_ip : Z;
}.

Definition metrics_new : Metrics := mkMetrics 0 0 0 0 0 0 0 0 0 0.

(** The counters as fields that can be added to. *)
Inductive Counter : Type :=
| RequestsTotal | RequestsActive | Responses2xx | Responses4xx | Responses5xx
| RateLimited | ConcurrencyLimited | TimedOut | ConnectionsAccepted | ConnectionsRejectedIp.

#[export] Instance Counter_eq_dec : EqDecision Counter.
Proof. solve_decision. Defined.

Definition load (m : Metrics) (k : Counter) : Z :=
  match k with
  | RequestsTotal => requests_total m
  | RequestsActive => requests_active m
  | Responses2xx => responses_2xx m
  | Responses4xx => responses_4xx m
  | Responses5xx => responses_5xx m
  | RateLimited => rate_limited m
  | ConcurrencyLimited => concurrency_limited m
  | TimedOut => timed_out m
  | ConnectionsAccepted => connections_accepted m
  | ConnectionsRejectedIp => connections_rejected_ip m
  end.

(** [fetch_add(d)]; [fetch_sub(1)] is the addition of [-1]. *)
Definition fetch_add (k : Counter) (d : Z) (m : Metrics) : Metrics :=
  let up k' v := if decide (k = k') then wrap_u64 (v + d) else v in
  mkMetrics (up RequestsTotal (requests_total m)) (up RequestsActive (requests_active m))
    (up Responses2xx (responses_2xx m)) (up Responses4xx (responses_4xx m))
    (up Responses5xx (responses_5xx m)) (up RateLimited (rate_limited m))
    (up ConcurrencyLimited (concurrency_limited m)) (up TimedOut (timed_out m))
    (up ConnectionsAccepted (connections_accepted m))
    (up ConnectionsRejectedIp (connections_rejected_ip m)).

(** ** Rendering *)

Definition gauge (name help : string) (value : Z) : list string :=
  ["# HELP " +:+ name +:+ " " +:+ help; "# TYPE " +:+ name +:+ " gauge";
   name +:+ " " +:+ show_uint value].

Definition counter (name help : string) (value : Z) : list string :=
  ["# HELP " +:+ name +:+ " " +:+ help; "# TYPE " +:+ name +:+ " counter";
   name +:+ "_total " +:+ show_uint value].

(** The lines of the exposition, in the order they are pushed. *)
Definition render_lines (m : Metrics) : list string :=
  counter "requests" "Total HTTP requests received." (requests_total m) ++
  gauge "requests_active" "HTTP requests currently in-flight." (requests_active m) ++
  counter "responses_2xx" "Responses with a 2xx status code." (responses_2xx m) ++
  counter "responses_4xx" "Responses with a 4xx status code." (responses_4xx m) ++
  counter "responses_5xx" "Responses with a 5xx status code." (responses_5xx m) ++
  counter "rate_limited" "Requests rejected by the rate limiter (429)." (rate_limited m) ++
  counter "concurrency_limited" "Requests rejected by the concurrency limiter (503)."
    (concurrency_limited m) ++
  counter "timed_out" "Requests that exceeded the per-request processing timeout."
    (timed_out m) ++
  counter "connections_accepted" "Total TCP connections accepted." (connections_accepted m) ++
  counter "connections_rejected_ip" "Connections dropped by the IP filter."
    (connections_rejected_ip m).

Definition render (m : Metrics) : string := concat_str (map line (render_lines m)).

(** ** Specification: a scraper of the text format

    It drops comments and blank lines and reads [name value] from the others. *)
Definition scrape_line (l : string) : list (string * option Z) :=
  if starts_with "#" l || String.eqb l "" then []
  else match split_once " " l with
       | Some (name, v) => [(name, parse_uint u64_max v)]
       | None => [(l, None)]
       end.

Definition scrape (text : string) : list (string * option Z) :=
  concat (map scrape_line (split "010" text)).

Definition metrics_ok (m : Metrics) : Prop := ∀ k, 0 ≤ load m k ≤ u64_max.

(** ** Lemmas *)

Lemma load_fetch_add k k' d m :
  load (fetch_add k d m) k' = if decide (k = k') then wrap_u64 (load m k' + d) else load m k'.
Proof. by destruct k'. Qed.

Lemma fetch_add_ok k d m : metrics_ok m → metrics_ok (fetch_add k d m).
Proof.
  intros Hm k'. rewrite load_fetch_add. case_decide; [apply wrap_u64_range|apply Hm].
Qed.

Lemma metrics_new_ok : metrics_ok metrics_new.
Proof. by intros []. Qed.

#[export] Hint Resolve fetch_add_ok metrics_new_ok : server.

Lemma split_lines ls :
  Forall (λ l, no_char "010" l = true) ls →
  split "010" (concat_str (map line ls)) = ls ++ [""].
Proof.
  induction 1 as [|l ls Hl _ IH]; [done|]. cbn [map]. rewrite concat_str_cons.
  unfold line at 1. rewrite append_assoc. cbn [String.append]. rewrite split_app by done.
  by rewrite IH.
Qed.

Lemma no_newline_digits s : str_forall is_digit s = true → no_char "010" s = true.
Proof.
  apply str_forall_impl. intros c. unfold is_digit. rewrite byte_in_spec, eqb_code.
  change (code "010") with 10. intros. apply negb_true_iff, Z.eqb_neq. lia.
Qed.

Lemma no_newline_sample name v :
  0 ≤ v → no_char "010" name = true → no_char "010" (name +:+ show_uint v) = true.
Proof.
  intros Hv Hn. unfold no_char in *. rewrite str_forall_app, Hn. simpl.
  by apply no_newline_digits, show_uint_digits.
Qed.

Lemma scrape_sample name v :
  starts_with "#" name = false → no_char " " name = true → 0 ≤ v ≤ u64_max →
  scrape_line (name +:+ String " " (show_uint v)) = [(name, Some v)].
Proof.
  intros Hh Hs Hv. unfold scrape_line.
  assert (E1 : starts_with "#" (name +:+ String " " (show_uint v)) = false).
  { destruct name as [|c name]; [done|]. revert Hh. unfold starts_with. simpl.
    by destruct (Ascii.eqb "#" c). }
  assert (E2 : String.eqb (name +:+ String " " (show_uint v)) "" = false).
  { apply String.eqb_neq. by destruct name. }
  rewrite E1, E2, split_once_app by done. simpl. by rewrite parse_show_uint.
Qed.

Lemma metrics_ok_fields m :
  metrics_ok m → ∀ k, 0 ≤ load m k.
Proof. intros Hm k. by destruct (Hm k). Qed.

(** Reads the sample line of one counter. *)
Ltac sample Hm k :=
  match type of Hm with
  | metrics_ok ?m =>
      let v := eval cbn [load] in (load m k) in
      rewrite (λ n H1 H2, scrape_sample n v H1 H2 (Hm k)) by done
  end.

(** ** Theorems *)

(** C39: what a scraper reads from the exposition is exactly the ten counters
    under their names, each with the value it had, for all 64-bit values. *)
Theorem render_scrape m :
  metrics_ok m →
  scrape (render m) =
  [("requests_total", Some (requests_total m)); ("requests_active", Some (requests_active m));
   ("responses_2xx_total", Some (responses_2xx m)); ("responses_4xx_total", Some (responses_4xx m));
   ("responses_5xx_total", Some (responses_5xx m)); ("rate_limited_total", Some (rate_limited m));
   ("concurrency_limited_total", Some (concurrency_limited m));
   ("timed_out_total", Some (timed_out m));
   ("connections_accepted_total", Some (connections_accepted m));
   ("connections_rejected_ip_total", Some (connections_rejected_ip m))].
Proof.
  intros Hm. unfold scrape, render. rewrite split_lines.
  - unfold render_lines, counter, gauge. rewrite map_app, concat_app.
    cbn [map app concat].
    repeat match goal with
    | |- context [scrape_line (?n +:+ "_total " +:+ show_uint ?v)] =>
        change (n +:+ "_total " +:+ show_uint v)
          with ((n +:+ "_total") +:+ String " " (show_uint v))
    | |- context [scrape_line (?n +:+ " " +:+ show_uint ?v)] =>
        change (n +:+ " " +:+ show_uint v) with (n +:+ String " " (show_uint v))
    end.
    sample Hm RequestsTotal. sample Hm RequestsActive. sample Hm Responses2xx.
    sample Hm Responses4xx. sample Hm Responses5xx. sample Hm RateLimited.
    sample Hm ConcurrencyLimited. sample Hm TimedOut. sample Hm ConnectionsAccepted.
    sample Hm ConnectionsRejectedIp. done.
  - pose proof (metrics_ok_fields m Hm) as Hf.
    repeat constructor; try done; rewrite <- ?append_assoc; apply no_newline_sample; try done.
    all: first [exact (Hf RequestsTotal) | exact (Hf RequestsActive) | exact (Hf Responses2xx)
      | exact (Hf Responses4xx) | exact (Hf Responses5xx) | exact (Hf RateLimited)
      | exact (Hf ConcurrencyLimited) | exact (Hf TimedOut) | exact (Hf ConnectionsAccepted)
      | exact (Hf ConnectionsRejectedIp)].
Qed.

Lemma render_scrape_witness :
  let m := mkMetrics 42 1 40 1 18446744073709551615 0 0 7 3 0 in
  metrics_ok m ∧ nth 4 (scrape (render m)) ("", None) = ("responses_5xx_total", Some u64_max).
Proof.
  intros m. assert (Hm : metrics_ok m) by (by intros []). split; [done|].
  rewrite (render_scrape m Hm). done.
Defined.
