(* ===== verification/Semaphore.v ===== *)
(** * Permits, counted tasks and the concurrency limiter

    The [tokio::sync::Semaphore] that caps connections
    ([src/src/server/mod.rs]) and requests ([src/src/middleware/concurrency.rs]),
    the counting of the tasks that hold its permits, and the limiter's Tower
    service.  A semaphore is the number of its free permits. *)
From S2P Require Import Prelude RustStr HttpTypes Response.
Local Open Scope Z_scope.

(** [Semaphore::MAX_PERMITS] is [usize::MAX >> 3]; [Semaphore::new] panics
    ([None]) above it. *)
Definition MAX_PERMITS : Z := Z.shiftr usize_max 3.

Definition semaphore_new (permits : Z) : option Z :=
  if permits <=? MAX_PERMITS then Some permits else None.

Definition try_acquire (permits : Z) : option Z :=
  if 0 <? permits then Some (permits - 1) else None.

Definition release (permits : Z) : Z := permits + 1.

(** ** The limiter's service *)

Section Limiter.
Context `{HttpCrate}.

Definition service_unavailable : HttpResponse :=
  text (line "503 Service Unavailable") (rb_header "retry-after" "1" (rb_new 503)).

(** [ConcurrencyLimiterService::call]: the permits left to go on with, or the
    response it answers with itself. *)
Definition concurrency_call (permits : Z) : Z + HttpResponse :=
  match try_acquire permits with
  | Some permits' => inl permits'
  | None => inr service_unavailable
  end.

End Limiter.

(** ** Counting *)

Definition b2z (b : bool) : Z := if b then 1 else 0.

(** How many elements satisfy a test. *)
Definition count {A} (p : A → bool) (l : list A) : Z := Z.of_nat (length (filter (λ x, p x = true) l)).

Lemma count_nil {A} (p : A → bool) : count p [] = 0.
Proof. done. Qed.

Lemma count_cons {A} (p : A → bool) x l : count p (x :: l) = b2z (p x) + count p l.
Proof. unfold count. rewrite filter_cons. destruct (p x); simpl; lia. Qed.

Lemma count_nonneg {A} (p : A → bool) l : 0 ≤ count p l.
Proof. unfold count. lia. Qed.

Lemma count_app {A} (p : A → bool) l1 l2 : count p (l1 ++ l2) = count p l1 + count p l2.
Proof. unfold count. rewrite filter_app, length_app. lia. Qed.

(** Replacing one element changes the count by that element's part in it. *)
Lemma count_insert {A} (p : A → bool) l i x y :
  l !! i = Some x → count p (<[i := y]> l) = count p l - b2z (p x) + b2z (p y).
Proof.
  revert i. induction l as [|z l IH]; intros [|i] Hi; simplify_eq/=.
  - rewrite !count_cons. lia.
  - rewrite !count_cons, (IH i Hi). lia.
Qed.

Lemma count_pos {A} (p : A → bool) l i x : l !! i = Some x → p x = true → 0 < count p l.
Proof.
  revert i. induction l as [|z l IH]; intros [|i] Hi Hp; simplify_eq/=; rewrite count_cons.
  - rewrite Hp. pose proof (count_nonneg p l). simpl. lia.
  - specialize (IH i Hi Hp). destruct (p z); simpl; lia.
Qed.

Lemma count_zero {A} (p : A → bool) l : count p l = 0 ↔ Forall (λ x, p x = false) l.
Proof.
  induction l as [|x l IH]; [by split|]. rewrite count_cons, Forall_cons, <- IH.
  pose proof (count_nonneg p l). destruct (p x); simpl; split; intros; naive_solver lia.
Qed.

Lemma count_le {A} (p q : A → bool) l :
  (∀ x, p x = true → q x = true) → count p l ≤ count q l.
Proof.
  intros Hpq. induction l as [|x l IH]; [done|]. rewrite !count_cons. specialize (Hpq x).
  destruct (p x), (q x); simpl; lia || naive_solver.
Qed.

Lemma wrap_u64_add a b : wrap_u64 (wrap_u64 a + b) = wrap_u64 (a + b).
Proof. unfold wrap_u64. by rewrite Zplus_mod_idemp_l. Qed.

Lemma try_acquire_Some p p' : try_acquire p = Some p' → 0 ≤ p' ∧ p' = p - 1.
Proof. unfold try_acquire. destruct (Z.ltb_spec 0 p); [|done]. intros [= <-]. lia. Qed.

(** A set of indices at which [p] holds is no larger than the count. *)
Lemma size_le_count {A} (p : A → bool) l (X : gset nat) :
  (∀ i, i ∈ X → ∃ x, l !! i = Some x ∧ p x = true) → Z.of_nat (size X) ≤ count p l.
Proof.
  revert X. induction l as [|x l IH] using rev_ind; intros X HX.
  - assert (X = ∅) as ->; [|by rewrite size_empty].
    apply set_eq. intros i. split; [|set_solver]. intros (y & Hy & _)%HX. by rewrite lookup_nil in Hy.
  - assert (Hl : Z.of_nat (size (X ∖ {[length l]})) ≤ count p l).
    { apply IH. intros i [Hi Hne]%elem_of_difference. destruct (HX i Hi) as (y & Hy & Hp).
      rewrite not_elem_of_singleton in Hne. exists y. split; [|done].
      apply lookup_app_Some in Hy as [Hy|[Hge Hy]]; [done|].
      apply list_lookup_singleton_Some in Hy as [Hz _]. lia. }
    rewrite count_app, count_cons, count_nil.
    destruct (decide (length l ∈ X)) as [Hin|Hout].
    + destruct (HX _ Hin) as (y & Hy & Hp). rewrite list_lookup_middle in Hy by done.
      simplify_eq. rewrite Hp. rewrite size_difference in Hl by set_solver.
      rewrite size_singleton in Hl. simpl. lia.
    + assert (E : X ∖ {[length l]} = X) by set_solver. rewrite E in Hl.
      destruct (p x); simpl; lia.
Qed.
