(* ===== verification/AcceptLoop.v ===== *)
(** * Accept loop and graceful shutdown ([src/src/server/mod.rs])

    The main task of [accept_loop] from its loop on, interleaved with the
    connection tasks it spawns.  One step is one atomic action: an accept with
    its filters, a load of [in_flight], a [fetch_sub], a [notify_one], the drop
    of a permit.  [tokio::sync::Notify] is the one permit it can store: a
    [notify_one] stores it, and the pending [notified()] completes by taking
    it. *)
From S2P Require Import Prelude Net Config Metrics Semaphore.
Local Open Scope Z_scope.

(** ** State *)

(** A connection task: serving (TLS handshake included); past the [fetch_sub]
    that returned one and about to notify; past its accounting but still holding
    its permit; gone; or ended by a panic, or dropped with the runtime, which drops
    the permit and skips the accounting. *)
Inductive TaskPhase : Type := Serving | MustNotify | Finishing | Gone | Panicked.

#[export] Instance TaskPhase_eq_dec : EqDecision TaskPhase.
Proof. solve_decision. Defined.

Record Task : Type := mkTask {
  peer : IpAddr;
  phase : TaskPhase;
}.

Inductive Outcome : Type := NothingInFlight | Drained | DrainTimedOut.

(** The main task: in the loop; past the [break]; in the settle sleep; about to
    send the shutdown; about to load [remaining]; about to load again with
    [notified()] created; awaiting it; returned. *)
Inductive MainPhase : Type :=
| Accepting | Broke | Settling | Sending | Loading | Registering | Waiting
| Exited (o : Outcome).

Record ServerState : Type := mkServer {
  main : MainPhase;
  permits : Z;
  in_flight : Z;
  notified : bool;
  shutdown_sent : bool;
  tasks : list Task;
  metrics : Metrics;
}.

Definition server_init (max_conns : Z) : ServerState :=
  mkServer Accepting max_conns 0 false false [] metrics_new.

Definition set_main (m : MainPhase) (s : ServerState) : ServerState :=
  mkServer m (permits s) (in_flight s) (notified s) (shutdown_sent s) (tasks s) (metrics s).

Definition set_metrics (m : Metrics) (s : ServerState) : ServerState :=
  mkServer (main s) (permits s) (in_flight s) (notified s) (shutdown_sent s) (tasks s) m.

Definition set_task (id : nat) (p : TaskPhase) (t : Task) (s : ServerState) : ServerState :=
  mkServer (main s) (permits s) (in_flight s) (notified s) (shutdown_sent s)
    (<[id := mkTask (peer t) p]> (tasks s)) (metrics s).

(** ** Steps *)

Inductive Event : Type :=
| EAccept (ip : IpAddr)
| EAcceptError
| EShutdown
| EMain
| EDrainWake
| EDrainTimeout
| ETaskEnd (id : nat)
| ETaskNotify (id : nat)
| ETaskDrop (id : nat)
| ETaskPanic (id : nat).

(** The accept branch of the loop's [select!]. *)
Definition on_accept (cfg : ServerConfig) (ip : IpAddr) (s : ServerState) : ServerState :=
  let s := set_metrics (fetch_add ConnectionsAccepted 1 (metrics s)) s in
  if is_blocked cfg ip then set_metrics (fetch_add ConnectionsRejectedIp 1 (metrics s)) s
  else if negb (is_allowed cfg ip)
  then set_metrics (fetch_add ConnectionsRejectedIp 1 (metrics s)) s
  else match try_acquire (permits s) with
       | Some p =>
           mkServer (main s) p (wrap_u64 (in_flight s + 1)) (notified s) (shutdown_sent s)
             (tasks s ++ [mkTask ip Serving]) (metrics s)
       | None => s
       end.

(** The main task's next action once it has left the loop. *)
Definition on_main (s : ServerState) : option ServerState :=
  match main s with
  | Broke => Some (set_main (if 0 <? in_flight s then Settling else Sending) s)
  | Settling => Some (set_main Sending s)
  | Sending =>
      Some (mkServer Loading (permits s) (in_flight s) (notified s) true (tasks s) (metrics s))
  | Loading =>
      Some (set_main (if 0 <? in_flight s then Registering else Exited NothingInFlight) s)
  | Registering =>
      Some (set_main (if 0 <? in_flight s then Waiting else Exited NothingInFlight) s)
  | _ => None
  end.

(** A task's [counter.fetch_sub(1)]. *)
Definition on_task_end (id : nat) (s : ServerState) : option ServerState :=
  t ← tasks s !! id;
  if decide (phase t = Serving) then
    let p := if in_flight s =? 1 then MustNotify else Finishing in
    let s := set_task id p t s in
    Some (mkServer (main s) (permits s) (wrap_u64 (in_flight s - 1)) (notified s)
            (shutdown_sent s) (tasks s) (metrics s))
  else None.

Definition on_task_notify (id : nat) (s : ServerState) : option ServerState :=
  t ← tasks s !! id;
  if decide (phase t = MustNotify) then
    let s := set_task id Finishing t s in
    Some (mkServer (main s) (permits s) (in_flight s) true (shutdown_sent s) (tasks s) (metrics s))
  else None.

Definition drop_permit (s : ServerState) : ServerState :=
  mkServer (main s) (release (permits s)) (in_flight s) (notified s) (shutdown_sent s) (tasks s)
    (metrics s).

Definition on_task_drop (id : nat) (s : ServerState) : option ServerState :=
  t ← tasks s !! id;
  if decide (phase t = Finishing) then Some (drop_permit (set_task id Gone t s)) else None.

Definition on_task_panic (id : nat) (s : ServerState) : option ServerState :=
  t ← tasks s !! id;
  if decide (phase t = Serving) then Some (drop_permit (set_task id Panicked t s)) else None.

Definition exec (cfg : ServerConfig) (s : ServerState) (e : Event) : option ServerState :=
  match e with
  | EAccept ip => match main s with Accepting => Some (on_accept cfg ip s) | _ => None end
  | EAcceptError => match main s with Accepting => Some s | _ => None end
  | EShutdown => match main s with Accepting => Some (set_main Broke s) | _ => None end
  | EMain => on_main s
  | EDrainWake =>
      match main s, notified s with
      | Waiting, true =>
          Some (mkServer (Exited Drained) (permits s) (in_flight s) false (shutdown_sent s)
                  (tasks s) (metrics s))
      | _, _ => None
      end
  | EDrainTimeout =>
      match main s, notified s with
      | Waiting, false => Some (set_main (Exited DrainTimedOut) s)
      | _, _ => None
      end
  | ETaskEnd id => on_task_end id s
  | ETaskNotify id => on_task_notify id s
  | ETaskDrop id => on_task_drop id s
  | ETaskPanic id => on_task_panic id s
  end.

Definition step (cfg : ServerConfig) (s : ServerState) (e : Event) (s' : ServerState) : Prop :=
  exec cfg s e = Some s'.

Fixpoint exec_all (cfg : ServerConfig) (s : ServerState) (es : list Event) : option ServerState :=
  match es with
  | [] => Some s
  | e :: es' => s' ← exec cfg s e; exec_all cfg s' es'
  end.

(** ** Specification *)

(** The tasks that hold a permit, that are counted in [in_flight], that are
    still serving, and that have yet to notify. *)
Definition holds (t : Task) : bool :=
  match phase t with Serving | MustNotify | Finishing => true | _ => false end.

Definition counted (t : Task) : bool :=
  match phase t with Serving | Panicked => true | _ => false end.

Definition serving (t : Task) : bool :=
  match phase t with Serving => true | _ => false end.

Definition must_notify (t : Task) : bool :=
  match phase t with MustNotify => true | _ => false end.

Definition admissible (cfg : ServerConfig) (t : Task) : Prop :=
  is_blocked cfg (peer t) = false ∧ is_allowed cfg (peer t) = true.

Record server_inv (cfg : ServerConfig) (s : ServerState) : Prop := {
  inv_permits : 0 ≤ permits s;
  inv_held : permits s + count holds (tasks s) = max_connections cfg;
  inv_in_flight : in_flight s = wrap_u64 (count counted (tasks s));
  inv_peers : Forall (admissible cfg) (tasks s);
  inv_wake : main s = Waiting → in_flight s = 0 →
    notified s = true ∨ 0 < count must_notify (tasks s);
}.

Definition reachable (cfg : ServerConfig) (s : ServerState) : Prop :=
  ∃ es, run (step cfg) (server_init (max_connections cfg)) es s.

(** ** Lemmas *)

Lemma exec_all_run cfg es s s' : exec_all cfg s es = Some s' → run (step cfg) s es s'.
Proof.
  revert s. induction es as [|e es IH]; intros s; simpl; [intros [= ->]; constructor|].
  destruct (exec cfg s e) as [s1|] eqn:E; [|done]. intros H. econstructor; [exact E|by apply IH].
Qed.

Lemma server_init_inv cfg :
  0 ≤ max_connections cfg → server_inv cfg (server_init (max_connections cfg)).
Proof. split; simpl; try done. rewrite count_nil. lia. Qed.

Lemma on_accept_inv cfg ip s :
  main s = Accepting → server_inv cfg s → server_inv cfg (on_accept cfg ip s).
Proof.
  intros Hm [H1 H2 H3 H4 _]. unfold on_accept. simpl.
  destruct (is_blocked cfg ip) eqn:Eb; [split; simpl; done || congruence|].
  destruct (is_allowed cfg ip) eqn:Ea; [|split; simpl; done || congruence]. simpl.
  destruct (try_acquire (permits s)) as [p|] eqn:Ep; [|split; simpl; done || congruence].
  apply try_acquire_Some in Ep as [Hp0 Hp1].
  split; simpl; rewrite ?count_app, ?count_cons, ?count_nil; simpl; try lia.
  - rewrite H3, wrap_u64_add. f_equal; lia.
  - apply Forall_app. split; [done|]. by repeat constructor.
  - congruence.
Qed.

(** What a step of one task must account for. *)
Lemma task_step_inv cfg s id t p permits' in_flight' notified' :
  let t' := mkTask (peer t) p in
  server_inv cfg s → tasks s !! id = Some t → 0 ≤ permits' →
  permits' = permits s + b2z (holds t) - b2z (holds t') →
  in_flight' = wrap_u64 (in_flight s + (b2z (counted t') - b2z (counted t))) →
  (main s = Waiting → in_flight' = 0 →
     notified' = true ∨ 0 < count must_notify (<[id := t']> (tasks s))) →
  server_inv cfg (mkServer (main s) permits' in_flight' notified' (shutdown_sent s)
                    (<[id := t']> (tasks s)) (metrics s)).
Proof.
  intros t' [H1 H2 H3 H4 H5] Hid Hp Ep Ef Hw. split; simpl; [done| | | |done].
  - rewrite (count_insert _ _ _ t) by done. lia.
  - rewrite Ef, H3, wrap_u64_add, (count_insert _ _ _ t) by done. f_equal; lia.
  - apply Forall_insert; [done|]. rewrite Forall_lookup in H4. by apply (H4 id t).
Qed.

(** A task that neither was nor becomes one that must notify keeps the
    wake-up guarantee. *)
Lemma wake_kept cfg s id t t' :
  server_inv cfg s → tasks s !! id = Some t → must_notify t = false → must_notify t' = false →
  main s = Waiting → in_flight s = 0 →
  notified s = true ∨ 0 < count must_notify (<[id := t']> (tasks s)).
Proof.
  intros [_ _ _ _ H5] Hid E E' Hm H0. rewrite (count_insert _ _ _ t), E, E' by done. simpl.
  destruct (H5 Hm H0); [by left|right; lia].
Qed.

Lemma in_flight_range cfg s : server_inv cfg s → 0 ≤ in_flight s ≤ u64_max.
Proof. intros Hinv. rewrite (inv_in_flight _ _ Hinv). apply wrap_u64_range. Qed.

(** Opens an enabled step of task [id]. *)
Ltac open_task H :=
  match type of H with
  | (tasks ?s !! ?id ≫= _) = Some _ =>
      let t := fresh "t" in let Hid := fresh "Hid" in let Hph := fresh "Hph" in
      destruct (tasks s !! id) as [t|] eqn:Hid; cbn [mbind option_bind] in H; [|done];
      destruct (decide _) as [Hph|]; [|done]; injection H as <-
  end.

Lemma on_task_end_inv cfg id s s' :
  server_inv cfg s → on_task_end id s = Some s' → server_inv cfg s'.
Proof.
  intros Hinv H. unfold on_task_end in H. open_task H. simpl.
  pose proof (in_flight_range _ _ Hinv) as Hr. pose proof (inv_permits _ _ Hinv).
  apply task_step_inv; try done; unfold holds, counted; simpl; rewrite ?Hph.
  - destruct (_ =? 1); simpl; lia.
  - f_equal. destruct (_ =? 1); simpl; lia.
  - intros Hm H0. right. apply (count_pos _ _ id (mkTask (peer t) MustNotify)); [|done].
    destruct (Z.eqb_spec (in_flight s) 1) as [_|Hne].
    + apply list_lookup_insert_eq. by eapply lookup_lt_Some.
    + exfalso. apply Hne. unfold wrap_u64, u64_max in *. apply Z.mod_divide in H0 as [k Hk]; lia.
Qed.

Lemma on_task_notify_inv cfg id s s' :
  server_inv cfg s → on_task_notify id s = Some s' → server_inv cfg s'.
Proof.
  intros Hinv H. unfold on_task_notify in H. open_task H. simpl.
  pose proof (in_flight_range _ _ Hinv). pose proof (inv_permits _ _ Hinv).
  apply task_step_inv; try done; unfold holds, counted; simpl; rewrite ?Hph; simpl; [lia| |by left].
  rewrite wrap_u64_small; lia.
Qed.

Lemma on_task_drop_inv cfg id s s' :
  server_inv cfg s → on_task_drop id s = Some s' → server_inv cfg s'.
Proof.
  intros Hinv H. unfold on_task_drop in H. open_task H. unfold drop_permit, release. simpl.
  pose proof (in_flight_range _ _ Hinv). pose proof (inv_permits _ _ Hinv).
  apply task_step_inv; try done; unfold holds, counted; simpl; rewrite ?Hph; simpl; try lia.
  - rewrite wrap_u64_small; lia.
  - apply (wake_kept cfg _ _ t); try done. unfold must_notify. by rewrite Hph.
Qed.

Lemma on_task_panic_inv cfg id s s' :
  server_inv cfg s → on_task_panic id s = Some s' → server_inv cfg s'.
Proof.
  intros Hinv H. unfold on_task_panic in H. open_task H. unfold drop_permit, release. simpl.
  pose proof (in_flight_range _ _ Hinv). pose proof (inv_permits _ _ Hinv).
  apply task_step_inv; try done; unfold holds, counted; simpl; rewrite ?Hph; simpl; try lia.
  - rewrite wrap_u64_small; lia.
  - apply (wake_kept cfg _ _ t); try done. unfold must_notify. by rewrite Hph.
Qed.

Lemma set_main_inv cfg m s :
  server_inv cfg s → (m = Waiting → 0 < in_flight s) → server_inv cfg (set_main m s).
Proof. intros [H1 H2 H3 H4 H5] Hm. split; simpl; try done. intros Hw%Hm. lia. Qed.

Lemma on_main_inv cfg s s' : server_inv cfg s → on_main s = Some s' → server_inv cfg s'.
Proof.
  intros Hinv. unfold on_main. destruct (main s) eqn:Em; try done; intros [= <-].
  3: by destruct Hinv; split.
  all: apply set_main_inv; try done.
  all: destruct (Z.ltb_spec 0 (in_flight s)); done.
Qed.

#[export] Hint Resolve on_accept_inv on_main_inv on_task_end_inv on_task_notify_inv
  on_task_drop_inv on_task_panic_inv : server.

Lemma exec_inv cfg s e s' : server_inv cfg s → step cfg s e s' → server_inv cfg s'.
Proof.
  intros Hinv. unfold step. destruct e; simpl; try (by eauto 2 with server).
  - destruct (main s) eqn:Em; try done. intros [= <-]. by apply on_accept_inv.
  - destruct (main s); try done. by intros [= <-].
  - destruct (main s); try done. intros [= <-]. by apply set_main_inv.
  - destruct (main s), (notified s); try done. intros [= <-]. by destruct Hinv; split.
  - destruct (main s), (notified s); try done. intros [= <-]. by apply set_main_inv.
Qed.

Lemma reachable_inv cfg s : 0 ≤ max_connections cfg → reachable cfg s → server_inv cfg s.
Proof.
  intros Hmax [es Hrun]. eapply run_invariant; [|by apply server_init_inv|exact Hrun].
  intros a e b. apply exec_inv.
Qed.

(** A task's peer passed the filter. *)
Lemma task_admitted cfg s id t :
  0 ≤ max_connections cfg → reachable cfg s → tasks s !! id = Some t →
  (peer t ∉ blocked_ips cfg) ∧ (allowed_ips cfg = [] ∨ peer t ∈ allowed_ips cfg).
Proof.
  intros Hmax [_ _ _ HF _]%reachable_inv Hid; [|done]. rewrite Forall_lookup in HF.
  destruct (HF id t Hid) as [Hb Ha]. unfold is_blocked, is_allowed in *.
  split; [by apply bool_decide_eq_false in Hb|].
  destruct (allowed_ips cfg); [by left|right]. by apply bool_decide_eq_true in Ha.
Qed.

(** *** The drain *)

(** After the loop: whatever can end the drain other than its timeout is
    evidence that nothing is in flight. *)
Definition evidence (s : ServerState) : Prop :=
  notified s = true ∨ 0 < count must_notify (tasks s) ∨
  main s = Exited Drained ∨ main s = Exited NothingInFlight.

Record draining (cfg : ServerConfig) (s : ServerState) : Prop := {
  dr_inv : server_inv cfg s;
  dr_main : main s ≠ Accepting;
  dr_small : Z.of_nat (length (tasks s)) ≤ u64_max;
  dr_evidence : evidence s → in_flight s = 0;
}.

Lemma count_le_length {A} (p : A → bool) l : count p l ≤ Z.of_nat (length l).
Proof.
  induction l as [|x l IH]; [done|]. rewrite count_cons. destruct (p x); simpl b2z; simpl length; lia.
Qed.

Lemma in_flight_exact cfg s :
  server_inv cfg s → Z.of_nat (length (tasks s)) ≤ u64_max → in_flight s = count counted (tasks s).
Proof.
  intros Hinv Hs. rewrite (inv_in_flight _ _ Hinv). apply wrap_u64_small.
  pose proof (count_le_length counted (tasks s)). pose proof (count_nonneg counted (tasks s)). lia.
Qed.

Lemma must_notify_insert s id t t' :
  tasks s !! id = Some t → must_notify t' = must_notify t →
  count must_notify (<[id := t']> (tasks s)) = count must_notify (tasks s).
Proof. intros Hid E. rewrite (count_insert _ _ _ t), E by done. lia. Qed.

Lemma task_end_draining cfg id s s' :
  draining cfg s → on_task_end id s = Some s' → draining cfg s'.
Proof.
  intros [H1 H2 H3 H4] H. assert (H1' : server_inv cfg s') by eauto with server.
  split; [done|..]; unfold on_task_end in H; open_task H; simpl in *;
    [done|by rewrite length_insert|].
  assert (Hc : in_flight s = count counted (tasks s)) by (by eapply in_flight_exact).
  assert (Hpos : 0 < count counted (tasks s)).
  { apply (count_pos _ _ id t); [done|]. unfold counted. by rewrite Hph. }
  assert (Hn : ¬ evidence s) by (intros ?%H4; lia). unfold evidence in *. simpl.
  destruct (Z.eqb_spec (in_flight s) 1) as [->|Hne]; [done|].
  rewrite (must_notify_insert s id t) by (unfold must_notify; simpl; by rewrite ?Hph). tauto.
Qed.

Lemma task_notify_draining cfg id s s' :
  draining cfg s → on_task_notify id s = Some s' → draining cfg s'.
Proof.
  intros [H1 H2 H3 H4] H. assert (H1' : server_inv cfg s') by eauto with server.
  split; [done|..]; unfold on_task_notify in H; open_task H; simpl in *;
    [done|by rewrite length_insert|].
  intros _. apply H4. right. left. apply (count_pos _ _ id t); [done|].
  unfold must_notify. by rewrite Hph.
Qed.

Lemma task_drop_draining cfg id s s' :
  draining cfg s → on_task_drop id s = Some s' ∨ on_task_panic id s = Some s' → draining cfg s'.
Proof.
  intros [H1 H2 H3 H4] H.
  assert (H1' : server_inv cfg s') by (destruct H; eauto with server).
  split; [done|..]; destruct H as [H|H]; unfold on_task_drop, on_task_panic in H; open_task H;
    simpl in *; try done; try (by rewrite length_insert).
  all: unfold evidence in *; simpl.
  all: rewrite (must_notify_insert s id t) by (unfold must_notify; simpl; by rewrite ?Hph); done.
Qed.

Lemma on_main_draining cfg s s' : draining cfg s → on_main s = Some s' → draining cfg s'.
Proof.
  intros [H1 H2 H3 H4] H. assert (H1' : server_inv cfg s') by eauto with server.
  pose proof (in_flight_range _ _ H1) as Hr. unfold evidence in *. unfold on_main in H.
  destruct (main s) eqn:Em; try done; injection H as <-; split; try done; simpl; unfold evidence; simpl.
  all: destruct (Z.ltb_spec 0 (in_flight s)); try done; try lia; intros; naive_solver.
Qed.

Lemma exec_draining cfg s e s' : draining cfg s → step cfg s e s' → draining cfg s'.
Proof.
  intros Hd. unfold step.
  destruct e; simpl; eauto using on_main_draining, task_end_draining, task_notify_draining,
    task_drop_draining.
  1-3: pose proof (dr_main _ _ Hd); by destruct (main s).
  - intros H. assert (Hs : step cfg s EDrainWake s') by done.
    pose proof (exec_inv _ _ _ _ (dr_inv _ _ Hd) Hs) as Hi. destruct Hd as [H1 H2 H3 H4].
    destruct (main s) eqn:Em, (notified s) eqn:En; try done. injection H as <-.
    split; try done. intros _. apply H4. by left.
  - intros H. assert (Hs : step cfg s EDrainTimeout s') by done.
    pose proof (exec_inv _ _ _ _ (dr_inv _ _ Hd) Hs) as Hi. destruct Hd as [H1 H2 H3 H4].
    destruct (main s) eqn:Em, (notified s) eqn:En; try done. injection H as <-.
    split; try done. unfold evidence in *. simpl. intros [?|[?|[?|?]]]; try done; naive_solver.
Qed.

(** A drain that ends before its timeout has drained, provided the
    notification was not already stored when the loop was left: then no
    connection is being served any more when the server returns. *)
Lemma drain_complete_from_clean cfg s es s' o :
  0 ≤ max_connections cfg → reachable cfg s → Z.of_nat (length (tasks s)) ≤ u64_max →
  main s = Broke → notified s = false → count must_notify (tasks s) = 0 →
  run (step cfg) s es s' → main s' = Exited o → o ≠ DrainTimedOut →
  in_flight s' = 0 ∧ count serving (tasks s') = 0.
Proof.
  intros Hmax Hr Hlen Hm Hn Hc Hrun Ho Hne. apply reachable_inv in Hr; [|done].
  assert (Hd : draining cfg s).
  { split; [done|by rewrite Hm|done|]. unfold evidence. rewrite Hn, Hc, Hm.
    intros [?|[?|[?|?]]]; done || lia. }
  assert (Hd' : draining cfg s') by (eapply run_invariant; [apply exec_draining|done|done]).
  assert (H0 : in_flight s' = 0).
  { apply (dr_evidence _ _ Hd'). unfold evidence. destruct o; naive_solver. }
  split; [done|]. rewrite (in_flight_exact cfg) in H0 by (by destruct Hd').
  assert (count serving (tasks s') ≤ count counted (tasks s')).
  { apply count_le. intros t. unfold serving, counted. by destruct (phase t). }
  pose proof (count_nonneg serving (tasks s')). lia.
Qed.

(** *** The way out *)

(** The events that are the main task's, and how many of them it is from its
    return. *)
Definition main_event (e : Event) : bool :=
  match e with EMain | EDrainWake | EDrainTimeout => true | _ => false end.

Definition steps_left (m : MainPhase) : nat :=
  match m with
  | Broke => 6
  | Settling => 5
  | Sending => 4
  | Loading => 3
  | Registering => 2
  | Waiting => 1
  | Accepting | Exited _ => 0
  end.

Lemma step_left cfg s e s' :
  step cfg s e s' → main s ≠ Accepting →
  main s' ≠ Accepting ∧
  if main_event e then (steps_left (main s') < steps_left (main s))%nat else main s' = main s.
Proof.
  unfold step. intros He Hm. destruct e as [ip| | | | | |id|id|id|id]; simpl in *.
  1-3: by destruct (main s).
  - unfold on_main in He. destruct (main s); try done; injection He as <-; simpl;
      try destruct (0 <? in_flight s); simpl; (split; [done|lia]).
  - destruct (main s), (notified s); try done. injection He as <-. simpl. split; [done|lia].
  - destruct (main s), (notified s); try done. injection He as <-. simpl. split; [done|lia].
  - unfold on_task_end in He. by open_task He.
  - unfold on_task_notify in He. by open_task He.
  - unfold on_task_drop in He. by open_task He.
  - unfold on_task_panic in He. by open_task He.
Qed.

Lemma run_left cfg s es s' :
  run (step cfg) s es s' → main s ≠ Accepting →
  main s' ≠ Accepting ∧
  (length (filter main_event es) + steps_left (main s') ≤ steps_left (main s))%nat.
Proof.
  induction 1 as [s|s e s1 es s2 Hs _ IH]; intros Hm; [done|].
  destruct (step_left _ _ _ _ Hs Hm) as [Hm1 Hleft]. destruct (IH Hm1) as [Hm2 IH']. split; [done|].
  rewrite filter_cons. destruct (main_event e); simpl in *; [lia|]. by rewrite Hleft in IH'.
Qed.

(** ** Theorems *)

(** C12: the connection cap holds in every interleaving: the free permits and the
    live connection tasks always add up to [max_connections], so there are never
    more live connections than that and no permit leaks, whether a task ends,
    fails its handshake or panics. *)
Theorem connection_cap cfg s :
  0 ≤ max_connections cfg → reachable cfg s →
  permits s + count holds (tasks s) = max_connections cfg ∧
  0 ≤ permits s ∧ count serving (tasks s) ≤ max_connections cfg.
Proof.
  intros Hmax [H1 H2 _ _ _]%reachable_inv; [|done]. split; [done|]. split; [done|].
  assert (count serving (tasks s) ≤ count holds (tasks s)); [|lia].
  apply count_le. intros t. unfold serving, holds. by destruct (phase t).
Qed.

(** C27: the drain does not miss its wake-up: whenever it is waiting and every
    connection has run to its end, the notification is there and the drain can
    return at once instead of sitting out its timeout. *)
Theorem drain_no_lost_wakeup cfg s :
  0 ≤ max_connections cfg → reachable cfg s → main s = Waiting →
  Forall (λ t, phase t = Finishing ∨ phase t = Gone) (tasks s) →
  ∃ s', step cfg s EDrainWake s' ∧ main s' = Exited Drained.
Proof.
  intros Hmax [_ _ H3 _ H5]%reachable_inv Hm HF; [|done].
  assert (Hz : ∀ p : Task → bool, (∀ t, phase t = Finishing ∨ phase t = Gone → p t = false) →
    count p (tasks s) = 0).
  { intros p Hp. apply count_zero. eapply Forall_impl; [exact HF|]. apply Hp. }
  rewrite (Hz counted) in H3 by (unfold counted; by intros t [-> | ->]).
  destruct (H5 Hm H3) as [Hn|Hn].
  - unfold step, exec. rewrite Hm, Hn. by eexists.
  - rewrite (Hz must_notify) in Hn by (unfold must_notify; by intros t [-> | ->]). lia.
Qed.

(** C14: a shutdown ends: once the loop is left, the main task is never stuck,
    whatever the connections do, and it returns after at most six steps of its
    own. *)
Theorem shutdown_returns cfg s es s' :
  main s ≠ Accepting → run (step cfg) s es s' →
  (length (filter main_event es) ≤ 6)%nat ∧
  ((∃ o, main s' = Exited o) ∨ ∃ e s'', main_event e = true ∧ step cfg s' e s'').
Proof.
  intros Hm Hr. destruct (run_left _ _ _ _ Hr Hm) as [Hm' Hle]. split.
  - assert (steps_left (main s) ≤ 6)%nat; [|lia]. destruct (main s); simpl; lia.
  - unfold step. destruct (main s') eqn:E; [done|..|by left; eexists]; right.
    1-5: exists EMain; simpl; unfold on_main; rewrite E; eauto.
    destruct (notified s') eqn:En; [exists EDrainWake|exists EDrainTimeout]; simpl; rewrite E, En; eauto.
Qed.

(** ** Instances *)

Definition open_config : ServerConfig :=
  loaded (env_of [("MAX_CONNECTIONS", "2"); ("BLOCKED_IPS", "6.6.6.6")]).

Definition client : IpAddr := V4 10 0 0 1.

(** Without that proviso the drain can return early: a connection that ended
    in normal operation leaves the notification stored, and a later shutdown
    takes it and reports every connection drained while one is being served. *)
Lemma drain_returns_early :
  ∃ es s, run (step open_config) (server_init (max_connections open_config)) es s ∧
    main s = Exited Drained ∧ in_flight s = 1 ∧ count serving (tasks s) = 1.
Proof.
  exists [EAccept client; ETaskEnd 0; ETaskNotify 0; ETaskDrop 0; EAccept client; EShutdown;
          EMain; EMain; EMain; EMain; EMain; EDrainWake].
  eexists. split; [apply exec_all_run; by vm_compute|]. by vm_compute.
Qed.

(** Two clients, one blocked; a shutdown; the served one finishes. *)
Definition served_shutdown : list Event :=
  [EAccept client; EAccept (V4 6 6 6 6); EShutdown; EMain; EMain; EMain; EMain; EMain;
   ETaskEnd 0; ETaskNotify 0].

Definition after_events (es : list Event) : ServerState :=
  default (server_init 0) (exec_all open_config (server_init (max_connections open_config)) es).

Lemma after_events_reachable es :
  is_Some (exec_all open_config (server_init (max_connections open_config)) es) →
  reachable open_config (after_events es).
Proof.
  intros [s E]. exists es. unfold after_events. rewrite E. by apply exec_all_run.
Qed.

Lemma connection_cap_witness :
  let s := after_events served_shutdown in
  permits s = 1 ∧ permits s + count holds (tasks s) = max_connections open_config ∧
  0 ≤ permits s ∧ count serving (tasks s) ≤ max_connections open_config.
Proof.
  intros s. split; [by vm_compute|]. apply connection_cap; [by vm_compute|].
  apply after_events_reachable. vm_compute. by eexists.
Defined.

Lemma drain_no_lost_wakeup_witness :
  ∃ s', step open_config (after_events served_shutdown) EDrainWake s' ∧ main s' = Exited Drained.
Proof.
  apply drain_no_lost_wakeup; [by vm_compute| |by vm_compute|].
  - apply after_events_reachable. vm_compute. by eexists.
  - vm_compute. repeat constructor.
Defined.

Lemma shutdown_returns_witness :
  (length (filter main_event (drop 3 served_shutdown)) ≤ 6)%nat.
Proof.
  apply (shutdown_returns open_config (after_events (take 3 served_shutdown)) _
           (after_events served_shutdown)); [by vm_compute|].
  apply exec_all_run. by vm_compute.
Defined.
