(* ===== verification/Sql.v ===== *)
(** * The database behind sqlx ([src/src/db/pool.rs], [src/src/db/models.rs])

    The tables of [run_migrations] and the statements the program sends.  The
    engine is the interface [Sql]: a statement with its bound values goes in, rows
    or a row count or an error come out, and [exec_spec] and [fetch_spec] say what
    the statements mean for the tables.  [mem_sql] is an implementation. *)
From S2P Require Import Prelude RustStr.
Local Open Scope Z_scope.

(** ** Tables *)

Record ItemRow : Type := mkItemRow {
  ir_name : string;
  ir_description : string;
  ir_created_at : Z;
}.

Record SessionRow : Type := mkSessionRow {
  sr_username : string;
  sr_csrf_token : string;
  sr_expires_at : Z;
}.

(** Each table by its primary key. *)
Record Tables : Type := mkTables {
  t_items : gmap string ItemRow;
  t_users : gmap string string;
  t_sessions : gmap string SessionRow;
}.

(** A bound or fetched value. *)
Inductive Value : Type :=
| VText (s : string)
| VInt (z : Z).

Abbreviation Row := (list Value).

(** ** The statements *)

Definition SQL_CREATE_ITEMS : string :=
  "CREATE TABLE IF NOT EXISTS items (
            id          TEXT PRIMARY KEY,
            name        TEXT NOT NULL,
            description TEXT NOT NULL,
            created_at  TIMESTAMP NOT NULL DEFAULT CURRENT_TIMESTAMP
        )".
Definition SQL_CREATE_USERS : string :=
  "CREATE TABLE IF NOT EXISTS users (
            username      TEXT PRIMARY KEY,
            password_hash TEXT NOT NULL,
            created_at    TIMESTAMP NOT NULL DEFAULT CURRENT_TIMESTAMP
        )".
Definition SQL_CREATE_SESSIONS : string :=
  "CREATE TABLE IF NOT EXISTS sessions (
            token      TEXT PRIMARY KEY,
            username   TEXT NOT NULL,
            csrf_token TEXT NOT NULL,
            expires_at BIGINT NOT NULL
        )".

Definition SQL_LIST_ITEMS : string :=
  "SELECT id, name, description FROM items ORDER BY created_at ASC, id ASC".
Definition SQL_GET_ITEM : string := "SELECT id, name, description FROM items WHERE id = $1".
Definition SQL_INSERT_ITEM : string := "INSERT INTO items (id, name, description) VALUES ($1, $2, $3)".
Definition SQL_DELETE_ITEM : string := "DELETE FROM items WHERE id = $1".
Definition SQL_FIND_USER : string := "SELECT username FROM users WHERE username = $1".
Definition SQL_INSERT_USER : string := "INSERT INTO users (username, password_hash) VALUES ($1, $2)".
Definition SQL_PASSWORD_HASH : string := "SELECT password_hash FROM users WHERE username = $1".
Definition SQL_INSERT_SESSION : string :=
  "INSERT INTO sessions (token, username, csrf_token, expires_at) VALUES ($1, $2, $3, $4)".
Definition SQL_FIND_SESSION : string :=
  "SELECT username, csrf_token FROM sessions WHERE token = $1 AND expires_at > $2".
Definition SQL_DELETE_SESSION : string := "DELETE FROM sessions WHERE token = $1".
Definition SQL_TOUCH_SESSION : string := "UPDATE sessions SET expires_at = $1 WHERE token = $2".

Definition with_items (f : gmap string ItemRow → gmap string ItemRow) (t : Tables) : Tables :=
  mkTables (f (t_items t)) (t_users t) (t_sessions t).

Definition with_users (f : gmap string string → gmap string string) (t : Tables) : Tables :=
  mkTables (t_items t) (f (t_users t)) (t_sessions t).

Definition with_sessions (f : gmap string SessionRow → gmap string SessionRow) (t : Tables)
    : Tables :=
  mkTables (t_items t) (t_users t) (f (t_sessions t)).

(** Rows affected by a statement on one key. *)
Definition affected {A} (m : gmap string A) (k : string) : Z :=
  match m !! k with Some _ => 1 | None => 0 end.

Definition touch (e : Z) (r : SessionRow) : SessionRow :=
  mkSessionRow (sr_username r) (sr_csrf_token r) e.

Definition creates_table (q : string) : bool :=
  String.eqb q SQL_CREATE_ITEMS || String.eqb q SQL_CREATE_USERS || String.eqb q SQL_CREATE_SESSIONS.

(** What a statement that succeeds does: the rows affected and the new tables.
    An insert succeeds only on a new primary key; a table that does not exist yet
    counts as empty, so creating it, if it does not exist, changes nothing. *)
Inductive exec_spec : string → list Value → Tables → Z → Tables → Prop :=
| ex_create_table q n t : creates_table q = true → exec_spec q [] t n t
| ex_insert_item id n d at_ t :
    t_items t !! id = None →
    exec_spec SQL_INSERT_ITEM [VText id; VText n; VText d] t 1
      (with_items <[id := mkItemRow n d at_]> t)
| ex_delete_item id t :
    exec_spec SQL_DELETE_ITEM [VText id] t (affected (t_items t) id)
      (with_items (delete id) t)
| ex_insert_user u h t :
    t_users t !! u = None →
    exec_spec SQL_INSERT_USER [VText u; VText h] t 1 (with_users <[u := h]> t)
| ex_insert_session tok u c e t :
    t_sessions t !! tok = None →
    exec_spec SQL_INSERT_SESSION [VText tok; VText u; VText c; VInt e] t 1
      (with_sessions <[tok := mkSessionRow u c e]> t)
| ex_delete_session tok t :
    exec_spec SQL_DELETE_SESSION [VText tok] t (affected (t_sessions t) tok)
      (with_sessions (delete tok) t)
| ex_touch_session e tok t :
    exec_spec SQL_TOUCH_SESSION [VInt e; VText tok] t (affected (t_sessions t) tok)
      (with_sessions (alter (touch e) tok) t).

Definition item_columns (kv : string * ItemRow) : Row :=
  [VText kv.1; VText (ir_name kv.2); VText (ir_description kv.2)].

(** The rows a query that succeeds returns.  Items created at the same time come in
    the order of their identifiers, which is the collation of the engine and left
    open. *)
Inductive fetch_spec : string → list Value → Tables → list Row → Prop :=
| fe_list_items t l :
    l ≡ₚ map_to_list (t_items t) →
    StronglySorted (λ a b, ir_created_at a.2 ≤ ir_created_at b.2) l →
    fetch_spec SQL_LIST_ITEMS [] t (item_columns <$> l)
| fe_get_item id t :
    fetch_spec SQL_GET_ITEM [VText id] t
      (match t_items t !! id with Some r => [item_columns (id, r)] | None => [] end)
| fe_find_user u t :
    fetch_spec SQL_FIND_USER [VText u] t
      (match t_users t !! u with Some _ => [[VText u]] | None => [] end)
| fe_password_hash u t :
    fetch_spec SQL_PASSWORD_HASH [VText u] t
      (match t_users t !! u with Some h => [[VText h]] | None => [] end)
| fe_find_session tok now t :
    fetch_spec SQL_FIND_SESSION [VText tok; VInt now] t
      (match t_sessions t !! tok with
       | Some r => if now <? sr_expires_at r
                   then [[VText (sr_username r); VText (sr_csrf_token r)]] else []
       | None => []
       end).

(** ** Interfaces *)

(** sqlx and the engine: a statement that fails changes nothing, one that
    succeeds means what [exec_spec] and [fetch_spec] say. *)
Class Sql : Type := {
  Db : Type;
  DbErr : Type;
  (** [sqlx::Error::Protocol], and the error of a row that does not decode. *)
  protocol_error : string → DbErr;
  decode_error : DbErr;
  tables : Db → Tables;
  execute : string → list Value → Db → result DbErr Z * Db;
  fetch : string → list Value → Db → result DbErr (list Row) * Db;
  execute_ok : ∀ q vs d n d',
    execute q vs d = (Ok n, d') → exec_spec q vs (tables d) n (tables d');
  execute_err : ∀ q vs d e d', execute q vs d = (Err e, d') → tables d' = tables d;
  fetch_ok : ∀ q vs d rows d',
    fetch q vs d = (Ok rows, d') → fetch_spec q vs (tables d) rows ∧ tables d' = tables d;
  fetch_err : ∀ q vs d e d', fetch q vs d = (Err e, d') → tables d' = tables d;
}.

(** ** Lemmas *)

Section Statements.
Context `{Sql}.

(** What a statement's success or failure means, by inversion. *)
Lemma execute_cases q vs d :
  (∃ n d', execute q vs d = (Ok n, d') ∧ exec_spec q vs (tables d) n (tables d')) ∨
  (∃ e d', execute q vs d = (Err e, d') ∧ tables d' = tables d).
Proof.
  destruct (execute q vs d) as [[n|e] d'] eqn:E; [left|right].
  - eexists _, _. split; [done|]. by apply execute_ok.
  - eexists _, _. split; [done|]. by eapply execute_err.
Qed.

Lemma fetch_cases q vs d :
  (∃ rows d', fetch q vs d = (Ok rows, d') ∧ fetch_spec q vs (tables d) rows ∧
     tables d' = tables d) ∨
  (∃ e d', fetch q vs d = (Err e, d') ∧ tables d' = tables d).
Proof.
  destruct (fetch q vs d) as [[rows|e] d'] eqn:E; [left|right].
  - apply fetch_ok in E as [? ?]. by eexists _, _.
  - eexists _, _. split; [done|]. by eapply fetch_err.
Qed.

Lemma fetch_tables q vs d : tables (fetch q vs d).2 = tables d.
Proof. destruct (fetch_cases q vs d) as [(? & ? & -> & _ & ?)|(? & ? & -> & ?)]; done. Qed.

End Statements.

(** ** An implementation of the interface

    Tables in memory; a counter stands for the clock of [CURRENT_TIMESTAMP].
    Statements the program does not send, and duplicate keys, are errors. *)

Record MemDb : Type := mkMemDb {
  mem_tables : Tables;
  mem_clock : Z;
}.

Definition mem_execute (q : string) (vs : list Value) (d : MemDb) : result string Z * MemDb :=
  let t := mem_tables d in
  let ok n t' := (Ok n, mkMemDb t' (mem_clock d + 1)) in
  let err := (Err "constraint", d) in
  match vs with
  | [] => if creates_table q then ok 0 t else err
  | [VText i; VText n; VText s] =>
      if String.eqb q SQL_INSERT_ITEM then
        match t_items t !! i with
        | None => ok 1 (with_items <[i := mkItemRow n s (mem_clock d)]> t)
        | Some _ => err
        end
      else err
  | [VText k] =>
      if String.eqb q SQL_DELETE_ITEM then ok (affected (t_items t) k) (with_items (delete k) t)
      else if String.eqb q SQL_DELETE_SESSION
      then ok (affected (t_sessions t) k) (with_sessions (delete k) t)
      else err
  | [VText u; VText h] =>
      if String.eqb q SQL_INSERT_USER then
        match t_users t !! u with
        | None => ok 1 (with_users <[u := h]> t)
        | Some _ => err
        end
      else err
  | [VText k; VText u; VText c; VInt e] =>
      if String.eqb q SQL_INSERT_SESSION then
        match t_sessions t !! k with
        | None => ok 1 (with_sessions <[k := mkSessionRow u c e]> t)
        | Some _ => err
        end
      else err
  | [VInt e; VText k] =>
      if String.eqb q SQL_TOUCH_SESSION
      then ok (affected (t_sessions t) k) (with_sessions (alter (touch e) k) t)
      else err
  | _ => err
  end.

Definition created_le (a b : string * ItemRow) : Prop := ir_created_at a.2 ≤ ir_created_at b.2.

#[export] Instance created_le_dec : RelDecision created_le.
Proof. intros a b. unfold created_le. apply _. Defined.

Definition mem_fetch (q : string) (vs : list Value) (d : MemDb)
    : result string (list Row) * MemDb :=
  let t := mem_tables d in
  match vs with
  | [] =>
      if String.eqb q SQL_LIST_ITEMS
      then (Ok (item_columns <$> merge_sort created_le (map_to_list (t_items t))), d)
      else (Err "syntax", d)
  | [VText k] =>
      if String.eqb q SQL_GET_ITEM
      then (Ok (match t_items t !! k with Some r => [item_columns (k, r)] | None => [] end), d)
      else if String.eqb q SQL_FIND_USER
      then (Ok (match t_users t !! k with Some _ => [[VText k]] | None => [] end), d)
      else if String.eqb q SQL_PASSWORD_HASH
      then (Ok (match t_users t !! k with Some h => [[VText h]] | None => [] end), d)
      else (Err "syntax", d)
  | [VText k; VInt now] =>
      if String.eqb q SQL_FIND_SESSION
      then (Ok (match t_sessions t !! k with
                | Some r => if now <? sr_expires_at r
                            then [[VText (sr_username r); VText (sr_csrf_token r)]] else []
                | None => []
                end), d)
      else (Err "syntax", d)
  | _ => (Err "syntax", d)
  end.

Ltac known_statement :=
  match goal with
  | H : context [String.eqb ?q ?s] |- _ =>
      destruct (String.eqb_spec q s) as [->|]; simplify_eq/=
  end.

Lemma mem_execute_ok q vs d n d' :
  mem_execute q vs d = (Ok n, d') → exec_spec q vs (mem_tables d) n (mem_tables d').
Proof.
  unfold mem_execute. intros E.
  repeat (case_match; simplify_eq/=); repeat known_statement;
    repeat (case_match; simplify_eq/=); by constructor.
Qed.

Lemma mem_execute_err q vs d e d' :
  mem_execute q vs d = (Err e, d') → mem_tables d' = mem_tables d.
Proof.
  unfold mem_execute. intros E. repeat (case_match; simplify_eq/=); done.
Qed.

Lemma mem_fetch_ok q vs d rows d' :
  mem_fetch q vs d = (Ok rows, d') →
  fetch_spec q vs (mem_tables d) rows ∧ mem_tables d' = mem_tables d.
Proof.
  assert (Ht : Total created_le) by (intros [k x] [l y]; unfold created_le; lia).
  assert (Hr : Transitive created_le) by (intros ? ? ?; unfold created_le; lia).
  unfold mem_fetch. intros E.
  destruct vs as [|[k|?] [|[?|now] [|? ?]]]; simplify_eq/=; repeat known_statement;
    (split; [|done]); try by constructor.
  apply fe_list_items; [apply merge_sort_Permutation|].
  apply (StronglySorted_merge_sort created_le).
Qed.

Lemma mem_fetch_err q vs d e d' :
  mem_fetch q vs d = (Err e, d') → mem_tables d' = mem_tables d.
Proof. unfold mem_fetch. intros E. repeat (case_match; simplify_eq/=); done. Qed.

Definition mem_sql : Sql := {|
  Db := MemDb;
  DbErr := string;
  protocol_error := λ s, s;
  decode_error := "decode";
  tables := mem_tables;
  execute := mem_execute;
  fetch := mem_fetch;
  execute_ok := mem_execute_ok;
  execute_err := mem_execute_err;
  fetch_ok := mem_fetch_ok;
  fetch_err := mem_fetch_err;
|}.

Definition mem_empty : MemDb := mkMemDb (mkTables ∅ ∅ ∅) 0.
