(* ===== verification/Effects.v ===== *)
(** * Handler programs

    An async function that talks to the database, draws UUIDs, reads the clock,
    loads a counter or waits for something outside the process is a program: a tree
    of calls, each with what is done with its reply.  [run] executes a program without interruption; [advance] makes one
    call, so that programs of several requests can be interleaved call by call.
    [always] is the program logic for the interleavings: what every call of a
    program does, wherever the world stands when it is made. *)
From S2P Require Import Prelude RustStr HttpTypes Metrics Sql.
Local Open Scope Z_scope.

(** ** Outside the process *)

Inductive IoError : Type := NotFound | OtherIo.

(** An open file, known by what reading it to the end will yield. *)
Record FileHandle : Type := mkHandle { fh_reads : list (result IoError string) }.

(** The head of an upstream server's answer. *)
Record Upstream : Type := mkUpstream {
  up_status : Z;
  up_headers : HeaderMap;
}.

(** What handlers await from elsewhere: [tokio::fs::metadata], [File::open] and
    [File::metadata]; sending a request to the upstream and reading the body of its
    answer; a closure run by the blocking pool. *)
Inductive Outside : Type :=
| Metadata (p : string)
| OpenFile (p : string)
| Fstat (f : FileHandle)
| SendUpstream (m url : string) (hs : HeaderMap) (bd : string)
| ReadUpstream (up : Upstream)
| RunBlocking.

(** Whether a path is a directory, a file, its length; a network error is [None];
    the pool runs a closure or cancels it. *)
Definition outside_reply (o : Outside) : Type :=
  match o with
  | Metadata _ => result IoError bool
  | OpenFile _ => result IoError FileHandle
  | Fstat _ => result IoError N
  | SendUpstream _ _ _ _ => option Upstream
  | ReadUpstream _ => option string
  | RunBlocking => bool
  end.

Record Exchange : Type := mkExchange {
  ex_call : Outside;
  ex_reply : outside_reply ex_call;
}.

(** ** The world *)

(** [Uuid::new_v4] and [SystemTime::now] since the epoch, the [n]th draw and the
    [n]th reading of the process; and what the outside replies to the process's
    [n]th call. *)
Class Env : Type := {
  uuid : nat → string;
  clock : nat → Z;
  outside : nat → ∀ o : Outside, outside_reply o;
}.

(** What the handlers share: the database, how many UUIDs and clock readings have
    been drawn, the counters, which they only load, and the exchanges with the
    outside, the last one first. *)
Record World (D : Type) : Type := mkWorld {
  w_db : D;
  w_uuids : nat;
  w_clocks : nat;
  w_metrics : Metrics;
  w_outside : list Exchange;
}.
#[global] Arguments mkWorld {D} w_db w_uuids w_clocks w_metrics w_outside.
#[global] Arguments w_db {D} w.
#[global] Arguments w_uuids {D} w.
#[global] Arguments w_clocks {D} w.
#[global] Arguments w_metrics {D} w.
#[global] Arguments w_outside {D} w.

(** ** Programs *)

Inductive Call : Type :=
| CallExecute (q : string) (vs : list Value)
| CallFetch (q : string) (vs : list Value)
| CallUuid
| CallClock
| CallLoad (k : Counter)
| CallOutside (o : Outside).

(** [E] is the database's error type. *)
Definition reply (E : Type) (c : Call) : Type :=
  match c with
  | CallExecute _ _ => result E Z
  | CallFetch _ _ => result E (list Row)
  | CallUuid => string
  | CallClock | CallLoad _ => Z
  | CallOutside o => outside_reply o
  end.

Inductive IoTree (E A : Type) : Type :=
| Ret (a : A)
| Await (c : Call) (k : reply E c → IoTree E A).
#[global] Arguments Ret {E A} a.
#[global] Arguments Await {E A} c k.

#[export] Instance IoTree_ret E : MRet (IoTree E) := @Ret E.

#[export] Instance IoTree_bind E : MBind (IoTree E) :=
  λ A B f, fix bind m :=
    match m with
    | Ret a => f a
    | Await c k => Await c (λ r, bind (k r))
    end.

(** The [?] after an awaited call. *)
Definition try_bind {E X A B} (m : IoTree X (result E A)) (f : A → IoTree X (result E B))
    : IoTree X (result E B) :=
  r ← m; match r with Ok a => f a | Err e => mret (Err e) end.

(** What a program can have learned from a call: a clock reading, the tables a
    statement found and left, that one failed, which UUID it drew, or what the
    outside replied. *)
Inductive Obs : Type :=
| SawClock (now : Z)
| SawTables (t t' : Tables)
| SawFailed
| SawUuid (n : nat)
| SawOutside (x : Exchange)
| SawOther.

(** Programs over the database at hand. *)
Abbreviation Io := (IoTree DbErr).

Section Effects.
Context `{Sql}.

Definition set_db (d : Db) (w : World Db) : World Db :=
  mkWorld d (w_uuids w) (w_clocks w) (w_metrics w) (w_outside w).

Definition log_exchange (x : Exchange) (w : World Db) : World Db :=
  mkWorld (w_db w) (w_uuids w) (w_clocks w) (w_metrics w) (x :: w_outside w).

(** The tables of a world. *)
Definition w_tables (w : World Db) : Tables := tables (w_db w).

(** A call whose reply is the result. *)
Definition call (c : Call) : Io (reply DbErr c) := Await c Ret.

Definition execute_sql (q : string) (vs : list Value) : Io (result DbErr Z) :=
  call (CallExecute q vs).

Definition fetch_all (q : string) (vs : list Value) : Io (result DbErr (list Row)) :=
  call (CallFetch q vs).

Definition new_v4 : Io string := call CallUuid.

Definition now_secs : Io Z := call CallClock.

Definition load_counter (k : Counter) : Io Z := call (CallLoad k).

Definition ask (o : Outside) : Io (outside_reply o) := call (CallOutside o).

(** [query_as(..).fetch_all] and [fetch_optional]: the rows, or the first row,
    decoded. *)
Definition fetch_as {A} (from_row : Row → option A) (q : string) (vs : list Value)
    : Io (result DbErr (list A)) :=
  try_bind (fetch_all q vs) (λ rows, mret (ok_or decode_error (mapM from_row rows))).

Definition fetch_optional {A} (from_row : Row → option A) (q : string) (vs : list Value)
    : Io (result DbErr (option A)) :=
  try_bind (fetch_all q vs) (λ rows, mret
    (match rows with
     | [] => Ok None
     | row :: _ => Some <$> ok_or decode_error (from_row row)
     end)).

(** ** Execution *)

Context `{Env}.

(** One call, atomic. *)
Definition perform (c : Call) (w : World Db) : reply DbErr c * World Db :=
  match c with
  | CallExecute q vs => let '(r, d) := execute q vs (w_db w) in (r, set_db d w)
  | CallFetch q vs => let '(r, d) := fetch q vs (w_db w) in (r, set_db d w)
  | CallUuid =>
      (uuid (w_uuids w),
       mkWorld (w_db w) (S (w_uuids w)) (w_clocks w) (w_metrics w) (w_outside w))
  | CallClock =>
      (clock (w_clocks w),
       mkWorld (w_db w) (w_uuids w) (S (w_clocks w)) (w_metrics w) (w_outside w))
  | CallLoad k => (load (w_metrics w) k, w)
  | CallOutside o =>
      let r := outside (length (w_outside w)) o in (r, log_exchange (mkExchange o r) w)
  end.

(** All calls of a program, with no other program in between. *)
Fixpoint run_io {A} (p : Io A) (w : World Db) : A * World Db :=
  match p with
  | Ret a => (a, w)
  | Await c k => let '(r, w') := perform c w in run_io (k r) w'
  end.

(** What a statement's reply shows. *)
Definition saw_reply {A} (r : result DbErr A) (t t' : Tables) : Obs :=
  match r with Ok _ => SawTables t t' | Err _ => SawFailed end.

Definition observe (c : Call) (w : World Db) : Obs :=
  match c with
  | CallExecute q vs => saw_reply (execute q vs (w_db w)).1 (w_tables w) (w_tables (perform c w).2)
  | CallFetch q vs => saw_reply (fetch q vs (w_db w)).1 (w_tables w) (w_tables (perform c w).2)
  | CallClock => SawClock (clock (w_clocks w))
  | CallUuid => SawUuid (w_uuids w)
  | CallLoad _ => SawOther
  | CallOutside o => SawOutside (mkExchange o (outside (length (w_outside w)) o))
  end.

(** The next call of a program: what it observes, the rest of the program, and
    the world after it. *)
Definition advance {A} (p : Io A) (w : World Db) : option (Obs * Io A * World Db) :=
  match p with
  | Ret _ => None
  | Await c k => let '(r, w') := perform c w in Some (observe c w, k r, w')
  end.

Definition finished {A} (p : Io A) : option A :=
  match p with Ret a => Some a | Await _ _ => None end.

(** A call that changes no table and asks nothing of the outside. *)
Definition quiet (w w' : World Db) : Prop :=
  w_tables w' = w_tables w ∧ w_outside w' = w_outside w.

(** ** Every call of a program

    [always I Q p seen]: in whatever world each call of [p] is made, it satisfies
    [I] (given what the program had observed before it), and the result satisfies
    [Q]. *)
Section Always.
Context (I : list Obs → World Db → World Db → Prop).

Fixpoint always {A} (Q : A → list Obs → Prop) (p : Io A) (seen : list Obs) : Prop :=
  match p with
  | Ret a => Q a seen
  | Await c k => ∀ w,
      I seen w (perform c w).2 ∧ always Q (k (perform c w).1) (observe c w :: seen)
  end.

Lemma always_mono {A} (Q Q' : A → list Obs → Prop) p seen :
  (∀ a seen', Q a seen' → Q' a seen') → always Q p seen → always Q' p seen.
Proof.
  intros HQ. revert seen. induction p as [a|c k IH]; intros seen; simpl; [apply HQ|].
  intros Hp w. destruct (Hp w). auto.
Qed.

Lemma always_bind {A B} (Q : B → list Obs → Prop) (m : Io A) (f : A → Io B) seen :
  always (λ a, always Q (f a)) m seen → always Q (m ≫= f) seen.
Proof.
  revert seen. induction m as [a|c k IH]; intros seen; simpl; [done|].
  intros Hm w. destruct (Hm w). split; [done|by apply IH].
Qed.

Lemma always_call c (Q : reply DbErr c → list Obs → Prop) seen :
  (∀ w, I seen w (perform c w).2 ∧ Q (perform c w).1 (observe c w :: seen)) →
  always Q (call c) seen.
Proof. done. Qed.

Lemma always_try {E A B} (Q : result E B → list Obs → Prop) (m : Io (result E A))
    (f : A → Io (result E B)) seen :
  always (λ r seen', match r with Ok a => always Q (f a) seen' | Err e => Q (Err e) seen' end) m seen →
  always Q (try_bind m f) seen.
Proof.
  intros Hm. apply always_bind. eapply always_mono; [|exact Hm]. by intros [a|e] seen'.
Qed.

Lemma always_advance {A} (Q : A → list Obs → Prop) p seen w o p' w' :
  always Q p seen → advance p w = Some (o, p', w') → I seen w w' ∧ always Q p' (o :: seen).
Proof.
  destruct p as [a|c k]; simpl; [done|]. intros Hp E. destruct (Hp w) as [Hi Hk].
  destruct (perform c w) as [r w1]. by simplify_eq/=.
Qed.

(** Observations are kept. *)
Lemma always_seen {A} (Q : A → list Obs → Prop) p seen :
  always Q p seen → always (λ a seen', Q a seen' ∧ seen ⊆ seen') p seen.
Proof.
  intros Hp. assert (Hgen : ∀ seen0, seen0 ⊆ seen →
    always (λ a seen', Q a seen' ∧ seen0 ⊆ seen') p seen); [|by apply Hgen].
  revert seen Hp. induction p as [a|c k IH]; intros seen; simpl; [done|].
  intros Hp seen0 Hs w. destruct (Hp w) as [Hi Hk]. split; [done|].
  apply IH; [done|]. by apply list_subseteq_cons.
Qed.

(** A promise under a condition. *)
Lemma always_given {A} (P : Prop) (Q : A → list Obs → Prop) (p : Io A) seen :
  (∀ seen w w', I seen w w') → (P → always Q p seen) → always (λ a seen', P → Q a seen') p seen.
Proof.
  intros HI. revert seen. induction p as [a|c k IH]; intros seen; simpl; [done|].
  intros Hp w. split; [done|]. apply IH. intros HP. by apply Hp.
Qed.

End Always.

Lemma always_weaken {A} (I I' : list Obs → World Db → World Db → Prop) (Q : A → list Obs → Prop) p seen :
  (∀ seen w w', I seen w w' → I' seen w w') → always I Q p seen → always I' Q p seen.
Proof.
  intros HI. revert seen. induction p as [a|c k IH]; intros seen; simpl; [done|].
  intros Hp w. destruct (Hp w). auto.
Qed.

(** *** Termination *)

(** A program that makes at most [n] calls, whatever they reply. *)
Fixpoint at_most {A} (n : nat) (p : Io A) {struct p} : Prop :=
  match p with
  | Ret _ => True
  | Await c k => match n with O => False | S n' => ∀ r, at_most n' (k r) end
  end.

Lemma at_most_le {A} n n' (p : Io A) : (n ≤ n')%nat → at_most n p → at_most n' p.
Proof.
  revert n n'. induction p as [a|c k IH]; intros n n' Hn; simpl; [done|].
  destruct n as [|n]; [by intros []|]. destruct n' as [|n']; [lia|]. simpl. intros Hp r.
  apply (IH r n); [lia|done].
Qed.

Lemma at_most_bind {A B} a b (m : Io A) (f : A → Io B) :
  at_most a m → (∀ x, at_most b (f x)) → at_most (a + b) (m ≫= f).
Proof.
  revert a. induction m as [x|c k IH]; intros a Hm Hf; simpl.
  - apply (at_most_le b); [lia|apply Hf].
  - destruct a as [|a]; [done|]. intros r. by apply IH.
Qed.

(** The same, spending a budget. *)
Lemma at_most_then {A B} a n (m : Io A) (f : A → Io B) :
  at_most a m → (a ≤ n)%nat → (∀ x, at_most (n - a) (f x)) → at_most n (m ≫= f).
Proof.
  intros Hm Hn Hf. apply (at_most_le (a + (n - a))); [lia|]. by apply at_most_bind.
Qed.

Lemma at_most_call n c : at_most (S n) (call c).
Proof. by intros r. Qed.

Lemma at_most_try {E A B} a b (m : Io (result E A)) (f : A → Io (result E B)) :
  at_most a m → (∀ x, at_most b (f x)) → at_most (a + b) (try_bind m f).
Proof. intros Hm Hf. apply at_most_bind; [done|]. intros [x|e]; [apply Hf|done]. Qed.

(** *** Rules for the calls *)

Section Rules.
Context (I : list Obs → World Db → World Db → Prop) (seen : list Obs).
Context (Hquiet : ∀ seen w w', quiet w w' → I seen w w').

Lemma always_fetch_all q vs (Q : _ → list Obs → Prop) :
  (∀ t rows, fetch_spec q vs t rows → Q (Ok rows) (SawTables t t :: seen)) →
  (∀ e, Q (Err e) (SawFailed :: seen)) →
  always I Q (fetch_all q vs) seen.
Proof.
  intros Hok Herr. apply always_call. intros w. cbn. unfold w_tables.
  destruct (fetch_cases q vs (w_db w)) as [(rows & d & -> & Hs & Ht)|(e & d & -> & Ht)]; simpl;
    (split; [by apply Hquiet|]); rewrite ?Ht; auto.
Qed.

Lemma always_fetch_optional {A} (f : Row → option A) q vs (Q : _ → list Obs → Prop) :
  (∀ t rows, fetch_spec q vs t rows →
     Q (match rows with [] => Ok None | row :: _ => Some <$> ok_or decode_error (f row) end)
       (SawTables t t :: seen)) →
  (∀ e, Q (Err e) (SawFailed :: seen)) →
  always I Q (fetch_optional f q vs) seen.
Proof. intros Hok Herr. apply always_try, always_fetch_all; auto. Qed.

Lemma always_execute q vs (Q : _ → list Obs → Prop) :
  (∀ w w' n, exec_spec q vs (w_tables w) n (w_tables w') → w_outside w' = w_outside w →
     I seen w w') →
  (∀ t n t', exec_spec q vs t n t' → Q (Ok n) (SawTables t t' :: seen)) →
  (∀ e, Q (Err e) (SawFailed :: seen)) →
  always I Q (execute_sql q vs) seen.
Proof.
  intros Hi Hok Herr. apply always_call. intros w. cbn. unfold w_tables in *.
  destruct (execute_cases q vs (w_db w)) as [(n & d & -> & Hs)|(e & d & -> & Ht)]; simpl.
  - eauto.
  - split; [by apply Hquiet|]. apply Herr.
Qed.

Lemma always_uuid (Q : string → list Obs → Prop) :
  (∀ n, Q (uuid n) (SawUuid n :: seen)) → always I Q new_v4 seen.
Proof. intros HQ. apply always_call. intros w. cbn. split; [by apply Hquiet|auto]. Qed.

Lemma always_clock (Q : Z → list Obs → Prop) :
  (∀ now, Q now (SawClock now :: seen)) → always I Q now_secs seen.
Proof. intros HQ. apply always_call. intros w. cbn. split; [by apply Hquiet|auto]. Qed.

Lemma always_load k (Q : Z → list Obs → Prop) :
  (∀ v, Q v (SawOther :: seen)) → always I Q (load_counter k) seen.
Proof. intros HQ. apply always_call. intros w. cbn. split; [by apply Hquiet|auto]. Qed.

Lemma always_ask o (Q : outside_reply o → list Obs → Prop) :
  (∀ w r, I seen w (log_exchange (mkExchange o r) w)) →
  (∀ n, Q (outside n o) (SawOutside (mkExchange o (outside n o)) :: seen)) →
  always I Q (ask o) seen.
Proof. intros Hi HQ. apply always_call. intros w. cbn. auto. Qed.

End Rules.

(** What a program does to the world when it runs alone. *)
Lemma always_run {A} (I : list Obs → World Db → World Db → Prop) (J : World Db → World Db → Prop)
    (Q : A → list Obs → Prop) p seen w :
  Reflexive J → Transitive J → (∀ seen w w', I seen w w' → J w w') →
  always I Q p seen → J w (run_io p w).2.
Proof.
  intros Hr Ht HJ. revert seen w. induction p as [a|c k IH]; intros seen w Hp; simpl; [done|].
  destruct (Hp w) as [Hi Hk]. destruct (perform c w) as [r w']; simpl in *.
  etrans; [by eapply HJ|by eapply IH].
Qed.

(** ** Lemmas *)

Lemma run_bind {A B} (m : Io A) (f : A → Io B) w :
  run_io (m ≫= f) w = run_io (f (run_io m w).1) (run_io m w).2.
Proof.
  revert w. induction m as [a|c k IH]; intros w; simpl; [done|].
  destruct (perform c w) as [r w']. apply IH.
Qed.

Lemma run_try {E A B} (m : Io (result E A)) (f : A → Io (result E B)) w :
  run_io (try_bind m f) w =
  match run_io m w with
  | (Ok a, w') => run_io (f a) w'
  | (Err e, w') => (Err e, w')
  end.
Proof. unfold try_bind. rewrite run_bind. by destruct (run_io m w) as [[a|e] w']. Qed.

Lemma run_try_Ok {E A B} (m : Io (result E A)) (f : A → Io (result E B)) w b w' :
  run_io (try_bind m f) w = (Ok b, w') ↔
  ∃ a w1, run_io m w = (Ok a, w1) ∧ run_io (f a) w1 = (Ok b, w').
Proof. rewrite run_try. destruct (run_io m w) as [[a|e] w1]; naive_solver. Qed.

(** Running is advancing to the end. *)
Lemma run_advance {A} (p : Io A) w o p' w' :
  advance p w = Some (o, p', w') → run_io p w = run_io p' w'.
Proof.
  destruct p as [a|c k]; simpl; [done|]. destruct (perform c w) as [r w1]. by intros [= <- <- <-].
Qed.

Lemma run_finished {A} (p : Io A) a w : finished p = Some a → run_io p w = (a, w).
Proof. by destruct p as [b|c k]; [intros [= ->]|]. Qed.

(** A statement in a program, by cases on its outcome. *)
Lemma run_execute q vs w :
  (∃ n d, run_io (execute_sql q vs) w = (Ok n, set_db d w) ∧
     exec_spec q vs (w_tables w) n (tables d)) ∨
  (∃ e d, run_io (execute_sql q vs) w = (Err e, set_db d w) ∧ tables d = w_tables w).
Proof.
  unfold execute_sql, w_tables. cbn. destruct (execute_cases q vs (w_db w))
    as [(n & d & -> & ?)|(e & d & -> & ?)]; [left|right]; by eexists _, _.
Qed.

Lemma run_fetch q vs w :
  (∃ rows d, run_io (fetch_all q vs) w = (Ok rows, set_db d w) ∧
     fetch_spec q vs (w_tables w) rows ∧ tables d = w_tables w) ∨
  (∃ e d, run_io (fetch_all q vs) w = (Err e, set_db d w) ∧ tables d = w_tables w).
Proof.
  unfold fetch_all, w_tables. cbn. destruct (fetch_cases q vs (w_db w))
    as [(n & d & -> & ? & ?)|(e & d & -> & ?)]; [left|right]; by eexists _, _.
Qed.

Lemma run_fetch_optional {A} (f : Row → option A) q vs w :
  (∃ rows d, run_io (fetch_optional f q vs) w =
     (match rows with [] => Ok None | row :: _ => Some <$> ok_or decode_error (f row) end,
      set_db d w) ∧
     fetch_spec q vs (w_tables w) rows ∧ tables d = w_tables w) ∨
  (∃ e d, run_io (fetch_optional f q vs) w = (Err e, set_db d w) ∧ tables d = w_tables w).
Proof.
  unfold fetch_optional. rewrite run_try.
  destruct (run_fetch q vs w) as [(rows & d & -> & ? & ?)|(e & d & -> & ?)]; [left|right];
    by eexists _, _.
Qed.

End Effects.

Notation "x ⇠ m ; k" := (try_bind m (λ x, k))
  (at level 100, m at level 99, right associativity).
