(* ===== verification/Pool.v ===== *)
(** * The database pool ([src/src/db/pool.rs])

    [init_pool] and the schema migration.  Opening the pool is sqlx's [connect], an
    argument. *)
From S2P Require Import Prelude RustStr Metrics Sql Effects.
Local Open Scope Z_scope.

Section Pool.
Context `{Sql, Env}.

Inductive DbError : Type :=
| Sqlx (e : DbErr)
| BackendMismatch.

Definition run_migrations : Io (result DbErr ()) :=
  _ ⇠ execute_sql SQL_CREATE_ITEMS [];
  _ ⇠ execute_sql SQL_CREATE_USERS [];
  _ ⇠ execute_sql SQL_CREATE_SESSIONS [];
  mret (Ok ()).

(** The compiled driver, and the pool of at most so many connections it opens. *)
Context (postgres_feature : bool) (connect : string → Z → result DbErr Db).

Definition is_postgres (db_url : string) : bool :=
  starts_with "postgres://" db_url || starts_with "postgresql://" db_url.

Definition effective_pool_size (db_url : string) (pool_size : Z) : Z :=
  if postgres_feature then pool_size
  else if String.eqb db_url "sqlite::memory:" then 1 else pool_size.

(** The world at start-up, around an opened database. *)
Definition fresh_world (d : Db) : World Db := mkWorld d 0 0 metrics_new [].

Definition init_pool (db_url : string) (pool_size : Z) : result DbError Db :=
  if negb (Bool.eqb (is_postgres db_url) postgres_feature) then Err BackendMismatch
  else
    d ← map_err Sqlx (connect db_url (effective_pool_size db_url pool_size));
    let '(migrated, w) := run_io run_migrations (fresh_world d) in
    _ ← map_err Sqlx migrated;
    Ok (w_db w).

(** ** Lemmas *)

Lemma create_table_spec q w :
  creates_table q = true →
  ∃ r d, run_io (execute_sql q []) w = (r, set_db d w) ∧ tables d = w_tables w.
Proof.
  intros Hq. destruct (run_execute q [] w) as [(n & d & -> & Hs)|(e & d & -> & Ht)].
  - eexists _, d. split; [done|]. by inversion Hs.
  - by eexists _, d.
Qed.

(** The migration leaves what is in the database alone, done or failed. *)
Lemma run_migrations_spec w :
  ∃ r d, run_io run_migrations w = (r, set_db d w) ∧ tables d = w_tables w.
Proof.
  unfold run_migrations. rewrite run_try.
  destruct (create_table_spec SQL_CREATE_ITEMS w eq_refl) as ([n1|e1] & d1 & -> & H1);
    [|by eexists _, d1]. rewrite run_try.
  destruct (create_table_spec SQL_CREATE_USERS (set_db d1 w) eq_refl) as ([n2|e2] & d2 & -> & H2);
    [|eexists _, d2; split; [done|]; by rewrite H2]. rewrite run_try.
  destruct (create_table_spec SQL_CREATE_SESSIONS (set_db d2 (set_db d1 w)) eq_refl)
    as ([n3|e3] & d3 & -> & H3);
    eexists _, d3; (split; [done|]); rewrite H3; unfold w_tables in *; simpl in *; congruence.
Qed.

Lemma init_pool_Ok db_url pool_size d :
  init_pool db_url pool_size = Ok d →
  is_postgres db_url = postgres_feature ∧
  ∃ d0, connect db_url (effective_pool_size db_url pool_size) = Ok d0 ∧ tables d = tables d0.
Proof.
  unfold init_pool. destruct (Bool.eqb _ _) eqn:Eb; [|done]. apply Bool.eqb_prop in Eb.
  cbn [negb]. rewrite bind_Ok. intros (d0 & Hc%map_err_Ok & Hd). split; [done|]. exists d0.
  split; [done|]. destruct (run_migrations_spec (fresh_world d0)) as (r & d1 & E & Ht).
  rewrite E in Hd. apply bind_Ok in Hd as (u & _ & [= <-]). exact Ht.
Qed.

End Pool.
