(* ===== verification/Database.v ===== *)
(** * Database access ([src/src/db/models.rs])

    The CRUD helpers as programs over the statements of [Sql].  The Argon2
    functions are the interface [Argon2]. *)
From S2P Require Import Prelude RustStr Metrics Sql Effects.
Local Open Scope Z_scope.

(** Argon2id: [hash_password] with a salt, [PasswordHash::new] and
    [verify_password]. *)
Class Argon2 : Type := {
  hash_password : string → string → option string;
  hash_parses : string → bool;
  verify_password : string → string → bool;
  hash_verifies : ∀ pw salt h,
    hash_password pw salt = Some h → hash_parses h = true ∧ verify_password pw h = true;
}.

(** ** Operations *)

Section Models.
Context `{Sql}.

Record Item : Type := mkItem {
  id : string;
  name : string;
  description : string;
}.

(** [FromRow] of an [Item], and of a tuple of one text. *)
Definition item_of_row (r : Row) : option Item :=
  match r with
  | [VText i; VText n; VText d] => Some (mkItem i n d)
  | _ => None
  end.

Definition text_of_row (r : Row) : option string :=
  match r with [VText s] => Some s | _ => None end.

Definition list_items : Io (result DbErr (list Item)) := fetch_as item_of_row SQL_LIST_ITEMS [].

Definition get_item (i : string) : Io (result DbErr (option Item)) :=
  fetch_optional item_of_row SQL_GET_ITEM [VText i].

Definition create_item (nm desc : string) : Io (result DbErr Item) :=
  new_id ← new_v4;
  _ ⇠ execute_sql SQL_INSERT_ITEM [VText new_id; VText nm; VText desc];
  mret (Ok (mkItem new_id nm desc)).

Definition delete_item (i : string) : Io (result DbErr bool) :=
  rows ⇠ execute_sql SQL_DELETE_ITEM [VText i]; mret (Ok (0 <? rows)).

Context `{Argon2}.

Definition create_user_with_hash_if_missing (username password_hash : string)
    : Io (result DbErr ()) :=
  if hash_parses password_hash then
    exists_ ⇠ fetch_optional text_of_row SQL_FIND_USER [VText username];
    match exists_ with
    | Some _ => mret (Ok ())
    | None =>
        _ ⇠ execute_sql SQL_INSERT_USER [VText username; VText password_hash]; mret (Ok ())
    end
  else mret (Err (protocol_error "invalid Argon2 password hash")).

(** [salt] is the generated salt. *)
Definition create_user_if_missing (salt username bootstrap_password : string)
    : Io (result DbErr ()) :=
  match hash_password bootstrap_password salt with
  | Some hash => create_user_with_hash_if_missing username hash
  | None => mret (Err (protocol_error "password hash"))
  end.

Definition verify_user (username password : string) : Io (result DbErr bool) :=
  stored ⇠ fetch_optional text_of_row SQL_PASSWORD_HASH [VText username];
  mret (Ok (match stored with
            | Some hash => if hash_parses hash then verify_password password hash else false
            | None => false
            end)).

(** ** Specification *)

(** Credentials the accounts accept. *)
Definition accepts (t : Tables) (user password : string) : bool :=
  match t_users t !! user with
  | Some h => hash_parses h && verify_password password h
  | None => false
  end.

(** The items of a table, as listed: all of them, in order of creation. *)
Definition listed (l : list (string * ItemRow)) : list Item :=
  (λ kv, mkItem kv.1 (ir_name kv.2) (ir_description kv.2)) <$> l.

Definition is_listing (t : Tables) (its : list Item) : Prop :=
  ∃ l, l ≡ₚ map_to_list (t_items t) ∧ StronglySorted created_le l ∧ its = listed l.

Lemma mapM_item_of_row l : mapM item_of_row (item_columns <$> l) = Some (listed l).
Proof. induction l as [|[k r] l IH]; [done|]. cbn. by rewrite IH. Qed.

(** ** Lemmas: each operation running alone *)

Context `{Env}.

Lemma create_item_spec nm desc w :
  let i := uuid (w_uuids w) in
  (∃ at_ w', run_io (create_item nm desc) w = (Ok (mkItem i nm desc), w') ∧
     t_items (w_tables w) !! i = None ∧
     w_tables w' = with_items <[i := mkItemRow nm desc at_]> (w_tables w)) ∨
  (∃ e w', run_io (create_item nm desc) w = (Err e, w') ∧ w_tables w' = w_tables w).
Proof.
  intros i. unfold create_item. rewrite run_bind. cbn [new_v4 call run_io perform fst snd].
  rewrite run_try. fold i. set (w1 := mkWorld _ _ _ _ _).
  destruct (run_execute SQL_INSERT_ITEM [VText i; VText nm; VText desc] w1)
    as [(n & d & -> & Hs)|(e & d & -> & He)]; simpl.
  - left. inversion Hs; subst. by eexists _, _.
  - right. by eexists _, _.
Qed.

Lemma delete_item_spec i w :
  (∃ d, run_io (delete_item i) w =
     (Ok (bool_decide (is_Some (t_items (w_tables w) !! i))), set_db d w) ∧
     tables d = with_items (delete i) (w_tables w)) ∨
  (∃ e d, run_io (delete_item i) w = (Err e, set_db d w) ∧ tables d = w_tables w).
Proof.
  unfold delete_item. rewrite run_try.
  destruct (run_execute SQL_DELETE_ITEM [VText i] w) as [(n & d & -> & Hs)|(e & d & -> & He)]; simpl.
  - left. inversion Hs; subst. exists d. split; [|done]. unfold affected.
    by destruct (t_items (w_tables w) !! i).
  - right. by eexists _, _.
Qed.

Lemma get_item_spec i w :
  (∃ d, run_io (get_item i) w =
     (Ok ((λ r, mkItem i (ir_name r) (ir_description r)) <$> t_items (w_tables w) !! i), set_db d w) ∧
     tables d = w_tables w) ∨
  (∃ e d, run_io (get_item i) w = (Err e, set_db d w) ∧ tables d = w_tables w).
Proof.
  unfold get_item.
  destruct (run_fetch_optional item_of_row SQL_GET_ITEM [VText i] w)
    as [(rows & d & -> & Hs & Ht)|(e & d & -> & Ht)]; [left|right; by eexists _, _].
  exists d. split; [|done]. inversion Hs; subst. by destruct (t_items (w_tables w) !! i).
Qed.

Lemma list_items_spec w :
  ∃ r d, run_io list_items w = (r, set_db d w) ∧ tables d = w_tables w.
Proof.
  unfold list_items, fetch_as. rewrite run_try.
  destruct (run_fetch SQL_LIST_ITEMS [] w) as [(rows & d & -> & _ & Ht)|(e & d & -> & Ht)];
    by eexists _, _.
Qed.

Lemma verify_user_spec u p w :
  (∃ d, run_io (verify_user u p) w = (Ok (accepts (w_tables w) u p), set_db d w) ∧
     tables d = w_tables w) ∨
  (∃ e d, run_io (verify_user u p) w = (Err e, set_db d w) ∧ tables d = w_tables w).
Proof.
  unfold verify_user, accepts. rewrite run_try.
  destruct (run_fetch_optional text_of_row SQL_PASSWORD_HASH [VText u] w)
    as [(rows & d & -> & Hs & Ht)|(e & d & -> & Ht)]; [left|right; by eexists _, _].
  exists d. split; [|done]. inversion Hs; subst.
  destruct (t_users (w_tables w) !! u) as [h|]; [|done]. simpl. by destruct (hash_parses h).
Qed.

Lemma create_user_spec u h w :
  hash_parses h = true →
  (∃ d, run_io (create_user_with_hash_if_missing u h) w = (Ok (), set_db d w) ∧
     tables d = with_users (λ m, match m !! u with Some _ => m | None => <[u := h]> m end)
                   (w_tables w)) ∨
  (∃ e d, run_io (create_user_with_hash_if_missing u h) w = (Err e, set_db d w) ∧
     tables d = w_tables w).
Proof.
  intros Hp. unfold create_user_with_hash_if_missing. rewrite Hp, run_try.
  destruct (run_fetch_optional text_of_row SQL_FIND_USER [VText u] w)
    as [(rows & d & -> & Hs & Ht)|(e & d & -> & Ht)]; [|right; by eexists _, _].
  inversion Hs; subst. unfold with_users.
  destruct (t_users (w_tables w) !! u) as [h'|] eqn:Eu; cbv beta iota.
  - left. exists d. split; [done|]. rewrite Ht. by destruct (w_tables w).
  - rewrite run_try. destruct (run_execute SQL_INSERT_USER [VText u; VText h] (set_db d w))
      as [(k & d' & -> & Hs')|(e & d' & -> & He)].
    + left. exists d'. split; [done|]. inversion Hs'; subst.
      replace (tables d') with (with_users <[u := h]> (w_tables (set_db d w))) by done.
      unfold w_tables in *. simpl in *. by rewrite Ht.
    + right. exists e, d'. split; [done|]. rewrite He. exact Ht.
Qed.

(** ** Lemmas: each call of an operation *)

Section Always.
Context (I : list Obs → World Db → World Db → Prop).
Context (Hquiet : ∀ seen w w', quiet w w' → I seen w w').

Lemma verify_user_always u p seen (Q : _ → list Obs → Prop) :
  (∀ t b, b = accepts t u p → Q (Ok b) (SawTables t t :: seen)) →
  (∀ e, Q (Err e) (SawFailed :: seen)) → always I Q (verify_user u p) seen.
Proof.
  intros Hok Herr. apply always_try, always_fetch_optional; auto. intros t rows Hs.
  inversion Hs; subst. unfold accepts in *. destruct (t_users t !! u) as [h|] eqn:E; simpl.
  - apply Hok. rewrite E. by destruct (hash_parses h).
  - apply Hok. by rewrite E.
Qed.

Lemma list_items_always seen (Q : _ → list Obs → Prop) :
  (∀ its t, is_listing t its → Q (Ok its) (SawTables t t :: seen)) →
  (∀ e, Q (Err e) (SawFailed :: seen)) →
  always I Q list_items seen.
Proof.
  intros HQ HQe. apply always_try, always_fetch_all; [done| |auto].
  intros t rows Hs. inversion Hs as [t' l Hp Hsort| | | |]; subst.
  rewrite mapM_item_of_row. apply HQ. by exists l.
Qed.

Lemma get_item_always i seen (Q : _ → list Obs → Prop) :
  (∀ t, Q (Ok ((λ row, mkItem i (ir_name row) (ir_description row)) <$> t_items t !! i))
          (SawTables t t :: seen)) →
  (∀ e, Q (Err e) (SawFailed :: seen)) →
  always I Q (get_item i) seen.
Proof.
  intros HQ HQe. apply always_fetch_optional; [done| |auto].
  intros t rows Hs. pose proof (HQ t) as HQt. inversion Hs; subst. by destruct (t_items t !! i).
Qed.

(** Creating an item: the identifier drawn, then the one insert. *)
Lemma create_item_always nm desc seen (Q : _ → list Obs → Prop) :
  (∀ w w' n at_, t_items (w_tables w) !! uuid n = None → w_outside w' = w_outside w →
     w_tables w' = with_items <[uuid n := mkItemRow nm desc at_]> (w_tables w) →
     I (SawUuid n :: seen) w w') →
  (∀ t n at_, t_items t !! uuid n = None →
     Q (Ok (mkItem (uuid n) nm desc))
       (SawTables t (with_items <[uuid n := mkItemRow nm desc at_]> t) :: SawUuid n :: seen)) →
  (∀ n e, Q (Err e) (SawFailed :: SawUuid n :: seen)) →
  always I Q (create_item nm desc) seen.
Proof.
  intros Hi HQ HQe. apply always_bind, always_uuid; [done|]. intros k.
  apply always_try, always_execute; [done|..].
  - intros w w' n Hs Ho. inversion Hs; subst. by eapply Hi.
  - intros t n t' Hs. inversion Hs; subst. by apply HQ.
  - intros e. apply HQe.
Qed.

Lemma delete_item_always i seen (Q : _ → list Obs → Prop) :
  (∀ w w', w_outside w' = w_outside w →
     w_tables w' = with_items (delete i) (w_tables w) → I seen w w') →
  (∀ t, Q (Ok (bool_decide (is_Some (t_items t !! i)))) (SawTables t (with_items (delete i) t) :: seen)) →
  (∀ e, Q (Err e) (SawFailed :: seen)) →
  always I Q (delete_item i) seen.
Proof.
  intros Hi HQ HQe. apply always_try, always_execute; [done|..].
  - intros w w' n Hs Ho. inversion Hs; subst. by eapply Hi.
  - intros t n t' Hs. inversion Hs; subst. unfold affected in *.
    pose proof (HQ t) as H'. by destruct (t_items t !! i).
  - intros e. apply HQe.
Qed.

End Always.

End Models.

(** A stand-in for Argon2: the hash is a dollar and the password. *)
Program Definition toy_argon2 : Argon2 := {|
  hash_password := λ pw salt, Some ("$" +:+ pw);
  hash_parses := starts_with "$";
  verify_password := λ pw h, String.eqb h ("$" +:+ pw);
|}.
Next Obligation.
  intros pw salt h [= <-]. split; [done|]. apply String.eqb_refl.
Qed.

(** Nothing outside: no files, no upstream, no blocking pool. *)
Definition no_outside (o : Outside) : outside_reply o :=
  match o with
  | Metadata _ => Err NotFound
  | OpenFile _ => Err NotFound
  | Fstat _ => Err NotFound
  | SendUpstream _ _ _ _ => None
  | ReadUpstream _ => None
  | RunBlocking => false
  end.

(** Environments of the instances: numbered UUIDs, and a clock that ticks once a
    reading. *)
Definition toy_env : Env := {|
  uuid := λ n, "uuid-" +:+ show_uint (Z.of_nat n);
  clock := λ n, 1000 + Z.of_nat n;
  outside := λ _, no_outside;
|}.

Definition toy_world : World MemDb := mkWorld mem_empty 0 0 metrics_new [].

(** ** Theorems *)

Section Theorems.
Context `{Sql, Argon2, Env}.

(** C32: an item's life: once [create_item] succeeds, every later successful
    [get_item] of its identifier returns what was stored and leaves the tables
    alone, [delete_item] reports a removal, and after it the item is gone while
    every other item is as it was. *)
Theorem item_lifecycle nm desc w0 w1 it :
  run_io (create_item nm desc) w0 = (Ok it, w1) →
  it = mkItem (uuid (w_uuids w0)) nm desc ∧
  (∀ r w, run_io (get_item (id it)) w1 = (Ok r, w) → r = Some it ∧ w_tables w = w_tables w1) ∧
  (∀ b w2, run_io (delete_item (id it)) w1 = (Ok b, w2) →
     b = true ∧ w_tables w2 = w_tables w0 ∧
     ∀ r w3, run_io (get_item (id it)) w2 = (Ok r, w3) → r = None).
Proof.
  intros Hc. destruct (create_item_spec nm desc w0) as [(at_ & w' & E & Hn & Ht)|(e & w' & E & _)];
    rewrite E in Hc; [|done]. injection Hc as <- <-. cbn [id]. set (i := uuid (w_uuids w0)) in *.
  assert (Hi : t_items (w_tables w') !! i = Some (mkItemRow nm desc at_))
    by (rewrite Ht; apply lookup_insert_eq).
  split; [done|]. split.
  - intros r w Hg. destruct (get_item_spec i w') as [(d & E2 & Ht2)|(e & d & E2 & _)];
      rewrite E2 in Hg; [|done]. injection Hg as <- <-. by rewrite Hi.
  - intros b w2 Hd. destruct (delete_item_spec i w') as [(d & E3 & Ht3)|(e & d & E3 & _)];
      rewrite E3 in Hd; [|done]. injection Hd as <- <-. split.
    { rewrite Hi. by apply bool_decide_eq_true. }
    assert (Ht0 : w_tables (set_db d w') = w_tables w0).
    { unfold w_tables at 1. simpl. rewrite Ht3, Ht. unfold with_items. simpl.
      rewrite delete_insert_id by done. by destruct (w_tables w0). }
    split; [done|]. intros r w3 Hg.
    destruct (get_item_spec i (set_db d w')) as [(d4 & E5 & _)|(e & d4 & E5 & _)];
      rewrite E5 in Hg; [|done].
    injection Hg as <- _. by rewrite Ht0, Hn.
Qed.

(** Listing returns every item of the table once, in order of creation, and
    changes nothing. *)
Lemma list_items_complete w its w' :
  run_io list_items w = (Ok its, w') →
  w_tables w' = w_tables w ∧ is_listing (w_tables w) its.
Proof.
  unfold list_items, fetch_as. rewrite run_try_Ok. intros (rows & w1 & E & E').
  destruct (run_fetch SQL_LIST_ITEMS [] w) as [(rows' & d & Ef & Hs & Ht)|(e & d & Ef & _)];
    rewrite Ef in E; [|done]. injection E as <- <-. inversion Hs as [t l Hp Hsort| | | |]; subst.
  rewrite mapM_item_of_row in E'. injection E' as <- <-. split; [exact Ht|]. by exists l.
Qed.

End Theorems.

(** ** Instances *)

Definition toy_run {A} (p : IoTree string A) (w : World MemDb) : A * World MemDb :=
  run_io (H := mem_sql) (H0 := toy_env) p w.

Lemma item_lifecycle_witness :
  let w1 := (toy_run (create_item (H := mem_sql) "pen" "blue") toy_world).2 in
  let w2 := (toy_run (delete_item (H := mem_sql) "uuid-0") w1).2 in
  (toy_run (get_item (H := mem_sql) "uuid-0") w1).1 = Ok (Some (mkItem "uuid-0" "pen" "blue")) ∧
  mem_tables (w_db w2) = mem_tables mem_empty.
Proof.
  intros w1 w2. split; [by vm_compute|].
  apply (item_lifecycle (H := mem_sql) (H1 := toy_env) "pen" "blue" toy_world w1
           (mkItem "uuid-0" "pen" "blue") eq_refl) with (b := true).
  by vm_compute.
Defined.
