(* ===== verification/Session.v ===== *)
(** * Browser sessions ([src/src/session/mod.rs])

    [SessionStore] as programs over the statements of [Sql].  Clock readings are
    seconds since the epoch, in an [i64]. *)
From S2P Require Import Prelude RustStr Metrics Sql Effects Database.
Local Open Scope Z_scope.

Definition SESSION_TTL_SECS : Z := 3600.

Record Session : Type := mkSession {
  username : string;
  csrf_token : string;
}.

(** [extract_session_cookie]. *)
Definition extract_session_cookie (cookie_header : option string) : option string :=
  h ← cookie_header; find_map (strip_prefix "session=") (trim <$> split ";" h).

Section Store.
Context `{Sql}.

(** [create]. *)
Definition session_create (user : string) : Io (result DbErr string) :=
  token ← new_v4;
  csrf ← new_v4;
  now ← now_secs;
  let expires_at := wrap_i64 (now + SESSION_TTL_SECS) in
  _ ⇠ execute_sql SQL_INSERT_SESSION [VText token; VText user; VText csrf; VInt expires_at];
  mret (Ok token).

Definition session_of_row (r : Row) : option Session :=
  match r with
  | [VText u; VText c] => Some (mkSession u c)
  | _ => None
  end.

(** [get]. *)
Definition session_get (token : string) : Io (result DbErr (option Session)) :=
  now ← now_secs;
  session ⇠ fetch_optional session_of_row SQL_FIND_SESSION [VText token; VInt now];
  match session with
  | None => _ ⇠ execute_sql SQL_DELETE_SESSION [VText token]; mret (Ok None)
  | Some s =>
      _ ⇠ execute_sql SQL_TOUCH_SESSION [VInt (wrap_i64 (now + SESSION_TTL_SECS)); VText token];
      mret (Ok (Some s))
  end.

(** [remove]. *)
Definition session_remove (token : string) : Io (result DbErr ()) :=
  _ ⇠ execute_sql SQL_DELETE_SESSION [VText token]; mret (Ok ()).

(** ** Specification *)

(** A session that is in the store and not expired at [now]. *)
Definition live (t : Tables) (token : string) (now : Z) : option SessionRow :=
  r ← t_sessions t !! token; if now <? sr_expires_at r then Some r else None.

(** What a lookup makes of a row. *)
Definition session_of (r : SessionRow) : Session := mkSession (sr_username r) (sr_csrf_token r).

(** The epoch seconds of the next 290 billion years. *)
Definition sane_clock (now : Z) : Prop := 0 ≤ now < 2 ^ 62.

Lemma expiry_exact now : sane_clock now → wrap_i64 (now + SESSION_TTL_SECS) = now + SESSION_TTL_SECS.
Proof. unfold sane_clock, SESSION_TTL_SECS. intros ?. apply wrap_i64_small. lia. Qed.

Lemma find_session_rows t token now rows :
  fetch_spec SQL_FIND_SESSION [VText token; VInt now] t rows →
  match rows with [] => Ok None | row :: _ => Some <$> ok_or decode_error (session_of_row row) end =
  Ok (session_of <$> live t token now).
Proof.
  intros Hs. inversion Hs; subst. unfold live. destruct (t_sessions t !! token) as [r|]; [|done].
  simpl. by destruct (now <? sr_expires_at r).
Qed.

(** What [get] returns and leaves in the store. *)
Definition get_result (t : Tables) (token : string) (now : Z) : option Session * Tables :=
  match live t token now with
  | Some r =>
      (Some (session_of r),
       with_sessions (alter (touch (wrap_i64 (now + SESSION_TTL_SECS))) token) t)
  | None => (None, with_sessions (delete token) t)
  end.

(** ** Lemmas: each operation running alone *)

Context `{Env}.

Lemma session_create_spec user w :
  let token := uuid (w_uuids w) in
  let row := mkSessionRow user (uuid (S (w_uuids w)))
               (wrap_i64 (clock (w_clocks w) + SESSION_TTL_SECS)) in
  (∃ w', run_io (session_create user) w = (Ok token, w') ∧
     t_sessions (w_tables w) !! token = None ∧
     w_tables w' = with_sessions <[token := row]> (w_tables w)) ∨
  (∃ e w', run_io (session_create user) w = (Err e, w') ∧ w_tables w' = w_tables w).
Proof.
  intros token row. unfold session_create.
  repeat (rewrite run_bind;
          cbn [new_v4 now_secs call run_io perform fst snd w_uuids w_clocks w_db w_metrics]).
  cbv zeta. fold token. rewrite run_try.
  match goal with |- context [run_io (execute_sql ?q ?vs) ?w1] =>
    destruct (run_execute q vs w1) as [(n & d & -> & Hs)|(e & d & -> & He)] end; simpl.
  - left. inversion Hs; subst. by eexists.
  - right. by eexists _, _.
Qed.

Lemma session_get_spec token w :
  let now := clock (w_clocks w) in
  (∃ w', run_io (session_get token) w = (Ok (get_result (w_tables w) token now).1, w') ∧
     w_tables w' = (get_result (w_tables w) token now).2 ∧ w_uuids w' = w_uuids w) ∨
  (∃ e w', run_io (session_get token) w = (Err e, w') ∧ w_tables w' = w_tables w ∧
     w_uuids w' = w_uuids w).
Proof.
  intros now. unfold session_get. rewrite run_bind. cbn [now_secs call run_io perform fst snd].
  fold now. set (w0 := mkWorld _ _ _ _ _). rewrite run_try.
  destruct (run_fetch_optional session_of_row SQL_FIND_SESSION [VText token; VInt now] w0)
    as [(rows & d & -> & Hs & Ht)|(e & d & -> & Ht)]; [|right; by eexists _, _].
  rewrite (find_session_rows _ _ _ _ Hs). change (w_tables w0) with (w_tables w) in *.
  assert (Ht' : w_tables (set_db d w0) = w_tables w) by done.
  unfold get_result. destruct (live (w_tables w) token now) as [r|]; cbn [fmap option_fmap option_map];
    rewrite run_try;
    match goal with |- context [run_io (execute_sql ?q ?vs) ?w1] =>
      destruct (run_execute q vs w1) as [(n & d' & -> & Hs')|(e & d' & -> & He)] end;
    [left|right|left|right].
  1, 3: rewrite Ht' in Hs'; inversion Hs'; subst; by eexists.
  all: rewrite Ht' in He; by eexists _, _.
Qed.

Lemma session_remove_spec token w :
  (∃ d, run_io (session_remove token) w = (Ok (), set_db d w) ∧
     tables d = with_sessions (delete token) (w_tables w)) ∨
  (∃ e d, run_io (session_remove token) w = (Err e, set_db d w) ∧ tables d = w_tables w).
Proof.
  unfold session_remove. rewrite run_try.
  destruct (run_execute SQL_DELETE_SESSION [VText token] w)
    as [(k & d & -> & Hs)|(e & d & -> & He)]; simpl.
  - left. exists d. split; [done|]. by inversion Hs.
  - right. by exists e, d.
Qed.

(** ** Lemmas: each call of an operation *)

Section Always.
Context (I : list Obs → World Db → World Db → Prop).
Context (Hquiet : ∀ seen w w', quiet w w' → I seen w w').

(** A lookup: the clock, then the row in the tables it finds, then a change of
    that session only, its removal or its extension. *)
Lemma session_get_always token seen (Q : _ → list Obs → Prop) :
  (∀ seen w w' e, w_outside w' = w_outside w →
     w_tables w' = with_sessions (delete token) (w_tables w) ∨
     w_tables w' = with_sessions (alter (touch e) token) (w_tables w) → I seen w w') →
  (∀ t t1 t2 now, t_items t2 = t_items t1 →
     Q (Ok (session_of <$> live t token now)) (SawTables t1 t2 :: SawTables t t :: SawClock now :: seen)) →
  (∀ t now e, Q (Err e) (SawFailed :: SawTables t t :: SawClock now :: seen)) →
  (∀ now e, Q (Err e) (SawFailed :: SawClock now :: seen)) →
  always I Q (session_get token) seen.
Proof.
  intros Hi HQ HQe HQf. apply always_bind, always_clock; [done|]. intros now.
  apply always_try, always_fetch_optional; [done| |auto].
  intros t rows Hs. rewrite (find_session_rows _ _ _ _ Hs).
  destruct (live t token now) as [r|] eqn:El; simpl fmap; cbv iota;
    apply always_try, always_execute; try done;
    try (intros w w' n Hs' Ho; inversion Hs'; subst; eapply (Hi _ _ _ 0); by eauto).
  - intros w w' n Hs' Ho. inversion Hs'; subst. eapply Hi; [done|by right].
  - intros t' n t'' Hs'. pose proof (HQ t t' t'' now) as H'. rewrite El in H'. apply H'.
    by inversion Hs'.
  - intros t' n t'' Hs'. pose proof (HQ t t' t'' now) as H'. rewrite El in H'. apply H'.
    by inversion Hs'.
Unshelve. all: exact 0.
Qed.

Lemma session_remove_always token seen (Q : _ → list Obs → Prop) :
  (∀ seen w w', w_outside w' = w_outside w →
     w_tables w' = with_sessions (delete token) (w_tables w) → I seen w w') →
  (∀ t, Q (Ok ()) (SawTables t (with_sessions (delete token) t) :: seen)) →
  (∀ e, Q (Err e) (SawFailed :: seen)) →
  always I Q (session_remove token) seen.
Proof.
  intros Hi HQ HQe. apply always_try, always_execute; [done|..|auto].
  - intros w w' n Hs Ho. inversion Hs; subst. by eapply Hi.
  - intros t n t' Hs. inversion Hs; subst. apply HQ.
Qed.

(** A login's insert, the third call after the token was drawn: a new row for the
    account. *)
Lemma session_create_always user seen (Q : _ → list Obs → Prop) :
  (∀ w w' n m now row,
     sr_username row = user → t_sessions (w_tables w) !! uuid n = None →
     w_outside w' = w_outside w → w_tables w' = with_sessions <[uuid n := row]> (w_tables w) →
     I (SawClock now :: SawUuid m :: SawUuid n :: seen) w w') →
  (∀ t n m now, t_sessions t !! uuid n = None →
     let row := mkSessionRow user (uuid m) (wrap_i64 (now + SESSION_TTL_SECS)) in
     Q (Ok (uuid n)) (SawTables t (with_sessions <[uuid n := row]> t) ::
                      SawClock now :: SawUuid m :: SawUuid n :: seen)) →
  (∀ n m now e, Q (Err e) (SawFailed :: SawClock now :: SawUuid m :: SawUuid n :: seen)) →
  always I Q (session_create user) seen.
Proof.
  intros Hi HQ HQe. apply always_bind, always_uuid; [done|]. intros n.
  apply always_bind, always_uuid; [done|]. intros m.
  apply always_bind, always_clock; [done|]. intros now.
  apply always_try, always_execute; [done|..|auto].
  - intros w w' k Hs Ho. inversion Hs; subst. eapply (Hi w w' n m); [|done..]. done.
  - intros t k t' Hs. inversion Hs; subst. by apply HQ.
Qed.

End Always.

(** ** Lookups over time

    Successful lookups of one token, with the clock reading of each; between two
    of them anything may happen that leaves this session's row alone. *)
Inductive lookups (token : string) : World Db → list (Z * option Session) → Prop :=
| lookups_nil w : lookups token w []
| lookups_cons w w1 w2 s l :
    t_sessions (w_tables w1) !! token = t_sessions (w_tables w) !! token →
    run_io (session_get token) w1 = (Ok s, w2) →
    lookups token w2 l →
    lookups token w ((clock (w_clocks w1), s) :: l).

(** The sliding window: a lookup finds the session as long as each comes less
    than [SESSION_TTL_SECS] after the one before, and never again after a
    longer gap. *)
Fixpoint sliding (s : Session) (last : Z) (times : list Z) : list (option Session) :=
  match times with
  | [] => []
  | now :: times' =>
      if now <? last + SESSION_TTL_SECS then Some s :: sliding s now times'
      else None :: replicate (length times') None
  end.

Lemma lookups_absent token w l :
  lookups token w l → t_sessions (w_tables w) !! token = None →
  l.*2 = replicate (length l) None.
Proof.
  induction 1 as [w|w w1 w2 s l Hrow Hg _ IH]; intros Hn; [done|].
  destruct (session_get_spec token w1) as [(w3 & E & Ht & _)|(e & w3 & E & _)]; rewrite E in Hg; [|done].
  injection Hg as <- <-. unfold get_result, live in *. rewrite Hrow, Hn in *. simpl in *.
  f_equal. apply IH. rewrite Ht. apply lookup_delete_eq.
Qed.

Lemma lookups_sliding token w l s last :
  lookups token w l → Forall sane_clock l.*1 →
  t_sessions (w_tables w) !! token =
    Some (mkSessionRow (username s) (csrf_token s) (last + SESSION_TTL_SECS)) →
  l.*2 = sliding s last l.*1.
Proof.
  intros Hl. revert last. induction Hl as [w|w w1 w2 s1 l Hrow Hg Hl IH]; intros last HF Hs; [done|].
  inversion HF as [|? ? Hnow HF']; subst.
  destruct (session_get_spec token w1) as [(w3 & E & Ht & _)|(e & w3 & E & _)]; rewrite E in Hg; [|done].
  injection Hg as <- <-. unfold get_result, live in *. rewrite Hrow, Hs in *. simpl in *.
  destruct (_ <? last + SESSION_TTL_SECS); simpl in *.
  - f_equal; [by destruct s|]. apply IH; [done|]. rewrite Ht. simpl.
    rewrite lookup_alter_eq, Hrow. simpl. by rewrite expiry_exact.
  - f_equal. rewrite length_map. eapply lookups_absent; [exact Hl|]. rewrite Ht. apply lookup_delete_eq.
Qed.

(** ** Theorems *)

(** C31: the life of a session: after a login, lookups of its token, at any later
    times and whatever happens to other sessions in between, return the account and
    its CSRF token exactly as long as each lookup comes within an hour of the one
    before (or of the login), and from the first longer gap on they return nothing,
    for ever; and after a successful logout of a token no lookup of it succeeds,
    while every other session is untouched. *)
Theorem session_lifetime :
  (∀ user w token w1 l,
     run_io (session_create user) w = (Ok token, w1) → lookups token w1 l →
     sane_clock (clock (w_clocks w)) → Forall sane_clock l.*1 →
     l.*2 = sliding (mkSession user (uuid (S (w_uuids w)))) (clock (w_clocks w)) l.*1) ∧
  (∀ token w w1 l,
     run_io (session_remove token) w = (Ok (), w1) → lookups token w1 l →
     l.*2 = replicate (length l) None ∧
     ∀ other, other ≠ token → t_sessions (w_tables w1) !! other = t_sessions (w_tables w) !! other).
Proof.
  split.
  - intros user w token w1 l Hc Hl Hnow HF.
    destruct (session_create_spec user w) as [(w' & E & _ & Ht)|(e & w' & E & _)]; rewrite E in Hc;
      [|done]. injection Hc as <- <-.
    eapply lookups_sliding; [exact Hl|done|]. rewrite Ht. simpl.
    by rewrite lookup_insert_eq, expiry_exact.
  - intros token w w1 l Hr Hl. destruct (session_remove_spec token w) as [(d & E & Ht)|(e & d & E & _)];
      rewrite E in Hr; [|done]. injection Hr as <-.
    change (w_tables (set_db d w)) with (tables d). split.
    + eapply lookups_absent; [exact Hl|]. change (w_tables (set_db d w)) with (tables d).
      rewrite Ht. apply lookup_delete_eq.
    + intros other Hne. rewrite Ht. simpl. by rewrite lookup_delete_ne.
Qed.

End Store.

(** ** Cookies *)

(** A cookie other than the session's. *)
Definition other_cookie (p : string) : Prop :=
  no_char ";" p = true ∧ trim p = p ∧ strip_prefix "session=" p = None.

(** The [Cookie] header a browser sends for a list of cookies. *)
Definition cookie_text (parts : list string) : string := join ";" parts.

(** The token is found wherever the session cookie stands among others, and
    only there. *)
Lemma session_cookie_found before token after :
  Forall other_cookie before → no_char ";" token = true →
  trim ("session=" +:+ token) = "session=" +:+ token →
  Forall (λ p, no_char ";" p = true) after →
  extract_session_cookie (Some (cookie_text (before ++ ("session=" +:+ token) :: after))) =
    Some token ∧
  (before ≠ [] → extract_session_cookie (Some (cookie_text before)) = None).
Proof.
  intros Hb Ht Htrim Ha. unfold extract_session_cookie, cookie_text. cbn [mbind option_bind].
  assert (Hb' : Forall (λ p, no_char ";" p = true) before)
    by (eapply Forall_impl; [exact Hb|]; by intros p []).
  assert (Hnone : find_map (strip_prefix "session=") (trim <$> before) = None).
  { apply find_map_None, Forall_map. eapply Forall_impl; [exact Hb|].
    intros p (_ & E & Hp). simpl. by rewrite E. }
  split.
  - rewrite split_join; [|by destruct before|].
    + rewrite fmap_app, fmap_cons, find_map_app, Hnone, Htrim. cbn [find_map].
      by rewrite strip_prefix_app.
    + apply Forall_app. split; [done|]. constructor; [|done].
      unfold no_char in *. by rewrite str_forall_app, Ht.
  - intros Hne. by rewrite split_join.
Qed.

(** ** Instances *)

(** A clock that jumps: 1000 at the login, then the readings of four lookups. *)
Definition session_env : Env := {|
  uuid := λ n, "uuid-" +:+ show_uint (Z.of_nat n);
  clock := λ n, default 0 ([1000; 2000; 5599; 9199; 9200] !! n);
  outside := λ _, no_outside;
|}.

Definition session_run {A} (p : IoTree string A) (w : World MemDb) : A * World MemDb :=
  run_io (H := mem_sql) (H0 := session_env) p w.

Definition after_login : World MemDb :=
  (session_run (session_create (H := mem_sql) "admin") toy_world).2.

Definition after_lookup (w : World MemDb) : World MemDb :=
  (session_run (session_get (H := mem_sql) "uuid-0") w).2.

Lemma session_lifetime_witness :
  [Some (mkSession "admin" "uuid-1"); Some (mkSession "admin" "uuid-1"); None; None] =
  sliding (mkSession "admin" "uuid-1") 1000 [2000; 5599; 9199; 9200].
Proof.
  apply (proj1 (session_lifetime (H := mem_sql) (H0 := session_env)) "admin" toy_world "uuid-0"
    after_login [(2000, Some (mkSession "admin" "uuid-1")); (5599, Some (mkSession "admin" "uuid-1"));
                 (9199, None); (9200, None)]).
  - by vm_compute.
  - apply (lookups_cons (H := mem_sql) (H0 := session_env) "uuid-0" _ after_login
             (after_lookup after_login)); [done|by vm_compute|].
    apply (lookups_cons (H := mem_sql) (H0 := session_env) "uuid-0" _ (after_lookup after_login)
             (after_lookup (after_lookup after_login))); [done|by vm_compute|].
    apply (lookups_cons (H := mem_sql) (H0 := session_env) "uuid-0" _
             (after_lookup (after_lookup after_login))
             (after_lookup (after_lookup (after_lookup after_login)))); [done|by vm_compute|].
    eapply (lookups_cons (H := mem_sql) (H0 := session_env) "uuid-0" _
             (after_lookup (after_lookup (after_lookup after_login)))); [done|by vm_compute|].
    apply lookups_nil.
  - unfold sane_clock. simpl. lia.
  - repeat constructor; unfold sane_clock; simpl; lia.
Defined.

Example session_cookie_example :
  extract_session_cookie (Some "theme=dark;session=abc-123;lang=en") = Some "abc-123".
Proof.
  apply (session_cookie_found ["theme=dark"] "abc-123" ["lang=en"]); try by vm_compute.
  - repeat constructor; by vm_compute.
  - repeat constructor; by vm_compute.
Defined.
