(* ===== verification/Auth.v ===== *)
(** * JSON Web Tokens ([src/src/middleware/auth.rs])

    Minting and checking tokens on top of the [jsonwebtoken] crate, which is the
    interface [Jwt].  Clock readings are seconds since the epoch. *)
From S2P Require Import Prelude RustStr.
Local Open Scope Z_scope.

Definition TOKEN_TTL_SECS : Z := 3600.

Record Claims : Type := mkClaims {
  sub : string;
  exp : Z;
}.

(** [jsonwebtoken]: HS256 [encode], and [decode] under [Validation::new(HS256)],
    which requires [exp] and by default tolerates [LEEWAY] seconds past it. *)
Definition LEEWAY : Z := 60.

Class Jwt : Type := {
  JwtErr : Type;
  jwt_encode : string → Claims → result JwtErr string;
  jwt_decode : string → Z → string → result JwtErr Claims;
  jwt_roundtrip : ∀ key c tok now,
    jwt_encode key c = Ok tok → now - LEEWAY ≤ exp c → jwt_decode key now tok = Ok c;
  jwt_not_expired : ∀ key now tok c, jwt_decode key now tok = Ok c → now - LEEWAY ≤ exp c;
  jwt_claims_fixed : ∀ key now now' tok c c',
    jwt_decode key now tok = Ok c → jwt_decode key now' tok = Ok c' → c = c';
}.

(** [extract_bearer]. *)
Definition extract_bearer (auth_header : option string) : option string :=
  h ← auth_header; strip_prefix "Bearer " h.

Section Auth.
Context `{Jwt}.

(** [JwtSecret]: both keys come from the same secret. *)
Record JwtSecret : Type := mkJwtSecret {
  encoding : string;
  decoding : string;
}.

Definition jwt_secret_new (secret : string) : JwtSecret := mkJwtSecret secret secret.

Definition create_token (j : JwtSecret) (now : Z) (user : string) : result JwtErr string :=
  jwt_encode (encoding j) (mkClaims user (wrap_u64 (now + TOKEN_TTL_SECS))).

Definition verify_token (j : JwtSecret) (now : Z) (token : string) : result JwtErr Claims :=
  jwt_decode (decoding j) now token.

(** A token the server mints for a user verifies with that user as its
    subject for its lifetime of one hour and the validator's leeway, and at no
    time after that. *)
Lemma token_lifetime secret user now tok :
  0 ≤ now < 2 ^ 62 →
  create_token (jwt_secret_new secret) now user = Ok tok →
  ∀ later,
    (later ≤ now + TOKEN_TTL_SECS + LEEWAY →
     verify_token (jwt_secret_new secret) later tok = Ok (mkClaims user (now + TOKEN_TTL_SECS))) ∧
    (now + TOKEN_TTL_SECS + LEEWAY < later →
     ∃ e, verify_token (jwt_secret_new secret) later tok = Err e).
Proof.
  unfold create_token, verify_token, LEEWAY, TOKEN_TTL_SECS. simpl. intros Hnow Hc later.
  rewrite wrap_u64_small in Hc by (unfold u64_max; lia). split; intros Hl.
  - apply jwt_roundtrip; [done|]. unfold LEEWAY. simpl. lia.
  - destruct (jwt_decode secret later tok) as [c|e] eqn:E; [exfalso|by exists e].
    assert (E' : jwt_decode secret now tok = Ok (mkClaims user (now + 3600)))
      by (apply jwt_roundtrip; [done|]; unfold LEEWAY; simpl; lia).
    rewrite (jwt_claims_fixed _ _ _ _ _ _ E E') in E. apply jwt_not_expired in E.
    unfold LEEWAY in E. simpl in E. lia.
Qed.

(** The bearer token is what follows [Bearer ] in the header, and there is
    none in a header of another form. *)
Lemma extract_bearer_spec h tok :
  extract_bearer h = Some tok ↔ h = Some ("Bearer " +:+ tok).
Proof.
  unfold extract_bearer. destruct h as [h|]; cbn [mbind option_bind]; [|naive_solver].
  rewrite strip_prefix_Some. split; [by intros ->|by intros [= ->]].
Qed.

End Auth.

(** ** An implementation of the interface

    An unsigned token: the secret, the expiry and the subject, separated by
    dots.  It shows the laws can hold together; it is no signature. *)

Definition toy_encode (key : string) (c : Claims) : result string string :=
  if (0 <=? exp c) && (exp c <=? u64_max)
  then Ok (key +:+ String "." (show_uint (exp c) +:+ String "." (sub c)))
  else Err "exp".

Definition toy_decode (key : string) (now : Z) (tok : string) : result string Claims :=
  match strip_prefix (key +:+ ".") tok with
  | Some rest =>
      match split_once "." rest with
      | Some (e, s) =>
          match parse_uint u64_max e with
          | Some x => if now - LEEWAY <=? x then Ok (mkClaims s x) else Err "expired"
          | None => Err "malformed"
          end
      | None => Err "malformed"
      end
  | None => Err "signature"
  end.

Lemma no_dot_digits s : str_forall is_digit s = true → no_char "." s = true.
Proof.
  apply str_forall_impl. intros c. unfold is_digit. rewrite byte_in_spec, eqb_code.
  change (code ".") with 46. intros. apply negb_true_iff, Z.eqb_neq. lia.
Qed.

Lemma toy_roundtrip key c tok now :
  toy_encode key c = Ok tok → now - LEEWAY ≤ exp c → toy_decode key now tok = Ok c.
Proof.
  unfold toy_encode, toy_decode. destruct (Z.leb_spec 0 (exp c)); [|done].
  destruct (Z.leb_spec (exp c) u64_max); [|done]. intros [= <-] Hl.
  change (key +:+ String "." (show_uint (exp c) +:+ String "." (sub c)))
    with (key +:+ ("." +:+ (show_uint (exp c) +:+ String "." (sub c)))).
  rewrite <- append_assoc, strip_prefix_app, split_once_app, parse_show_uint
    by (done || (apply no_dot_digits, show_uint_digits; lia)).
  destruct (Z.leb_spec (now - LEEWAY) (exp c)); [by destruct c|lia].
Qed.

Lemma toy_decode_inv key now tok c :
  toy_decode key now tok = Ok c →
  now - LEEWAY ≤ exp c ∧ toy_decode key 0 tok = Ok c.
Proof.
  unfold toy_decode. destruct (strip_prefix _ _) as [rest|]; [|done].
  destruct (split_once "." rest) as [[e s]|]; [|done].
  destruct (parse_uint u64_max e) as [x|] eqn:E; [|done].
  destruct (Z.leb_spec (now - LEEWAY) x); [|done]. intros [= <-]. split; [done|].
  apply parse_uint_bound in E; [|done]. destruct (Z.leb_spec (0 - LEEWAY) x); [done|].
  unfold LEEWAY in *. lia.
Qed.

Program Definition toy_jwt : Jwt := {|
  JwtErr := string;
  jwt_encode := toy_encode;
  jwt_decode := toy_decode;
|}.
Next Obligation. exact toy_roundtrip. Qed.
Next Obligation. intros. by eapply toy_decode_inv. Qed.
Next Obligation.
  intros key now now' tok c c' [_ H1]%toy_decode_inv [_ H2]%toy_decode_inv. congruence.
Qed.

Example token_lifetime_example :
  create_token (H := toy_jwt) (jwt_secret_new "k") 100 "admin" = Ok "k.3700.admin" ∧
  verify_token (H := toy_jwt) (jwt_secret_new "k") 3760 "k.3700.admin" =
    Ok (mkClaims "admin" 3700).
Proof.
  split; [by vm_compute|].
  apply (token_lifetime (H := toy_jwt) "k" "admin" 100); [lia|by vm_compute|].
  done.
Defined.
