(* ===== verification/StaticFiles.v ===== *)
(** * Static files ([src/src/static_files/mod.rs], [src/src/static_files/mime.rs])

    Path sanitising, MIME types and [serve_file], on Unix paths as texts.  The
    calls on the file system are outside calls of [Effects]. *)
From S2P Require Import Prelude RustStr HttpTypes Request Response Router Metrics Sql Effects Database.
Local Open Scope Z_scope.

(** ** [std::path] *)

Inductive Component : Type :=
| RootDir
| CurDir
| ParentDir
| Normal (seg : string).

Definition body_component (s : string) : option Component :=
  if String.eqb s "" then None
  else if String.eqb s "." then None
  else if String.eqb s ".." then Some ParentDir
  else Some (Normal s).

(** [Path::components]: a root, or a leading [.], then the body with empty and
    [.] components dropped. *)
Definition components (p : string) : list Component :=
  (if starts_with "/" p then [RootDir]
   else if bool_decide (head (split "/" p) = Some ".") then [CurDir] else [])
  ++ omap body_component (split "/" p).

Definition ends_with_slash (s : string) : bool := starts_with "/" (str_rev s).

(** [PathBuf::push] and [Path::join]. *)
Definition path_push (buf p : string) : string :=
  if starts_with "/" p then p
  else if negb (String.eqb buf "") && negb (ends_with_slash buf) then buf +:+ "/" +:+ p
  else buf +:+ p.

(** [Path::extension]: what follows the last dot of the file name, unless that
    dot is its first character. *)
Definition extension (p : string) : option string :=
  match last (components p) with
  | Some (Normal f) =>
      match before_last "." f with
      | Some "" | None => None
      | Some b => strip_prefix (b +:+ ".") f
      end
  | _ => None
  end.

(** ** MIME types *)

(** The arms of the [match] in [from_path], one extension per row. *)
Definition mime_types : list (string * string) :=
  [("html", "text/html; charset=utf-8");
   ("htm", "text/html; charset=utf-8");
   ("css", "text/css; charset=utf-8");
   ("js", "application/javascript; charset=utf-8");
   ("mjs", "application/javascript; charset=utf-8");
   ("json", "application/json");
   ("png", "image/png");
   ("jpg", "image/jpeg");
   ("jpeg", "image/jpeg");
   ("gif", "image/gif");
   ("svg", "image/svg+xml");
   ("ico", "image/x-icon");
   ("txt", "text/plain; charset=utf-8");
   ("md", "text/plain; charset=utf-8");
   ("pdf", "application/pdf");
   ("wasm", "application/wasm");
   ("xml", "application/xml; charset=utf-8");
   ("webp", "image/webp");
   ("mp4", "video/mp4");
   ("mp3", "audio/mpeg");
   ("ogg", "audio/ogg");
   ("webm", "video/webm");
   ("ttf", "font/ttf");
   ("otf", "font/ttf");
   ("woff", "font/woff");
   ("woff2", "font/woff2");
   ("zip", "application/zip")].

Definition from_path (p : string) : string :=
  match extension p with
  | Some e =>
      match find_first (λ row, String.eqb row.1 e) mime_types with
      | Some row => row.2
      | None => "application/octet-stream"
      end
  | None => "application/octet-stream"
  end.

(** ** Serving *)

Fixpoint sanitize_loop (cs : list Component) (result : string) : option string :=
  match cs with
  | [] => Some result
  | Normal seg :: cs' => sanitize_loop cs' (path_push result seg)
  | CurDir :: cs' => sanitize_loop cs' result
  | _ => None
  end.

Definition sanitize_path (p : string) : option string := sanitize_loop (components p) "".

Section Serve.
Context `{HttpCrate, Sql}.

Definition forbidden : HttpResponse := text (line "403 Forbidden") (rb_new 403).
Definition file_not_found : HttpResponse := text (line "404 Not Found") not_found.
Definition server_error : HttpResponse := text (line "500 Internal Server Error") internal_error.

Definition io_error (e : IoError) : HttpResponse :=
  match e with NotFound => file_not_found | OtherIo => server_error end.

(** The file a target stands for. *)
Definition file_of (target : string) (is_dir : bool) : string :=
  if is_dir then path_push target "index.html" else target.

Definition serve_file (base_dir req_path : string) : Io HttpResponse :=
  match sanitize_path req_path with
  | None => mret forbidden
  | Some safe_path =>
      let target := path_push base_dir safe_path in
      metadata ← ask (Metadata target);
      match metadata with
      | Err e => mret (io_error e)
      | Ok is_dir =>
          let file_path := file_of target is_dir in
          opened ← ask (OpenFile file_path);
          match opened with
          | Err e => mret (io_error e)
          | Ok file =>
              meta ← ask (Fstat file);
              mret (match meta with
                    | Err _ => server_error
                    | Ok file_size =>
                        stream_body rb_ok (from_path file_path)
                          (StreamBody (omap ok (fh_reads file))) (Z.of_N file_size)
                    end)
          end
      end
  end.

End Serve.

(** ** Specification *)

(** A component that goes down into a directory. *)
Definition descends (s : string) : Prop := component s ∧ s ≠ "." ∧ s ≠ "..".

(** [p] is [base] followed by components that only go down. *)
Definition under (base p : string) : Prop :=
  ∃ cs, Forall descends cs ∧ path_segments p = path_segments base ++ cs.

Abbreviation saw o r := (SawOutside (mkExchange o r)).

(** What the calls for a target find, the last one first: the file there, or a
    directory's index, opened and with a length; a length that cannot be read is an
    error like any other. *)
Inductive file_log (target : string) : list Obs → result IoError (string * FileHandle * N) → Prop :=
| log_no_target e : file_log target [saw (Metadata target) (Err e)] (Err e)
| log_no_file is_dir e :
    file_log target [saw (OpenFile (file_of target is_dir)) (Err e);
                     saw (Metadata target) (Ok is_dir)] (Err e)
| log_no_length is_dir file e :
    file_log target [saw (Fstat file) (Err e); saw (OpenFile (file_of target is_dir)) (Ok file);
                     saw (Metadata target) (Ok is_dir)] (Err OtherIo)
| log_file is_dir file len :
    file_log target [saw (Fstat file) (Ok len); saw (OpenFile (file_of target is_dir)) (Ok file);
                     saw (Metadata target) (Ok is_dir)] (Ok (file_of target is_dir, file, len)).

Definition file_answer `{HttpCrate} (r : result IoError (string * FileHandle * N)) : HttpResponse :=
  match r with
  | Ok (f, file, len) =>
      mkResponse 200 (std_headers (from_path f) (Z.of_N len)) (StreamBody (omap ok (fh_reads file)))
  | Err NotFound => file_not_found
  | Err OtherIo => server_error
  end.

(** The calls on the file system that stay within a directory: on paths from it
    down, and on files opened before. *)
Definition file_call (base : string) (seen : list Obs) (o : Outside) : Prop :=
  match o with
  | Metadata p | OpenFile p => under base p
  | Fstat f => ∃ p, saw (OpenFile p) (Ok f) ∈ seen
  | _ => False
  end.

(** ** Lemmas *)

Lemma starts_with_cons c s : starts_with (String c "") s = true ↔ ∃ s', s = String c s'.
Proof.
  unfold starts_with. destruct (strip_prefix (String c "") s) as [t|] eqn:E.
  - apply strip_prefix_Some in E as ->. split; [by eexists|done].
  - split; [done|]. intros [s' ->]. simpl in E. by rewrite Ascii.eqb_refl in E.
Qed.

Lemma ends_with_slash_app s : ends_with_slash s = true → ∃ s', s = s' +:+ "/".
Proof.
  unfold ends_with_slash. rewrite starts_with_cons. intros [t Ht]. exists (str_rev t).
  rewrite <- (str_rev_involutive s), Ht. change (String "/" t) with ("/" +:+ t).
  by rewrite str_rev_app.
Qed.

Lemma path_segments_slash s : path_segments (s +:+ "/") = path_segments s.
Proof. change (s +:+ "/") with (s +:+ String "/" ""). rewrite path_segments_app. apply app_nil_r. Qed.

Lemma path_segments_push a b :
  starts_with "/" b = false → path_segments (path_push a b) = path_segments a ++ path_segments b.
Proof.
  intros Hb. unfold path_push. rewrite Hb. destruct (String.eqb_spec a "") as [->|Ha]; [done|].
  simpl. destruct (ends_with_slash a) eqn:Ea; simpl.
  - apply ends_with_slash_app in Ea as [a' ->]. rewrite path_segments_slash, append_assoc.
    apply (path_segments_app a' b).
  - apply (path_segments_app a b).
Qed.

Lemma body_component_Some s c :
  body_component s = Some c ↔ s ≠ "" ∧ s ≠ "." ∧ (s = ".." ∧ c = ParentDir ∨ s ≠ ".." ∧ c = Normal s).
Proof.
  unfold body_component.
  destruct (String.eqb_spec s ""), (String.eqb_spec s "."), (String.eqb_spec s ".."); naive_solver.
Qed.

(** What the components say of a path that is accepted or not. *)
Lemma sanitize_body l buf :
  Forall (λ s, no_char "/" s = true) l → ".." ∉ l →
  ∃ r, sanitize_loop (omap body_component l) buf = Some r ∧
       path_segments r = path_segments buf ++ filter (λ s, s ≠ "" ∧ s ≠ ".") l ∧
       (starts_with "/" buf = false → starts_with "/" r = false).
Proof.
  intros HF. revert buf. induction HF as [|s l Hs HF IH]; intros buf Hn; simpl.
  { exists buf. by rewrite app_nil_r. }
  apply not_elem_of_cons in Hn as [Hs2 Hn]. destruct (body_component s) as [c|] eqn:E.
  - apply body_component_Some in E as (H1 & H2 & [[-> _]|[H3 ->]]); [done|]. simpl.
    assert (Hns : starts_with "/" s = false).
    { destruct s as [|a s]; [done|]. unfold starts_with, no_char in *. simpl in *.
      destruct (Ascii.eqb_spec "/" a) as [<-|]; [|done]. by rewrite Ascii.eqb_refl in Hs. }
    destruct (IH (path_push buf s) Hn) as (r & Er & Hr & Hroot). exists r. split; [done|].
    rewrite filter_cons_True by done. split.
    + rewrite Hr, path_segments_push by done. rewrite <- app_assoc. f_equal.
      unfold path_segments. rewrite split_no_sep by done. by rewrite filter_cons_True.
    + intros Hb. apply Hroot. unfold path_push. rewrite Hns.
      destruct (String.eqb_spec buf "") as [->|Hne]; [done|].
      destruct buf as [|b buf]; [done|]. destruct (_ && _); unfold starts_with in *; simpl in *;
        by destruct (Ascii.eqb "/" b).
  - destruct (IH buf Hn) as (r & Er & Hr & Hroot). exists r. split; [done|]. split; [|done].
    rewrite filter_cons_False; [done|]. intros [H1 H2]. unfold body_component in E.
    destruct (String.eqb_spec s ""), (String.eqb_spec s "."), (String.eqb_spec s ".."); naive_solver.
Qed.

Lemma sanitize_body_parent l buf : ".." ∈ l → sanitize_loop (omap body_component l) buf = None.
Proof.
  revert buf. induction l as [|s l IH]; intros buf Hin; [by apply elem_of_nil in Hin|].
  apply elem_of_cons in Hin. simpl. destruct (body_component s) as [c|] eqn:E.
  - apply body_component_Some in E as (H1 & H2 & [[-> ->]|[H3 ->]]); [done|].
    simpl. apply IH. naive_solver.
  - apply IH. destruct Hin as [<-|]; [by vm_compute in E|done].
Qed.

Lemma sanitize_relative p :
  starts_with "/" p = false →
  sanitize_path p = sanitize_loop (omap body_component (split "/" p)) "".
Proof.
  intros Hp. unfold sanitize_path, components. rewrite Hp. by destruct (bool_decide _).
Qed.

Lemma sanitize_spec p s :
  sanitize_path p = Some s →
  starts_with "/" s = false ∧ Forall descends (path_segments s).
Proof.
  intros E. destruct (starts_with "/" p) eqn:Hp.
  { unfold sanitize_path, components in E. by rewrite Hp in E. }
  rewrite sanitize_relative in E by done.
  destruct (decide (".." ∈ split "/" p)) as [Hin|Hn].
  { by rewrite sanitize_body_parent in E. }
  destruct (sanitize_body (split "/" p) "" (split_pieces "/" p) Hn) as (r & Er & Hr & Hroot).
  rewrite Er in E. injection E as <-. split; [by apply Hroot|].
  pose proof (path_segments_component r) as Hc. rewrite Hr in *. simpl in *.
  rewrite Forall_forall in *. intros x Hx. split; [by apply Hc|].
  apply list_elem_of_filter in Hx as [[_ H2] Hx]. split; [done|]. by intros ->.
Qed.

Lemma target_under base p s :
  sanitize_path p = Some s →
  under base (path_push base s) ∧ under base (path_push (path_push base s) "index.html").
Proof.
  intros [Hs HF]%sanitize_spec. split.
  - exists (path_segments s). split; [done|]. by apply path_segments_push.
  - exists (path_segments s ++ ["index.html"]). split.
    + apply Forall_app. split; [done|]. by repeat constructor.
    + rewrite path_segments_push, path_segments_push by done. by rewrite <- app_assoc.
Qed.

Lemma sanitize_refuses p :
  starts_with "/" p = true ∨ ".." ∈ split "/" p → sanitize_path p = None.
Proof.
  destruct (starts_with "/" p) eqn:Hp.
  - intros _. unfold sanitize_path, components. by rewrite Hp.
  - intros [|Hin]; [done|]. rewrite sanitize_relative by done. by apply sanitize_body_parent.
Qed.

Lemma sanitize_accepts p :
  starts_with "/" p = false → ".." ∉ split "/" p →
  ∃ s, sanitize_path p = Some s ∧ starts_with "/" s = false ∧
       path_segments s = filter (λ c, c ≠ "" ∧ c ≠ ".") (split "/" p).
Proof.
  intros Hp Hn. rewrite sanitize_relative by done.
  destruct (sanitize_body (split "/" p) "" (split_pieces "/" p) Hn) as (r & Er & Hr & Hs).
  exists r. split; [done|]. split; [by apply Hs|done].
Qed.

(** Without [.] segments, what is kept of a path are its segments. *)
Lemma path_segments_no_dot p :
  "." ∉ split "/" p → filter (λ c, c ≠ "" ∧ c ≠ ".") (split "/" p) = path_segments p.
Proof.
  unfold path_segments. generalize (split "/" p) as l. intros l.
  induction l as [|c l IH]; [done|]. intros [Hc Hl]%not_elem_of_cons. rewrite !filter_cons, IH by done.
  do 2 case_decide; naive_solver.
Qed.

(** The type a path is served with is always an acceptable header value. *)
Lemma from_path_visible p : str_forall visible (from_path p) = true.
Proof.
  unfold from_path. destruct (extension p) as [e|]; [|done].
  destruct (find_first _ mime_types) as [row|] eqn:E; [|done].
  apply find_first_Some in E as (l1 & l2 & E & _).
  assert (HF : Forall (λ row, str_forall visible row.2 = true) mime_types) by (by repeat constructor).
  rewrite E in HF. by apply Forall_app in HF as [_ [Hr _]%Forall_cons].
Qed.

(** *** Each call *)

Section Always.
Context `{HttpCrate, Sql, Env} (I : list Obs → World Db → World Db → Prop).

(** The calls of a request for a file, and what its answer is made of. *)
Lemma serve_file_always base p seen (Q : _ → list Obs → Prop) :
  (∀ seen w o r, file_call base seen o → I seen w (log_exchange (mkExchange o r) w)) →
  (sanitize_path p = None → Q forbidden seen) →
  (∀ s log r, sanitize_path p = Some s → file_log (path_push base s) log r →
     Q (file_answer r) (log ++ seen)) →
  always I Q (serve_file base p) seen.
Proof.
  intros Hi Hno HQ. unfold serve_file. destruct (sanitize_path p) as [s|] eqn:E; [|by apply Hno].
  destruct (target_under base p s E) as [Ht Hd]. set (target := path_push base s) in *.
  apply always_bind, always_ask; [by intros; apply Hi|]. intros k.
  destruct (outside k (Metadata target)) as [is_dir|e].
  2: { replace (io_error e) with (file_answer (Err e)) by (by destruct e).
       exact (HQ s [_] _ eq_refl (log_no_target target e)). }
  cbv zeta. apply always_bind, always_ask; [intros; apply Hi; by destruct is_dir|]. intros k'.
  destruct (outside k' (OpenFile _)) as [file|e].
  2: { replace (io_error e) with (file_answer (Err e)) by (by destruct e).
       exact (HQ s [_; _] _ eq_refl (log_no_file target is_dir e)). }
  apply always_bind, always_ask; [intros; apply Hi; eexists; by left|]. intros k2.
  destruct (outside k2 (Fstat file)) as [len|e].
  - rewrite stream_body_ok; [|lia|apply hv_valid_visible, from_path_visible|constructor].
    exact (HQ s [_; _; _] _ eq_refl (log_file target is_dir file len)).
  - exact (HQ s [_; _; _] _ eq_refl (log_no_length target is_dir file e)).
Qed.

End Always.

(** ** Theorem *)

(** C34: what a request for a static file is answered with, for every request path
    without a [.] segment and whatever the file system replies to each of its calls:
    [403] without a call exactly when the path is absolute or has a [..] segment;
    otherwise the calls are on the path itself below the base directory (and on
    [index.html] there, for a directory), and the response is a [200] with that
    file's type, the length the open file had and every chunk read, a [404] when it
    is not there, and a [500] on any other error.  (A [.] segment is not refused as
    the documentation says: [dot_component_served].) *)
Theorem serve_file_outcomes `{HttpCrate, Sql, Env} base p :
  always (λ _ _ _, True) (λ resp seen,
    (starts_with "/" p = true ∨ ".." ∈ split "/" p → resp = forbidden ∧ seen = []) ∧
    (starts_with "/" p = false → ".." ∉ split "/" p → "." ∉ split "/" p → ∃ target r,
       path_segments target = path_segments base ++ path_segments p ∧
       file_log target seen r ∧ resp = file_answer r))
    (serve_file base p) [].
Proof.
  apply serve_file_always; [done|..].
  - intros E. split; [done|]. intros Hp Hn _.
    destruct (sanitize_accepts p Hp Hn) as (s & E' & _). congruence.
  - intros s log r E Hlog. split; [intros Hr%sanitize_refuses; congruence|]. intros Hp Hn Hd.
    destruct (sanitize_accepts p Hp Hn) as (s' & E' & Hs & Hseg).
    rewrite E in E'. injection E' as <-. exists (path_push base s), r.
    rewrite app_nil_r, path_segments_push, Hseg, path_segments_no_dot by done. done.
Qed.

(** ** Instances *)

(** A file system that does not change: a script and an empty directory. *)
Definition sample_files (o : Outside) : outside_reply o :=
  match o with
  | Metadata p =>
      if String.eqb p "./static/css" then Ok true
      else if String.eqb p "./static/a.min.js" then Ok false else Err NotFound
  | OpenFile p =>
      if String.eqb p "./static/a.min.js" then Ok (mkHandle [Ok "var "; Ok "x;"]) else Err NotFound
  | Fstat _ => Ok 6%N
  | o => no_outside o
  end.

Definition files_env : Env := {| uuid := λ _, ""; clock := λ _, 0; outside := λ _, sample_files |}.

Definition toy_file (p : string) : HttpResponse :=
  (run_io (H := mem_sql) (H0 := files_env)
    (serve_file (H := http_crate_ascii) (H0 := mem_sql) "./static" p) toy_world).1.

Example serve_file_script :
  toy_file "a.min.js" = mkResponse 200
    (std_headers "application/javascript; charset=utf-8" 6) (StreamBody ["var "; "x;"]).
Proof. by vm_compute. Qed.

Example serve_file_escape : status (toy_file "../etc/passwd") = 403 ∧ status (toy_file "css") = 404.
Proof. by vm_compute. Qed.

(** A [.] component is skipped, not refused. *)
Example dot_component_served :
  status (toy_file "./a.min.js") = 200 ∧ toy_file "././a.min.js" = toy_file "a.min.js".
Proof. by vm_compute. Qed.
