(* ===== verification/Task.v ===== *)
(** * Blocking tasks and the Fibonacci route

    [run_blocking] ([src/src/server/task.rs]) and the computation the [/fib/:n]
    route hands it ([src/src/server/connection.rs]).  A closure is its outcome, a
    value or a panic; whether the blocking pool runs it is an outside call. *)
From S2P Require Import Prelude RustStr Metrics Sql Effects.
Local Open Scope Z_scope.

(** A panic payload: a [String], a [&str] or anything else. *)
Inductive Payload : Type :=
| PayloadString (s : string)
| PayloadStr (s : string)
| PayloadOther.

(** [tokio::task::JoinError]. *)
Inductive JoinError : Type :=
| JoinCancelled
| JoinPanic (p : Payload).

Inductive TaskError : Type :=
| Panic (msg : string)
| Cancelled.

Definition join_error_to_task_error (e : JoinError) : TaskError :=
  match e with
  | JoinCancelled => Cancelled
  | JoinPanic (PayloadString s) => Panic s
  | JoinPanic (PayloadStr s) => Panic s
  | JoinPanic PayloadOther => Panic "unknown panic payload"
  end.

(** [spawn_blocking(f).await]: the closure's outcome, or a cancellation. *)
Definition joined {R} (f : result Payload R) (ran : bool) : result JoinError R :=
  if ran then map_err JoinPanic f else Err JoinCancelled.

Definition run_blocking `{Sql} {R} (f : result Payload R) : Io (result TaskError R) :=
  ran ← ask RunBlocking; mret (map_err join_error_to_task_error (joined f ran)).

(** [fib]: the loop body, [n] times. *)
Definition fib (n : Z) : Z :=
  (Nat.iter (Z.to_nat n) (λ ab, (ab.2, wrap_u64 (ab.1 + ab.2))) (0, 1)).1.

(** ** Specification *)

Fixpoint fibonacci (n : nat) : Z :=
  match n with
  | O => 0
  | S n' => match n' with O => 1 | S n'' => fibonacci n' + fibonacci n'' end
  end.

Lemma fibonacci_SS n : fibonacci (S (S n)) = fibonacci (S n) + fibonacci n.
Proof. done. Qed.

Lemma wrap_u64_add_both a b : wrap_u64 (wrap_u64 a + wrap_u64 b) = wrap_u64 (a + b).
Proof. unfold wrap_u64. by rewrite <- Z.add_mod by lia. Qed.

Lemma fib_iter n :
  Nat.iter n (λ ab, (ab.2, wrap_u64 (ab.1 + ab.2))) (0, 1) =
  (wrap_u64 (fibonacci n), wrap_u64 (fibonacci (S n))).
Proof.
  induction n as [|n IH]; [done|]. simpl Nat.iter. rewrite IH. cbn [fst snd].
  rewrite wrap_u64_add_both, fibonacci_SS. do 2 f_equal. lia.
Qed.

Lemma fibonacci_nonneg n : 0 ≤ fibonacci n ∧ 0 ≤ fibonacci (S n).
Proof. induction n as [|n [IH1 IH2]]; [done|]. split; [done|]. rewrite fibonacci_SS. lia. Qed.

(** The pair iteration, to evaluate large indices. *)
Definition fib_pair (n : nat) : Z * Z := Nat.iter n (λ ab, (ab.2, ab.1 + ab.2)) (0, 1).

Lemma fib_pair_spec n : fib_pair n = (fibonacci n, fibonacci (S n)).
Proof.
  unfold fib_pair. induction n as [|n IH]; [done|]. simpl Nat.iter. rewrite IH. cbn [fst snd].
  rewrite fibonacci_SS. f_equal. lia.
Qed.

Lemma fibonacci_pair n : fibonacci n = (fib_pair n).1.
Proof. by rewrite fib_pair_spec. Qed.

Lemma fibonacci_mono n m : (n ≤ m)%nat → fibonacci (S n) ≤ fibonacci (S m).
Proof.
  induction 1 as [|m _ IH]; [done|]. rewrite fibonacci_SS.
  destruct (fibonacci_nonneg m). lia.
Qed.

(** [fib] computes the Fibonacci numbers modulo [2^64], exactly up to index
    93, the last that fits in a [u64], as its comment says. *)
Lemma fib_correct n :
  0 ≤ n → fib n = wrap_u64 (fibonacci (Z.to_nat n)) ∧
  (n ≤ 93 → fib n = fibonacci (Z.to_nat n)) ∧ fib 94 ≠ fibonacci 94.
Proof.
  intros Hn. rewrite (fibonacci_pair 94). unfold fib at 1 2. rewrite fib_iter. cbn [fst].
  split; [done|]. split; [|by vm_compute]. intros H93. apply wrap_u64_small.
  split; [by apply fibonacci_nonneg|]. destruct (Z.to_nat n) as [|k] eqn:E; [done|].
  etrans; [apply (fibonacci_mono k 92); lia|]. rewrite (fibonacci_pair (S 92)). by vm_compute.
Qed.

Example fib_correct_example : fib 50 = fibonacci (Z.to_nat 50) ∧ fib 50 = 12586269025.
Proof. split; [apply (fib_correct 50); lia|by vm_compute]. Defined.
