(* ===== verification/Handlers.v ===== *)
(** * The application router ([src/src/server/connection.rs], [build_router])

    Every route's handler and the order they are registered in, with the
    template engine's responses ([src/src/templates/mod.rs]).  A handler is a
    program of [Effects]: its database statements, UUIDs, clock readings, counter
    loads, file system calls, upstream requests and blocking tasks are calls that
    other handlers' calls may come between.  Code of other crates that computes
    (serde_json, Tera, percent-encoding, reqwest's methods) is the interface
    [Externals]. *)
From S2P Require Import Prelude RustStr HttpTypes Request Response Router Config Metrics.
From S2P Require Import Sql Effects Database Session Auth StaticFiles Proxy Task.
Local Open Scope Z_scope.

(** ** Interfaces *)

(** The JSON values the handlers build. *)
#[warnings="-register-all"]
Inductive Json : Type :=
| JStr (s : string)
| JBool (b : bool)
| JArr (l : list Json)
| JObj (fields : list (string * Json)).

(** The values put in a template context. *)
Inductive CtxValue : Type :=
| CText (s : string)
| CNum (n : Z)
| CItems (l : list Item).

Abbreviation Context_ := (list (string * CtxValue)).

Class Externals : Type := {
  (** [serde_json::from_slice] into the two payload types, and [to_vec] *)
  login_payload : string → option (string * string);
  create_payload : string → option (string * string);
  json_to_vec : Json → result () string;
  (** [Tera::render] *)
  tera_render : string → Context_ → result string string;
  (** [percent_decode_str(..).decode_utf8_lossy()] *)
  pct_decode_lossy : string → string;
  (** [reqwest::Method::from_bytes] accepts *)
  proxy_method_ok : string → bool;
}.

Section Handlers.
Context `{HC : HttpCrate, SQ : Sql, AR : Argon2, JW : Jwt, EX : Externals}.

(** The ten loads of [Metrics::render] and of the metrics page, in order. *)
Definition read_metrics : Io Metrics :=
  a ← load_counter RequestsTotal; b ← load_counter RequestsActive;
  c ← load_counter Responses2xx; d ← load_counter Responses4xx;
  e ← load_counter Responses5xx; f ← load_counter RateLimited;
  g ← load_counter ConcurrencyLimited; h ← load_counter TimedOut;
  i ← load_counter ConnectionsAccepted; j ← load_counter ConnectionsRejectedIp;
  mret (mkMetrics a b c d e f g h i j).

(** ** Templates *)

Definition html : string := "text/html; charset=utf-8".

Definition CSP : string :=
  "default-src 'self'; style-src 'self' 'unsafe-inline'; base-uri 'self'; form-action 'self'; frame-ancestors 'none'".

Definition render_template (template_name : string) (ctx : Context_) : HttpResponse :=
  match tera_render template_name ctx with
  | Ok page =>
      text page
        (rb_header "referrer-policy" "no-referrer"
          (rb_header "x-frame-options" "DENY"
            (rb_header "x-content-type-options" "nosniff"
              (rb_header "content-security-policy" CSP
                (rb_header "content-type" html rb_ok)))))
  | Err e =>
      text ("<h1>500 Internal Server Error</h1><pre>" +:+ e +:+ "</pre>")
        (rb_header "content-type" html internal_error)
  end.

(** ** JSON bodies *)

Definition json_response (st : Z) (j : Json) : HttpResponse := json (json_to_vec j) (rb_new st).

Definition json_error (st : Z) (msg : string) : HttpResponse :=
  json_response st (JObj [("error", JStr msg)]).

Definition item_json (i : Item) : Json :=
  JObj [("id", JStr (id i)); ("name", JStr (name i)); ("description", JStr (description i))].

Definition redirect_to (loc : string) : HttpResponse :=
  empty (rb_header "location" loc (rb_new 302)).

Definition error_empty : HttpResponse := empty internal_error.

(** ** Plain routes *)

Definition h_root (_ : HttpRequest) : Io HttpResponse := mret (redirect_to "/ui/index").

Definition h_health (_ : HttpRequest) : Io HttpResponse := mret (text (line "ok") rb_ok).

Definition h_echo (req : HttpRequest) : Io HttpResponse :=
  mret (text (line (default "" (path_param req "message"))) rb_ok).

Definition h_fib (req : HttpRequest) : Io HttpResponse :=
  let n := Z.min (default 10 (path_param req "n" ≫= parse_uint u64_max)) 50 in
  result ← run_blocking (Ok (fib n));
  mret (match result with
        | Ok r => text (line (show_uint r)) rb_ok
        | Err _ => error_empty
        end).

Definition h_static (static_dir : string) (req : HttpRequest) : Io HttpResponse :=
  serve_file static_dir (default "" (path_param req "filepath")).

Definition h_metrics (_ : HttpRequest) : Io HttpResponse :=
  m ← read_metrics;
  mret (text (render m)
          (rb_header "content-type" "text/plain; version=0.0.4; charset=utf-8" rb_ok)).

(** ** JSON API *)

Definition h_auth_token (jwt : JwtSecret) (req : HttpRequest) : Io HttpResponse :=
  match login_payload (req_body req) with
  | None => mret (json_error 400 "invalid JSON body")
  | Some (user, password) =>
      v ← verify_user user password;
      match v with
      | Ok true =>
          now ← now_secs;
          mret (match create_token jwt now user with
                | Ok token => json_response 200 (JObj [("token", JStr token)])
                | Err _ => error_empty
                end)
      | Ok false => mret (json_error 401 "invalid credentials")
      | Err _ => mret error_empty
      end
  end.

Definition h_list_items (_ : HttpRequest) : Io HttpResponse :=
  r ← list_items;
  mret (match r with
        | Ok items => json_response 200 (JArr (map item_json items))
        | Err _ => error_empty
        end).

Definition h_get_item (req : HttpRequest) : Io HttpResponse :=
  r ← get_item (default "" (path_param req "id"));
  mret (match r with
        | Ok (Some item) => json_response 200 (item_json item)
        | Ok None => json_error 404 "item not found"
        | Err _ => error_empty
        end).

(** The JWT check both admin routes start with: [Some] is the refusal. *)
Definition admin_guard (jwt : JwtSecret) (req : HttpRequest) : Io (option HttpResponse) :=
  match extract_bearer (header req "authorization") with
  | None => mret (Some (json_error 401 "missing Bearer token"))
  | Some token =>
      now ← now_secs;
      mret (match verify_token jwt now token with
            | Err _ => Some (json_error 401 "invalid or expired token")
            | Ok _ => None
            end)
  end.

Definition h_admin_create (jwt : JwtSecret) (req : HttpRequest) : Io HttpResponse :=
  g ← admin_guard jwt req;
  match g with
  | Some refusal => mret refusal
  | None =>
      match create_payload (req_body req) with
      | None => mret (json_error 400 "invalid JSON body")
      | Some (nm, desc) =>
          r ← create_item nm desc;
          mret (match r with
                | Ok item => json_response 201 (item_json item)
                | Err _ => error_empty
                end)
      end
  end.

Definition h_admin_delete (jwt : JwtSecret) (req : HttpRequest) : Io HttpResponse :=
  g ← admin_guard jwt req;
  match g with
  | Some refusal => mret refusal
  | None =>
      r ← delete_item (default "" (path_param req "id"));
      mret (match r with
            | Ok true => json_response 200 (JObj [("deleted", JBool true)])
            | Ok false => json_error 404 "item not found"
            | Err _ => error_empty
            end)
  end.

(** ** HTML routes *)

Definition session_token (req : HttpRequest) : option string :=
  c ← header req "cookie"; extract_session_cookie (Some c).

(** [sessions.get(t).await.ok().flatten()] for the request's cookie. *)
Definition current_session (req : HttpRequest) : Io (option Session) :=
  match session_token req with
  | Some t => r ← session_get t; mret (ok r ≫= λ s, s)
  | None => mret None
  end.

Definition session_ctx (s : option Session) : Context_ :=
  match s with
  | Some s => [("session_user", CText (username s)); ("csrf_token", CText (csrf_token s))]
  | None => []
  end.

Definition h_ui_root (_ : HttpRequest) : Io HttpResponse := mret (redirect_to "/ui/index").

Definition h_ui_index (req : HttpRequest) : Io HttpResponse :=
  s ← current_session req; mret (render_template "index.html" (session_ctx s)).

Definition h_ui_login_page (_ : HttpRequest) : Io HttpResponse :=
  mret (render_template "login.html" []).

(** The loop over a form body: the last value of each of two fields. *)
Definition form_fields (k1 k2 bd : string) : string * string :=
  fold_left (λ acc pair,
    match split_once "=" pair with
    | Some (k, v) =>
        let decoded := pct_decode_lossy (replace "+" " " v) in
        (if String.eqb k k1 then decoded else acc.1, if String.eqb k k2 then decoded else acc.2)
    | None => acc
    end) (split "&" (from_utf8_lossy bd)) ("", "").

Definition session_cookie (token : string) (secure : bool) : string :=
  "session=" +:+ token +:+ "; HttpOnly; SameSite=Strict; Path=/; Max-Age=3600" +:+
  (if secure then "; Secure" else "").

Definition h_ui_login (secure : bool) (req : HttpRequest) : Io HttpResponse :=
  let '(user, password) := form_fields "username" "password" (req_body req) in
  v ← verify_user user password;
  match v with
  | Ok true =>
      r ← session_create user;
      mret (match r with
            | Ok token =>
                empty (rb_header "set-cookie" (session_cookie token secure)
                         (rb_header "location" "/ui/items" (rb_new 302)))
            | Err _ => error_empty
            end)
  | Ok false =>
      mret (render_template "login.html"
              [("flash", CText "Invalid username or password."); ("flash_type", CText "error")])
  | Err _ => mret error_empty
  end.

Definition csrf_failed : HttpResponse := text (line "CSRF validation failed") (rb_new 403).

Definition csrf_of (req : HttpRequest) : string := default "" (form_param req "_csrf").

Definition h_ui_logout (req : HttpRequest) : Io HttpResponse :=
  s ← current_session req;
  if match s with Some s => negb (String.eqb (csrf_token s) (csrf_of req)) | None => true end
  then mret csrf_failed
  else
    _ ← match session_token req with
        | Some t => _ ← session_remove t; mret ()
        | None => mret ()
        end;
    mret (empty (rb_header "set-cookie" "session=; Max-Age=0; Path=/"
                   (rb_header "location" "/ui/login" (rb_new 302)))).

Definition h_ui_items (req : HttpRequest) : Io HttpResponse :=
  s ← current_session req;
  r ← list_items;
  let items := default [] (ok r) in
  mret (render_template "items.html"
          (session_ctx s ++ [("items", CItems items)] ++
           match query_param req "flash" with Some msg => [("flash", CText msg)] | None => [] end)).

(** The session and CSRF checks both item forms start with. *)
Definition form_guard (req : HttpRequest) : Io (option HttpResponse) :=
  s ← current_session req;
  mret (match s with
        | None => Some (redirect_to "/ui/login")
        | Some s => if String.eqb (csrf_token s) (csrf_of req) then None else Some csrf_failed
        end).

Definition h_ui_create (req : HttpRequest) : Io HttpResponse :=
  g ← form_guard req;
  match g with
  | Some refusal => mret refusal
  | None =>
      let '(nm, desc) := form_fields "name" "description" (req_body req) in
      r ← create_item nm desc;
      match r with
      | Ok _ => mret (redirect_to "/ui/items?flash=Item+created")
      | Err _ =>
          l ← list_items;
          mret (render_template "items.html"
                  [("items", CItems (default [] (ok l))); ("flash", CText "Failed to create item.");
                   ("flash_type", CText "error")])
      end
  end.

Definition h_ui_delete (req : HttpRequest) : Io HttpResponse :=
  g ← form_guard req;
  match g with
  | Some refusal => mret refusal
  | None =>
      r ← delete_item (default "" (path_param req "id"));
      mret (match r with
            | Ok _ => redirect_to "/ui/items?flash=Item+deleted"
            | Err _ => redirect_to "/ui/items"
            end)
  end.

Definition metrics_ctx (m : Metrics) : Context_ :=
  [("requests_total", CNum (requests_total m)); ("requests_active", CNum (requests_active m));
   ("responses_2xx", CNum (responses_2xx m)); ("responses_4xx", CNum (responses_4xx m));
   ("responses_5xx", CNum (responses_5xx m)); ("rate_limited", CNum (rate_limited m));
   ("concurrency_limited", CNum (concurrency_limited m)); ("timed_out", CNum (timed_out m));
   ("connections_accepted", CNum (connections_accepted m));
   ("connections_rejected_ip", CNum (connections_rejected_ip m))].

Definition h_ui_metrics (req : HttpRequest) : Io HttpResponse :=
  s ← current_session req; m ← read_metrics;
  mret (render_template "metrics.html" (session_ctx s ++ metrics_ctx m)).

Definition h_proxy (upstream : string) (strip : option string) (req : HttpRequest)
    : Io HttpResponse :=
  proxy_request proxy_method_ok req upstream strip.

(** ** The router *)

(** [ui_cookie_secure]. *)
Definition cookie_secure (cfg : ServerConfig) : bool :=
  bool_decide (is_Some (tls_cert_path cfg) ∧ is_Some (tls_key_path cfg)).

(** [build_router]: [templates] is whether the template engine loaded, [client]
    whether the proxy client exists. *)
Definition build_router (cfg : ServerConfig) (jwt : JwtSecret) (templates client : bool)
    : list (RouteEntry (R := Io HttpResponse)) :=
  let r := router_new in
  let r := get "/" h_root r in
  let r := get "/health" h_health r in
  let r := get "/echo/:message" h_echo r in
  let r := get "/fib/:n" h_fib r in
  let r := get "/static/*filepath" (h_static (static_dir cfg)) r in
  let r := post "/auth/token" (h_auth_token jwt) r in
  let r := get "/api/items" h_list_items r in
  let r := get "/api/items/:id" h_get_item r in
  let r := post "/api/admin/items" (h_admin_create jwt) r in
  let r := delete_route "/api/admin/items/:id" (h_admin_delete jwt) r in
  let r :=
    if templates then
      let r := get "/ui" h_ui_root r in
      let r := get "/ui/index" h_ui_index r in
      let r := get "/ui/login" h_ui_login_page r in
      let r := post "/ui/login"
                 (h_ui_login (cookie_secure cfg)) r in
      let r := post "/ui/logout" h_ui_logout r in
      let r := get "/ui/items" h_ui_items r in
      let r := post "/ui/items" h_ui_create r in
      let r := post "/ui/items/:id/delete" h_ui_delete r in
      get "/ui/metrics" h_ui_metrics r
    else r in
  let r := get "/metrics" h_metrics r in
  match client, proxy_upstream cfg with
  | true, Some upstream => any "/*path" (h_proxy upstream (proxy_strip_prefix cfg)) r
  | _, _ => r
  end.

(** Serving one request. *)
Definition serve (cfg : ServerConfig) (jwt : JwtSecret) (templates client : bool)
    (req : HttpRequest) : Io HttpResponse :=
  dispatch mret (build_router cfg jwt templates client) req.

Context {EV : Env}.

(** ** Specification: what one call of a request's handler may do

    [seen] is what the handler has observed so far, in the calls of its own. *)

(** A session of the request's cookie, live when it was looked up; [saw] says what
    was observed. *)
Definition session_seen (saw : Obs → Prop) (req : HttpRequest) (s : Session) : Prop :=
  ∃ tok row now t,
    session_token req = Some tok ∧ saw (SawClock now) ∧ saw (SawTables t t) ∧
    live t tok now = Some row ∧ s = session_of row.

Definition saw_session (req : HttpRequest) (seen : list Obs) (s : Session) : Prop :=
  session_seen (.∈ seen) req s.

(** A bearer token that verified at a clock reading of the handler. *)
Definition saw_jwt (jwt : JwtSecret) (req : HttpRequest) (seen : list Obs) : Prop :=
  ∃ tok now c, extract_bearer (header req "authorization") = Some tok ∧ SawClock now ∈ seen ∧
               verify_token jwt now tok = Ok c.

(** A live session whose CSRF token the form repeats. *)
Definition saw_form (req : HttpRequest) (seen : list Obs) : Prop :=
  ∃ s, saw_session req seen s ∧ csrf_token s = csrf_of req.

(** Credentials in the form that the accounts accepted when they were read. *)
Definition saw_login (req : HttpRequest) (seen : list Obs) (user : string) : Prop :=
  ∃ password t, form_fields "username" "password" (req_body req) = (user, password) ∧
                SawTables t t ∈ seen ∧ accepts t user password = true.

(** One row more, or one less. *)
Definition one_item (m m' : gmap string ItemRow) : Prop :=
  ∃ i, (∃ row, m !! i = None ∧ m' = <[i := row]> m) ∨ m' = delete i m.

(** The session of the request's own cookie removed or extended, or, as the third
    call after its token was drawn, a new one for the account that logged in. *)
Definition one_session (req : HttpRequest) (seen : list Obs)
    (m m' : gmap string SessionRow) : Prop :=
  (∃ tok, session_token req = Some tok ∧ (m' = delete tok m ∨ ∃ e, m' = alter (touch e) tok m)) ∨
  (∃ n k now seen' row, seen = SawClock now :: SawUuid k :: SawUuid n :: seen' ∧
     m !! uuid n = None ∧ m' = <[uuid n := row]> m ∧ saw_login req seen (sr_username row)).

(** What it may ask of the outside: for files of the static directory, for the
    configured upstream's answer to the request itself, for a blocking task. *)
Definition outside_call (cfg : ServerConfig) (client : bool) (req : HttpRequest) (seen : list Obs)
    (o : Outside) : Prop :=
  file_call (static_dir cfg) seen o ∨
  (∃ upstream, client = true ∧ proxy_upstream cfg = Some upstream ∧
     proxy_call req upstream (proxy_strip_prefix cfg) seen o) ∨
  o = RunBlocking.

Record safe_call (cfg : ServerConfig) (client : bool) (jwt : JwtSecret) (req : HttpRequest)
    (seen : list Obs) (w w' : World Db) : Prop := {
  safe_users : t_users (w_tables w') = t_users (w_tables w);
  safe_items : t_items (w_tables w') = t_items (w_tables w) ∨
    one_item (t_items (w_tables w)) (t_items (w_tables w')) ∧
    (saw_jwt jwt req seen ∨ saw_form req seen);
  safe_sessions : t_sessions (w_tables w') = t_sessions (w_tables w) ∨
    one_session req seen (t_sessions (w_tables w)) (t_sessions (w_tables w'));
  safe_outside : w_outside w' = w_outside w ∨
    ∃ o r, w_outside w' = mkExchange o r :: w_outside w ∧ outside_call cfg client req seen o;
}.

(** Every call of a handler is safe, wherever other requests' calls come between. *)
Definition safe_handler (cfg : ServerConfig) (client : bool) (jwt : JwtSecret)
    (h : HttpRequest → Io HttpResponse) : Prop :=
  ∀ req seen, always (safe_call cfg client jwt req) (λ _ _, True) (h req) seen.

(** ** Lemmas *)

Section Calls.
Context (cfg : ServerConfig) (client : bool) (jwt : JwtSecret) (req : HttpRequest).
Abbreviation safe := (always (safe_call cfg client jwt req)).

Lemma safe_quiet seen w w' : quiet w w' → safe_call cfg client jwt req seen w w'.
Proof. intros [E Eo]. split; rewrite ?E; auto. Qed.

Lemma safe_ask seen w o r :
  outside_call cfg client req seen o →
  safe_call cfg client jwt req seen w (log_exchange (mkExchange o r) w).
Proof. intros Ho. split; [by auto..|]. right. by exists o, r. Qed.

Lemma safe_own_session tok seen w w' e :
  session_token req = Some tok → w_outside w' = w_outside w →
  w_tables w' = with_sessions (delete tok) (w_tables w) ∨
  w_tables w' = with_sessions (alter (touch e) tok) (w_tables w) →
  safe_call cfg client jwt req seen w w'.
Proof.
  intros Ht Ho [E|E]; split; rewrite ?E; simpl; auto; right; left; exists tok; eauto.
Qed.

Lemma safe_one_item f seen w w' :
  saw_jwt jwt req seen ∨ saw_form req seen → w_outside w' = w_outside w →
  w_tables w' = with_items f (w_tables w) → one_item (t_items (w_tables w)) (f (t_items (w_tables w))) →
  safe_call cfg client jwt req seen w w'.
Proof. intros Hev Ho E Hone. split; rewrite ?E; simpl; auto. Qed.

Hint Resolve safe_quiet : server.

Lemma saw_session_mono seen seen' s :
  seen ⊆ seen' → saw_session req seen s → saw_session req seen' s.
Proof. intros Hs (tok & row & now & t & ? & ? & ? & ? & ?). exists tok, row, now, t. auto. Qed.

Lemma saw_mono seen seen' :
  seen ⊆ seen' → saw_jwt jwt req seen ∨ saw_form req seen →
  saw_jwt jwt req seen' ∨ saw_form req seen'.
Proof.
  intros Hs [(tok & now & c & ? & ? & ?)|(s & ? & ?)]; [left|right].
  - exists tok, now, c. auto.
  - exists s. split; [by eapply saw_session_mono|done].
Qed.

(** The session of the request, with what its lookup saw. *)
Lemma current_session_safe seen (Q : option Session → list Obs → Prop) :
  (∀ o seen', seen ⊆ seen' → (∀ s, o = Some s → saw_session req seen' s) → Q o seen') →
  safe Q (current_session req) seen.
Proof.
  intros HQ. unfold current_session. destruct (session_token req) as [tok|] eqn:Et.
  2: { apply HQ; [done|]. by intros s. }
  apply always_bind, session_get_always; [by auto with server|..].
  - intros seen' w w' e. by apply safe_own_session.
  - intros t t1 t2 now _. apply HQ; [set_solver|]. intros s Hs. simpl in Hs.
    destruct (live t tok now) as [row|] eqn:El; simplify_eq/=.
    exists tok, row, now, t. repeat split; set_solver.
  - intros t now e. apply HQ; [set_solver|]. by intros s.
  - intros now e. apply HQ; [set_solver|]. by intros s.
Qed.

Lemma form_guard_safe seen (Q : option HttpResponse → list Obs → Prop) :
  (∀ o seen', seen ⊆ seen' → (o = None → saw_form req seen') → Q o seen') →
  safe Q (form_guard req) seen.
Proof.
  intros HQ. apply always_bind, current_session_safe. intros o seen' Hs Ho. apply HQ; [done|].
  destruct o as [s|]; [|done]. destruct (String.eqb_spec (csrf_token s) (csrf_of req)); [|done].
  intros _. exists s. auto.
Qed.

Lemma admin_guard_safe seen (Q : option HttpResponse → list Obs → Prop) :
  (∀ o seen', seen ⊆ seen' → (o = None → saw_jwt jwt req seen') → Q o seen') →
  safe Q (admin_guard jwt req) seen.
Proof.
  intros HQ. unfold admin_guard.
  destruct (extract_bearer (header req "authorization")) as [tok|] eqn:Et; [|by apply HQ].
  apply always_bind, always_clock; [by auto with server|]. intros now. apply HQ; [set_solver|].
  destruct (verify_token jwt now tok) as [c|e] eqn:Ev; [|done].
  intros _. exists tok, now, c. repeat split; [done| |done]. set_solver.
Qed.

(** The two changes of items, once the request has been authorised. *)
Lemma create_item_safe nm desc seen (Q : _ → list Obs → Prop) :
  saw_jwt jwt req seen ∨ saw_form req seen → (∀ r seen', seen ⊆ seen' → Q r seen') →
  safe Q (create_item nm desc) seen.
Proof.
  intros Hev HQ. apply create_item_always; [by auto with server|..].
  - intros w w' n at_ Hn Ho E. apply (safe_one_item <[uuid n := mkItemRow nm desc at_]>); [|done..|].
    + eapply saw_mono; [|exact Hev]. set_solver.
    + exists (uuid n). left. by eexists.
  - intros t n at_ _. apply HQ. set_solver.
  - intros n e. apply HQ. set_solver.
Qed.

Lemma delete_item_safe i seen (Q : _ → list Obs → Prop) :
  saw_jwt jwt req seen ∨ saw_form req seen → (∀ r seen', seen ⊆ seen' → Q r seen') →
  safe Q (delete_item i) seen.
Proof.
  intros Hev HQ. apply delete_item_always; [by auto with server|..].
  - intros w w' Ho E. apply (safe_one_item (delete i)); [done..|]. exists i. by right.
  - intros t. apply HQ. set_solver.
  - intros e. apply HQ. set_solver.
Qed.

Lemma list_items_safe seen (Q : _ → list Obs → Prop) :
  (∀ r seen', Q r seen') → safe Q list_items seen.
Proof. intros HQ. apply list_items_always; auto with server. Qed.

Lemma read_metrics_safe seen (Q : _ → list Obs → Prop) :
  (∀ m seen', Q m seen') → safe Q read_metrics seen.
Proof.
  intros HQ. unfold read_metrics.
  do 10 (apply always_bind, always_load; [by auto with server|]; intros ?). apply HQ.
Qed.

Lemma run_blocking_safe {R} (f : result Payload R) seen (Q : _ → list Obs → Prop) :
  (∀ r seen', Q r seen') → safe Q (run_blocking f) seen.
Proof.
  intros HQ. apply always_bind, always_ask; [|intros n; apply HQ].
  intros w r. apply safe_ask. by right; right.
Qed.

Lemma serve_file_safe p seen (Q : _ → list Obs → Prop) :
  (∀ r seen', Q r seen') → safe Q (serve_file (static_dir cfg) p) seen.
Proof.
  intros HQ. apply serve_file_always; auto. intros seen' w o r Ho. apply safe_ask. by left.
Qed.

Lemma proxy_request_safe upstream seen (Q : _ → list Obs → Prop) :
  client = true → proxy_upstream cfg = Some upstream → (∀ r seen', Q r seen') →
  safe Q (proxy_request proxy_method_ok req upstream (proxy_strip_prefix cfg)) seen.
Proof.
  intros Hc Hu HQ. apply proxy_request_always; auto. intros seen' w o r Ho. apply safe_ask.
  right. left. by exists upstream.
Qed.

End Calls.

(** Runs through the calls of a handler that has nothing to prove about what it
    learned. *)
Ltac safe_calls :=
  repeat first
    [ exact Logic.I
    | progress cbn [always mret IoTree_ret]
    | match goal with |- always _ _ (mbind _ _) _ => apply always_bind end
    | apply always_clock; [by apply safe_quiet|]; intros ?
    | apply current_session_safe; intros ? ? _ _
    | apply list_items_safe; intros ? ?
    | apply read_metrics_safe; intros ? ?
    | apply run_blocking_safe; intros ? ?
    | apply serve_file_safe; intros ? ?
    | apply get_item_always; [by apply safe_quiet|intros ?|intros ?]
    | apply verify_user_always; [by apply safe_quiet|intros ? ? _|intros ?]
    | case_match ].

Lemma h_admin_create_safe cfg client jwt : safe_handler cfg client jwt (h_admin_create jwt).
Proof.
  intros req seen. apply always_bind, admin_guard_safe. intros [refusal|] seen' _ Hev; [done|].
  destruct (create_payload (req_body req)) as [[nm desc]|]; [|done].
  apply always_bind, create_item_safe; [auto|done].
Qed.

Lemma h_admin_delete_safe cfg client jwt : safe_handler cfg client jwt (h_admin_delete jwt).
Proof.
  intros req seen. apply always_bind, admin_guard_safe. intros [refusal|] seen' _ Hev; [done|].
  apply always_bind, delete_item_safe; [auto|done].
Qed.

Lemma h_ui_create_safe cfg client jwt : safe_handler cfg client jwt h_ui_create.
Proof.
  intros req seen. apply always_bind, form_guard_safe. intros [refusal|] seen' _ Hev; [done|].
  destruct (form_fields "name" "description" (req_body req)) as [nm desc].
  apply always_bind, create_item_safe; [auto|]. intros r seen2 _. safe_calls.
Qed.

Lemma h_ui_delete_safe cfg client jwt : safe_handler cfg client jwt h_ui_delete.
Proof.
  intros req seen. apply always_bind, form_guard_safe. intros [refusal|] seen' _ Hev; [done|].
  apply always_bind, delete_item_safe; [auto|done].
Qed.

Lemma h_ui_login_safe cfg client jwt secure : safe_handler cfg client jwt (h_ui_login secure).
Proof.
  intros req seen. unfold h_ui_login.
  destruct (form_fields "username" "password" (req_body req)) as [user password] eqn:Ef.
  apply always_bind, verify_user_always; [by apply safe_quiet| |done].
  intros t b Hb. destruct b; [|done].
  apply always_bind, session_create_always; [by apply safe_quiet| |done|done].
  intros w w' n k now row Hu Hn Ho E. split; rewrite ?E; simpl; auto. right. right.
  eexists n, k, now, _, row. do 3 (split; [done|]). rewrite Hu. exists password, t.
  split; [done|]. split; [set_solver|done].
Qed.

Lemma h_ui_logout_safe cfg client jwt : safe_handler cfg client jwt h_ui_logout.
Proof.
  intros req seen. apply always_bind, current_session_safe. intros o seen' _ _.
  case_match; [done|]. apply always_bind. destruct (session_token req) as [tok|] eqn:Et; [|done].
  apply always_bind, session_remove_always; [by apply safe_quiet| |done|done].
  intros seen2 w w' Ho E. apply (safe_own_session _ _ _ _ tok _ _ _ 0); auto.
Qed.

Lemma h_auth_token_safe cfg client jwt : safe_handler cfg client jwt (h_auth_token jwt).
Proof. intros req seen. unfold h_auth_token. safe_calls. Qed.

Hint Resolve h_admin_create_safe h_admin_delete_safe h_ui_create_safe h_ui_delete_safe
  h_ui_login_safe h_ui_logout_safe h_auth_token_safe : server.

Lemma h_proxy_safe cfg client jwt upstream :
  client = true → proxy_upstream cfg = Some upstream →
  safe_handler cfg client jwt (h_proxy upstream (proxy_strip_prefix cfg)).
Proof. intros Hc Hu req seen. by apply proxy_request_safe. Qed.

Lemma safe_routes cfg jwt templates client :
  Forall (λ rt, safe_handler cfg client jwt (rt_handler rt)) (build_router cfg jwt templates client).
Proof.
  assert (Hsnoc : ∀ l m p h, Forall (λ rt, safe_handler cfg client jwt (rt_handler rt)) l →
    safe_handler cfg client jwt h →
    Forall (λ rt, safe_handler cfg client jwt (rt_handler rt)) (add m p h l)).
  { intros l m p h Hl Hh. apply Forall_app. split; [done|]. by apply Forall_singleton. }
  unfold build_router, get, post, delete_route, any. cbv zeta.
  destruct client, (proxy_upstream cfg) eqn:Eup, templates; repeat (apply Hsnoc);
    try apply Forall_nil_2; auto using h_proxy_safe with server.
  all: intros req seen; unfold h_root, h_health, h_echo, h_fib, h_static, h_metrics, h_list_items,
    h_get_item, h_ui_root, h_ui_index, h_ui_login_page, h_ui_items, h_ui_metrics; safe_calls.
Qed.

(** [dispatch] runs one of the routes' handlers or answers by itself. *)
Lemma dispatch_cases (routes : list (RouteEntry (R := Io HttpResponse))) req :
  (∃ rt params, rt ∈ routes ∧ dispatch mret routes req = rt_handler rt (with_params req params)) ∨
  ∃ resp, dispatch mret routes req = mret resp.
Proof.
  unfold dispatch. generalize false. induction routes as [|rt routes IH]; intros b; simpl.
  { right. destruct b; by eexists. }
  destruct (match_path (rt_segments rt) (path req)) as [params|].
  - destruct (Router.method_ok rt (req_method req)).
    + left. exists rt, params. split; [by left|done].
    + destruct (IH true) as [(rt' & p & Hin & E)|?]; [|by right].
      left. exists rt', p. split; [by right|done].
  - destruct (IH b) as [(rt' & p & Hin & E)|?]; [|by right].
    left. exists rt', p. split; [by right|done].
Qed.

(** Serving a request is safe, call by call. *)
Lemma serve_safe cfg jwt templates client req :
  always (safe_call cfg client jwt req) (λ _ _, True) (serve cfg jwt templates client req) [].
Proof.
  unfold serve. destruct (dispatch_cases (build_router cfg jwt templates client) req)
    as [(rt & params & Hin & ->)|(resp & ->)]; [|done].
  pose proof (safe_routes cfg jwt templates client) as HF. rewrite Forall_forall in HF.
  eapply always_weaken; [|apply (HF rt Hin (with_params req params))].
  intros seen w w' []. by split.
Qed.

(** *** How many calls a handler makes *)

Lemma at_most_ret {A} n (a : A) : at_most n (mret a : Io A).
Proof. done. Qed.

Lemma ask_calls o : at_most 1 (ask o).
Proof. apply (at_most_call 0). Qed.

Lemma run_blocking_calls {R} (f : result Payload R) : at_most 1 (run_blocking f).
Proof. apply (at_most_bind 1 0); [apply ask_calls|done]. Qed.

Lemma session_get_calls tok : at_most 3 (session_get tok).
Proof.
  apply (at_most_bind 1 2); [done|]. intros now.
  apply (at_most_try 1 1); [by apply (at_most_try 1 0)|].
  intros [s|]; by apply (at_most_try 1 0).
Qed.

Lemma current_session_calls req : at_most 3 (current_session req).
Proof.
  unfold current_session. destruct (session_token req) as [tok|]; [|done].
  apply (at_most_bind 3 0); [apply session_get_calls|done].
Qed.

Lemma verify_user_calls u p : at_most 1 (verify_user u p).
Proof. apply (at_most_try 1 0); [by apply (at_most_try 1 0)|done]. Qed.

Lemma list_items_calls : at_most 1 list_items.
Proof. by apply (at_most_try 1 0). Qed.

Lemma get_item_calls i : at_most 1 (get_item i).
Proof. by apply (at_most_try 1 0). Qed.

Lemma create_item_calls nm desc : at_most 2 (create_item nm desc).
Proof. apply (at_most_bind 1 1); [done|]. intros i. by apply (at_most_try 1 0). Qed.

Lemma delete_item_calls i : at_most 1 (delete_item i).
Proof. by apply (at_most_try 1 0). Qed.

Lemma session_create_calls u : at_most 4 (session_create u).
Proof. do 3 (apply (at_most_bind 1); [done|]; intros ?). by apply (at_most_try 1 0). Qed.

Lemma session_remove_calls tok : at_most 1 (session_remove tok).
Proof. by apply (at_most_try 1 0). Qed.

Lemma read_metrics_calls : at_most 10 read_metrics.
Proof. unfold read_metrics. do 10 (apply (at_most_bind 1); [done|]; intros ?). done. Qed.

Lemma form_guard_calls req : at_most 3 (form_guard req).
Proof. apply (at_most_bind 3 0); [apply current_session_calls|done]. Qed.

Lemma admin_guard_calls jwt req : at_most 1 (admin_guard jwt req).
Proof. unfold admin_guard. case_match; [|done]. by apply (at_most_bind 1 0). Qed.

(** The bound of an operation. *)
Ltac operation_bound :=
  lazymatch goal with
  | |- at_most _ now_secs => apply (at_most_call 0 CallClock)
  | |- at_most _ (ask ?o) => exact (ask_calls o)
  | |- at_most _ (run_blocking _) => apply run_blocking_calls
  | |- at_most _ (session_get _) => apply session_get_calls
  | |- at_most _ (current_session _) => apply current_session_calls
  | |- at_most _ (verify_user _ _) => apply verify_user_calls
  | |- at_most _ list_items => apply list_items_calls
  | |- at_most _ (get_item _) => apply get_item_calls
  | |- at_most _ (create_item _ _) => apply create_item_calls
  | |- at_most _ (delete_item _) => apply delete_item_calls
  | |- at_most _ (session_create _) => apply session_create_calls
  | |- at_most _ (session_remove _) => apply session_remove_calls
  | |- at_most _ read_metrics => apply read_metrics_calls
  | |- at_most _ (form_guard _) => apply form_guard_calls
  | |- at_most _ (admin_guard _ _) => apply admin_guard_calls
  | |- at_most ?n (mret ?a) => first [is_evar n; exact (at_most_ret 0 a) | exact (at_most_ret n a)]
  | |- at_most _ (mbind _ _) => eapply at_most_bind; [operation_bound|intros ?; cbv beta; operation_bound]
  | |- at_most _ (match ?o with _ => _ end) => destruct o; operation_bound
  end.

(** Spends a handler's budget on the operations it awaits in turn. *)
Ltac count_calls :=
  lazymatch goal with
  | |- at_most _ (mret _) => apply at_most_ret
  | |- at_most _ (if ?o then _ else _) => destruct o; count_calls
  | |- at_most _ (match ?o with _ => _ end) => destruct o; count_calls
  | |- at_most _ (mbind _ _) =>
      eapply at_most_then; [operation_bound|lia|]; intros ?; cbn [Nat.sub]; cbv zeta beta; count_calls
  end.

Definition short_handler (h : HttpRequest → Io HttpResponse) : Prop :=
  ∀ req, at_most 13 (h req).

Lemma handlers_calls cfg jwt templates client :
  Forall (λ rt, short_handler (rt_handler rt)) (build_router cfg jwt templates client).
Proof.
  assert (Hsnoc : ∀ l m p h, Forall (λ rt, short_handler (rt_handler rt)) l →
    short_handler h → Forall (λ rt, short_handler (rt_handler rt)) (add m p h l)).
  { intros l m p h Hl Hh. apply Forall_app. split; [done|]. by apply Forall_singleton. }
  unfold build_router, get, post, delete_route, any. cbv zeta.
  destruct client, (proxy_upstream cfg), templates; repeat (apply Hsnoc); try apply Forall_nil_2.
  all: intros req; unfold h_root, h_health, h_echo, h_fib, h_static, h_metrics, h_list_items,
    h_get_item, h_ui_root, h_ui_index, h_ui_login_page, h_ui_items, h_ui_metrics, h_proxy,
    h_auth_token, h_admin_create, h_admin_delete, h_ui_login, h_ui_logout, h_ui_create, h_ui_delete,
    serve_file, proxy_request.
  all: cbv zeta beta; count_calls.
Qed.

(** *** Where some requests go *)

(** The router's table, as far as the routes that are always there and the pages. *)
Definition api_routes (cfg : ServerConfig) (jwt : JwtSecret) : list (RouteEntry (R := Io HttpResponse)) :=
  [mkRoute "GET" (parse_pattern "/") h_root; mkRoute "GET" (parse_pattern "/health") h_health;
   mkRoute "GET" (parse_pattern "/echo/:message") h_echo;
   mkRoute "GET" (parse_pattern "/fib/:n") h_fib;
   mkRoute "GET" (parse_pattern "/static/*filepath") (h_static (static_dir cfg));
   mkRoute "POST" (parse_pattern "/auth/token") (h_auth_token jwt);
   mkRoute "GET" (parse_pattern "/api/items") h_list_items;
   mkRoute "GET" (parse_pattern "/api/items/:id") h_get_item;
   mkRoute "POST" (parse_pattern "/api/admin/items") (h_admin_create jwt);
   mkRoute "DELETE" (parse_pattern "/api/admin/items/:id") (h_admin_delete jwt)].

Definition ui_routes (cfg : ServerConfig) : list (RouteEntry (R := Io HttpResponse)) :=
  [mkRoute "GET" (parse_pattern "/ui") h_ui_root; mkRoute "GET" (parse_pattern "/ui/index") h_ui_index;
   mkRoute "GET" (parse_pattern "/ui/login") h_ui_login_page;
   mkRoute "POST" (parse_pattern "/ui/login") (h_ui_login (cookie_secure cfg));
   mkRoute "POST" (parse_pattern "/ui/logout") h_ui_logout;
   mkRoute "GET" (parse_pattern "/ui/items") h_ui_items;
   mkRoute "POST" (parse_pattern "/ui/items") h_ui_create;
   mkRoute "POST" (parse_pattern "/ui/items/:id/delete") h_ui_delete].

Lemma router_table cfg jwt templates client :
  ∃ rest, build_router cfg jwt templates client =
    api_routes cfg jwt ++ (if templates then ui_routes cfg else []) ++ rest.
Proof.
  unfold build_router, get, post, delete_route, any, add, router_new, api_routes, ui_routes. cbv zeta.
  destruct templates, client, (proxy_upstream cfg); cbn [app]; by eexists.
Qed.

(** Finds the [n]th route for a request whose method and path components are
    given, with what it captures. *)
Ltac find_route cfg jwt templates client n captured Hm Hp :=
  let rest := fresh "rest" in
  destruct (router_table cfg jwt templates client) as [rest ->];
  etrans;
  [ eapply dispatch_nth with (k := n) (params := captured);
    [ unfold api_routes, ui_routes; cbn [app lookup list_lookup]; reflexivity
    | unfold api_routes, ui_routes; cbn [app take];
      repeat (apply Forall_cons; split); [..|apply Forall_nil_2];
      unfold route_accepts, route_matches, Router.method_ok, match_path; cbn [rt_segments rt_method];
      rewrite Hp, ?Hm; by vm_compute
    | unfold match_path; cbn [rt_segments]; rewrite Hp; by vm_compute
    | unfold Router.method_ok; cbn [rt_method]; by rewrite Hm ]
  | reflexivity ].

Lemma auth_token_route cfg jwt templates client req :
  req_method req = "POST" → path_segments (path req) = ["auth"; "token"] →
  serve cfg jwt templates client req = h_auth_token jwt (with_params req ∅).
Proof. intros Hm Hp. unfold serve. find_route cfg jwt templates client 5%nat (∅ : gmap string string) Hm Hp. Qed.

Lemma ui_logout_route cfg jwt client req :
  req_method req = "POST" → path_segments (path req) = ["ui"; "logout"] →
  serve cfg jwt true client req = h_ui_logout (with_params req ∅).
Proof. intros Hm Hp. unfold serve. find_route cfg jwt true client 14%nat (∅ : gmap string string) Hm Hp. Qed.

Lemma list_items_route cfg jwt templates client req :
  req_method req = "GET" → path_segments (path req) = ["api"; "items"] →
  serve cfg jwt templates client req = h_list_items (with_params req ∅).
Proof. intros Hm Hp. unfold serve. find_route cfg jwt templates client 6%nat (∅ : gmap string string) Hm Hp. Qed.

Lemma get_item_route cfg jwt templates client req i :
  req_method req = "GET" → path_segments (path req) = ["api"; "items"; i] →
  serve cfg jwt templates client req = h_get_item (with_params req {["id" := i]}).
Proof.
  intros Hm Hp. unfold serve.
  find_route cfg jwt templates client 7%nat ({["id" := i]} : gmap string string) Hm Hp.
Qed.

Lemma admin_create_route cfg jwt templates client req :
  req_method req = "POST" → path_segments (path req) = ["api"; "admin"; "items"] →
  serve cfg jwt templates client req = h_admin_create jwt (with_params req ∅).
Proof. intros Hm Hp. unfold serve. find_route cfg jwt templates client 8%nat (∅ : gmap string string) Hm Hp. Qed.

Lemma admin_delete_route cfg jwt templates client req i :
  req_method req = "DELETE" → path_segments (path req) = ["api"; "admin"; "items"; i] →
  serve cfg jwt templates client req = h_admin_delete jwt (with_params req {["id" := i]}).
Proof.
  intros Hm Hp. unfold serve.
  find_route cfg jwt templates client 9%nat ({["id" := i]} : gmap string string) Hm Hp.
Qed.

Lemma ui_login_route cfg jwt client req :
  req_method req = "POST" → path_segments (path req) = ["ui"; "login"] →
  serve cfg jwt true client req = h_ui_login (cookie_secure cfg) (with_params req ∅).
Proof. intros Hm Hp. unfold serve. find_route cfg jwt true client 13%nat (∅ : gmap string string) Hm Hp. Qed.

Lemma ui_create_route cfg jwt client req :
  req_method req = "POST" → path_segments (path req) = ["ui"; "items"] →
  serve cfg jwt true client req = h_ui_create (with_params req ∅).
Proof. intros Hm Hp. unfold serve. find_route cfg jwt true client 16%nat (∅ : gmap string string) Hm Hp. Qed.

Lemma ui_delete_route cfg jwt client req i :
  req_method req = "POST" → path_segments (path req) = ["ui"; "items"; i; "delete"] →
  serve cfg jwt true client req = h_ui_delete (with_params req {["id" := i]}).
Proof.
  intros Hm Hp. unfold serve.
  find_route cfg jwt true client 17%nat ({["id" := i]} : gmap string string) Hm Hp.
Qed.

(** A bearer token that verifies at the next clock reading. *)
Definition has_valid_jwt (jwt : JwtSecret) (req : HttpRequest) (w : World Db) : Prop :=
  ∃ tok c, extract_bearer (header req "authorization") = Some tok ∧
           verify_token jwt (clock (w_clocks w)) tok = Ok c.

(** ** Theorems *)

(** Every handler ends: whatever the request and whatever the database, the
    clock and the counters reply, its program makes at most thirteen calls before
    it answers. *)
Lemma serve_terminates cfg jwt templates client req :
  at_most 13 (serve cfg jwt templates client req).
Proof.
  unfold serve. destruct (dispatch_cases (build_router cfg jwt templates client) req)
    as [(rt & params & Hin & ->)|(resp & ->)]; [|done].
  pose proof (handlers_calls cfg jwt templates client) as HF. rewrite Forall_forall in HF.
  by apply HF.
Qed.

(** Creating an item through the API: [POST /api/admin/items] without a
    bearer token or with one that does not verify answers 401 and leaves the
    database alone; with one that verifies and a well-formed payload it either
    answers 201 with the new item, which is then in the table under the fresh
    identifier with the given name and description, or 500 with the tables
    unchanged. *)
Lemma admin_create_outcomes cfg jwt templates client req w :
  req_method req = "POST" → path_segments (path req) = ["api"; "admin"; "items"] →
  let out := run_io (serve cfg jwt templates client req) w in
  (¬ has_valid_jwt jwt req w →
     (out.1 = json_error 401 "missing Bearer token" ∨
      out.1 = json_error 401 "invalid or expired token") ∧ w_db out.2 = w_db w) ∧
  (has_valid_jwt jwt req w → ∀ nm desc, create_payload (req_body req) = Some (nm, desc) →
     let i := uuid (w_uuids w) in
     (out.1 = json_response 201 (item_json (mkItem i nm desc)) ∧
      ∃ at_, w_tables out.2 = with_items <[i := mkItemRow nm desc at_]> (w_tables w)) ∨
     (out.1 = error_empty ∧ w_tables out.2 = w_tables w)).
Proof.
  intros Hm Hp out.
  assert (E : out = run_io (h_admin_create jwt (with_params req ∅)) w)
    by (unfold out; by rewrite admin_create_route).
  assert (Eg : admin_guard jwt (with_params req ∅) = admin_guard jwt req) by done.
  rewrite E. clear E out. unfold h_admin_create. rewrite run_bind, Eg.
  unfold has_valid_jwt, admin_guard. split.
  - intros Hno. destruct (extract_bearer _) as [tok|]; [|split; [by left|done]].
    rewrite run_bind. cbn [now_secs call run_io perform fst snd mret IoTree_ret].
    destruct (verify_token jwt _ tok) as [c|e] eqn:Ev; [|split; [by right|done]].
    exfalso. apply Hno. by exists tok, c.
  - intros (tok & c & Et & Ev) nm desc Hpl. rewrite Et, run_bind.
    cbn [now_secs call run_io perform fst snd mret IoTree_ret]. rewrite Ev.
    set (w1 := mkWorld (w_db w) (w_uuids w) _ _ _).
    change (req_body (with_params req ∅)) with (req_body req). rewrite Hpl, run_bind.
    destruct (create_item_spec nm desc w1) as [(at_ & w2 & E & _ & Ht)|(e & w2 & E & Ht)]; rewrite E.
    + left. split; [done|]. by exists at_.
    + by right.
Qed.

(** Logging in through the page: [POST /ui/login] with credentials the accounts
    do not accept changes no table and shows the login page again (or answers 500
    when the database fails); with accepted ones it answers 302 with the session
    cookie of a fresh token, marked [Secure] exactly when the server has a
    certificate and key, and the store holds that session, for that account, with a
    CSRF token of its own, for an hour (or 500, with the tables unchanged). *)
Lemma login_outcomes cfg jwt client req w user password :
  req_method req = "POST" → path_segments (path req) = ["ui"; "login"] →
  form_fields "username" "password" (req_body req) = (user, password) →
  let out := run_io (serve cfg jwt true client req) w in
  let token := uuid (w_uuids w) in
  (out.1 = error_empty ∧ w_tables out.2 = w_tables w) ∨
  if accepts (w_tables w) user password
  then
    out.1 = empty (rb_header "set-cookie" (session_cookie token (cookie_secure cfg))
                     (rb_header "location" "/ui/items" (rb_new 302))) ∧
    w_tables out.2 = with_sessions
      <[token := mkSessionRow user (uuid (S (w_uuids w)))
                   (wrap_i64 (clock (w_clocks w) + SESSION_TTL_SECS))]> (w_tables w)
  else
    out.1 = render_template "login.html"
      [("flash", CText "Invalid username or password."); ("flash_type", CText "error")] ∧
    w_tables out.2 = w_tables w.
Proof.
  intros Hm Hp Hf out token. unfold out. rewrite ui_login_route by done. unfold h_ui_login.
  change (req_body (with_params req ∅)) with (req_body req). rewrite Hf, run_bind.
  destruct (verify_user_spec user password w) as [(d & -> & Ht)|(e & d & -> & Ht)];
    cbn [fst snd]; [|by left].
  destruct (accepts (w_tables w) user password); [|by right]. rewrite run_bind.
  change token with (uuid (w_uuids (set_db d w))).
  replace (w_tables w) with (w_tables (set_db d w)) by (by rewrite <- Ht).
  destruct (session_create_spec user (set_db d w)) as [(w' & -> & _ & E)|(e & w' & -> & E)]; simpl.
  - right. by split.
  - left. by split.
Qed.

(** The session of a request that is live at the next clock reading. *)
Definition live_session (req : HttpRequest) (w : World Db) : option SessionRow :=
  tok ← session_token req; live (w_tables w) tok (clock (w_clocks w)).

(** Looking the session up changes no items, draws no UUIDs, and finds it unless
    the database fails. *)
Lemma current_session_spec req w :
  ∃ o w', run_io (current_session req) w = (o, w') ∧ (o = None ∨ o = session_of <$> live_session req w) ∧
    t_items (w_tables w') = t_items (w_tables w) ∧ w_uuids w' = w_uuids w.
Proof.
  unfold current_session, live_session.
  destruct (session_token req) as [tok|]; cbn [mbind option_bind].
  2: { exists None, w. auto. }
  rewrite run_bind.
  destruct (session_get_spec tok w) as [(w' & -> & Ht & Hu)|(e & w' & -> & Ht & Hu)]; cbn [fst snd].
  - exists (get_result (w_tables w) tok (clock (w_clocks w))).1, w'. split; [done|].
    split; [right|]; unfold get_result in *; rewrite ?Ht; by destruct (live _ _ _).
  - exists None, w'. rewrite Ht. auto.
Qed.

(** Creating an item through the page: [POST /ui/items] without a live session
    (or when its lookup fails) redirects to the login page; with one but without
    its CSRF token it answers 403; in both cases the items are as they were.  With
    both it stores the item of the form's fields under a fresh identifier and
    redirects to the list, or, when the insert fails, shows the list with an error
    and the items are as they were. *)
Lemma ui_create_outcomes cfg jwt client req w :
  req_method req = "POST" → path_segments (path req) = ["ui"; "items"] →
  let out := run_io (serve cfg jwt true client req) w in
  let unchanged := t_items (w_tables out.2) = t_items (w_tables w) in
  let '(nm, desc) := form_fields "name" "description" (req_body req) in
  (out.1 = redirect_to "/ui/login" ∧ unchanged) ∨
  ∃ row, live_session req w = Some row ∧
    if decide (sr_csrf_token row = csrf_of req)
    then (out.1 = redirect_to "/ui/items?flash=Item+created" ∧
          ∃ at_, t_items (w_tables out.2) =
            <[uuid (w_uuids w) := mkItemRow nm desc at_]> (t_items (w_tables w))) ∨
         (∃ items, out.1 = render_template "items.html"
            [("items", CItems items); ("flash", CText "Failed to create item.");
             ("flash_type", CText "error")] ∧ unchanged)
    else out.1 = csrf_failed ∧ unchanged.
Proof.
  intros Hm Hp. cbv zeta. rewrite ui_create_route by done. unfold h_ui_create.
  change (form_guard (with_params req ∅)) with (form_guard req).
  change (req_body (with_params req ∅)) with (req_body req).
  destruct (form_fields "name" "description" (req_body req)) as [nm desc].
  rewrite run_bind. unfold form_guard. rewrite run_bind.
  destruct (current_session_spec req w) as (o & w1 & -> & Ho & Hi & Hu). cbn [fst snd].
  destruct o as [ses|]; [|by left].
  destruct Ho as [?|Ho]; [done|]. destruct (live_session req w) as [row|]; [|done].
  injection Ho as ->. right. exists row. split; [done|]. cbn [mret IoTree_ret run_io fst snd].
  change (csrf_token (session_of row)) with (sr_csrf_token row).
  destruct (String.eqb_spec (sr_csrf_token row) (csrf_of req)) as [E|E];
    rewrite ?decide_True, ?decide_False by done; [|done].
  rewrite run_bind.
  destruct (create_item_spec nm desc w1) as [(at_ & w2 & -> & _ & Ht)|(e & w2 & -> & Ht)]; cbn [fst snd].
  - left. split; [done|]. exists at_. cbn [run_io fst snd mret IoTree_ret]. rewrite Ht, <- Hu, <- Hi. done.
  - right. rewrite run_bind. destruct (list_items_spec w2) as (r & d & -> & Hd). cbn [fst snd].
    eexists. split; [done|]. cbn [run_io fst snd mret IoTree_ret].
    change (w_tables (set_db d w2)) with (tables d). by rewrite Hd, Ht.
Qed.

End Handlers.

(** ** Instances *)

Definition toy_externals : Externals := {|
  login_payload := λ _, Some ("admin", "secret");
  create_payload := λ _, Some ("pen", "blue");
  json_to_vec := λ _, Ok "{}";
  tera_render := λ t _, Ok t;
  pct_decode_lossy := λ s, s;
  proxy_method_ok := λ _, true;
|}.

Definition admin_request (tok : string) : HttpRequest :=
  mkRequest "POST" (mkUri "/api/admin/items" None) [("authorization", "Bearer " +:+ tok)] "{}" ∅.

Definition toy_serve : HttpRequest → IoTree string HttpResponse :=
  serve (HC := http_crate_ascii) (SQ := mem_sql) (AR := toy_argon2) (JW := toy_jwt)
    (EX := toy_externals) (loaded (env_of [])) (jwt_secret_new "k") true false.

Definition toy_create_out : HttpResponse * World MemDb :=
  toy_run (toy_serve (admin_request "k.3700.admin")) toy_world.

Example admin_create_outcomes_example :
  status toy_create_out.1 = 201 ∧
  ((toy_create_out.1 = json_response (HC := http_crate_ascii) (EX := toy_externals) 201
      (item_json (mkItem "uuid-0" "pen" "blue")) ∧
    ∃ at_, mem_tables (w_db toy_create_out.2) =
      with_items <["uuid-0" := mkItemRow "pen" "blue" at_]> (mem_tables mem_empty)) ∨
   (toy_create_out.1 = error_empty (HC := http_crate_ascii) ∧
    mem_tables (w_db toy_create_out.2) = mem_tables mem_empty)).
Proof.
  split; [by vm_compute|].
  refine (proj2 (admin_create_outcomes (HC := http_crate_ascii) (SQ := mem_sql) (AR := toy_argon2)
    (JW := toy_jwt) (EX := toy_externals) (EV := toy_env) (loaded (env_of [])) (jwt_secret_new "k")
    true false (admin_request "k.3700.admin") toy_world eq_refl eq_refl) _ "pen" "blue" eq_refl).
  exists "k.3700.admin", (mkClaims "admin" 3700). by vm_compute.
Defined.

(** The login of the form, then the list page's form with the cookie it gave. *)
Definition form_externals : Externals := {|
  login_payload := λ _, None;
  create_payload := λ _, None;
  json_to_vec := λ _, Ok "{}";
  tera_render := λ t _, Ok t;
  pct_decode_lossy := λ s, s;
  proxy_method_ok := λ _, true;
|}.

Definition admin_world : World MemDb :=
  (toy_run (create_user_if_missing (H := mem_sql) (H0 := toy_argon2) "salt" "admin" "pw") toy_world).2.

Definition form_serve (req : HttpRequest) (w : World MemDb) : HttpResponse * World MemDb :=
  toy_run (serve (HC := http_crate_ascii) (SQ := mem_sql) (AR := toy_argon2) (JW := toy_jwt)
    (EX := form_externals) (loaded (env_of [])) (jwt_secret_new "k") true false req) w.

Definition login_request : HttpRequest :=
  mkRequest "POST" (mkUri "/ui/login" None) [] "username=admin&password=pw" ∅.

Definition create_request : HttpRequest :=
  mkRequest "POST" (mkUri "/ui/items" None) [("cookie", "theme=dark; session=uuid-0")]
    "name=pen&description=blue+ink&_csrf=uuid-1" ∅.

Example login_outcomes_example :
  status (form_serve login_request admin_world).1 = 302 ∧
  ((form_serve login_request admin_world).1 = error_empty (HC := http_crate_ascii) ∧
     mem_tables (w_db (form_serve login_request admin_world).2) = mem_tables (w_db admin_world)
   ∨ status (form_serve login_request admin_world).1 = 302).
Proof.
  split; [by vm_compute|].
  destruct (login_outcomes (HC := http_crate_ascii) (SQ := mem_sql) (AR := toy_argon2) (JW := toy_jwt)
    (EX := form_externals) (EV := toy_env) (loaded (env_of [])) (jwt_secret_new "k") false
    login_request admin_world "admin" "pw" eq_refl eq_refl ltac:(by vm_compute)) as [H|H].
  - left. exact H.
  - right. by vm_compute.
Defined.

Example ui_create_outcomes_example :
  let w := (form_serve login_request admin_world).2 in
  t_items (mem_tables (w_db (form_serve create_request w).2)) !! "uuid-2" =
    Some (mkItemRow "pen" "blue ink" 3) ∧
  ((form_serve create_request w).1 = redirect_to (HC := http_crate_ascii) "/ui/login" ∨
   ∃ row, live_session (SQ := mem_sql) (EV := toy_env) (HC := http_crate_ascii) create_request w =
     Some row).
Proof.
  intros w. split; [by vm_compute|].
  destruct (ui_create_outcomes (HC := http_crate_ascii) (SQ := mem_sql) (AR := toy_argon2)
    (JW := toy_jwt) (EX := form_externals) (EV := toy_env) (loaded (env_of [])) (jwt_secret_new "k")
    false create_request w eq_refl eq_refl) as [[H _]|(row & H & _)].
  - left. exact H.
  - right. exists row. exact H.
Defined.

(** The path of a static file is used as it stands in the request, escapes and
    all. *)
Example static_path_not_decoded :
  match serve (HC := http_crate_ascii) (SQ := mem_sql) (AR := toy_argon2) (JW := toy_jwt)
          (EX := toy_externals) (loaded (env_of [])) (jwt_secret_new "k") true false
          (mkRequest "GET" (mkUri "/static/a%20b.txt" None) [] "" ∅) with
  | Await c _ => Some c
  | Ret _ => None
  end = Some (CallOutside (Metadata "./static/a%20b.txt")).
Proof. by vm_compute. Qed.
