(* ===== verification/Routing.v ===== *)
(** * Which handler answers

    The table [build_router] registers, against a reference: the handlers of a path,
    found by its components, and what is answered when there is none. *)
From S2P Require Import Prelude RustStr HttpTypes Request Response Router Config Metrics.
From S2P Require Import Sql Effects Database Session Auth StaticFiles Proxy Task Handlers.
Local Open Scope Z_scope.

Section Routing.
Context `{HC : HttpCrate, SQ : Sql, AR : Argon2, JW : Jwt, EX : Externals}.
Context (cfg : ServerConfig) (jwt : JwtSecret) (templates client : bool).

(** ** The reference *)

Abbreviation Handler := (HttpRequest → Io HttpResponse).

(** A handler given what its pattern captured. *)
Definition with_captures (h : Handler) (captures : gmap string string) : Handler :=
  λ req, h (with_params req captures).

(** The components a trailing wildcard captured, if any. *)
Definition captured (name : string) (segs : list string) : gmap string string :=
  match segs with [] => ∅ | _ => {[name := join "/" segs]} end.

(** Under [/api]. *)
Definition api_resource (segs : list string) : list (string * Handler) :=
  match segs with
  | [a] => if String.eqb a "items" then [("GET", with_captures h_list_items ∅)] else []
  | [a; b] =>
      if String.eqb a "items" then [("GET", with_captures h_get_item {["id" := b]})]
      else if String.eqb a "admin" && String.eqb b "items"
      then [("POST", with_captures (h_admin_create jwt) ∅)] else []
  | [a; b; c] =>
      if String.eqb a "admin" && String.eqb b "items"
      then [("DELETE", with_captures (h_admin_delete jwt) {["id" := c]})] else []
  | _ => []
  end.

(** Under [/ui], when there are templates. *)
Definition page_resource (segs : list string) : list (string * Handler) :=
  match segs with
  | [] => [("GET", with_captures h_ui_root ∅)]
  | [a] =>
      if String.eqb a "index" then [("GET", with_captures h_ui_index ∅)]
      else if String.eqb a "login"
      then [("GET", with_captures h_ui_login_page ∅);
            ("POST", with_captures (h_ui_login (cookie_secure cfg)) ∅)]
      else if String.eqb a "logout" then [("POST", with_captures h_ui_logout ∅)]
      else if String.eqb a "items"
      then [("GET", with_captures h_ui_items ∅); ("POST", with_captures h_ui_create ∅)]
      else if String.eqb a "metrics" then [("GET", with_captures h_ui_metrics ∅)] else []
  | [a; b; c] =>
      if String.eqb a "items" && String.eqb c "delete"
      then [("POST", with_captures h_ui_delete {["id" := b]})] else []
  | _ => []
  end.

(** The handlers of a path, by method. *)
Definition resource (segs : list string) : list (string * Handler) :=
  match segs with
  | [] => [("GET", with_captures h_root ∅)]
  | a :: rest =>
      if String.eqb a "static"
      then [("GET", with_captures (h_static (static_dir cfg)) (captured "filepath" rest))]
      else if String.eqb a "api" then api_resource rest
      else if String.eqb a "ui" then if templates then page_resource rest else []
      else
        match rest with
        | [] => if String.eqb a "health" then [("GET", with_captures h_health ∅)]
                else if String.eqb a "metrics" then [("GET", with_captures h_metrics ∅)] else []
        | [b] => if String.eqb a "echo" then [("GET", with_captures h_echo {["message" := b]})]
                 else if String.eqb a "fib" then [("GET", with_captures h_fib {["n" := b]})]
                 else if String.eqb a "auth" && String.eqb b "token"
                 then [("POST", with_captures (h_auth_token jwt) ∅)] else []
        | _ => []
        end
  end.

Definition by_method (m : string) (hs : list (string * Handler)) : option Handler :=
  snd <$> find_first (λ x, String.eqb x.1 m) hs.

(** A request goes to its path's handler for its method; to the proxy, when there is
    one, if there is none; and is answered [404] for a path without handlers, [405]
    for one with others. *)
Definition reference (req : HttpRequest) : Io HttpResponse :=
  let segs := path_segments (path req) in
  match by_method (req_method req) (resource segs) with
  | Some h => h req
  | None =>
      match client, proxy_upstream cfg with
      | true, Some upstream =>
          with_captures (h_proxy upstream (proxy_strip_prefix cfg)) (captured "path" segs) req
      | _, _ =>
          mret (match resource segs with
                | [] => text (line "404 Not Found") not_found
                | _ => empty method_not_allowed
                end)
      end
  end.

(** ** Lemmas *)

(** What a route has for a path: nothing, or its handler with its captures. *)
Definition hit (p : string) (rt : RouteEntry (R := Io HttpResponse)) : list (string * Handler) :=
  match match_path (rt_segments rt) p with
  | Some captures => [(rt_method rt, with_captures (rt_handler rt) captures)]
  | None => []
  end.

Definition hits (routes : list (RouteEntry (R := Io HttpResponse))) (p : string)
    : list (string * Handler) :=
  concat (map (hit p) routes).

Definition takes (m : string) (x : string * Handler) : bool :=
  String.eqb x.1 "*" || String.eqb x.1 m.

(** Dispatching is a search among the hits. *)
Lemma dispatch_hits routes req :
  dispatch mret routes req =
  match find_first (takes (req_method req)) (hits routes (path req)) with
  | Some x => x.2 req
  | None => mret (match hits routes (path req) with
                  | [] => text (line "404 Not Found") not_found
                  | _ => empty method_not_allowed
                  end)
  end.
Proof.
  assert (H : ∀ flag, dispatch_loop mret routes req flag =
    match find_first (takes (req_method req)) (hits routes (path req)) with
    | Some x => x.2 req
    | None => mret (match flag, hits routes (path req) with
                    | false, [] => text (line "404 Not Found") not_found
                    | _, _ => empty method_not_allowed
                    end)
    end); [|exact (H false)].
  induction routes as [|rt routes IH]; intros flag; simpl; [by destruct flag|].
  unfold hits. cbn [map concat]. fold (hits routes (path req)). unfold hit.
  destruct (match_path (rt_segments rt) (path req)) as [ps|]; simpl; [|apply IH].
  unfold takes at 1, Router.method_ok. simpl. destruct (_ || _); [done|]. rewrite IH.
  by destruct (find_first _ _), flag.
Qed.

(** The proxy's route, when there is one, takes every path and method. *)
Definition proxy_resource (segs : list string) : list (string * Handler) :=
  match client, proxy_upstream cfg with
  | true, Some upstream =>
      [("*", with_captures (h_proxy upstream (proxy_strip_prefix cfg)) (captured "path" segs))]
  | _, _ => []
  end.

(** It is registered last. *)
Lemma build_router_proxy p :
  hits (build_router cfg jwt templates client) p =
  hits (build_router cfg jwt templates false) p ++ proxy_resource (path_segments p).
Proof.
  unfold build_router at 1 2, proxy_resource. cbn zeta.
  destruct client, (proxy_upstream cfg) as [upstream|]; rewrite ?app_nil_r; try done.
  unfold any, add at 1, hits. rewrite map_app, concat_app. f_equal.
  unfold hit, match_path. cbn. generalize (path_segments p) as segs. by intros [|s segs].
Qed.

(** Evaluates comparisons of literals and splits on the others. *)
Ltac compare_strings :=
  repeat match goal with
  | |- context [String.eqb ?a ?b] =>
      first
        [ is_var a; destruct (String.eqb_spec a b); [subst a|]
        | let v := eval vm_compute in (String.eqb a b) in change (String.eqb a b) with v ];
      cbn [andb app]
  end.

(** What the table has for a path before the proxy's route. *)
Lemma router_hits p :
  hits (build_router cfg jwt templates false) p = resource (path_segments p).
Proof.
  unfold build_router, get, post, delete_route, add, router_new, resource.
  repeat match goal with |- context [parse_pattern ?s] =>
    let v := eval vm_compute in (parse_pattern s) in change (parse_pattern s) with v end.
  unfold hits, hit, match_path. generalize (path_segments p) as segs; intros segs.
  destruct templates; cbn [app map concat rt_method rt_segments rt_handler].
  all: destruct segs as [|a [|b [|c [|d [|e segs]]]]].
  all: cbn [has_wildcard last is_wildcard length
    Nat.eqb Nat.ltb Nat.leb Nat.sub negb match_from lookup list_lookup
    resource api_resource page_resource captured drop app andb].
  all: compare_strings; reflexivity.
Qed.

(** No handler of the reference takes every method. *)
Lemma resource_methods segs m :
  find_first (takes m) (resource segs) = find_first (λ x, String.eqb x.1 m) (resource segs).
Proof.
  assert (H : Forall (λ x : string * Handler, String.eqb x.1 "*" = false) (resource segs)).
  { unfold resource, api_resource, page_resource. repeat case_match; repeat constructor. }
  induction H as [|x l Hx _ IH]; [done|]. simpl. unfold takes at 1. rewrite Hx. simpl.
  by rewrite IH.
Qed.

(** ** Theorem *)

(** C21: routing: with the routes that [build_router] registers, in their order,
    every request, whatever its method and path, is answered by the handler its
    method and the non-empty components of its path name, with the right captures;
    by the proxy if there is none and one is configured; and otherwise with 405 on a
    path that has other methods and 404 on any other. *)
Theorem routing req : serve cfg jwt templates client req = reference req.
Proof.
  unfold serve, reference, by_method.
  rewrite dispatch_hits, build_router_proxy, router_hits, find_first_app, resource_methods.
  destruct (find_first _ (resource _)) as [x|]; [done|].
  unfold proxy_resource. destruct client, (proxy_upstream cfg); simpl; rewrite ?app_nil_r; done.
Qed.

End Routing.
