(* ===== verification/Connection.v ===== *)
(** * Request pipeline and connection loop ([src/src/server/connection.rs])

    The Tower stack of [handle_connection]: logging
    ([src/src/middleware/logging.rs]) around the rate limiter around the
    concurrency limiter around the inner service, for all the requests of the
    server at once over their shared state, one step per stretch between two
    awaits; and the [select!] loop that drives one connection. *)
From S2P Require Import Prelude RustStr HttpTypes Response Net Metrics RateLimiter Semaphore.
Local Open Scope Z_scope.

Section Pipeline.
Context `{HC : HttpCrate} (instant_min max_body max_concurrent : Z).

(** ** Logging *)

(** The request identifier: the client's when readable, else the fresh one. *)
Definition request_id (hs : HeaderMap) (fresh : string) : string :=
  default fresh (v ← header_get hs "x-request-id"; if hv_to_str_ok v then Some v else None).

(** The headers the inner service sees. *)
Definition logging_in (hs : HeaderMap) (rid : string) : HeaderMap :=
  if hv_valid rid then header_insert hs "x-request-id" rid else hs.

Definition with_headers (parts : Parts) (hs : HeaderMap) : Parts :=
  mkParts (p_method parts) (p_uri parts) hs.

Definition logging_out (rid : string) (resp : HttpResponse) : HttpResponse :=
  if hv_valid rid
  then mkResponse (status resp) (header_insert (headers resp) "x-request-id" rid) (body resp)
  else resp.

(** ** The inner service *)

Definition too_large : HttpResponse := text (line "413 Payload Too Large") (rb_new 413).

Definition timeout_response : HttpResponse :=
  text (line "503 Service Unavailable: processing timeout") (rb_new 503).

(** The early check of [content-length]. *)
Definition content_length_too_large (hs : HeaderMap) : bool :=
  match header_get hs "content-length" with
  | Some v =>
      if hv_to_str_ok v then
        match parse_uint usize_max v with Some cl => max_body <? cl | None => false end
      else false
  | None => false
  end.

(** The status-class counters. *)
Definition count_response (st : Z) (m : Metrics) : Metrics :=
  if st <? 300 then fetch_add Responses2xx 1 m
  else if st <? 500 then fetch_add Responses4xx 1 m
  else fetch_add Responses5xx 1 m.

(** ** State *)

(** A request: turned away by a limiter; admitted, its future not yet polled;
    collecting its body; in the handler; answered from an early return of the
    inner service; answered; or dropped with its connection, before or after it
    started. *)
Inductive Stage : Type :=
| Rejected (resp : HttpResponse)
| Unpolled
| Collecting
| Handling (bd : string)
| EarlyReturn (resp : HttpResponse)
| Answered (resp : HttpResponse)
| DroppedUnstarted
| DroppedStarted.

Record Req : Type := mkReq {
  rq_id : string;
  rq_parts : Parts;
  rq_stage : Stage;
}.

Definition rq_headers (r : Req) : HeaderMap := p_headers (rq_parts r).

Record Pipe : Type := mkPipe {
  sem : Z;
  limiter : RateLimiter (IpAddr := IpAddr);
  gauges : Metrics;
  reqs : list Req;
}.

Definition pipe_init (rps : Z) : Pipe :=
  mkPipe max_concurrent (limiter_new rps) metrics_new [].

(** ** Steps *)

Inductive PipeEvent : Type :=
| Arrive (ip : IpAddr) (c : Clock) (parts : Parts) (fresh : string)
| Start (i : nat)
| Body (i : nat) (collected : option string)
| Finish (i : nat) (handled : option HttpResponse)
| Drop (i : nat)
| Peer (rejected : bool)
| Evict (at_ : Z).

(** [call] of the three layers: what happens before the first await. *)
Definition on_arrive (ip : IpAddr) (c : Clock) (parts : Parts) (fresh : string) (p : Pipe)
    : Pipe :=
  let rid := request_id (p_headers parts) fresh in
  let parts := with_headers parts (logging_in (p_headers parts) rid) in
  let '(refused, rl) := limiter_call instant_min ip c (limiter p) in
  match refused with
  | Some resp =>
      mkPipe (sem p) rl (gauges p) (reqs p ++ [mkReq rid parts (Rejected (logging_out rid resp))])
  | None =>
      match concurrency_call (sem p) with
      | inl sem' => mkPipe sem' rl (gauges p) (reqs p ++ [mkReq rid parts Unpolled])
      | inr resp =>
          mkPipe (sem p) rl (gauges p) (reqs p ++ [mkReq rid parts (Rejected (logging_out rid resp))])
      end
  end.

Definition set_stage (i : nat) (r : Req) (st : Stage) (sem' : Z) (m : Metrics) (p : Pipe) : Pipe :=
  mkPipe sem' (limiter p) m (<[i := mkReq (rq_id r) (rq_parts r) st]> (reqs p)).

(** The inner future's first poll, up to the body's await. *)
Definition on_start (i : nat) (p : Pipe) : option Pipe :=
  r ← reqs p !! i;
  match rq_stage r with
  | Unpolled =>
      let m := fetch_add RequestsActive 1 (fetch_add RequestsTotal 1 (gauges p)) in
      Some (if content_length_too_large (rq_headers r)
            then set_stage i r (EarlyReturn (logging_out (rq_id r) too_large))
                   (release (sem p)) m p
            else set_stage i r Collecting (sem p) m p)
  | _ => None
  end.

(** The body is collected ([None]: the read failed). *)
Definition on_body (i : nat) (collected : option string) (p : Pipe) : option Pipe :=
  r ← reqs p !! i;
  match rq_stage r with
  | Collecting =>
      Some (match collected with
            | Some bytes =>
                if max_body <? byte_len bytes
                then set_stage i r (EarlyReturn (logging_out (rq_id r) too_large))
                       (release (sem p)) (gauges p) p
                else set_stage i r (Handling bytes) (sem p) (gauges p) p
            | None =>
                set_stage i r (EarlyReturn (logging_out (rq_id r) (empty bad_request)))
                  (release (sem p)) (gauges p) p
            end)
  | _ => None
  end.

(** The handler is done, or its time is up ([None]). *)
Definition on_finish (i : nat) (handled : option HttpResponse) (p : Pipe) : option Pipe :=
  r ← reqs p !! i;
  match rq_stage r with
  | Handling _ =>
      let '(resp, m) := match handled with
                        | Some resp => (resp, gauges p)
                        | None => (timeout_response, fetch_add TimedOut 1 (gauges p))
                        end in
      let m := fetch_add RequestsActive (-1) (count_response (status resp) m) in
      Some (set_stage i r (Answered (logging_out (rq_id r) resp)) (release (sem p)) m p)
  | _ => None
  end.

(** The connection is dropped with the request in flight. *)
Definition on_drop (i : nat) (p : Pipe) : option Pipe :=
  r ← reqs p !! i;
  match rq_stage r with
  | Unpolled => Some (set_stage i r DroppedUnstarted (release (sem p)) (gauges p) p)
  | Collecting | Handling _ =>
      Some (set_stage i r DroppedStarted (release (sem p)) (gauges p) p)
  | _ => None
  end.

(** The accept loop's counters, which are the same metrics: a peer, accepted or
    then turned away by the address filter. *)
Definition on_peer (rejected : bool) (p : Pipe) : Pipe :=
  mkPipe (sem p) (limiter p)
    (fetch_add (if rejected then ConnectionsRejectedIp else ConnectionsAccepted) 1 (gauges p))
    (reqs p).

(** A tick of the limiter's background task. *)
Definition on_evict (at_ : Z) (p : Pipe) : Pipe :=
  mkPipe (sem p) (evict_stale instant_min at_ (limiter p)) (gauges p) (reqs p).

Definition pipe_exec (p : Pipe) (e : PipeEvent) : option Pipe :=
  match e with
  | Arrive ip c parts fresh => Some (on_arrive ip c parts fresh p)
  | Start i => on_start i p
  | Body i collected => on_body i collected p
  | Finish i handled => on_finish i handled p
  | Drop i => on_drop i p
  | Peer rejected => Some (on_peer rejected p)
  | Evict at_ => Some (on_evict at_ p)
  end.

Definition pipe_step (p : Pipe) (e : PipeEvent) (p' : Pipe) : Prop := pipe_exec p e = Some p'.

Definition pipe_reachable (rps : Z) (p : Pipe) : Prop := ∃ es, run pipe_step (pipe_init rps) es p.

(** ** Specification *)

Definition holds_permit (r : Req) : bool :=
  match rq_stage r with Unpolled | Collecting | Handling _ => true | _ => false end.

Definition in_progress (r : Req) : bool :=
  match rq_stage r with Collecting | Handling _ => true | _ => false end.

(** Requests that started and will never decrement the gauge. *)
Definition leaked (r : Req) : bool :=
  match rq_stage r with EarlyReturn _ | DroppedStarted => true | _ => false end.

Definition answered (r : Req) : bool :=
  match rq_stage r with Answered _ => true | _ => false end.

Definition handling (r : Req) : bool :=
  match rq_stage r with Handling _ => true | _ => false end.

Definition started (r : Req) : bool := in_progress r || leaked r || answered r.

(** The response a request has been given. *)
Definition response_of (r : Req) : option HttpResponse :=
  match rq_stage r with
  | Rejected resp | EarlyReturn resp | Answered resp => Some resp
  | _ => None
  end.

(** A response of the handler or of its timeout, with such a status. *)
Definition answered_with (ok : Z → bool) (r : Req) : bool :=
  match rq_stage r with Answered resp => ok (status resp) | _ => false end.

(** A response of any kind, with such a status. *)
Definition responded_with (ok : Z → bool) (r : Req) : bool :=
  match response_of r with Some resp => ok (status resp) | None => false end.

Definition within (lo hi st : Z) : bool := (lo <=? st) && (st <? hi).

Definition polled (r : Req) : bool :=
  match rq_stage r with Unpolled => false | _ => true end.

Definition times_out (e : PipeEvent) : bool :=
  match e with Finish _ None => true | _ => false end.

(** What each request was sent with, and the identifier kept ready for it, in order
    of arrival. *)
Definition arrivals (es : list PipeEvent) : list (Parts * string) :=
  omap (λ e, match e with Arrive _ _ parts fresh => Some (parts, fresh) | _ => None end) es.

Definition refusal_status (st : Stage) : Prop :=
  match st with
  | Rejected resp => status resp = 429 ∨ status resp = 503
  | EarlyReturn resp => status resp = 413 ∨ status resp = 400
  | _ => True
  end.

Definition req_ok (r : Req) : Prop :=
  refusal_status (rq_stage r) ∧
  (∀ resp, response_of r = Some resp → hv_valid (rq_id r) = true →
     header_get_all (headers resp) "x-request-id" = [rq_id r]) ∧
  (hv_valid (rq_id r) = true → header_get_all (rq_headers r) "x-request-id" = [rq_id r]) ∧
  (∀ bd, rq_stage r = Handling bd → byte_len bd ≤ max_body).

Record pipe_inv (p : Pipe) : Prop := {
  pi_sem : 0 ≤ sem p;
  pi_held : sem p + count holds_permit (reqs p) = max_concurrent;
  pi_active : requests_active (gauges p) =
    wrap_u64 (count in_progress (reqs p) + count leaked (reqs p));
  pi_total : requests_total (gauges p) = wrap_u64 (count started (reqs p));
  pi_2xx : responses_2xx (gauges p) = wrap_u64 (count (answered_with (λ st, st <? 300)) (reqs p));
  pi_4xx : responses_4xx (gauges p) = wrap_u64 (count (answered_with (within 300 500)) (reqs p));
  pi_5xx : responses_5xx (gauges p) = wrap_u64 (count (answered_with (Z.leb 500)) (reqs p));
  pi_limited : rate_limited (gauges p) = 0 ∧ concurrency_limited (gauges p) = 0;
  pi_reqs : Forall req_ok (reqs p);
}.

(** ** Lemmas *)

(** *** Steps of one request *)

Definition request_event (e : PipeEvent) : option nat :=
  match e with
  | Start i | Body i _ | Finish i _ | Drop i => Some i
  | Arrive _ _ _ _ | Peer _ | Evict _ => None
  end.

(** Where a request that goes with its connection ends. *)
Definition drop_stage (st : Stage) : Stage :=
  match st with
  | Unpolled => DroppedUnstarted
  | Collecting | Handling _ => DroppedStarted
  | st => st
  end.

Definition lost (st : Stage) : bool :=
  match st with DroppedUnstarted | DroppedStarted => true | _ => false end.

(** The counters of the accept loop. *)
Definition conn_counters (m : Metrics) : Z * Z :=
  (connections_accepted m, connections_rejected_ip m).

(** Only the request's stage changes, from one that holds a permit, and the
    counters of the accept loop stay. *)
Lemma request_step e i p p' :
  request_event e = Some i → pipe_exec p e = Some p' →
  ∃ r st sem' m, reqs p !! i = Some r ∧ holds_permit r = true ∧ p' = set_stage i r st sem' m p ∧
    conn_counters m = conn_counters (gauges p) ∧
    (∀ resp, st ≠ Rejected resp) ∧
    match e with Drop _ => st = drop_stage (rq_stage r) | _ => lost st = false end.
Proof.
  intros Hi He. unfold holds_permit.
  destruct e as [|j|j b|j h|j| |]; simplify_eq/=; unfold on_start, on_body, on_finish, on_drop in He;
    (destruct (reqs p !! i) as [r|]; [|done]); simpl in He; exists r; destruct (rq_stage r); try done;
    [destruct (content_length_too_large _)|destruct b; [destruct (_ <? _)|]|destruct h|..];
    injection He as <-; eexists _, _, _; do 3 (split; [done|]); try done.
  all: unfold count_response; destruct (_ <? 300); [done|]; by destruct (_ <? 500).
Qed.

Lemma logging_out_id rid resp :
  hv_valid rid = true → header_get_all (headers (logging_out rid resp)) "x-request-id" = [rid].
Proof. intros Hv. unfold logging_out. rewrite Hv. apply header_get_all_insert. Qed.

Lemma logging_in_id hs rid :
  hv_valid rid = true → header_get_all (logging_in hs rid) "x-request-id" = [rid].
Proof. intros Hv. unfold logging_in. rewrite Hv. apply header_get_all_insert. Qed.

(** What a step of one request must account for, in the stages and the
    counters. *)
Lemma set_stage_inv p i r st sem' m :
  let r' := mkReq (rq_id r) (rq_parts r) st in
  pipe_inv p → reqs p !! i = Some r → 0 ≤ sem' →
  sem' = sem p + b2z (holds_permit r) - b2z (holds_permit r') →
  requests_active m = wrap_u64 (requests_active (gauges p) +
    (b2z (in_progress r') - b2z (in_progress r) + b2z (leaked r') - b2z (leaked r))) →
  requests_total m = wrap_u64 (requests_total (gauges p) + (b2z (started r') - b2z (started r))) →
  (let ok := λ st, st <? 300 in
   responses_2xx m = wrap_u64 (responses_2xx (gauges p) +
     (b2z (answered_with ok r') - b2z (answered_with ok r)))) →
  (let ok := within 300 500 in
   responses_4xx m = wrap_u64 (responses_4xx (gauges p) +
     (b2z (answered_with ok r') - b2z (answered_with ok r)))) →
  (let ok := Z.leb 500 in
   responses_5xx m = wrap_u64 (responses_5xx (gauges p) +
     (b2z (answered_with ok r') - b2z (answered_with ok r)))) →
  rate_limited m = 0 ∧ concurrency_limited m = 0 → req_ok r' →
  pipe_inv (set_stage i r st sem' m p).
Proof.
  intros r' [I1 I2 I3 I4 I5 I6 I7 I8 I9] Hi Hs E1 E2 E3 E4 E5 E6 El Hr. split; simpl; try done.
  - rewrite (count_insert _ _ _ r) by done. fold r'. lia.
  - rewrite E2, I3, wrap_u64_add, !(count_insert _ _ _ r) by done. f_equal. fold r'. lia.
  - rewrite E3, I4, wrap_u64_add, (count_insert _ _ _ r) by done. f_equal. fold r'. lia.
  - rewrite E4, I5, wrap_u64_add, (count_insert _ _ _ r) by done. f_equal. fold r'. lia.
  - rewrite E5, I6, wrap_u64_add, (count_insert _ _ _ r) by done. f_equal. fold r'. lia.
  - rewrite E6, I7, wrap_u64_add, (count_insert _ _ _ r) by done. f_equal. fold r'. lia.
  - by apply Forall_insert.
Qed.

Lemma req_ok_of p i r : pipe_inv p → reqs p !! i = Some r → req_ok r.
Proof. intros Hinv Hi. pose proof (pi_reqs _ Hinv) as HF. rewrite Forall_lookup in HF. by apply (HF i). Qed.

Lemma wrap_u64_idem a : wrap_u64 (wrap_u64 a) = wrap_u64 a.
Proof. apply wrap_u64_small, wrap_u64_range. Qed.

(** A counter that a step leaves as it is. *)
Lemma same_counter z n : z = wrap_u64 n → z = wrap_u64 (z + 0).
Proof. intros ->. by rewrite Z.add_0_r, wrap_u64_idem. Qed.

(** A counter that a step may add one to. *)
Lemma maybe_counted z n b :
  z = wrap_u64 n → (if b : bool then wrap_u64 (z + 1) else z) = wrap_u64 (z + (b2z b - 0)).
Proof. destruct b; simpl; [by intros ->|apply same_counter]. Qed.

Create HintDb pipe.
#[local] Hint Resolve same_counter maybe_counted pi_active pi_total pi_2xx pi_4xx pi_5xx pi_limited : pipe.

(** An append of a new request that is not started. *)
Lemma arrive_inv p r sem' rl :
  pipe_inv p → 0 ≤ sem' → sem' = sem p - b2z (holds_permit r) → started r = false → req_ok r →
  pipe_inv (mkPipe sem' rl (gauges p) (reqs p ++ [r])).
Proof.
  intros [I1 I2 I3 I4 I5 I6 I7 I8 I9] Hs E Hst Hr. unfold started in Hst.
  apply orb_false_iff in Hst as [[Hp Hl]%orb_false_iff Ha].
  assert (Hc : ∀ ok, answered_with ok r = false).
  { intros ok. unfold answered_with, answered in *. by destruct (rq_stage r). }
  split; simpl; rewrite ?count_app, ?count_cons, ?count_nil; rewrite ?Hc; try done.
  - lia.
  - rewrite I3, Hp, Hl. f_equal. simpl. lia.
  - rewrite I4. unfold started. rewrite Hp, Hl, Ha. f_equal. simpl. lia.
  - rewrite I5. f_equal. simpl. lia.
  - rewrite I6. f_equal. simpl. lia.
  - rewrite I7. f_equal. simpl. lia.
  - apply Forall_app. split; [done|]. by apply Forall_singleton.
Qed.

Lemma logging_out_status rid resp : status (logging_out rid resp) = status resp.
Proof. unfold logging_out. by destruct (hv_valid rid). Qed.

(** The responses made by the layers and the early returns. *)
Lemma text_status st b : status (text (line b) (rb_new st)) = st.
Proof. unfold text. by rewrite build_ok; [|apply text_plain_valid|constructor]. Qed.

Lemma too_many_requests_status : status too_many_requests = 429.
Proof.
  unfold too_many_requests, text. rewrite build_ok; [done|apply text_plain_valid|].
  repeat constructor. by apply visible_valid.
Qed.

Lemma service_unavailable_status : status service_unavailable = 503.
Proof.
  unfold service_unavailable, text. rewrite build_ok; [done|apply text_plain_valid|].
  repeat constructor. by apply visible_valid.
Qed.

Lemma bad_request_status : status (empty bad_request) = 400.
Proof. unfold empty. by rewrite build_ok; [|apply text_plain_valid|constructor]. Qed.

Lemma req_ok_response r st resp :
  req_ok r → st = Rejected (logging_out (rq_id r) resp) ∨
             st = EarlyReturn (logging_out (rq_id r) resp) ∨
             st = Answered (logging_out (rq_id r) resp) →
  refusal_status st →
  req_ok (mkReq (rq_id r) (rq_parts r) st).
Proof.
  intros (_ & _ & Hh & _) Hst Hf. split; [done|]. split; [|split; [done|]].
  - intros resp' E Hv. unfold response_of in E. simpl in *.
    destruct Hst as [->|[->| ->]]; simplify_eq; by apply logging_out_id.
  - simpl. intros bd ->. naive_solver.
Qed.

(** A stage with neither response nor body. *)
Lemma req_ok_plain r st :
  req_ok r → response_of (mkReq (rq_id r) (rq_parts r) st) = None →
  (∀ bd, st = Handling bd → byte_len bd ≤ max_body) →
  req_ok (mkReq (rq_id r) (rq_parts r) st).
Proof.
  intros (_ & _ & Hh & _) E Hb. split; [by destruct st|]. split; [|split; [done|done]].
  intros resp. by rewrite E.
Qed.

Ltac refusal := simpl; rewrite logging_out_status;
  first [left; apply text_status | right; apply bad_request_status
        | left; apply too_many_requests_status | right; apply service_unavailable_status].

Lemma on_arrive_inv ip c parts fresh p : pipe_inv p → pipe_inv (on_arrive ip c parts fresh p).
Proof.
  intros Hinv. pose proof (pi_sem _ Hinv) as Hs. unfold on_arrive.
  set (rid := request_id (p_headers parts) fresh). set (hs := logging_in (p_headers parts) rid).
  assert (Hnew : req_ok (mkReq rid (with_headers parts hs) Unpolled)).
  { split; [done|]. split; [done|]. split; [|done]. apply logging_in_id. }
  unfold limiter_call. destruct (check instant_min ip c (limiter p)) as [[|] rl]; simpl.
  - unfold concurrency_call. destruct (try_acquire (sem p)) as [sem'|] eqn:E.
    + apply try_acquire_Some in E as [H0 ->]. by apply arrive_inv.
    + apply arrive_inv; try done; [simpl; lia|].
      apply (req_ok_response _ _ service_unavailable Hnew); [by left|refusal].
  - apply arrive_inv; try done; [simpl; lia|].
    apply (req_ok_response _ _ too_many_requests Hnew); [by left|refusal].
Qed.

(** Opens an enabled step on request [i]. *)
Ltac open_req H :=
  match type of H with
  | (reqs ?p !! ?i ≫= _) = Some _ =>
      let r := fresh "r" in let Hi := fresh "Hi" in let Hst := fresh "Hst" in
      destruct (reqs p !! i) as [r|] eqn:Hi; cbn [mbind option_bind] in H; [|done];
      destruct (rq_stage r) eqn:Hst; try done; injection H as <-
  end.

(** The arithmetic of [set_stage_inv]. *)
Ltac stage_arith Hst :=
  unfold release, holds_permit, in_progress, leaked, started, answered, answered_with, in_progress,
    leaked, answered; simpl; rewrite ?Hst; simpl; try (f_equal; lia); try lia; eauto with pipe.

Lemma on_start_inv i p p' : pipe_inv p → on_start i p = Some p' → pipe_inv p'.
Proof.
  intros Hinv H. unfold on_start in H. open_req H. pose proof (pi_sem _ Hinv) as Hs.
  pose proof (req_ok_of p i r Hinv Hi) as Hr. pose proof (pi_limited _ Hinv) as Hlim.
  destruct (content_length_too_large _); apply set_stage_inv; try done; stage_arith Hst.
  - apply (req_ok_response _ _ too_large); [done|tauto|refusal].
  - by apply req_ok_plain.
Qed.

(** The 4xx counter counts redirects too. *)
Lemma redirect_counts_as_4xx st m :
  300 ≤ st < 500 → count_response st m = fetch_add Responses4xx 1 m.
Proof.
  intros Hst. unfold count_response. destruct (Z.ltb_spec st 300); [lia|].
  by destruct (Z.ltb_spec st 500); [|lia].
Qed.

Lemma count_response_spec st m :
  let m' := count_response st m in
  responses_2xx m' = (if st <? 300 then wrap_u64 (responses_2xx m + 1) else responses_2xx m) ∧
  responses_4xx m' = (if within 300 500 st then wrap_u64 (responses_4xx m + 1) else responses_4xx m) ∧
  responses_5xx m' = (if 500 <=? st then wrap_u64 (responses_5xx m + 1) else responses_5xx m) ∧
  requests_active m' = requests_active m ∧ requests_total m' = requests_total m ∧
  rate_limited m' = rate_limited m ∧ concurrency_limited m' = concurrency_limited m.
Proof.
  unfold count_response, within.
  destruct (Z.ltb_spec st 300), (Z.ltb_spec st 500), (Z.leb_spec 300 st), (Z.leb_spec 500 st);
    try lia; by simpl.
Qed.

Lemma on_body_inv i collected p p' : pipe_inv p → on_body i collected p = Some p' → pipe_inv p'.
Proof.
  intros Hinv H. unfold on_body in H. open_req H. pose proof (pi_sem _ Hinv) as Hs.
  pose proof (req_ok_of p i r Hinv Hi) as Hr. pose proof (pi_limited _ Hinv) as Hlim.
  destruct collected as [bytes|]; [destruct (Z.ltb_spec max_body (byte_len bytes))|];
    apply set_stage_inv; try done; stage_arith Hst.
  - apply (req_ok_response _ _ too_large); [done|tauto|refusal].
  - apply req_ok_plain; [done|done|]. by intros bd [= <-].
  - apply (req_ok_response _ _ (empty bad_request)); [done|tauto|refusal].
Qed.

Lemma on_drop_inv i p p' : pipe_inv p → on_drop i p = Some p' → pipe_inv p'.
Proof.
  intros Hinv H. pose proof (pi_sem _ Hinv) as Hs. pose proof (pi_limited _ Hinv) as Hlim.
  unfold on_drop in H. open_req H; pose proof (req_ok_of p i r Hinv Hi) as Hr;
    apply set_stage_inv; try done; stage_arith Hst; by apply req_ok_plain.
Qed.

Lemma on_finish_inv i handled p p' : pipe_inv p → on_finish i handled p = Some p' → pipe_inv p'.
Proof.
  intros Hinv H. unfold on_finish in H. pose proof (pi_sem _ Hinv) as Hs.
  pose proof (pi_limited _ Hinv) as [L1 L2].
  set (resp := match handled with Some resp => resp | None => timeout_response end).
  set (m0 := match handled with Some _ => gauges p | None => fetch_add TimedOut 1 (gauges p) end).
  assert (E0 : requests_active m0 = requests_active (gauges p) ∧
    requests_total m0 = requests_total (gauges p) ∧ responses_2xx m0 = responses_2xx (gauges p) ∧
    responses_4xx m0 = responses_4xx (gauges p) ∧ responses_5xx m0 = responses_5xx (gauges p) ∧
    rate_limited m0 = rate_limited (gauges p) ∧
    concurrency_limited m0 = concurrency_limited (gauges p)) by (unfold m0; by destruct handled).
  replace (match handled with Some resp => (resp, gauges p)
           | None => (timeout_response, fetch_add TimedOut 1 (gauges p)) end)
    with (resp, m0) in H by (by destruct handled).
  destruct (count_response_spec (status resp) m0) as (B2 & B4 & B5 & C2 & C3 & C4 & C5).
  destruct E0 as (A1 & A2 & A3 & A4 & A5 & A6 & A7). open_req H.
  pose proof (req_ok_of p i r Hinv Hi) as Hr.
  apply set_stage_inv; try done;
    unfold release, holds_permit, started, leaked, in_progress, answered, answered_with;
    cbn [rq_stage rq_id rq_headers]; rewrite ?Hst, ?logging_out_status; cbn [orb b2z]; simpl;
    rewrite ?B2, ?B4, ?B5, ?C2, ?C3, ?C4, ?C5, ?A1, ?A2, ?A3, ?A4, ?A5, ?A6, ?A7;
    eauto with pipe; try (f_equal; lia); try lia.
  by apply (req_ok_response _ _ resp); [|tauto|].
Qed.

Lemma pipe_exec_inv p e p' : pipe_inv p → pipe_step p e p' → pipe_inv p'.
Proof.
  unfold pipe_step. destruct e; simpl;
    eauto using on_start_inv, on_body_inv, on_finish_inv, on_drop_inv.
  - intros Hinv [= <-]. by apply on_arrive_inv.
  - intros [] [= <-]. by destruct rejected; split.
  - by intros [] [= <-]; split.
Qed.

Lemma pipe_reachable_inv rps p : 0 ≤ max_concurrent → pipe_reachable rps p → pipe_inv p.
Proof.
  intros Hmax [es Hrun]. eapply run_invariant; [|clear Hrun|exact Hrun].
  - intros a e b. apply pipe_exec_inv.
  - split; simpl; rewrite ?count_nil; try done. lia.
Qed.

(** *** Counters and arrivals *)

Lemma arrive_reqs ip c parts fresh p :
  ∃ r, reqs (on_arrive ip c parts fresh p) = reqs p ++ [r] ∧
       gauges (on_arrive ip c parts fresh p) = gauges p ∧
       rq_id r = request_id (p_headers parts) fresh.
Proof.
  unfold on_arrive. destruct (limiter_call _ _ _ _) as [[resp|] rl]; [by eexists|].
  destruct (concurrency_call _); by eexists.
Qed.

Lemma count_false {A} (l : list A) : count (λ _, false) l = 0.
Proof. induction l as [|x l IH]; [done|]. by rewrite count_cons, IH. Qed.

(** Lists on which two tests agree. *)
Lemma count_agree {A} (f g : A → bool) l : Forall (λ x, f x = g x) l → count f l = count g l.
Proof. induction 1 as [|x l Hx _ IH]; [done|]. by rewrite !count_cons, Hx, IH. Qed.

Lemma started_polled r : (polled r = true → started r = true) → started r = polled r.
Proof.
  unfold started, polled, in_progress, leaked, answered. destruct (rq_stage r); naive_solver.
Qed.

(** A counted window of statuses and a class of them, on one request. *)
Lemma answered_responded counted class r :
  (∀ resp, response_of r = Some resp → answered r && counted (status resp) = class (status resp)) →
  answered_with counted r = responded_with class r.
Proof.
  unfold answered_with, responded_with, answered, response_of.
  destruct (rq_stage r); try done; intros Hr; by rewrite <- (Hr _ eq_refl).
Qed.

Lemma class_count counted class rs :
  (∀ j r resp, rs !! j = Some r → response_of r = Some resp →
     answered r && counted (status resp) = class (status resp)) →
  count (answered_with counted) rs = count (responded_with class) rs.
Proof.
  intros Hc. apply count_agree, Forall_lookup. intros j r Hr. apply answered_responded. eauto.
Qed.

(** Only the end of a request's time counts as one. *)
Lemma pipe_timed_out rps es p :
  run pipe_step (pipe_init rps) es p → timed_out (gauges p) = wrap_u64 (count times_out es).
Proof.
  revert es p. apply (run_ind_r _ _ (λ es p, timed_out (gauges p) = wrap_u64 (count times_out es)));
    [done|].
  intros es p e p' _ IH Hs. rewrite count_app, count_cons, count_nil.
  assert (timed_out (gauges p') = wrap_u64 (timed_out (gauges p) + b2z (times_out e))) as ->.
  2: { rewrite IH, wrap_u64_add. f_equal. lia. }
  assert (Hsame : timed_out (gauges p) = wrap_u64 (timed_out (gauges p) + 0))
    by (by eapply same_counter).
  unfold pipe_step in Hs. destruct e as [ip c parts fresh|i|i b|i h|i|rejected|at_]; simpl in Hs.
  - injection Hs as <-. destruct (arrive_reqs ip c parts fresh p) as (r & _ & -> & _). exact Hsame.
  - unfold on_start in Hs. open_req Hs. by destruct (content_length_too_large _).
  - unfold on_body in Hs. open_req Hs. destruct b; [by destruct (_ <? _)|done].
  - unfold on_finish in Hs. destruct h; open_req Hs; unfold count_response; (destruct (_ <? 300); [|destruct (_ <? 500)]); simpl; done.
  - unfold on_drop in Hs. by open_req Hs.
  - injection Hs as <-. by destruct rejected.
  - by injection Hs as <-.
Qed.

(** The requests are those that arrived, under the identifiers given to them. *)
Lemma arrived_ids rps es p :
  run pipe_step (pipe_init rps) es p →
  map rq_id (reqs p) = map (λ a, request_id (p_headers a.1) a.2) (arrivals es).
Proof.
  revert es p. apply (run_ind_r _ _ (λ es p,
    map rq_id (reqs p) = map (λ a, request_id (p_headers a.1) a.2) (arrivals es))); [done|].
  intros es p e p' _ IH Hs. unfold arrivals. rewrite omap_app, map_app. fold (arrivals es).
  destruct (request_event e) as [i|] eqn:Ei.
  - destruct (request_step _ _ _ _ Ei Hs) as (r & st & sem' & m & Hr & _ & -> & _). simpl.
    destruct e; try done; simpl; rewrite app_nil_r, <- IH, list_fmap_insert; apply list_insert_id;
      by rewrite list_lookup_fmap, Hr.
  - unfold pipe_step in Hs. destruct e as [ip c parts fresh| | | | |rejected|at_]; try done;
      simpl in Hs; injection Hs as <-; simpl; rewrite <- IH, ?app_nil_r; [|done..].
    destruct (arrive_reqs ip c parts fresh p) as (r & -> & _ & E). by rewrite map_app, <- E.
Qed.

Lemma arrived rps es p i parts fresh :
  run pipe_step (pipe_init rps) es p → arrivals es !! i = Some (parts, fresh) →
  ∃ r, reqs p !! i = Some r ∧ rq_id r = request_id (p_headers parts) fresh.
Proof.
  intros Hrun%arrived_ids Hi. apply (f_equal (.!! i)) in Hrun.
  rewrite !list_lookup_fmap, Hi in Hrun. destruct (reqs p !! i) as [r|]; [|done].
  injection Hrun as E. by exists r.
Qed.

(** *** The rate limiter under the pipeline *)

(** What the events are to the limiter, and the peers of the requests in order of
    arrival. *)
Definition limiter_calls (es : list PipeEvent) : list (call (IpAddr := IpAddr)) :=
  omap (λ e, match e with
             | Arrive ip c _ _ => Some (Check ip c)
             | Evict at_ => Some (Sweep at_)
             | _ => None
             end) es.

Definition call_peers (ks : list (call (IpAddr := IpAddr))) : list IpAddr :=
  omap (λ k, match k with Check ip _ => Some ip | Sweep _ => None end) ks.

(** The requests of one address. *)
Definition requests_from (ip : IpAddr) (ks : list (call (IpAddr := IpAddr))) (rs : list Req)
    : list Req := (filter (λ x, x.1 = ip) (zip (call_peers ks) rs)).*2.

(** A request the limiter let through. *)
Definition let_through (r : Req) : bool :=
  match rq_stage r with Rejected resp => negb (status resp =? 429) | _ => true end.

Lemma on_arrive_limiter ip c parts fresh p :
  let p' := on_arrive ip c parts fresh p in
  limiter p' = (check instant_min ip c (limiter p)).2 ∧
  map let_through (reqs p') = map let_through (reqs p) ++ [(check instant_min ip c (limiter p)).1].
Proof.
  unfold on_arrive, limiter_call. destruct (check instant_min ip c (limiter p)) as [[|] rl]; simpl.
  - unfold concurrency_call. destruct (try_acquire (sem p)) as [q|]; simpl; rewrite map_app; [done|].
    split; [done|]. simpl. unfold let_through. simpl. by rewrite logging_out_status, service_unavailable_status.
  - rewrite map_app. split; [done|]. simpl. unfold let_through. simpl.
    by rewrite logging_out_status, too_many_requests_status.
Qed.

(** The limiter is called once for each request, in order of arrival. *)
Lemma pipe_limiter rps es p :
  run pipe_step (pipe_init rps) es p →
  limiter p = limiter_after instant_min (limiter_new rps) (limiter_calls es) ∧
  map let_through (reqs p) =
    omap (λ d, d) (decisions instant_min (limiter_new rps) (limiter_calls es)).
Proof.
  revert es p. apply (run_ind_r _ _ (λ es p,
    limiter p = limiter_after instant_min (limiter_new rps) (limiter_calls es) ∧
    map let_through (reqs p) =
      omap (λ d, d) (decisions instant_min (limiter_new rps) (limiter_calls es)))); [done|].
  intros es p e p' _ [IHl IHr] Hs. unfold limiter_calls. rewrite omap_app. fold (limiter_calls es).
  destruct (request_event e) as [i|] eqn:Ei.
  - destruct (request_step _ _ _ _ Ei Hs) as (r & st & sem' & m & Hr & Hh & -> & _ & Hst & _).
    destruct e; try done; simpl; rewrite app_nil_r; (split; [exact IHl|]); rewrite <- IHr;
      rewrite list_fmap_insert; apply list_insert_id; rewrite list_lookup_fmap, Hr; simpl; f_equal;
      unfold let_through, holds_permit in *; simpl; destruct (rq_stage r); try done; destruct st; done || by destruct (Hst resp).
  - destruct e as [ip c parts fresh| | | | |rejected|at_]; try done; unfold pipe_step in Hs; simpl in Hs;
      injection Hs as <-.
    + destruct (on_arrive_limiter ip c parts fresh p) as [-> ->]. cbn [omap list_omap].
      rewrite limiter_after_snoc, decisions_snoc, <- IHl, omap_app, <- IHr. simpl.
      by destruct (check instant_min ip c (limiter p)).
    + simpl. by rewrite app_nil_r.
    + simpl. rewrite limiter_after_snoc, decisions_snoc, <- IHl, omap_app, <- IHr. simpl.
      by rewrite app_nil_r.
Qed.

Lemma requests_from_decisions ip ks rl rs :
  map let_through rs = omap (λ d, d) (decisions instant_min rl ks) →
  map let_through (requests_from ip ks rs) = decisions_of ip ks (decisions instant_min rl ks).
Proof.
  revert rl rs. induction ks as [|[ip' c|at_] ks IH]; intros rl rs; simpl; [done| |by apply IH].
  destruct (check instant_min ip' c rl) as [d rl'] eqn:E. simpl. destruct rs as [|r rs]; [done|].
  intros [= Hr Hrs]. specialize (IH rl' rs Hrs). unfold requests_from in *. simpl.
  rewrite filter_cons. simpl. case_decide; [simpl; by f_equal|done].
Qed.

(** ** Theorems *)

(** C17: each address is held to a bucket of its own, in every interleaving: of the
    requests that arrived from it, in order, those the server lets past the limiter
    are exactly the ones a token bucket created full at the first of them and used
    by them only would admit, whatever other addresses and the eviction task do; the
    others are answered 429. *)
Theorem rate_limit_per_client rps t ip es p :
  1 ≤ rps ≤ u32_max → run pipe_step (pipe_init rps) es p → ordered t (limiter_calls es) →
  map let_through (requests_from ip (limiter_calls es) (reqs p)) =
    own_bucket_run rps (clocks_of ip (limiter_calls es)).
Proof.
  intros Hr Hrun Ho. destruct (pipe_limiter _ _ _ Hrun) as [_ Hd].
  rewrite (requests_from_decisions ip _ _ _ Hd), (decisions_new instant_min rps t), ideal_decisions_of
    by done. done.
Qed.

(** The concurrency limit holds in every interleaving: free permits and
    admitted requests always add up to the limit, so no more requests than that
    are ever past the limiter, and every way out of the pipeline, early returns
    and dropped connections included, gives the permit back. *)
Lemma concurrency_cap rps p :
  0 ≤ max_concurrent → pipe_reachable rps p →
  sem p + count holds_permit (reqs p) = max_concurrent ∧ 0 ≤ sem p ∧
  count handling (reqs p) ≤ max_concurrent.
Proof.
  intros Hmax [I1 I2 _ _ _ _ _]%pipe_reachable_inv; [|done]. split; [done|]. split; [done|].
  assert (count handling (reqs p) ≤ count holds_permit (reqs p)); [|lia].
  apply count_le. intros r. unfold handling, holds_permit. by destruct (rq_stage r).
Qed.

(** The gauge keeps every request that ever left by an early return (413, 400) or
    with its connection, and the two limiter counters stay at zero however many
    requests are turned away. *)
Lemma gauge_leaks rps p :
  0 ≤ max_concurrent → pipe_reachable rps p →
  requests_active (gauges p) = wrap_u64 (count in_progress (reqs p) + count leaked (reqs p)) ∧
  rate_limited (gauges p) = 0 ∧ concurrency_limited (gauges p) = 0.
Proof. intros Hmax Hinv%pipe_reachable_inv; [|done]. split; apply Hinv. Qed.

(** C28: the counters mean what they are documented to, in every interleaving and
    modulo 2^64: [timed_out] counts the requests whose time was up;
    [requests_total] the requests received that have been polled, if the limiters
    turned none away and none was dropped before that; [requests_active] those in progress, if none left by an early
    return or with its connection; and each class counter the responses given with
    a status of its class, if the responses of that class that bypass the counters
    (the limiters', the early returns') and the statuses of other classes that it
    takes in (1xx, redirects, 600 and over) do not occur. *)
Theorem counters_meaning rps es p :
  0 ≤ max_concurrent → run pipe_step (pipe_init rps) es p →
  let m := gauges p in
  let responses P := Forall (λ r, ∀ resp, response_of r = Some resp → P r (status resp)) (reqs p) in
  timed_out m = wrap_u64 (count times_out es) ∧
  (Forall (λ r, polled r = true → started r = true) (reqs p) →
   requests_total m = wrap_u64 (count polled (reqs p))) ∧
  (Forall (λ r, leaked r = false) (reqs p) →
   requests_active m = wrap_u64 (count in_progress (reqs p))) ∧
  (responses (λ r st, 200 ≤ st) →
   responses_2xx m = wrap_u64 (count (responded_with (within 200 300)) (reqs p))) ∧
  (responses (λ r st, 300 ≤ st < 500 → answered r = true ∧ 400 ≤ st) →
   responses_4xx m = wrap_u64 (count (responded_with (within 400 500)) (reqs p))) ∧
  (responses (λ r st, 500 ≤ st → answered r = true ∧ st < 600) →
   responses_5xx m = wrap_u64 (count (responded_with (within 500 600)) (reqs p))).
Proof.
  intros Hmax Hrun m responses.
  assert (Hinv : pipe_inv p) by (eapply pipe_reachable_inv; [done|by eexists]).
  split; [by eapply pipe_timed_out|]. unfold m, responses.
  rewrite (pi_total _ Hinv), (pi_active _ Hinv), (pi_2xx _ Hinv), (pi_4xx _ Hinv), (pi_5xx _ Hinv).
  pose proof (pi_reqs _ Hinv) as Hok.
  split_and!; intros HF; f_equal; [| |apply class_count; intros j r resp Hr E;
    pose proof (Forall_lookup_1 _ _ _ _ HF Hr resp E) as Hc; unfold within in *..].
  - apply count_agree. eapply Forall_impl; [exact HF|]. apply started_polled.
  - rewrite (count_agree leaked (λ _, false)) by done. rewrite count_false. lia.
  - destruct (answered r) eqn:Ea; [lia|]. pose proof (Forall_lookup_1 _ _ _ _ Hok Hr) as [Hf _].
    unfold response_of, answered in *. destruct (rq_stage r); simplify_eq/=; lia.
  - destruct (answered r); naive_solver lia.
  - destruct (answered r); naive_solver lia.
Qed.

(** C29: every response, of the limiters and the early returns too, carries exactly
    one [x-request-id], and the handler sees the same: the client's own when it sent
    a readable one, a fresh identifier when it sent none. *)
Theorem request_id_echoed rps es p i parts fresh :
  0 ≤ max_concurrent → run pipe_step (pipe_init rps) es p →
  arrivals es !! i = Some (parts, fresh) → hv_valid fresh = true →
  ∃ r rid, reqs p !! i = Some r ∧
    (∀ v, header_get (p_headers parts) "x-request-id" = Some v → hv_to_str_ok v = true → rid = v) ∧
    (header_get (p_headers parts) "x-request-id" = None → rid = fresh) ∧
    header_get_all (rq_headers r) "x-request-id" = [rid] ∧
    ∀ resp, response_of r = Some resp → header_get_all (headers resp) "x-request-id" = [rid].
Proof.
  intros Hmax Hrun Hi Hv.
  assert (Hinv : pipe_inv p) by (eapply pipe_reachable_inv; [done|by eexists]).
  destruct (arrived _ _ _ _ _ _ Hrun Hi) as (r & Hr & Eid).
  destruct (req_ok_of p i r Hinv Hr) as (_ & H1 & H2 & _).
  assert (Hid : hv_valid (rq_id r) = true).
  { rewrite Eid. unfold request_id. destruct (header_get _ _) as [v|]; [|done]. simpl.
    destruct (hv_to_str_ok v) eqn:E; [by apply hv_to_str_valid|done]. }
  exists r, (rq_id r). split; [done|]. split; [|split; [|split; [by apply H2|auto]]];
    rewrite Eid; unfold request_id.
  - intros v -> Hok. simpl. by rewrite Hok.
  - by intros ->.
Qed.

(** C30: no handler is ever given a body longer than the configured maximum,
    whether the length was declared or not. *)
Theorem body_limit rps p i r bd :
  0 ≤ max_concurrent → pipe_reachable rps p → reqs p !! i = Some r → rq_stage r = Handling bd →
  byte_len bd ≤ max_body.
Proof.
  intros Hmax Hinv%pipe_reachable_inv Hi Hst; [|done].
  destruct (req_ok_of p i r Hinv Hi) as (_ & _ & _ & H3). by apply H3.
Qed.

Fixpoint pipe_all (p : Pipe) (es : list PipeEvent) : option Pipe :=
  match es with
  | [] => Some p
  | e :: es' => p' ← pipe_exec p e; pipe_all p' es'
  end.

Lemma pipe_all_run es p p' : pipe_all p es = Some p' → run pipe_step p es p'.
Proof.
  revert p. induction es as [|e es IH]; intros p; simpl; [intros [= ->]; constructor|].
  destruct (pipe_exec p e) as [p1|] eqn:E; [|done]. intros H. econstructor; [exact E|by apply IH].
Qed.

End Pipeline.

(** ** The connection loop

    One connection's [select!] loop.  The arms are polled in order, the connection
    first; those for the shutdown value and the keep-alive timer are disabled once
    the graceful shutdown has begun. *)

(** Why a connection is over: its own future completed; its timer fired; or the
    runtime dropped its task at an await, which no poll does. *)
Inductive CloseReason : Type := Completed | KeepAliveTimeout | Dropped.

Record Conn : Type := mkConn {
  graceful : bool;
  closed : option CloseReason;
}.

Definition conn_init : Conn := mkConn false None.

(** One poll of the loop: the clock; whether the connection future completes; and
    what [shutdown_rx.changed()] completes with, if it does, the value then
    borrowed ([None]: pending). *)
Record Poll : Type := mkPoll {
  now : Z;
  conn_done : bool;
  shutdown : option bool;
}.

Section ConnLoop.
(** [ka_timeout] completes from this instant on: the connection's start plus
    [keep_alive_timeout_secs]. *)
Context (deadline : Z).

Definition conn_step (c : Conn) (e : Poll) : Conn :=
  match closed c with
  | Some _ => c
  | None =>
      if conn_done e then mkConn (graceful c) (Some Completed)
      else if graceful c then c
      else match shutdown e with
           | Some value => if value then mkConn true None else c
           | None => if deadline <=? now e then mkConn false (Some KeepAliveTimeout) else c
           end
  end.

Definition conn_run (c : Conn) (es : list Poll) : Conn := fold_left conn_step es c.

(** A poll that finds the connection pending and no news of a shutdown. *)
Definition quiet_poll (e : Poll) : Prop := conn_done e = false ∧ shutdown e = None.

Lemma conn_run_closed es c r : closed c = Some r → conn_run c es = c.
Proof.
  intros Hc. induction es as [|e es IH]; [done|]. simpl.
  assert (E : conn_step c e = c) by (unfold conn_step; by rewrite Hc). by rewrite E.
Qed.

Lemma conn_run_graceful es c :
  graceful c = true → closed c = None →
  closed (conn_run c es) = if existsb conn_done es then Some Completed else None.
Proof.
  revert c. induction es as [|e es IH]; intros c Hg Hc; [done|]. simpl.
  unfold conn_step. rewrite Hc, Hg. destruct (conn_done e); [|by apply IH].
  by erewrite conn_run_closed by done.
Qed.

Lemma conn_run_app es es' c : conn_run c (es ++ es') = conn_run (conn_run c es) es'.
Proof. apply fold_left_app. Qed.

Lemma conn_run_quiet es :
  Forall quiet_poll es → Forall (λ e, now e < deadline) es → conn_run conn_init es = conn_init.
Proof.
  intros HF Hn. induction HF as [|e es [Hd Hs] HF IH]; [done|]. inversion Hn; subst. simpl.
  unfold conn_step. simpl. rewrite Hd, Hs. replace (deadline <=? now e) with false; [by apply IH|].
  symmetry. apply Z.leb_gt. lia.
Qed.

(** A graceful shutdown is graceful: once a connection has seen the signal
    before its keep-alive deadline, it is closed when, and only when, its own
    future completes, never by the timer, however long its last requests take. *)
Lemma graceful_never_cut es e es' :
  Forall quiet_poll es → Forall (λ e, now e < deadline) es →
  conn_done e = false → shutdown e = Some true →
  closed (conn_run conn_init (es ++ e :: es')) =
    if existsb conn_done es' then Some Completed else None.
Proof.
  intros HF Hn Hd Hs. rewrite conn_run_app, conn_run_quiet by done. simpl.
  unfold conn_step. simpl. rewrite Hd, Hs. by apply conn_run_graceful.
Qed.

(** The keep-alive timer is a lifetime, not an idle timeout: nothing in the loop
    re-arms it, so a connection that is still pending when it is first polled at
    or after the deadline is cut, whatever requests it has in progress. *)
Lemma keep_alive_is_lifetime es e :
  Forall quiet_poll es → Forall (λ e, now e < deadline) es → quiet_poll e → deadline ≤ now e →
  closed (conn_run conn_init (es ++ [e])) = Some KeepAliveTimeout.
Proof.
  intros HF Hn [Hd Hs] Hdl. rewrite conn_run_app, conn_run_quiet by done. simpl.
  unfold conn_step. simpl. rewrite Hd, Hs.
  by replace (deadline <=? now e) with true by (symmetry; by apply Z.leb_le).
Qed.

(** If the sender is dropped without having sent [true], [changed()] completes at
    every poll, and the arm below it is never reached: the timer no longer closes
    the connection. *)
Lemma dropped_sender_disarms es :
  Forall (λ e, shutdown e = Some false) es →
  closed (conn_run conn_init es) ≠ Some KeepAliveTimeout.
Proof.
  intros HF. assert (Hg : ∀ c, closed c = None → graceful c = false →
    closed (conn_run c es) ≠ Some KeepAliveTimeout); [|by apply Hg].
  induction HF as [|e es Hs HF IH]; intros c Hc Hg; simpl; [congruence|].
  unfold conn_step. rewrite Hc, Hg, Hs. destruct (conn_done e); [|by apply IH].
  by erewrite conn_run_closed by done.
Qed.

End ConnLoop.

(** ** Instances *)

Definition sample_clock (t : Z) : Clock := mkClock t t t.

Definition ip1 : IpAddr := V4 127 0 0 1.

Definition sample_parts (hs : HeaderMap) : Parts := mkParts "POST" (mkUri "/" None) hs.

(** Limit of one request at a time: the first is handled, the second turned away,
    and a third is too large. *)
Definition sample_events : list PipeEvent :=
  [Arrive ip1 (sample_clock 0) (sample_parts [("x-request-id", "abc")]) "u0";
   Start 0; Body 0 (Some "hi");
   Arrive ip1 (sample_clock 1) (sample_parts []) "u1";
   Finish 0 (Some (mkResponse 200 [] (FullBody "ok")));
   Arrive ip1 (sample_clock 2) (sample_parts [("content-length", "99")]) "u2";
   Start 2].

Definition sample_pipe : Pipe :=
  default (pipe_init 1 100) (pipe_all (HC := http_crate_ascii) 0 10 (pipe_init 1 100) sample_events).

Lemma sample_run :
  run (pipe_step (HC := http_crate_ascii) 0 10) (pipe_init 1 100) sample_events sample_pipe.
Proof. apply pipe_all_run. by vm_compute. Qed.

(** One early return, and the gauge never comes back to zero. *)
Example gauge_leaks_example :
  requests_active (gauges sample_pipe) = 1 ∧ count in_progress (reqs sample_pipe) = 0 ∧
  rate_limited (gauges sample_pipe) = 0.
Proof. by vm_compute. Qed.

(** Two requests answered, one of them late, and one at work. *)
Definition regular_events : list PipeEvent :=
  [Arrive ip1 (sample_clock 0) (sample_parts [("x-request-id", "abc")]) "u0";
   Start 0; Body 0 (Some "hi");
   Arrive ip1 (sample_clock 1) (sample_parts []) "u1"; Start 1;
   Finish 0 (Some (mkResponse 404 [] (FullBody "no"))); Body 1 (Some "");
   Arrive ip1 (sample_clock 2) (sample_parts []) "u2"; Start 2; Finish 1 None].

Definition regular_pipe : Pipe :=
  default (pipe_init 9 100) (pipe_all (HC := http_crate_ascii) 0 10 (pipe_init 9 100) regular_events).

Lemma regular_run :
  run (pipe_step (HC := http_crate_ascii) 0 10) (pipe_init 9 100) regular_events regular_pipe.
Proof. apply pipe_all_run. by vm_compute. Qed.

Lemma counters_meaning_witness :
  let m := gauges regular_pipe in
  timed_out m = 1 ∧ requests_total m = 3 ∧ requests_active m = 1 ∧
  responses_2xx m = 0 ∧ responses_4xx m = 1 ∧ responses_5xx m = 1.
Proof.
  cbv zeta. destruct (counters_meaning (HC := http_crate_ascii) 0 10 9 100 regular_events regular_pipe
    ltac:(done) regular_run) as (-> & -> & -> & -> & -> & ->); [by vm_compute|..].
  all: match goal with |- Forall _ ?l => let l' := eval vm_compute in l in change l with l' end.
  all: repeat first [apply Forall_nil_2
    | apply Forall_cons_2; [simpl; first [done | intros ? [= <-]; simpl; by (lia || split)]|]].
Defined.

Lemma request_id_echoed_witness :
  ∃ r, reqs sample_pipe !! 0%nat = Some r ∧
    header_get_all (rq_headers r) "x-request-id" = ["abc"] ∧
    ∀ resp, response_of r = Some resp → header_get_all (headers resp) "x-request-id" = ["abc"].
Proof.
  destruct (request_id_echoed (HC := http_crate_ascii) 0 10 1 100 sample_events sample_pipe 0
    (sample_parts [("x-request-id", "abc")]) "u0") as (r & rid & Hr & Hv & _ & H1 & H2).
  - done.
  - exact sample_run.
  - done.
  - by vm_compute.
  - assert (rid = "abc") as -> by (apply Hv; [reflexivity|by vm_compute]).
    exists r. exact (conj Hr (conj H1 H2)).
Defined.

Lemma body_limit_witness :
  let p := default (pipe_init 1 100) (pipe_all (HC := http_crate_ascii) 0 10 (pipe_init 1 100)
             (take 3 sample_events)) in
  (rq_stage <$> reqs p !! 0%nat) = Some (Handling "hi") ∧ byte_len "hi" ≤ 10.
Proof.
  intros p. split; [by vm_compute|].
  apply (body_limit (HC := http_crate_ascii) 0 10 1 100 p 0
           (mkReq "abc" (sample_parts [("x-request-id", "abc")]) (Handling "hi")) "hi");
    [done| |by vm_compute|done].
  exists (take 3 sample_events). apply pipe_all_run. by vm_compute.
Defined.

Example graceful_never_example :
  closed (conn_run 75 conn_init
    ([mkPoll 0 false None] ++ mkPoll 10 false (Some true) :: [mkPoll 500 false None])) = None ∧
  closed (conn_run 75 conn_init
    ([mkPoll 0 false None] ++ mkPoll 10 false (Some true) ::
     [mkPoll 500 false None; mkPoll 501 true None])) = Some Completed.
Proof.
  split.
  - apply (graceful_never_cut 75 [mkPoll 0 false None] (mkPoll 10 false (Some true))
             [mkPoll 500 false None]); [by apply Forall_singleton|by apply Forall_singleton|done|done].
  - apply (graceful_never_cut 75 [mkPoll 0 false None] (mkPoll 10 false (Some true))
             [mkPoll 500 false None; mkPoll 501 true None]);
      [by apply Forall_singleton|by apply Forall_singleton|done|done].
Defined.

(** One request a second for each address: the second of two at once is refused,
    the other address's is not. *)
Definition two_peers : list PipeEvent :=
  [Arrive ip1 (sample_clock 5) (sample_parts []) "a"; Arrive ip1 (sample_clock 5) (sample_parts []) "b";
   Evict 6; Arrive (V4 10 0 0 2) (sample_clock 7) (sample_parts []) "c"].

Lemma rate_limit_per_client_witness :
  own_bucket_run 1 (clocks_of ip1 (limiter_calls two_peers)) = [true; false] ∧
  ∃ p, map let_through (requests_from ip1 (limiter_calls two_peers) (reqs p)) =
    own_bucket_run 1 (clocks_of ip1 (limiter_calls two_peers)).
Proof.
  split; [by vm_compute|].
  exists (default (pipe_init 9 1) (pipe_all (HC := http_crate_ascii) 0 10 (pipe_init 9 1) two_peers)).
  apply (rate_limit_per_client (HC := http_crate_ascii) 0 10 9 1 5); [done| |by vm_compute].
  apply pipe_all_run. by vm_compute.
Defined.
