(* ===== verification/Tower.v ===== *)
(** * The Tower stack ([src/src/middleware/], [handle_connection])

    Services, layers and the futures their calls give, as the three middleware files
    define them and [handle_connection] stacks them with [ServiceBuilder]; a machine
    that keeps those futures; and that it is [Connection.Pipe], where the stack is
    flattened: every response of the pipeline is what the stack's future resolves
    to, with one log record. *)
From S2P Require Import Prelude RustStr HttpTypes Response Net Metrics RateLimiter Semaphore Connection.
Local Open Scope Z_scope.

Section Tower.
Context `{HC : HttpCrate} (instant_min max_body max_concurrent : Z).

(** ** Services and layers *)

(** What the layers share with those of other connections. *)
Record Shared : Type := mkShared {
  sh_sem : Z;
  sh_limiter : RateLimiter (IpAddr := IpAddr);
}.

(** What a call reads: [Instant::now] when logging starts, the UUID it would draw,
    and the clock of the rate limiter. *)
Record CallEnv : Type := mkCallEnv {
  ce_start : Z;
  ce_fresh : string;
  ce_clock : Clock;
}.

(** The fields of [info!]. *)
Record LogRecord : Type := mkLog {
  lr_peer : SocketAddr;
  lr_method : string;
  lr_path : string;
  lr_status : Z;
  lr_latency_ms : Z;
  lr_request_id : string;
}.

(** The futures of the stack: [future::ready], the inner service's block, and the
    blocks of the concurrency limiter and of logging around another future, with
    what they captured. *)
Inductive Future : Type :=
| Ready (resp : HttpResponse)
| InnerCall (parts : Parts)
| WithPermit (fut : Future)
| Logged (start : Z) (peer : SocketAddr) (method path request_id : string) (fut : Future).

Record Service : Type := mkService {
  poll_ready : bool;
  svc_call : CallEnv → Parts → Shared → Future * Shared;
}.

Definition Layer : Type := Service → Service.

(** [tower::service_fn], always ready. *)
Definition service_fn : Service := mkService true (λ _ parts sh, (InnerCall parts, sh)).

Definition LoggingLayer (peer : SocketAddr) : Layer := λ inner, mkService (poll_ready inner)
  (λ ce parts sh,
     let rid := request_id (p_headers parts) (ce_fresh ce) in
     let '(fut, sh) :=
       svc_call inner ce (with_headers parts (logging_in (p_headers parts) rid)) sh in
     (Logged (ce_start ce) peer (p_method parts) (uri_path (p_uri parts)) rid fut, sh)).

Definition RateLimiterLayer (ip : IpAddr) : Layer := λ inner, mkService (poll_ready inner)
  (λ ce parts sh,
     let '(allowed, rl) := check instant_min ip (ce_clock ce) (sh_limiter sh) in
     let sh := mkShared (sh_sem sh) rl in
     if negb allowed then (Ready too_many_requests, sh) else svc_call inner ce parts sh).

Definition ConcurrencyLimiterLayer : Layer := λ inner, mkService (poll_ready inner)
  (λ ce parts sh,
     match try_acquire (sh_sem sh) with
     | Some permits =>
         let '(fut, sh) := svc_call inner ce parts (mkShared permits (sh_limiter sh)) in
         (WithPermit fut, sh)
     | None => (Ready service_unavailable, sh)
     end).

(** [ServiceBuilder]: the first layer is the outermost. *)
Definition service_builder (layers : list Layer) (s : Service) : Service :=
  foldr (λ layer s, layer s) s layers.

Definition tower_stack (peer : SocketAddr) : Service :=
  service_builder [LoggingLayer peer; RateLimiterLayer (sa_ip peer); ConcurrencyLimiterLayer]
    service_fn.

(** ** Futures *)

(** [elapsed().as_millis()]. *)
Definition elapsed_ms (start now : Z) : Z := Z.max 0 (now - start) / 1000000.

(** What a future gives and logs, once the inner block has returned [inner]. *)
Fixpoint resolve (now : Z) (inner : HttpResponse) (fut : Future) : HttpResponse * list LogRecord :=
  match fut with
  | Ready resp => (resp, [])
  | InnerCall _ => (inner, [])
  | WithPermit fut => resolve now inner fut
  | Logged start peer m p rid fut =>
      let '(resp, log) := resolve now inner fut in
      (logging_out rid resp, log ++ [mkLog peer m p (status resp) (elapsed_ms start now) rid])
  end.

(** The permits it holds until it completes or is dropped. *)
Fixpoint permits_of (fut : Future) : Z :=
  match fut with
  | Ready _ | InnerCall _ => 0
  | WithPermit fut => 1 + permits_of fut
  | Logged _ _ _ _ _ fut => permits_of fut
  end.

(** The head of the request its inner block was given, if it has one. *)
Fixpoint inner_parts (fut : Future) : option Parts :=
  match fut with
  | Ready _ => None
  | InnerCall parts => Some parts
  | WithPermit fut | Logged _ _ _ _ _ fut => inner_parts fut
  end.

(** ** The inner block

    Where it stands, and its stretches between two awaits: it returns a response or
    goes on. *)
Inductive InnerState : Type :=
| ISuspended
| IBody
| IHandler (bd : string).

Definition inner_start (parts : Parts) (m : Metrics) : Metrics * (HttpResponse + InnerState) :=
  (fetch_add RequestsActive 1 (fetch_add RequestsTotal 1 m),
   if content_length_too_large max_body (p_headers parts) then inl too_large else inr IBody).

Definition inner_body (collected : option string) : HttpResponse + InnerState :=
  match collected with
  | Some bytes => if max_body <? byte_len bytes then inl too_large else inr (IHandler bytes)
  | None => inl (empty bad_request)
  end.

Definition inner_finish (handled : option HttpResponse) (m : Metrics) : Metrics * HttpResponse :=
  let '(resp, m) := match handled with
                    | Some resp => (resp, m)
                    | None => (timeout_response, fetch_add TimedOut 1 m)
                    end in
  (fetch_add RequestsActive (-1) (count_response (status resp) m), resp).

(** ** The machine *)

Inductive TaskState : Type :=
| Running (st : InnerState)
| Resolved (resp : HttpResponse) (log : list LogRecord)
| Gone.

Record Entry : Type := mkEntry {
  en_future : Future;
  en_state : TaskState;
}.

Record Tower : Type := mkTower {
  tw_shared : Shared;
  tw_metrics : Metrics;
  tw_entries : list Entry;
}.

Definition tower_init (rps : Z) : Tower :=
  mkTower (mkShared max_concurrent (limiter_new rps)) metrics_new [].

(** The events of the pipeline, with the peer and the instants that are logged. *)
Inductive TowerEvent : Type :=
| TArrive (peer : SocketAddr) (ce : CallEnv) (parts : Parts)
| TStart (i : nat) (now : Z)
| TBody (i : nat) (collected : option string) (now : Z)
| TFinish (i : nat) (handled : option HttpResponse) (now : Z)
| TDrop (i : nat)
| TPeer (rejected : bool)
| TEvict (at_ : Z).

(** A call of the stack; a future without an inner block resolves at once. *)
Definition tower_arrive (peer : SocketAddr) (ce : CallEnv) (parts : Parts) (t : Tower) : Tower :=
  let '(fut, sh) := svc_call (tower_stack peer) ce parts (tw_shared t) in
  let st := match inner_parts fut with
            | Some _ => Running ISuspended
            | None => let '(resp, log) := resolve (ce_start ce) (response_new (full_body "")) fut in
                      Resolved resp log
            end in
  mkTower sh (tw_metrics t) (tw_entries t ++ [mkEntry fut st]).

Definition release_permits (n : Z) (sh : Shared) : Shared :=
  mkShared (sh_sem sh + n) (sh_limiter sh).

(** The inner block returned, or goes on. *)
Definition continue (i : nat) (fut : Future) (now : Z) (m : Metrics)
    (r : HttpResponse + InnerState) (t : Tower) : Tower :=
  match r with
  | inl inner =>
      let '(resp, log) := resolve now inner fut in
      mkTower (release_permits (permits_of fut) (tw_shared t)) m
        (<[i := mkEntry fut (Resolved resp log)]> (tw_entries t))
  | inr st => mkTower (tw_shared t) m (<[i := mkEntry fut (Running st)]> (tw_entries t))
  end.

Definition tower_exec (t : Tower) (e : TowerEvent) : option Tower :=
  match e with
  | TArrive peer ce parts => Some (tower_arrive peer ce parts t)
  | TStart i now =>
      en ← tw_entries t !! i;
      match en_state en, inner_parts (en_future en) with
      | Running ISuspended, Some parts =>
          let '(m, r) := inner_start parts (tw_metrics t) in
          Some (continue i (en_future en) now m r t)
      | _, _ => None
      end
  | TBody i collected now =>
      en ← tw_entries t !! i;
      match en_state en with
      | Running IBody =>
          Some (continue i (en_future en) now (tw_metrics t) (inner_body collected) t)
      | _ => None
      end
  | TFinish i handled now =>
      en ← tw_entries t !! i;
      match en_state en with
      | Running (IHandler _) =>
          let '(m, inner) := inner_finish handled (tw_metrics t) in
          Some (continue i (en_future en) now m (inl inner) t)
      | _ => None
      end
  | TDrop i =>
      en ← tw_entries t !! i;
      match en_state en with
      | Running _ =>
          Some (mkTower (release_permits (permits_of (en_future en)) (tw_shared t)) (tw_metrics t)
                  (<[i := mkEntry (en_future en) Gone]> (tw_entries t)))
      | _ => None
      end
  | TPeer rejected =>
      Some (mkTower (tw_shared t)
              (fetch_add (if rejected then ConnectionsRejectedIp else ConnectionsAccepted) 1
                 (tw_metrics t)) (tw_entries t))
  | TEvict at_ =>
      Some (mkTower (mkShared (sh_sem (tw_shared t))
                       (evict_stale instant_min at_ (sh_limiter (tw_shared t))))
              (tw_metrics t) (tw_entries t))
  end.

Fixpoint tower_all (t : Tower) (es : list TowerEvent) : option Tower :=
  match es with
  | [] => Some t
  | e :: es' => t' ← tower_exec t e; tower_all t' es'
  end.

(** ** Specification *)

(** The event of the pipeline. *)
Definition pipe_event (e : TowerEvent) : PipeEvent :=
  match e with
  | TArrive peer ce parts => Arrive (sa_ip peer) (ce_clock ce) parts (ce_fresh ce)
  | TStart i _ => Start i
  | TBody i collected _ => Body i collected
  | TFinish i handled _ => Finish i handled
  | TDrop i => Drop i
  | TPeer rejected => Peer rejected
  | TEvict at_ => Evict at_
  end.

(** The one record of a response given to a request, with the peer its future was
    called for. *)
Definition logged_once (fut : Future) (r : Req) (resp : HttpResponse) (log : list LogRecord) : Prop :=
  ∃ start peer m p rid fut' ms, fut = Logged start peer m p rid fut' ∧ 0 ≤ ms ∧
    log = [mkLog peer (p_method (rq_parts r)) (uri_path (p_uri (rq_parts r))) (status resp) ms (rq_id r)].

(** A future and its state, and the request of the pipeline they stand for. *)
Definition entry_ok (en : Entry) (r : Req) : Prop :=
  (∃ start peer, en_future en =
     Logged start peer (p_method (rq_parts r)) (uri_path (p_uri (rq_parts r))) (rq_id r)
       (WithPermit (InnerCall (rq_parts r))) ∨ ∃ refusal, en_future en =
     Logged start peer (p_method (rq_parts r)) (uri_path (p_uri (rq_parts r))) (rq_id r) (Ready refusal)) ∧
  match en_state en with
  | Running st =>
      inner_parts (en_future en) = Some (rq_parts r) ∧
      rq_stage r = match st with ISuspended => Unpolled | IBody => Collecting | IHandler bd => Handling bd end
  | Resolved resp log => response_of r = Some resp ∧ logged_once (en_future en) r resp log
  | Gone => lost (rq_stage r) = true
  end.

Record tower_ok (t : Tower) (p : Pipe) : Prop := {
  to_sem : sh_sem (tw_shared t) = sem p;
  to_limiter : sh_limiter (tw_shared t) = limiter p;
  to_metrics : tw_metrics t = gauges p;
  to_entries : Forall2 entry_ok (tw_entries t) (reqs p);
}.

(** ** Lemmas *)

Lemma logging_out_logged r resp peer start now m p rid fut :
  logged_once (Logged start peer m p rid fut) r (logging_out (rq_id r) resp)
    [mkLog peer (p_method (rq_parts r)) (uri_path (p_uri (rq_parts r))) (status resp)
       (elapsed_ms start now) (rq_id r)].
Proof.
  eexists start, peer, m, p, rid, fut, (elapsed_ms start now). split; [done|]. split.
  - unfold elapsed_ms. apply Z.div_pos; lia.
  - unfold logging_out. by destruct (hv_valid _).
Qed.

(** The future of a request that was admitted. *)
Lemma running_future en r st :
  entry_ok en r → en_state en = Running st →
  inner_parts (en_future en) = Some (rq_parts r) ∧ permits_of (en_future en) = 1 ∧
  (∀ now inner, ∃ log, resolve now inner (en_future en) = (logging_out (rq_id r) inner, log) ∧
     logged_once (en_future en) r (logging_out (rq_id r) inner) log) ∧
  rq_stage r = match st with ISuspended => Unpolled | IBody => Collecting | IHandler bd => Handling bd end.
Proof.
  intros [(start & peer & Hf) Hst] Es. rewrite Es in Hst. destruct Hst as [Hp Hs].
  destruct Hf as [Hf|[resp Hf]]; rewrite Hf in *; [|done].
  repeat split; try done. intros now inner. eexists. split; [done|apply logging_out_logged].
Qed.

(** A state of an entry that goes with a stage of its request. *)
Lemma entry_update en r st stage :
  entry_ok en r →
  match st with
  | Running st => inner_parts (en_future en) = Some (rq_parts r) ∧
      stage = match st with ISuspended => Unpolled | IBody => Collecting | IHandler bd => Handling bd end
  | Resolved resp log =>
      response_of (mkReq (rq_id r) (rq_parts r) stage) = Some resp ∧ logged_once (en_future en) r resp log
  | Gone => lost stage = true
  end →
  entry_ok (mkEntry (en_future en) st) (mkReq (rq_id r) (rq_parts r) stage).
Proof. intros [Hf _] Hst. by split. Qed.

Lemma tower_ok_set t p i en r st stage sem' m :
  tower_ok t p → reqs p !! i = Some r → entry_ok (mkEntry (en_future en) st) (mkReq (rq_id r) (rq_parts r) stage) →
  tower_ok (mkTower (mkShared sem' (sh_limiter (tw_shared t))) m
              (<[i := mkEntry (en_future en) st]> (tw_entries t)))
           (set_stage i r stage sem' m p).
Proof. intros [H1 H2 H3 H4] Hr Hen. split; simpl; try done. by apply Forall2_insert. Qed.

(** The inner block of a running entry goes on or returns. *)
Lemma continue_ok t p i en r st now m out stage :
  tower_ok t p → reqs p !! i = Some r → entry_ok en r → en_state en = Running st →
  match out with
  | inl inner => response_of (mkReq (rq_id r) (rq_parts r) stage) = Some (logging_out (rq_id r) inner)
  | inr st' =>
      stage = match st' with ISuspended => Unpolled | IBody => Collecting | IHandler bd => Handling bd end
  end →
  tower_ok (continue i (en_future en) now m out t)
    (set_stage i r stage (match out with inl _ => release (sem p) | inr _ => sem p end) m p).
Proof.
  intros Hok Hr Hen Es Hst. destruct (running_future _ _ _ Hen Es) as (Hp & H1 & Hres & _).
  unfold continue. destruct out as [inner|st'].
  - destruct (Hres now inner) as (log & -> & Hlog). rewrite H1, <- (to_sem _ _ Hok).
    apply tower_ok_set; [done..|]. by apply entry_update.
  - destruct (tw_shared t) as [sm rl] eqn:Esh. rewrite <- (to_sem _ _ Hok), Esh.
    replace rl with (sh_limiter (tw_shared t)) by (by rewrite Esh).
    apply tower_ok_set; [done..|]. by apply entry_update.
Qed.

(** Calling the stack is the arrival of the pipeline. *)
Lemma arrive_ok t p peer ce parts :
  tower_ok t p →
  tower_ok (tower_arrive peer ce parts t)
    (on_arrive instant_min (sa_ip peer) (ce_clock ce) parts (ce_fresh ce) p).
Proof.
  intros [H1 H2 H3 H4]. unfold tower_arrive, tower_stack, service_builder, on_arrive.
  cbn [foldr LoggingLayer RateLimiterLayer ConcurrencyLimiterLayer svc_call service_fn].
  unfold limiter_call, concurrency_call. rewrite <- H2.
  destruct (check instant_min _ _ _) as [[|] rl]; cbn [negb sh_sem sh_limiter].
  - rewrite H1. destruct (try_acquire (sem p)) as [n|]; cbn [inner_parts resolve].
    + split; simpl; try done. apply Forall2_app; [done|]. constructor; [|done].
      split; [|done]. eexists _, _. by left.
    + split; simpl; try done. apply Forall2_app; [done|]. constructor; [|done].
      split; [eexists _, _; right; by eexists|]. split; [done|].
      exact (logging_out_logged (mkReq _ _ _) service_unavailable _ _ _ _ _ _ _).
  - cbn [inner_parts resolve]. split; simpl; try done. apply Forall2_app; [done|]. constructor; [|done].
    split; [eexists _, _; right; by eexists|]. split; [done|].
    exact (logging_out_logged (mkReq _ _ _) too_many_requests _ _ _ _ _ _ _).
Qed.

(** One event, on both machines. *)
Definition same_step (t : option Tower) (p : option Pipe) : Prop :=
  match t, p with Some t, Some p => tower_ok t p | None, None => True | _, _ => False end.

(** The entry of an event on one request. *)
Lemma entry_cases t p i :
  tower_ok t p →
  match tw_entries t !! i, reqs p !! i with
  | Some en, Some r => entry_ok en r
  | None, None => True
  | _, _ => False
  end.
Proof.
  intros [_ _ _ HF]. destruct (tw_entries t !! i) as [en|] eqn:Een.
  - destruct (Forall2_lookup_l _ _ _ _ _ HF Een) as (r & -> & H). exact H.
  - apply lookup_ge_None in Een. rewrite (Forall2_length _ _ _ HF) in Een.
    by rewrite lookup_ge_None_2.
Qed.

(** An entry that does not run stands for a request that is over. *)
Lemma over_stage en r :
  entry_ok en r → (∀ st, en_state en ≠ Running st) → holds_permit r = false.
Proof.
  intros [_ Hst] Hno. unfold holds_permit. destruct (en_state en) as [st|resp log|].
  - by destruct (Hno st).
  - destruct Hst as [Hr _]. unfold response_of in Hr. by destruct (rq_stage r).
  - by destruct (rq_stage r).
Qed.

(** Opens an event on one request: both machines look it up, and both need it to
    run. *)
Ltac open_entry Hok i :=
  let H := fresh "H" in
  pose proof (entry_cases _ _ i Hok) as H;
  destruct (tw_entries _ !! i) as [en|] eqn:Een, (reqs _ !! i) as [r|] eqn:Er; try done;
  cbn [mbind option_bind];
  let st := fresh "st" in
  destruct (en_state en) as [st| |] eqn:Est;
  [ destruct (running_future _ _ _ H Est) as (Hparts & Hpermits & _ & Hstage); rewrite Hstage
  | assert (Hover : holds_permit r = false) by (by eapply over_stage; [exact H|intros ?; congruence]);
    unfold holds_permit in Hover; by destruct (rq_stage r) .. ].

Lemma tower_step_ok t p e :
  tower_ok t p → same_step (tower_exec t e) (pipe_exec instant_min max_body p (pipe_event e)).
Proof.
  intros Hok. unfold tower_exec, pipe_exec, pipe_event.
  destruct e as [peer ce parts|i now|i col now|i h now|i|rejected|at_].
  - by apply arrive_ok.
  - unfold on_start. open_entry Hok i. rewrite Hparts. destruct st; try done.
    unfold inner_start, rq_headers. rewrite (to_metrics _ _ Hok). simpl.
    destruct (content_length_too_large _ _);
      [eapply (continue_ok t p i en r _ now _ (inl too_large))|eapply (continue_ok t p i en r _ now _ (inr IBody))];
      eauto.
  - unfold on_body. open_entry Hok i. destruct st; try done.
    rewrite (to_metrics _ _ Hok). unfold inner_body. destruct col as [bytes|]; simpl.
    + destruct (max_body <? byte_len bytes);
        [eapply (continue_ok t p i en r _ now _ (inl too_large))
        |eapply (continue_ok t p i en r _ now _ (inr (IHandler bytes)))]; eauto.
    + eapply (continue_ok t p i en r _ now _ (inl (empty bad_request))); eauto.
  - unfold on_finish. open_entry Hok i. destruct st; try done.
    rewrite (to_metrics _ _ Hok). unfold inner_finish.
    destruct h as [resp|]; simpl; [eapply (continue_ok t p i en r _ now _ (inl resp))
      |eapply (continue_ok t p i en r _ now _ (inl timeout_response))]; eauto.
  - unfold on_drop. open_entry Hok i. unfold release_permits. rewrite Hpermits, (to_sem _ _ Hok).
    rewrite (to_metrics _ _ Hok).
    destruct st; simpl; (apply tower_ok_set; [done..|]; by apply entry_update).
  - destruct Hok as [H1 H2 H3 H4]. split; simpl; try done. by rewrite H3.
  - destruct Hok as [H1 H2 H3 H4]. split; simpl; try done. by rewrite H2.
Qed.

(** ** Theorem *)

(** C10: the pipeline is the Tower stack: whatever calls, progress of the inner
    blocks, timeouts and dropped connections come in whatever order, the machine
    that calls the composed services and keeps the futures they give, and the
    pipeline, either both can or neither can go on, and stand for each other: the
    same limiter, permits and counters, and a future per request; the response of
    every request is what its future resolves to, through every layer, and is
    logged exactly once, with its method, path, status and identifier. *)
Theorem tower_is_pipeline rps es :
  match tower_all (tower_init rps) es,
        pipe_all instant_min max_body (pipe_init max_concurrent rps) (map pipe_event es) with
  | Some t, Some p => tower_ok t p
  | None, None => True
  | _, _ => False
  end.
Proof.
  assert (H : tower_ok (tower_init rps) (pipe_init max_concurrent rps)) by (by split).
  revert H. generalize (tower_init rps) (pipe_init max_concurrent rps).
  induction es as [|e es IH]; intros t p Hok; simpl; [done|].
  pose proof (tower_step_ok t p e Hok) as Hs. unfold same_step in Hs.
  destruct (tower_exec t e) as [t'|], (pipe_exec instant_min max_body p (pipe_event e)) as [p'|]; try done.
  simpl. by apply IH.
Qed.

End Tower.

(** ** Instances

    A request served, then one that finds no permit left. *)
Definition sample_peer : SocketAddr := mkSocketAddr ip1 40000 0.

Definition sample_stack_events : list TowerEvent :=
  [TArrive sample_peer (mkCallEnv 0 "u1" (sample_clock 0)) (mkParts "GET" (mkUri "/a" None) []);
   TStart 0 0;
   TArrive sample_peer (mkCallEnv 0 "u2" (sample_clock 1)) (mkParts "GET" (mkUri "/b" None) []);
   TBody 0 (Some "") 0;
   TFinish 0 (Some (text (H := http_crate_ascii) "ok" rb_ok)) 7000000].

Example sample_stack_log :
  (λ t, omap (λ en, match en_state en with
                    | Resolved _ log => Some (map (λ l, (lr_path l, lr_status l, lr_latency_ms l, lr_request_id l)) log)
                    | _ => None end) (tw_entries t)) <$>
    tower_all (HC := http_crate_ascii) 0 10 (tower_init 1 9) sample_stack_events =
  Some [[("/a", 200, 7, "u1")]; [("/b", 503, 0, "u2")]].
Proof. by vm_compute. Qed.
