(* ===== verification/Server.v ===== *)
(** * The server in operation

    The request pipeline of [Connection] with the handler programs of [Handlers]
    in it: every request past its body runs the program the router gives it, one
    call at a time, interleaved with the calls of all others, over one database
    and one set of counters; a timeout or a dropped connection cuts a program
    between any two calls. *)
From S2P Require Import Prelude RustStr HttpTypes Request Response Router Config Metrics.
From S2P Require Import Net RateLimiter Semaphore Sql Effects Database Session Auth.
From S2P Require Import StaticFiles Proxy Task Handlers Connection.
Local Open Scope Z_scope.

Section Server.
Context `{HC : HttpCrate, SQ : Sql, AR : Argon2, JW : Jwt, EX : Externals, EV : Env}.
Context (instant_min max_body max_concurrent rps : Z).
Context (cfg : ServerConfig) (jwt : JwtSecret) (templates client : bool).

(** ** State *)

(** A handler at work: the rest of its program and, for the theorems, what it has
    observed so far. *)
Record Thread : Type := mkThread {
  th_prog : Io HttpResponse;
  th_seen : list Obs;
}.

(** The threads are indexed by the request they serve.  The counters are those of
    the pipeline. *)
Record Sys : Type := mkSys {
  sys_pipe : Pipe;
  sys_db : Db;
  sys_uuids : nat;
  sys_clocks : nat;
  sys_outside : list Exchange;
  sys_threads : gmap nat Thread;
}.

Definition sys_world (s : Sys) : World Db :=
  mkWorld (sys_db s) (sys_uuids s) (sys_clocks s) (gauges (sys_pipe s)) (sys_outside s).

Definition sys_tables (s : Sys) : Tables := tables (sys_db s).

Definition with_pipe (p : Pipe) (s : Sys) : Sys :=
  mkSys p (sys_db s) (sys_uuids s) (sys_clocks s) (sys_outside s) (sys_threads s).

Definition with_threads (f : gmap nat Thread → gmap nat Thread) (s : Sys) : Sys :=
  mkSys (sys_pipe s) (sys_db s) (sys_uuids s) (sys_clocks s) (sys_outside s) (f (sys_threads s)).

Definition sys_init (d : Db) : Sys := mkSys (pipe_init max_concurrent rps) d 0 0 [] ∅.

(** ** Steps *)

Inductive SysEvent : Type :=
| SArrive (ip : IpAddr) (c : Clock) (parts : Parts) (fresh : string)
| SStart (i : nat)
| SBody (i : nat) (collected : option string)
| SCall (i : nat)
| SDone (i : nat)
| STimeout (i : nat)
| SDrop (i : nat)
| SPeer (rejected : bool)
| SEvict (at_ : Z).

(** The handler's program starts when the body is in. *)
Definition on_sys_body (i : nat) (collected : option string) (s : Sys) : option Sys :=
  p ← on_body max_body i collected (sys_pipe s);
  r ← reqs p !! i;
  Some (match rq_stage r with
        | Handling bd =>
            let prog := serve cfg jwt templates client (from_parts (rq_parts r) bd) in
            with_threads <[i := mkThread prog []]> (with_pipe p s)
        | _ => with_pipe p s
        end).

(** The handler's next call. *)
Definition on_sys_call (i : nat) (s : Sys) : option Sys :=
  th ← sys_threads s !! i;
  '(o, prog, w) ← advance (th_prog th) (sys_world s);
  Some (mkSys (sys_pipe s) (w_db w) (w_uuids w) (w_clocks w) (w_outside w)
          (<[i := mkThread prog (o :: th_seen th)]> (sys_threads s))).

(** The handler answers. *)
Definition on_sys_done (i : nat) (s : Sys) : option Sys :=
  th ← sys_threads s !! i;
  resp ← finished (th_prog th);
  p ← on_finish i (Some resp) (sys_pipe s);
  Some (with_threads (delete i) (with_pipe p s)).

Definition sys_exec (s : Sys) (e : SysEvent) : option Sys :=
  match e with
  | SArrive ip c parts fresh => Some (with_pipe (on_arrive instant_min ip c parts fresh (sys_pipe s)) s)
  | SStart i => p ← on_start max_body i (sys_pipe s); Some (with_pipe p s)
  | SBody i collected => on_sys_body i collected s
  | SCall i => on_sys_call i s
  | SDone i => on_sys_done i s
  | STimeout i =>
      p ← on_finish i None (sys_pipe s); Some (with_threads (delete i) (with_pipe p s))
  | SDrop i => p ← on_drop i (sys_pipe s); Some (with_threads (delete i) (with_pipe p s))
  | SPeer rejected => Some (with_pipe (on_peer rejected (sys_pipe s)) s)
  | SEvict at_ => Some (with_pipe (on_evict instant_min at_ (sys_pipe s)) s)
  end.

Definition sys_step (s : Sys) (e : SysEvent) (s' : Sys) : Prop := sys_exec s e = Some s'.

Fixpoint sys_all (s : Sys) (es : list SysEvent) : option Sys :=
  match es with
  | [] => Some s
  | e :: es' => s' ← sys_exec s e; sys_all s' es'
  end.

Lemma sys_all_run es s s' : sys_all s es = Some s' → run sys_step s es s'.
Proof.
  revert s. induction es as [|e es IH]; intros s; simpl; [intros [= ->]; constructor|].
  destruct (sys_exec s e) as [s1|] eqn:E; [|done]. intros H. econstructor; [exact E|by apply IH].
Qed.

Lemma run_sys_all es s s' : run sys_step s es s' → sys_all s es = Some s'.
Proof. induction 1 as [s|s e s1 es s2 Hs _ IH]; [done|]. simpl. rewrite Hs. exact IH. Qed.

Definition sys_reachable (d : Db) (s : Sys) : Prop := ∃ es, run sys_step (sys_init d) es s.

(** ** Lemmas *)

(** *** The pipeline under the server *)

(** Every step of the server is one of the pipeline or leaves the pipeline
    alone. *)
Lemma sys_step_pipe s e s' :
  sys_step s e s' →
  sys_pipe s' = sys_pipe s ∨
  ∃ pe, pipe_step instant_min max_body (sys_pipe s) pe (sys_pipe s').
Proof.
  unfold sys_step, pipe_step. destruct e as [ip c parts fresh|i|i col|i|i|i|i|rejected|at_]; simpl.
  - intros [= <-]. right. by exists (Arrive ip c parts fresh).
  - intros H. right. exists (Start i). simpl. by destruct (on_start _ _ _); simplify_eq/=.
  - unfold on_sys_body. intros H. right. exists (Body i col). simpl.
    destruct (on_body _ _ _ _) as [p|]; simplify_eq/=.
    destruct (reqs p !! i) as [r|]; simplify_eq/=. by destruct (rq_stage r).
  - unfold on_sys_call. intros H. left. destruct (sys_threads s !! i) as [th|]; simplify_eq/=.
    destruct (advance _ _) as [[[o prog] w]|]; by simplify_eq/=.
  - unfold on_sys_done. intros H. right. destruct (sys_threads s !! i) as [th|]; simplify_eq/=.
    destruct (finished _) as [resp|]; simplify_eq/=. exists (Finish i (Some resp)). simpl.
    by destruct (on_finish _ _ _); simplify_eq/=.
  - intros H. right. exists (Finish i None). simpl. by destruct (on_finish _ _ _); simplify_eq/=.
  - intros H. right. exists (Drop i). simpl. by destruct (on_drop _ _); simplify_eq/=.
  - intros [= <-]. right. by exists (Peer rejected).
  - intros [= <-]. right. by exists (Evict at_).
Qed.

Lemma sys_pipe_reachable d es s :
  run sys_step (sys_init d) es s →
  pipe_reachable instant_min max_body max_concurrent rps (sys_pipe s).
Proof.
  revert es s. apply run_ind_r; [by exists []; constructor|].
  intros es s e s' _ [pes Hp] Hs. destruct (sys_step_pipe s e s' Hs) as [-> |[pe Hpe]].
  - by exists pes.
  - exists (pes ++ [pe]). apply run_snoc. eauto.
Qed.

(** The request in the handler at an index: its head and body. *)
Definition handling_at (p : Pipe) (i : nat) : option HttpRequest :=
  r ← reqs p !! i;
  match rq_stage r with Handling bd => Some (from_parts (rq_parts r) bd) | _ => None end.

Lemma handling_set_stage i r st sem' m p j :
  reqs p !! i = Some r →
  handling_at (set_stage i r st sem' m p) j =
  if decide (j = i)
  then match st with Handling bd => Some (from_parts (rq_parts r) bd) | _ => None end
  else handling_at p j.
Proof.
  intros Hi. unfold handling_at, set_stage. simpl. case_decide as Hj.
  - subst j. by rewrite list_lookup_insert_eq by (by eapply lookup_lt_Some).
  - by rewrite list_lookup_insert_ne.
Qed.

Lemma handling_arrive ip c parts fresh p j :
  handling_at (on_arrive instant_min ip c parts fresh p) j = handling_at p j.
Proof.
  assert (Hnew : ∀ sem' rl m r, (∀ bd, rq_stage r ≠ Handling bd) →
    handling_at (mkPipe sem' rl m (reqs p ++ [r])) j = handling_at p j).
  { intros sem' rl m r Hr. unfold handling_at. simpl.
    destruct (decide (j < length (reqs p))%nat) as [Hlt|Hge].
    - by rewrite lookup_app_l by done.
    - rewrite lookup_app_r by lia. rewrite (lookup_ge_None_2 (reqs p)) by lia.
      destruct (j - length (reqs p))%nat as [|k]; simpl; [|by destruct k].
      destruct (rq_stage r); naive_solver. }
  unfold on_arrive. destruct (limiter_call _ _ _ _) as [[resp|] rl]; [by apply Hnew|].
  destruct (concurrency_call _); by apply Hnew.
Qed.

(** Opens a step on one request. *)
Ltac open_step H :=
  match type of H with
  | (reqs ?p !! ?i ≫= _) = Some _ =>
      let r := fresh "r" in let Hi := fresh "Hi" in let Hst := fresh "Hst" in
      destruct (reqs p !! i) as [r|] eqn:Hi; cbn [mbind option_bind] in H; [|done];
      destruct (rq_stage r) eqn:Hst; try done
  end.

Lemma handling_start i p p' j : on_start max_body i p = Some p' → handling_at p' j = handling_at p j.
Proof.
  unfold on_start. intros H. open_step H.
  assert (Hp : handling_at p i = None) by (unfold handling_at; by rewrite Hi; simpl; rewrite Hst).
  destruct (content_length_too_large _ _); injection H as <-; rewrite handling_set_stage by done;
    case_decide; congruence.
Qed.

Lemma handling_body i col p p' :
  on_body max_body i col p = Some p' →
  handling_at p i = None ∧ (∀ j, j ≠ i → handling_at p' j = handling_at p j) ∧
  is_Some (reqs p' !! i).
Proof.
  unfold on_body. intros H. open_step H.
  assert (Hp : handling_at p i = None) by (unfold handling_at; by rewrite Hi; simpl; rewrite Hst).
  assert (Hlen : ∀ st sem' m, is_Some (reqs (set_stage i r st sem' m p) !! i)).
  { intros st sem' m. simpl. rewrite list_lookup_insert_eq; [done|]. by eapply lookup_lt_Some. }
  injection H as <-. destruct col as [bytes|]; [destruct (max_body <? byte_len bytes)|];
    (split; [done|]); (split; [|apply Hlen]); intros j Hj;
    rewrite handling_set_stage by done; by case_decide.
Qed.

Lemma handling_leave i p p' :
  (∃ h, on_finish i h p = Some p') ∨ on_drop i p = Some p' →
  ∀ j, handling_at p' j = if decide (j = i) then None else handling_at p j.
Proof.
  intros [[h H]|H] j.
  - unfold on_finish in H. open_step H.
    destruct h as [resp|]; injection H as <-; by rewrite handling_set_stage.
  - unfold on_drop in H. open_step H; injection H as <-; by rewrite handling_set_stage.
Qed.

(** *** The threads *)

Section Threads.
(** What is known of every call and of the answer of a request's program. *)
Context (I : HttpRequest → list Obs → World Db → World Db → Prop)
  (Q : HttpRequest → HttpResponse → list Obs → Prop).
Context (Hserve : ∀ req, always (I req) (Q req) (serve cfg jwt templates client req) []).

(** There is a thread exactly for each request in the handler, and the rest of its
    program is as it should be. *)
Record threads_ok (s : Sys) : Prop := {
  ok_thread : ∀ i th, sys_threads s !! i = Some th →
    ∃ req, handling_at (sys_pipe s) i = Some req ∧
           always (I req) (Q req) (th_prog th) (th_seen th);
  ok_handling : ∀ i req, handling_at (sys_pipe s) i = Some req → is_Some (sys_threads s !! i);
}.

Lemma threads_ok_pipe s p :
  threads_ok s → (∀ j, handling_at p j = handling_at (sys_pipe s) j) → threads_ok (with_pipe p s).
Proof.
  intros [H1 H2] Hp. split; simpl.
  - intros i th Hi. rewrite Hp. by apply H1.
  - intros i req. rewrite Hp. apply H2.
Qed.

Lemma threads_ok_leave s p i :
  threads_ok s →
  (∀ j, handling_at p j = if decide (j = i) then None else handling_at (sys_pipe s) j) →
  threads_ok (with_threads (delete i) (with_pipe p s)).
Proof.
  intros [H1 H2] Hp. split; simpl; intros j; rewrite Hp; case_decide as Hj.
  - subst. by rewrite lookup_delete_eq.
  - rewrite lookup_delete_ne by done. apply H1.
  - done.
  - rewrite lookup_delete_ne by done. apply H2.
Qed.

Lemma threads_ok_body i col s s' :
  threads_ok s → on_sys_body i col s = Some s' → threads_ok s'.
Proof.
  intros [H1 H2] H. unfold on_sys_body in H.
  destruct (on_body max_body i col (sys_pipe s)) as [p|] eqn:Ep; cbn [mbind option_bind] in H; [|done].
  destruct (handling_body _ _ _ _ Ep) as (Hnone & Hother & [r Hr]).
  rewrite Hr in H. cbn [mbind option_bind] in H.
  assert (Hno : sys_threads s !! i = None).
  { destruct (sys_threads s !! i) as [th|] eqn:E; [|done]. destruct (H1 i th E) as (q & ? & _). congruence. }
  assert (Hi : handling_at p i =
    match rq_stage r with Handling bd => Some (from_parts (rq_parts r) bd) | _ => None end)
    by (unfold handling_at; by rewrite Hr).
  destruct (rq_stage r) as [| | |bd| | | |]; injection H as <-.
  4: { split; simpl; intros j.
    - intros th. destruct (decide (j = i)) as [->|Hj].
      + rewrite lookup_insert_eq, Hi. intros [= <-]. eexists. split; [done|]. apply Hserve.
      + rewrite lookup_insert_ne by done. intros Hth. rewrite Hother by done. by apply H1.
    - intros req. destruct (decide (j = i)) as [->|Hj].
      + by rewrite lookup_insert_eq.
      + rewrite lookup_insert_ne, Hother by done. apply H2. }
  all: apply threads_ok_pipe; [done|]; intros j;
    destruct (decide (j = i)) as [->|Hj]; [congruence|by apply Hother].
Qed.

(** A call of a thread: what its program promises of it holds. *)
Lemma threads_ok_call i s s' :
  threads_ok s → on_sys_call i s = Some s' →
  threads_ok s' ∧
  ∃ th req, sys_threads s !! i = Some th ∧ handling_at (sys_pipe s) i = Some req ∧
            I req (th_seen th) (sys_world s) (sys_world s').
Proof.
  intros [H1 H2] H. unfold on_sys_call in H.
  destruct (sys_threads s !! i) as [th|] eqn:Eth; cbn [mbind option_bind] in H; [|done].
  destruct (advance (th_prog th) (sys_world s)) as [[[o prog] w]|] eqn:Ea;
    cbn [mbind option_bind] in H; [|done]. injection H as <-.
  destruct (H1 i th Eth) as (req & Hreq & Hp).
  destruct (always_advance _ _ _ _ _ _ _ _ Hp Ea) as [Hi Hp'].
  split; [split; simpl; intros j|].
  - intros th'. destruct (decide (j = i)) as [->|Hj].
    + rewrite lookup_insert_eq. intros [= <-]. by exists req.
    + rewrite lookup_insert_ne by done. apply H1.
  - intros q Hq. destruct (decide (j = i)) as [->|Hj].
    + by rewrite lookup_insert_eq.
    + rewrite lookup_insert_ne by done. by eapply H2.
  - exists th, req. split; [done|]. split; [done|].
    assert (Hw : sys_world (mkSys (sys_pipe s) (w_db w) (w_uuids w) (w_clocks w) (w_outside w)
      (<[i:=mkThread prog (o :: th_seen th)]> (sys_threads s))) = w); [|by rewrite Hw].
    unfold sys_world. simpl. destruct (th_prog th) as [a|c k]; simpl in Ea; [done|].
    destruct c; simpl in Ea; repeat case_match; by simplify_eq/=.
Qed.

Lemma threads_ok_step s e s' : threads_ok s → sys_step s e s' → threads_ok s'.
Proof.
  intros Hok. unfold sys_step. destruct e as [ip c parts fresh|i|i col|i|i|i|i|rejected|at_]; simpl.
  - intros [= <-]. apply threads_ok_pipe; [done|]. intros j. apply handling_arrive.
  - destruct (on_start _ _ _) as [p|] eqn:Ep; [|done]. intros [= <-].
    apply threads_ok_pipe; [done|]. intros j. by eapply handling_start.
  - by apply threads_ok_body.
  - intros H. by apply (threads_ok_call i s s').
  - unfold on_sys_done. destruct (sys_threads s !! i) as [th|]; [|done]. simpl.
    destruct (finished _) as [resp|]; [|done]. simpl.
    destruct (on_finish _ _ _) as [p|] eqn:Ep; [|done]. intros [= <-].
    apply threads_ok_leave; [done|]. eapply handling_leave. eauto.
  - destruct (on_finish _ _ _) as [p|] eqn:Ep; [|done]. intros [= <-].
    apply threads_ok_leave; [done|]. eapply handling_leave. eauto.
  - destruct (on_drop _ _) as [p|] eqn:Ep; [|done]. intros [= <-].
    apply threads_ok_leave; [done|]. eapply handling_leave. eauto.
  - intros [= <-]. by apply threads_ok_pipe.
  - intros [= <-]. by apply threads_ok_pipe.
Qed.

Lemma threads_ok_reachable d es s : run sys_step (sys_init d) es s → threads_ok s.
Proof.
  intros Hr. eapply run_invariant; [|clear Hr|exact Hr].
  - intros a e b. apply threads_ok_step.
  - split; simpl; intros i ?; [by rewrite lookup_empty|done].
Qed.

(** The handler's answer is what its program promises. *)
Lemma done_answer s i s' req :
  threads_ok s → sys_step s (SDone i) s' → handling_at (sys_pipe s) i = Some req →
  ∃ th r resp, sys_threads s !! i = Some th ∧ reqs (sys_pipe s') !! i = Some r ∧
    rq_stage r = Answered (logging_out (rq_id r) resp) ∧ Q req resp (th_seen th).
Proof.
  intros [H1 _] Hs Hreq. unfold sys_step in Hs. simpl in Hs. unfold on_sys_done in Hs.
  destruct (sys_threads s !! i) as [th|] eqn:Hth; [|done]. simpl in Hs.
  destruct (finished (th_prog th)) as [resp|] eqn:Ef; [|done]. simpl in Hs.
  destruct (on_finish i (Some resp) (sys_pipe s)) as [p|] eqn:Ep; [|done].
  injection Hs as <-. unfold on_finish in Ep. open_step Ep. injection Ep as <-.
  exists th, (mkReq (rq_id r) (rq_parts r) (Answered (logging_out (rq_id r) resp))), resp.
  split; [done|]. split; [simpl; apply list_lookup_insert_eq; by eapply lookup_lt_Some|].
  split; [done|]. destruct (H1 i th Hth) as (req' & Hreq' & Ha).
  rewrite Hreq in Hreq'. injection Hreq' as <-.
  destruct (th_prog th) as [a|c k]; simpl in Ef; [|done]. by injection Ef as ->.
Qed.

End Threads.

(** *** History *)

(** The state [s0] of a run from which the handler of request [i] made one of its
    calls. *)
Definition called_at (d : Db) (es : list SysEvent) (i : nat) (s0 : Sys) : Prop :=
  ∃ es1 es2, es = es1 ++ SCall i :: es2 ∧ run sys_step (sys_init d) es1 s0.

(** Such a call, from one state to the next. *)
Definition call_of (d : Db) (es : list SysEvent) (i : nat) (s0 s1 : Sys) : Prop :=
  ∃ es1 es2, es = es1 ++ SCall i :: es2 ∧ run sys_step (sys_init d) es1 s0 ∧ sys_step s0 (SCall i) s1.

(** A statement the database failed. *)
Definition statement_failed (d d' : Db) : Prop :=
  ∃ q vs e, execute q vs d = (Err e, d') ∨ fetch q vs d = (Err e, d').

Lemma statement_failed_tables d d' : statement_failed d d' → tables d' = tables d.
Proof. intros (q & vs & e & [E|E]); [by eapply execute_err|by eapply fetch_err]. Qed.

(** What a call from [s0] to [s1] observes. *)
Definition observed_at (s0 s1 : Sys) (o : Obs) : Prop :=
  match o with
  | SawClock now => now = clock (sys_clocks s0) ∧ sys_clocks s1 = S (sys_clocks s0)
  | SawTables t t' => t = sys_tables s0 ∧ t' = sys_tables s1
  | SawFailed => statement_failed (sys_db s0) (sys_db s1)
  | SawUuid n => n = sys_uuids s0
  | SawOutside x => ex_reply x = outside (length (sys_outside s0)) (ex_call x)
  | SawOther => True
  end.

(** What the handler of request [i] has observed in a run. *)
Definition observed (d : Db) (es : list SysEvent) (i : nat) (o : Obs) : Prop :=
  ∃ s0 s1, call_of d es i s0 s1 ∧ observed_at s0 s1 o.

Lemma call_of_snoc d es e i s0 s1 : call_of d es i s0 s1 → call_of d (es ++ [e]) i s0 s1.
Proof.
  intros (es1 & es2 & -> & Hr). exists es1, (es2 ++ [e]). by rewrite <- app_assoc.
Qed.

Lemma call_of_called d es i s0 s1 : call_of d es i s0 s1 → called_at d es i s0.
Proof. intros (es1 & es2 & -> & Hr & _). by exists es1, es2. Qed.

(** A call: its thread has one observation more, and a UUID is drawn only by a call
    that says so. *)
Lemma call_threads s i s' :
  sys_step s (SCall i) s' →
  ∃ th prog o, sys_threads s !! i = Some th ∧ observed_at s s' o ∧
    sys_threads s' = <[i := mkThread prog (o :: th_seen th)]> (sys_threads s) ∧
    sys_uuids s' = match o with SawUuid _ => S (sys_uuids s) | _ => sys_uuids s end ∧
    sys_outside s' = match o with SawOutside x => x :: sys_outside s | _ => sys_outside s end ∧
    match o with SawTables _ _ | SawFailed => True | _ => sys_db s' = sys_db s end.
Proof.
  unfold sys_step. simpl. unfold on_sys_call.
  destruct (sys_threads s !! i) as [th|] eqn:Eth; [|done]. simpl.
  destruct (advance _ _) as [[[o prog] w]|] eqn:Ea; [|done]. simpl. intros [= <-]. simpl.
  exists th, prog, o. split; [done|].
  destruct (th_prog th) as [a|c k]; simpl in Ea; [done|].
  destruct c as [q vs|q vs| | |k0|x]; simpl in Ea; unfold w_tables in Ea; simpl in Ea;
    [destruct (execute q vs _) as [[n|e] d'] eqn:E|destruct (fetch q vs _) as [[n|e] d'] eqn:E|..];
    simplify_eq/=; try done; split; try done; exists q, vs, e; auto.
Qed.

(** Where the threads of a step come from. *)
Lemma step_threads s e s' j th' :
  sys_step s e s' → sys_threads s' !! j = Some th' →
  sys_threads s !! j = Some th' ∨ (∃ col, e = SBody j col) ∧ th_seen th' = [] ∨
  ∃ th o, e = SCall j ∧ sys_threads s !! j = Some th ∧ th_seen th' = o :: th_seen th ∧
          observed_at s s' o.
Proof.
  unfold sys_step. destruct e as [ip c parts fresh|i|i col|i|i|i|i|rejected|at_]; simpl.
  - intros [= <-]. auto.
  - destruct (on_start _ _ _); [|done]. intros [= <-]. auto.
  - unfold on_sys_body. destruct (on_body _ _ _ _) as [p|]; [|done]. simpl.
    destruct (reqs p !! i) as [r|]; [|done]. simpl. intros [= <-].
    destruct (rq_stage r); auto. simpl. intros [[<- <-]|[_ ?]]%lookup_insert_Some; eauto.
  - intros (th & prog & o & Hth & Ho & -> & _)%(call_threads s i).
    intros [[<- <-]|[_ ?]]%lookup_insert_Some; [|by auto]. right. right. exists th, o. auto.
  - unfold on_sys_done. destruct (sys_threads s !! i) as [th|]; [|done]. simpl.
    destruct (finished _); [|done]. simpl. destruct (on_finish _ _ _); [|done]. intros [= <-]. simpl.
    intros [_ ?]%lookup_delete_Some. auto.
  - destruct (on_finish _ _ _); [|done]. intros [= <-]. simpl.
    intros [_ ?]%lookup_delete_Some. auto.
  - destruct (on_drop _ _); [|done]. intros [= <-]. simpl.
    intros [_ ?]%lookup_delete_Some. auto.
  - intros [= <-]. auto.
  - intros [= <-]. auto.
Qed.

(** What a thread has observed, it observed in the states it made its calls
    from. *)
Lemma seen_history d es s :
  run sys_step (sys_init d) es s →
  ∀ i th o, sys_threads s !! i = Some th → o ∈ th_seen th → observed d es i o.
Proof.
  revert es s. apply (run_ind_r _ _ (λ es s, ∀ i th o, sys_threads s !! i = Some th →
    o ∈ th_seen th → observed d es i o)); [done|].
  intros es s e s' Hr IH Hs i th' o Hth Ho.
  destruct (step_threads _ _ _ _ _ Hs Hth) as [Hold|[[_ Hnil]|(th & o' & -> & Hold & Eseen & Hobs)]].
  - destruct (IH i th' o Hold Ho) as (s0 & s1 & ? & ?). exists s0, s1. auto using call_of_snoc.
  - rewrite Hnil in Ho. by apply not_elem_of_nil in Ho.
  - rewrite Eseen in Ho. apply elem_of_cons in Ho as [->|Ho].
    + exists s, s'. split; [|done]. exists es, []. by split.
    + destruct (IH i th o Hold Ho) as (s0 & s1 & ? & ?). exists s0, s1. auto using call_of_snoc.
Qed.

(** Request [i] was answered with its handler's response. *)
Definition replied (s : Sys) (i : nat) (resp : HttpResponse) : Prop :=
  ∃ r, reqs (sys_pipe s) !! i = Some r ∧ rq_stage r = Answered (logging_out (rq_id r) resp).

(** What every run of the handlers promises of their answers holds of the answer in
    a run of the server, with what the handler observed in it. *)
Lemma promise_kept (Q : HttpRequest → HttpResponse → list Obs → Prop) d es s i s' req :
  (∀ q, always (λ _ _ _, True) (Q q) (serve cfg jwt templates client q) []) →
  run sys_step (sys_init d) es s → sys_step s (SDone i) s' → handling_at (sys_pipe s) i = Some req →
  ∃ th resp, sys_threads s !! i = Some th ∧ replied s' i resp ∧ Q req resp (th_seen th) ∧
    ∀ o, o ∈ th_seen th → observed d es i o.
Proof.
  intros Hserve Hr Hs Hreq. pose proof (threads_ok_reachable _ _ Hserve d es s Hr) as Hok.
  destruct (done_answer _ _ _ _ _ _ Hok Hs Hreq) as (th & r & resp & Hth & Hi & Hst & Ha).
  exists th, resp. split; [done|]. split; [by exists r|]. split; [done|].
  intros o. by apply (seen_history d es s Hr i th).
Qed.

(** One run from one state ends in one state. *)
Lemma run_unique s es s1 s2 : run sys_step s es s1 → run sys_step s es s2 → s1 = s2.
Proof. intros H1%run_sys_all H2%run_sys_all. congruence. Qed.

Lemma run_split s es1 es2 s2 :
  run sys_step s (es1 ++ es2) s2 → ∃ s1, run sys_step s es1 s1 ∧ run sys_step s1 es2 s2.
Proof.
  revert s. induction es1 as [|e es1 IH]; intros s Hr; [exists s; split; [constructor|done]|].
  inversion Hr as [|? ? s0 ? ? Hs Hr']; subst. destruct (IH s0 Hr') as (s1 & ? & ?).
  exists s1. split; [by econstructor|done].
Qed.

(** The calls of a run are ordered. *)
Lemma call_order d es i j a0 a1 b0 b1 :
  call_of d es i a0 a1 → call_of d es j b0 b1 →
  (∃ r, run sys_step b0 r a0) ∨ (∃ r, run sys_step a1 r b0).
Proof.
  intros (p & p' & -> & Hp & Ha) (q & q' & E & Hq & Hb).
  apply app_eq_inv in E as [(k & -> & E)|(k & -> & E)].
  - left. apply run_split in Hp as (b & Hb0 & Hk). exists k. by rewrite (run_unique _ _ _ _ Hq Hb0).
  - destruct k as [|e k].
    + left. exists []. rewrite app_nil_r in Hq. rewrite (run_unique _ _ _ _ Hq Hp). constructor.
    + right. injection E as <- _. apply run_split in Hq as (a & Ha0 & Hk).
      rewrite (run_unique _ _ _ _ Ha0 Hp) in Hk. inversion Hk as [|? ? a2 ? ? Ha' Hk']; subst.
      exists k. unfold sys_step in *. by assert (a1 = a2) as -> by congruence.
Qed.

(** A handler observes things in the order of its calls. *)
Lemma seen_before d es s :
  run sys_step (sys_init d) es s →
  ∀ i th l o l' o', sys_threads s !! i = Some th → th_seen th = l ++ o :: l' → o' ∈ l' →
  ∃ a0 a1 b0 b1 r, call_of d es i a0 a1 ∧ observed_at a0 a1 o ∧
    call_of d es i b0 b1 ∧ observed_at b0 b1 o' ∧ run sys_step b1 r a0.
Proof.
  revert es s. apply (run_ind_r _ _ (λ es s, ∀ i th l o l' o', sys_threads s !! i = Some th →
    th_seen th = l ++ o :: l' → o' ∈ l' → ∃ a0 a1 b0 b1 r, call_of d es i a0 a1 ∧ observed_at a0 a1 o ∧
    call_of d es i b0 b1 ∧ observed_at b0 b1 o' ∧ run sys_step b1 r a0)); [done|].
  assert (Hsnoc : ∀ es e i o o', (∃ a0 a1 b0 b1 r, call_of d es i a0 a1 ∧ observed_at a0 a1 o ∧
      call_of d es i b0 b1 ∧ observed_at b0 b1 o' ∧ run sys_step b1 r a0) →
    ∃ a0 a1 b0 b1 r, call_of d (es ++ [e]) i a0 a1 ∧ observed_at a0 a1 o ∧
      call_of d (es ++ [e]) i b0 b1 ∧ observed_at b0 b1 o' ∧ run sys_step b1 r a0).
  { intros es e i o o' (a0 & a1 & b0 & b1 & r & ? & ? & ? & ? & ?). exists a0, a1, b0, b1, r.
    auto 6 using call_of_snoc. }
  intros es s e s' Hr IH Hs i th' l o l' o' Hth Hseen Ho'.
  destruct (step_threads _ _ _ _ _ Hs Hth) as [Hold|[[_ Hnil]|(th & o1 & -> & Hold & Eseen & Hobs)]].
  - by eapply Hsnoc, IH.
  - rewrite Hnil in Hseen. by destruct l.
  - rewrite Eseen in Hseen. destruct l as [|x l]; injection Hseen as -> Hseen; [|by eapply Hsnoc, IH].
    rewrite <- Hseen in Ho'. destruct (seen_history _ _ _ Hr i th o' Hold Ho') as (b0 & b1 & Hb & Hb').
    pose proof Hb as (q & q' & -> & Hq & Hbs).
    pose proof Hr as Hr'. apply run_split in Hr' as (b & Hb0 & Hk). rewrite (run_unique _ _ _ _ Hb0 Hq) in Hk.
    inversion Hk as [|? ? b2 ? ? Hbs' Hk']; subst.
    unfold sys_step in Hbs, Hbs'. assert (b2 = b1) as -> by congruence.
    exists s, s', b0, b1, q'. split; [by exists (q ++ SCall i :: q'), []|].
    auto using call_of_snoc.
Qed.

(** Only a handler's call touches the database, draws UUIDs and asks the outside. *)
Lemma sys_step_db s e s' :
  sys_step s e s' →
  sys_db s' = sys_db s ∧ sys_uuids s' = sys_uuids s ∧ sys_outside s' = sys_outside s ∨
  ∃ i, e = SCall i.
Proof.
  unfold sys_step. destruct e as [ip c parts fresh|i|i col|i|i|i|i|rejected|at_]; simpl; eauto.
  - intros [= <-]. auto.
  - destruct (on_start _ _ _); [|done]. intros [= <-]. auto.
  - unfold on_sys_body. destruct (on_body _ _ _ _) as [p|]; [|done]. simpl.
    destruct (reqs p !! i) as [r|]; [|done]. simpl. intros [= <-]. destruct (rq_stage r); auto.
  - unfold on_sys_done. destruct (sys_threads s !! i) as [th|]; [|done]. simpl.
    destruct (finished _); [|done]. simpl. destruct (on_finish _ _ _); [|done]. intros [= <-]. auto.
  - destruct (on_finish _ _ _); [|done]. intros [= <-]. auto.
  - destruct (on_drop _ _); [|done]. intros [= <-]. auto.
  - intros [= <-]. auto.
  - intros [= <-]. auto.
Qed.

(** What a thread has learned from the outside is in the log of its exchanges. *)
Lemma seen_logged d es s :
  run sys_step (sys_init d) es s →
  ∀ i th x, sys_threads s !! i = Some th → SawOutside x ∈ th_seen th → x ∈ sys_outside s.
Proof.
  revert es s. apply (run_ind_r _ _ (λ _ s, ∀ i th x, sys_threads s !! i = Some th →
    SawOutside x ∈ th_seen th → x ∈ sys_outside s)); [done|].
  intros es s e s' _ IH Hs i th x Hth Hx.
  assert (Hcall : (∃ j, e = SCall j) ∨ ∀ j, e ≠ SCall j) by (destruct e; eauto).
  destruct Hcall as [[j ->]|Hno].
  - destruct (call_threads _ _ _ Hs) as (th0 & prog & o & Hj & _ & E & _ & Eo & _). rewrite Eo.
    assert (Hkeep : x ∈ sys_outside s → x ∈ match o with SawOutside y => y :: sys_outside s
      | _ => sys_outside s end) by (destruct o; set_solver).
    rewrite E in Hth. apply lookup_insert_Some in Hth as [[-> <-]|[_ Hth]]; [|by eauto].
    simpl in Hx. apply elem_of_cons in Hx as [<-|Hx]; [by left|by eauto].
  - destruct (sys_step_db _ _ _ Hs) as [(_ & _ & ->)|[j ->]]; [|by destruct (Hno j)].
    destruct (step_threads _ _ _ _ _ Hs Hth) as [Hold|[[_ Hnil]|(th0 & o & He & _)]].
    + by eapply IH.
    + rewrite Hnil in Hx. by apply not_elem_of_nil in Hx.
    + by destruct (Hno i).
Qed.

(** No step changes the accounts. *)
Lemma run_users d es s :
  run sys_step (sys_init d) es s → t_users (sys_tables s) = t_users (tables d).
Proof.
  revert es s. apply (run_ind_r _ _ (λ _ s, t_users (sys_tables s) = t_users (tables d))); [done|].
  intros es s e s' Hr IH Hs. rewrite <- IH. destruct (sys_step_db _ _ _ Hs) as [[E _]|[i ->]].
  { unfold sys_tables. by rewrite E. }
  pose proof (threads_ok_reachable _ _ (serve_safe cfg jwt templates client) d es s Hr) as Hok.
  destruct (threads_ok_call _ _ i s s' Hok Hs) as (_ & th & req & _ & _ & [H1 _ _ _]). exact H1.
Qed.

(** ** Specification

    What the handler of request [i] has established in the course of a run, in the
    states it made its calls from. *)

(** A bearer token that verified when it read the clock. *)
Definition jwt_checked (d : Db) (es : list SysEvent) (i : nat) (req : HttpRequest) : Prop :=
  ∃ s0 tok c, called_at d es i s0 ∧ extract_bearer (header req "authorization") = Some tok ∧
              verify_token jwt (clock (sys_clocks s0)) tok = Ok c.

(** A session live in the tables it found, at the clock it read, whose CSRF token
    the form repeats. *)
Definition form_checked (d : Db) (es : list SysEvent) (i : nat) (req : HttpRequest) : Prop :=
  ∃ s0 s1 tok row, called_at d es i s0 ∧ called_at d es i s1 ∧ session_token req = Some tok ∧
    live (sys_tables s1) tok (clock (sys_clocks s0)) = Some row ∧ sr_csrf_token row = csrf_of req.

(** The form's credentials for an account, accepted by the accounts it found. *)
Definition login_checked (d : Db) (es : list SysEvent) (i : nat) (req : HttpRequest)
    (user : string) : Prop :=
  ∃ s0 password, called_at d es i s0 ∧
    form_fields "username" "password" (req_body req) = (user, password) ∧
    accepts (sys_tables s0) user password = true.

Section History.
Context (d : Db) (es : list SysEvent) (s : Sys) (i : nat) (th : Thread) (req : HttpRequest).
Context (Hrun : run sys_step (sys_init d) es s) (Hth : sys_threads s !! i = Some th).

Lemma saw_jwt_checked : saw_jwt jwt req (th_seen th) → jwt_checked d es i req.
Proof.
  intros (tok & now & c & Ht & Hn & Hv).
  destruct (seen_history _ _ _ Hrun i th _ Hth Hn) as (s0 & s1 & Hc%call_of_called & [-> _]).
  by exists s0, tok, c.
Qed.

Lemma saw_form_checked : saw_form req (th_seen th) → form_checked d es i req.
Proof.
  intros (ses & (tok & row & now & t & Ht & Hn & Htab & Hl & ->) & Hcsrf).
  destruct (seen_history _ _ _ Hrun i th _ Hth Hn) as (s0 & ? & Hc%call_of_called & [-> _]).
  destruct (seen_history _ _ _ Hrun i th _ Hth Htab) as (s1 & ? & Hc1%call_of_called & -> & _).
  by exists s0, s1, tok, row.
Qed.

Lemma saw_login_checked user : saw_login req (th_seen th) user → login_checked d es i req user.
Proof.
  intros (password & t & Hf & Htab & Ha).
  destruct (seen_history _ _ _ Hrun i th _ Hth Htab) as (s0 & ? & Hc%call_of_called & -> & _).
  by exists s0, password.
Qed.

End History.

(** ** Theorems *)

(** C1: who may change the database, in every interleaving of all requests, their
    timeouts and dropped connections: no step ever changes the accounts; the items
    change only by a call of a request's handler, one row at a time, after that
    handler found the request's bearer token valid or found its session live with
    the CSRF token of the form; and the sessions change only by such a call on the
    session of the request's own cookie, or by a new session for an account whose
    credentials, sent in the form, the handler found accepted. *)
Theorem database_authorised d es s e s' :
  run sys_step (sys_init d) es s → sys_step s e s' →
  t_users (sys_tables s') = t_users (sys_tables s) ∧
  (t_items (sys_tables s') = t_items (sys_tables s) ∨
   ∃ i req, e = SCall i ∧ handling_at (sys_pipe s) i = Some req ∧
     one_item (t_items (sys_tables s)) (t_items (sys_tables s')) ∧
     (jwt_checked d es i req ∨ form_checked d es i req)) ∧
  (t_sessions (sys_tables s') = t_sessions (sys_tables s) ∨
   ∃ i req, e = SCall i ∧ handling_at (sys_pipe s) i = Some req ∧
     let m := t_sessions (sys_tables s) in let m' := t_sessions (sys_tables s') in
     (∃ tok, session_token req = Some tok ∧
        (m' = delete tok m ∨ ∃ expiry, m' = alter (touch expiry) tok m)) ∨
     (∃ tok row, m !! tok = None ∧ m' = <[tok := row]> m ∧
        login_checked d es i req (sr_username row))).
Proof.
  intros Hr Hs. destruct (sys_step_db _ _ _ Hs) as [[E _]|[i ->]].
  { unfold sys_tables. rewrite E. auto. }
  pose proof (threads_ok_reachable _ _ (serve_safe cfg jwt templates client) d es s Hr) as Hok.
  destruct (threads_ok_call _ _ i s s' Hok Hs) as (_ & th & req & Hth & Hreq & [H1 H2 H3 _]).
  change (w_tables (sys_world s)) with (sys_tables s) in *.
  change (w_tables (sys_world s')) with (sys_tables s') in *.
  split; [done|]. split.
  - destruct H2 as [?|[Hone Hev]]; [by left|right]. exists i, req. split; [done|]. split; [done|].
    split; [done|]. destruct Hev; eauto using saw_jwt_checked, saw_form_checked.
  - destruct H3 as [?|[Hown|(n & k & now & seen' & row & _ & Hn & Em & Hl)]]; [by left|right|right]; exists i, req;
      (split; [done|]); (split; [done|]); [by left|right].
    exists (uuid n), row. eauto using saw_login_checked.
Qed.

(** C16: what the server asks of the outside, in every interleaving: only handlers
    do; paths given to the file system are in the static directory, and lengths are
    asked of files opened there; requests go upstream only when a proxy is
    configured, with the method and body of the client's request, its path and query
    after the upstream's URL and without its host and hop-by-hop fields, where the
    authority of the URL is the upstream's if the upstream has one and the path left
    after stripping the prefix starts with a slash (if it does not, the request may
    go elsewhere: [Proxy.strip_prefix_moves_authority]); and answers are read only of requests that were sent. *)
Theorem outside_confined d es s e s' :
  run sys_step (sys_init d) es s → sys_step s e s' →
  sys_outside s' = sys_outside s ∨
  ∃ i req o r, e = SCall i ∧ handling_at (sys_pipe s) i = Some req ∧
    sys_outside s' = mkExchange o r :: sys_outside s ∧
    match o with
    | Metadata p | OpenFile p => under (static_dir cfg) p
    | Fstat f => ∃ p, mkExchange (OpenFile p) (Ok f) ∈ sys_outside s
    | SendUpstream m url hs bd => ∃ upstream, client = true ∧ proxy_upstream cfg = Some upstream ∧
        m = req_method req ∧ bd = req_body req ∧
        url = target_url req upstream (proxy_strip_prefix cfg) ∧
        (∀ n, n = "host" ∨ n ∈ HOP_BY_HOP → header_get_all hs n = []) ∧
        let base := authority (trim_end_matches "/" upstream) in
        (starts_with "/" (effective_path (proxy_strip_prefix cfg) (path req)) = true →
         base ≠ "" → authority url = base)
    | ReadUpstream up => ∃ m url hs bd, mkExchange (SendUpstream m url hs bd) (Some up) ∈ sys_outside s
    | RunBlocking => True
    end.
Proof.
  intros Hr Hs. destruct (sys_step_db _ _ _ Hs) as [(_ & _ & E)|[i ->]]; [by left|].
  pose proof (threads_ok_reachable _ _ (serve_safe cfg jwt templates client) d es s Hr) as Hok.
  destruct (threads_ok_call _ _ i s s' Hok Hs) as (_ & th & req & Hth & Hreq & [_ _ _ Ho]).
  destruct Ho as [?|(o & r & E & Ho)]; [by left|right]. exists i, req, o, r.
  split; [done|]. split; [done|]. split; [exact E|]. pose proof (seen_logged _ _ _ Hr i th) as Hlog.
  destruct Ho as [Ho|[(upstream & Hc & Hu & Ho)| ->]]; [| |done].
  - destruct o; try done. destruct Ho as [p Hp]. exists p. by apply (Hlog _ Hth).
  - destruct o as [| | |m url hs bd|up|]; try done.
    + injection Ho as -> -> -> ->. exists upstream.
      repeat split; auto using forwarded_dropped, target_url_authority.
    + eexists _, _, _, _. by apply (Hlog _ Hth).
Qed.

(** C11: the server refines the pipeline: in every interleaving its pipeline is in a
    state the pipeline alone can reach (so all that is proved of [Connection.Pipe]
    holds of it), there is a handler program at work exactly for each request past
    its body and not yet answered, timed out or dropped, and free permits and
    requests past the limiter add up to the concurrency limit whichever way requests
    leave, so there are never more handlers at work than that. *)
Theorem server_refines_pipeline d s :
  0 ≤ max_concurrent → sys_reachable d s →
  pipe_reachable instant_min max_body max_concurrent rps (sys_pipe s) ∧
  (∀ i, is_Some (sys_threads s !! i) ↔ is_Some (handling_at (sys_pipe s) i)) ∧
  sem (sys_pipe s) + count holds_permit (reqs (sys_pipe s)) = max_concurrent ∧ 0 ≤ sem (sys_pipe s) ∧
  Z.of_nat (size (sys_threads s)) ≤ max_concurrent.
Proof.
  intros Hmax [es Hr]. pose proof (sys_pipe_reachable d es s Hr) as Hp.
  destruct (threads_ok_reachable _ _ (serve_safe cfg jwt templates client) d es s Hr) as [H1 H2].
  pose proof (concurrency_cap _ _ _ _ _ Hmax Hp) as (Hheld & Hsem & _).
  split; [done|]. split; [|split; [done|split; [done|]]].
  - intros i. split; [intros [th Hth]|intros [req Hreq]; by eapply H2].
    destruct (H1 i th Hth) as (req & -> & _). by eexists.
  - assert (Hle : Z.of_nat (size (dom (sys_threads s))) ≤ count holds_permit (reqs (sys_pipe s))).
    { apply size_le_count. intros i [th Hth]%elem_of_dom. destruct (H1 i th Hth) as (req & Hreq & _).
      unfold handling_at in Hreq. destruct (reqs (sys_pipe s) !! i) as [r|]; [|done].
      exists r. split; [done|]. unfold holds_permit. simpl in Hreq. by destruct (rq_stage r). }
    rewrite size_dom in Hle. lia.
Qed.

End Server.

(** ** Instances

    Two requests at once: an item is created with a token while the list is
    read. *)

Definition server_run (es : list SysEvent) : option (Sys (SQ := mem_sql)) :=
  sys_all (HC := http_crate_ascii) (SQ := mem_sql) (AR := toy_argon2) (JW := toy_jwt)
    (EX := toy_externals) (EV := toy_env) 0 1000 (loaded (env_of [])) (jwt_secret_new "k") true false
    (sys_init (SQ := mem_sql) 2 100 mem_empty) es.

Definition server_after (es : list SysEvent) : Sys (SQ := mem_sql) :=
  default (sys_init (SQ := mem_sql) 2 100 mem_empty) (server_run es).

Definition toy_sys_step : Sys (SQ := mem_sql) → SysEvent → Sys (SQ := mem_sql) → Prop :=
  sys_step (HC := http_crate_ascii) (SQ := mem_sql) (AR := toy_argon2) (JW := toy_jwt)
    (EX := toy_externals) (EV := toy_env) 0 1000 (loaded (env_of [])) (jwt_secret_new "k") true false.

Definition server_runs (es : list SysEvent) : bool :=
  match server_run es with Some _ => true | None => false end.

Lemma server_run_ok es :
  server_runs es = true →
  run toy_sys_step (sys_init (SQ := mem_sql) 2 100 mem_empty) es (server_after es).
Proof.
  unfold server_runs, server_after. destruct (server_run es) as [s|] eqn:E; [|done].
  intros _. by apply sys_all_run.
Qed.

Lemma server_step_ok es e :
  server_runs (es ++ [e]) = true →
  run toy_sys_step (sys_init (SQ := mem_sql) 2 100 mem_empty) es (server_after es) ∧
  toy_sys_step (server_after es) e (server_after (es ++ [e])).
Proof.
  intros H. pose proof (server_run_ok _ H) as Hr. apply run_snoc in Hr as (s & Hr & Hs).
  assert (E : server_after es = s); [|by rewrite E].
  unfold server_after, server_run. by erewrite run_sys_all.
Qed.

Definition create_parts : Parts :=
  mkParts "POST" (mkUri "/api/admin/items" None) [("authorization", "Bearer k.3700.admin")].

Definition list_parts : Parts := mkParts "GET" (mkUri "/api/items" None) [].

Definition before_insert : list SysEvent :=
  [SArrive ip1 (sample_clock 0) create_parts "r0"; SStart 0; SBody 0 (Some "{}"); SCall 0; SCall 0;
   SArrive ip1 (sample_clock 1) list_parts "r1"; SStart 1; SBody 1 (Some "")].

Lemma database_authorised_witness :
  let s := server_after before_insert in
  let s' := server_after (before_insert ++ [SCall 0]) in
  t_items (sys_tables (SQ := mem_sql) s') !! "uuid-0" = Some (mkItemRow "pen" "blue" 0) ∧
  t_users (sys_tables (SQ := mem_sql) s') = t_users (sys_tables (SQ := mem_sql) s).
Proof.
  intros s s'. split; [by vm_compute|].
  destruct (server_step_ok before_insert (SCall 0) ltac:(by vm_compute)) as [Hr Hs].
  exact (proj1 (database_authorised (HC := http_crate_ascii) (SQ := mem_sql) (AR := toy_argon2)
    (JW := toy_jwt) (EX := toy_externals) (EV := toy_env) 0 1000 2 100 (loaded (env_of []))
    (jwt_secret_new "k") true false mem_empty before_insert s (SCall 0) s' Hr Hs)).
Defined.

Lemma server_refines_pipeline_witness :
  size (sys_threads (server_after before_insert)) = 2%nat ∧
  Z.of_nat (size (sys_threads (server_after before_insert))) ≤ 2.
Proof.
  split; [by vm_compute|].
  apply (server_refines_pipeline (HC := http_crate_ascii) (SQ := mem_sql) (AR := toy_argon2)
    (JW := toy_jwt) (EX := toy_externals) (EV := toy_env) 0 1000 2 100 (loaded (env_of []))
    (jwt_secret_new "k") true false mem_empty (server_after before_insert)); [done|].
  exists before_insert. apply server_run_ok. by vm_compute.
Defined.

(** A request for a file: the path it opens. *)
Definition file_parts : Parts := mkParts "GET" (mkUri "/static/css/./a.css" None) [].

Definition file_events : list SysEvent :=
  [SArrive ip1 (sample_clock 0) file_parts "r0"; SStart 0; SBody 0 (Some "")].

Lemma outside_confined_witness :
  let s := server_after file_events in
  let s' := server_after (file_events ++ [SCall 0]) in
  (ex_call <$> sys_outside (SQ := mem_sql) s') = [Metadata "./static/css/a.css"] ∧
  (sys_outside (SQ := mem_sql) s' = sys_outside (SQ := mem_sql) s ∨
   ∃ i o r, SCall 0 = SCall i ∧
     sys_outside (SQ := mem_sql) s' = mkExchange o r :: sys_outside (SQ := mem_sql) s).
Proof.
  intros s s'. split; [by vm_compute|].
  destruct (server_step_ok file_events (SCall 0) ltac:(by vm_compute)) as [Hr Hs].
  destruct (outside_confined (HC := http_crate_ascii) (SQ := mem_sql) (AR := toy_argon2)
    (JW := toy_jwt) (EX := toy_externals) (EV := toy_env) 0 1000 2 100 (loaded (env_of []))
    (jwt_secret_new "k") true false mem_empty file_events s (SCall 0) s' Hr Hs)
    as [H|(i & req & o & r & He & _ & H & _)].
  - left. exact H.
  - right. exists i, o, r. split; [exact He|exact H].
Defined.
