(* ===== verification/Progress.v ===== *)
(** * Progress of requests

    No request waits for another for ever: whatever the others do, each that was
    admitted always has a next step of its own, and is over after boundedly many. *)
From S2P Require Import Prelude RustStr HttpTypes Request Response Router Config Metrics.
From S2P Require Import Net RateLimiter Semaphore Sql Effects Database Session Auth.
From S2P Require Import StaticFiles Proxy Task Handlers Connection Server.
Local Open Scope Z_scope.

Section Progress.
Context `{HC : HttpCrate, SQ : Sql, AR : Argon2, JW : Jwt, EX : Externals, EV : Env}.
Context (instant_min max_body max_concurrent rps : Z).
Context (cfg : ServerConfig) (jwt : JwtSecret) (templates client : bool).

Abbreviation srv_step := (sys_step instant_min max_body cfg jwt templates client).
Abbreviation srv_init := (sys_init max_concurrent rps).

(** ** Specification *)

(** The request an event is a step of. *)
Definition step_of (e : SysEvent) : option nat :=
  match e with
  | SStart i | SBody i _ | SCall i | SDone i | STimeout i | SDrop i => Some i
  | SArrive _ _ _ _ | SPeer _ | SEvict _ => None
  end.

Definition own_steps (i : nat) (es : list SysEvent) : nat :=
  length (filter (λ e, step_of e = Some i) es).

(** Where a request stands after so many steps of its own: the first poll, the
    body, the calls of its handler, and its end. *)
Definition stands (s : Sys) (i k : nat) : Prop :=
  match rq_stage <$> reqs (sys_pipe s) !! i with
  | None | Some Unpolled => k = 0%nat
  | Some Collecting => k = 1%nat
  | Some (Handling _) =>
      (2 ≤ k ≤ 15)%nat ∧ ∃ th, sys_threads s !! i = Some th ∧ at_most (15 - k) (th_prog th)
  | Some _ => (k ≤ 16)%nat
  end.

(** ** Lemmas *)

Lemma own_steps_snoc i es e :
  own_steps i (es ++ [e]) =
  (own_steps i es + if decide (step_of e = Some i) then 1 else 0)%nat.
Proof.
  unfold own_steps. rewrite filter_app, length_app. f_equal.
  rewrite filter_cons, filter_nil. by case_decide.
Qed.

Lemma stands_same s s' i k :
  reqs (sys_pipe s') !! i = reqs (sys_pipe s) !! i → sys_threads s' !! i = sys_threads s !! i →
  stands s i k → stands s' i k.
Proof. unfold stands. by intros -> ->. Qed.

(** The pipeline's steps elsewhere: the request is as it was, or arrives. *)
Lemma pipe_other p pe p' i :
  pipe_step instant_min max_body p pe p' → request_event pe ≠ Some i →
  reqs p' !! i = reqs p !! i ∨
  reqs p !! i = None ∧ ∃ r, reqs p' !! i = Some r ∧
    (rq_stage r = Unpolled ∨ ∃ resp, rq_stage r = Rejected resp).
Proof.
  unfold pipe_step. intros H Hno. destruct (request_event pe) as [j|] eqn:Ej.
  - left. destruct (request_step _ _ _ _ _ _ Ej H) as (r & st & sem' & m & _ & _ & -> & _).
    simpl. rewrite list_lookup_insert_ne; [done|congruence].
  - destruct pe as [ip c parts fresh| | | | |rejected|at_]; simplify_eq/=; [|by left..].
    assert (Hnew : ∀ r p', reqs p' = reqs p ++ [r] →
      rq_stage r = Unpolled ∨ (∃ resp, rq_stage r = Rejected resp) →
      reqs p' !! i = reqs p !! i ∨ reqs p !! i = None ∧ ∃ r, reqs p' !! i = Some r ∧
        (rq_stage r = Unpolled ∨ ∃ resp, rq_stage r = Rejected resp)).
    { intros r p' -> Hr. destruct (decide (i < length (reqs p))%nat) as [Hlt|Hge].
      - left. by apply lookup_app_l.
      - destruct (decide (i = length (reqs p))) as [->|Hne].
        + right. rewrite lookup_ge_None_2 by lia. split; [done|]. exists r.
          by rewrite list_lookup_middle.
        + left. by rewrite !lookup_ge_None_2 by (rewrite ?length_app; simpl; lia). }
    unfold on_arrive. destruct (limiter_call _ _ _ _) as [[resp|] rl]; [eapply Hnew; eauto|].
    destruct (concurrency_call _); eapply Hnew; eauto.
Qed.

(** The event of the pipeline a step of the server is, when it is one. *)
Lemma pipe_part s e s' i :
  srv_step s e s' → step_of e ≠ Some i →
  sys_threads s' !! i = sys_threads s !! i ∧
  (sys_pipe s' = sys_pipe s ∨
   ∃ pe, pipe_step instant_min max_body (sys_pipe s) pe (sys_pipe s') ∧ request_event pe ≠ Some i).
Proof.
  unfold sys_step, pipe_step. destruct e as [ip c parts fresh|j|j col|j|j|j|j|rejected|at_]; simpl; intros H Hno.
  - injection H as <-. split; [done|]. right. by exists (Arrive ip c parts fresh).
  - destruct (on_start _ _ _) as [p|] eqn:E; simplify_eq/=. split; [done|]. right. by exists (Start j).
  - unfold on_sys_body in H. destruct (on_body _ _ _ _) as [p|] eqn:E; simplify_eq/=.
    destruct (reqs p !! j) as [r|]; simplify_eq/=. split.
    + destruct (rq_stage r); try done. simpl. rewrite lookup_insert_ne; [done|congruence].
    + right. exists (Body j col). destruct (rq_stage r); done.
  - unfold on_sys_call in H. destruct (sys_threads s !! j) as [th|]; simplify_eq/=.
    destruct (advance _ _) as [[[o prog] w]|]; simplify_eq/=. split; [|by left].
    rewrite lookup_insert_ne; [done|congruence].
  - unfold on_sys_done in H. destruct (sys_threads s !! j) as [th|]; simplify_eq/=.
    destruct (finished _) as [resp|]; simplify_eq/=.
    destruct (on_finish _ _ _) as [p|] eqn:E; simplify_eq/=.
    split; [rewrite lookup_delete_ne; [done|congruence]|]. right. by exists (Finish j (Some resp)).
  - destruct (on_finish _ _ _) as [p|] eqn:E; simplify_eq/=.
    split; [rewrite lookup_delete_ne; [done|congruence]|]. right. by exists (Finish j None).
  - destruct (on_drop _ _) as [p|] eqn:E; simplify_eq/=.
    split; [rewrite lookup_delete_ne; [done|congruence]|]. right. by exists (Drop j).
  - injection H as <-. split; [done|]. right. by exists (Peer rejected).
  - injection H as <-. split; [done|]. right. by exists (Evict at_).
Qed.

Lemma other_step s e s' i k :
  srv_step s e s' → step_of e ≠ Some i → stands s i k → stands s' i k.
Proof.
  intros Hs Hno Hst. destruct (pipe_part _ _ _ _ Hs Hno) as [Hth [Hp|(pe & Hp & Hpe)]].
  { apply (stands_same s); [by rewrite Hp|done..]. }
  destruct (pipe_other _ _ _ _ Hp Hpe) as [Hr|(Hr & r & Hr' & Hnew)].
  - by apply (stands_same s).
  - unfold stands in *. rewrite Hr in Hst. rewrite Hr'. simpl in *.
    destruct Hnew as [->|[resp ->]]; [done|lia].
Qed.

(** Its own steps. *)
Lemma stands_after_set s i r st sem' m k th :
  reqs (sys_pipe s) !! i = Some r →
  match st with
  | Unpolled => k = 0%nat
  | Collecting => k = 1%nat
  | Handling _ => (2 ≤ k ≤ 15)%nat ∧ ∃ t, th !! i = Some t ∧ at_most (15 - k) (th_prog t)
  | _ => (k ≤ 16)%nat
  end →
  ∀ s', sys_pipe s' = set_stage i r st sem' m (sys_pipe s) → sys_threads s' = th → stands s' i k.
Proof.
  intros Hi Hst s' Hp <-. unfold stands. rewrite Hp. simpl.
  by rewrite list_lookup_insert_eq by (by eapply lookup_lt_Some).
Qed.

Lemma call_stands s s' i k :
  (∀ th, sys_threads s !! i = Some th → is_Some (handling_at (sys_pipe s) i)) →
  on_sys_call i s = Some s' → stands s i k → stands s' i (S k).
Proof.
  intros Hok Hs Hst. unfold stands in Hst.
  unfold on_sys_call in Hs. destruct (sys_threads s !! i) as [th|] eqn:Eth; simplify_eq/=.
  destruct (Hok th eq_refl) as [req Hreq]. unfold handling_at in Hreq.
  destruct (reqs (sys_pipe s) !! i) as [r|] eqn:Er; simplify_eq/=.
  destruct (rq_stage r) eqn:Est; simplify_eq/=. destruct Hst as [Hk (th' & Hth' & Hp)].
  assert (th' = th) as -> by congruence.
  destruct (th_prog th) as [a|c q]; simpl in Hs; [done|].
  destruct (perform c _) as [rep w]. simpl in Hs. injection Hs as <-.
  destruct (15 - k)%nat as [|n] eqn:Ek; [done|]. unfold stands. simpl. rewrite Er. simpl. rewrite Est.
  split; [lia|]. eexists. split; [by rewrite lookup_insert_eq|]. assert (14 - k = n)%nat as -> by lia.
  apply Hp.
Qed.

Lemma own_step s e s' i k :
  (∀ th, sys_threads s !! i = Some th → is_Some (handling_at (sys_pipe s) i)) →
  srv_step s e s' → step_of e = Some i → stands s i k → stands s' i (S k).
Proof.
  unfold sys_step. intros Hok Hs Hi Hst.
  destruct e as [|j|j col|j|j|j|j| |]; simplify_eq/=; try (by apply (call_stands s));
    unfold stands in Hst.
  - unfold on_start in Hs. destruct (reqs _ !! i) as [r|] eqn:Er; simplify_eq/=.
    destruct (rq_stage r) eqn:Est; simplify_eq/=. destruct (content_length_too_large _ _); simplify_eq/=;
      (eapply stands_after_set; [exact Er| |done..]); simpl; lia.
  - unfold on_sys_body, on_body in Hs. destruct (reqs (sys_pipe s) !! i) as [r|] eqn:Er; simplify_eq/=.
    destruct (rq_stage r) eqn:Est; simplify_eq/=.
    assert (Hlt : (i < length (reqs (sys_pipe s)))%nat) by (by eapply lookup_lt_Some).
    destruct col as [bytes|]; [destruct (_ <? _)|]; simpl in Hs;
      rewrite list_lookup_insert_eq in Hs by done; simpl in Hs; injection Hs as <-;
      (eapply stands_after_set; [exact Er| |done..]); simpl; try lia.
    split; [lia|]. eexists. split; [by rewrite lookup_insert_eq|]. apply serve_terminates.
  - unfold on_sys_done in Hs. destruct (sys_threads s !! i) as [th|] eqn:Eth; simplify_eq/=.
    destruct (finished _) as [resp|]; simplify_eq/=. unfold on_finish in Hs.
    destruct (reqs (sys_pipe s) !! i) as [r|] eqn:Er; simplify_eq/=.
    destruct (rq_stage r) eqn:Est; simplify_eq/=. destruct Hst as [Hk _].
    eapply stands_after_set; [exact Er| |done..]. simpl. lia.
  - unfold on_finish in Hs. destruct (reqs (sys_pipe s) !! i) as [r|] eqn:Er; simplify_eq/=.
    destruct (rq_stage r) eqn:Est; simplify_eq/=. destruct Hst as [Hk _].
    eapply stands_after_set; [exact Er| |done..]. simpl. lia.
  - unfold on_drop in Hs. destruct (reqs (sys_pipe s) !! i) as [r|] eqn:Er; simplify_eq/=.
    destruct (rq_stage r) eqn:Est; simplify_eq/=;
      (eapply stands_after_set; [exact Er| |done..]); simpl; lia.
Qed.

Lemma run_stands d es s i : run srv_step (srv_init d) es s → stands s i (own_steps i es).
Proof.
  revert es s. apply (run_ind_r _ _ (λ es s, stands s i (own_steps i es))); [done|].
  intros es s e s' Hr IH Hs. rewrite own_steps_snoc. case_decide as Hi.
  - rewrite Nat.add_1_r. apply (own_step s e); [|done..]. intros th Hth.
    destruct (threads_ok_reachable _ _ _ _ _ _ _ _ _ _ (serve_safe cfg jwt templates client)
      d es s Hr) as [H1 _]. destruct (H1 i th Hth) as (req & -> & _). by eexists.
  - rewrite Nat.add_0_r. by apply (other_step s e).
Qed.

(** ** Theorem *)

(** C13: no request is ever stuck: in every interleaving, a request makes at most
    sixteen steps of its own (the first poll, the body, thirteen calls and its end),
    and as long as it has been admitted and is not over, whatever the others have
    done and wherever they stand, one of those steps can be taken: the poll, the
    body's arrival, the handler's next call or its answer. *)
Theorem request_progress d es s i r col :
  run srv_step (srv_init d) es s → reqs (sys_pipe s) !! i = Some r →
  (own_steps i es ≤ 16)%nat ∧
  (holds_permit r = true → ∃ e s', e ∈ [SStart i; SBody i col; SCall i; SDone i] ∧ srv_step s e s').
Proof.
  intros Hr Hi. pose proof (run_stands d es s i Hr) as Hst. unfold stands in Hst. rewrite Hi in Hst.
  simpl in Hst. split; [destruct (rq_stage r); lia|]. unfold holds_permit, sys_step.
  destruct (rq_stage r) eqn:Est; try done; intros _.
  - exists (SStart i). simpl. unfold on_start. rewrite Hi. simpl. rewrite Est. eexists.
    split; [set_solver|done].
  - exists (SBody i col). simpl. unfold on_sys_body, on_body. rewrite Hi. simpl. rewrite Est. simpl.
    assert (Hlt : (i < length (reqs (sys_pipe s)))%nat) by (by eapply lookup_lt_Some).
    destruct col as [bytes|]; [destruct (max_body <? byte_len bytes)|]; simpl;
      rewrite list_lookup_insert_eq by done; simpl; eexists; (split; [set_solver|done]).
  - destruct Hst as [_ (th & Hth & _)]. destruct (th_prog th) as [resp|c k] eqn:Ep.
    + exists (SDone i). simpl. unfold on_sys_done. rewrite Hth. simpl. rewrite Ep. simpl.
      unfold on_finish. rewrite Hi. simpl. rewrite Est. eexists. split; [set_solver|done].
    + exists (SCall i). simpl. unfold on_sys_call. rewrite Hth. simpl. rewrite Ep. simpl.
      destruct (perform c _) as [rep w]. eexists. split; [set_solver|done].
Qed.

End Progress.

(** ** Instance *)

Lemma request_progress_witness :
  own_steps 0 before_insert = 4%nat ∧
  ∃ e s', e ∈ [SStart 0; SBody 0 None; SCall 0; SDone 0] ∧
    toy_sys_step (server_after before_insert) e s'.
Proof.
  split; [by vm_compute|].
  assert (Hr : server_runs before_insert = true) by (by vm_compute).
  destruct (reqs (sys_pipe (server_after before_insert)) !! 0%nat) as [r|] eqn:Er;
    [|by vm_compute in Er].
  refine (proj2 (request_progress (HC := http_crate_ascii) (SQ := mem_sql) (AR := toy_argon2)
    (JW := toy_jwt) (EX := toy_externals) (EV := toy_env) 0 1000 2 100 (loaded (env_of []))
    (jwt_secret_new "k") true false mem_empty before_insert (server_after before_insert) 0 r None
    (server_run_ok _ Hr) Er) _).
  assert (Hp : (match reqs (sys_pipe (server_after before_insert)) !! 0%nat with
    | Some r => holds_permit r | None => false end) = true) by (by vm_compute).
  by rewrite Er in Hp.
Defined.
