(* ===== verification/SessionSafety.v ===== *)
(** * Sessions in operation

    What happens to a session token over a whole run of the server, with the
    handlers of all requests interleaved call by call: which steps can put it into
    the table, and that it is put there once. *)
From S2P Require Import Prelude RustStr HttpTypes Request Response Router Config Metrics.
From S2P Require Import Net RateLimiter Semaphore Sql Effects Database Session Auth.
From S2P Require Import StaticFiles Proxy Task Handlers Connection Server.
Local Open Scope Z_scope.

Section SessionSafety.
Context `{HC : HttpCrate, SQ : Sql, AR : Argon2, JW : Jwt, EX : Externals, EV : Env}.
Context (instant_min max_body max_concurrent rps : Z).
Context (cfg : ServerConfig) (jwt : JwtSecret) (templates client : bool).

Abbreviation srv_step := (sys_step instant_min max_body cfg jwt templates client).
Abbreviation srv_init := (sys_init max_concurrent rps).

Definition sessions (s : Sys) : gmap string SessionRow := t_sessions (sys_tables s).

(** ** UUIDs

    Every UUID a handler has drawn is below the counter, and stands at one place of
    one thread's observations. *)
Record draws_ok (s : Sys) : Prop := {
  dr_bound : ∀ i th a n, sys_threads s !! i = Some th →
    th_seen th !! a = Some (SawUuid n) → (n < sys_uuids s)%nat;
  dr_once : ∀ i j th th' a b n, sys_threads s !! i = Some th → sys_threads s !! j = Some th' →
    th_seen th !! a = Some (SawUuid n) → th_seen th' !! b = Some (SawUuid n) → i = j ∧ a = b;
}.

(** Whether an event is a call by a thread. *)
Definition calls (e : SysEvent) (j : nat) : bool :=
  match e with SCall i => bool_decide (i = j) | _ => false end.

Lemma calls_spec e j : calls e j = true ↔ e = SCall j.
Proof. destruct e; simpl; try done. rewrite bool_decide_eq_true. naive_solver. Qed.

(** Where an observed UUID of the new state comes from: the same thread, one place
    earlier if it made the call, or this very call. *)
Lemma draw_before s e s' j th' a n :
  srv_step s e s' → sys_threads s' !! j = Some th' → th_seen th' !! a = Some (SawUuid n) →
  (∃ th b, sys_threads s !! j = Some th ∧ th_seen th !! b = Some (SawUuid n) ∧
     a = if calls e j then S b else b) ∨
  e = SCall j ∧ a = O ∧ n = sys_uuids s ∧ sys_uuids s' = S (sys_uuids s).
Proof.
  intros Hs Hth Ha.
  destruct (calls e j) eqn:Ec.
  - apply calls_spec in Ec as ->. destruct (call_threads _ _ _ _ _ _ _ _ _ Hs) as (th & prog & o & Hj & Ho & E & Eu & _).
    rewrite E, lookup_insert_eq in Hth. injection Hth as <-. simpl in Ha.
    destruct a as [|b]; simpl in Ha.
    + injection Ha as ->. right. by rewrite Eu, Ho.
    + left. exists th, b. done.
  - left. destruct (step_threads _ _ _ _ _ _ _ _ _ _ _ Hs Hth) as [Hold|[[_ Hnil]|(th & o & He & _)]];
      [by exists th', a|by rewrite Hnil in Ha|]. apply calls_spec in He. congruence.
Qed.

Lemma step_uuids s e s' : srv_step s e s' → (sys_uuids s ≤ sys_uuids s')%nat.
Proof.
  intros Hs. destruct (sys_step_db _ _ _ _ _ _ _ _ _ Hs) as [(_ & -> & _)|[i ->]]; [done|].
  destruct (call_threads _ _ _ _ _ _ _ _ _ Hs) as (_ & _ & o & _ & _ & _ & -> & _). destruct o; lia.
Qed.

Lemma draws_ok_step s e s' : draws_ok s → srv_step s e s' → draws_ok s'.
Proof.
  intros [H1 H2] Hs. pose proof (step_uuids _ _ _ Hs) as Hle. split.
  - intros i th a n Hi Ha. destruct (draw_before _ _ _ _ _ _ _ Hs Hi Ha)
      as [(th0 & b & Hi0 & Hb & _)|(_ & _ & -> & ->)]; [|lia]. pose proof (H1 _ _ _ _ Hi0 Hb). lia.
  - intros i j th th' a b n Hi Hj Ha Hb.
    destruct (draw_before _ _ _ _ _ _ _ Hs Hi Ha) as [(t1 & a1 & Hi1 & Ha1 & ->)|(-> & -> & -> & _)],
      (draw_before _ _ _ _ _ _ _ Hs Hj Hb) as [(t2 & b1 & Hj1 & Hb1 & ->)|(E & -> & En & _)].
    + destruct (H2 _ _ _ _ _ _ _ Hi1 Hj1 Ha1 Hb1) as [-> ->]. done.
    + subst n. pose proof (H1 _ _ _ _ Hi1 Ha1). lia.
    + pose proof (H1 _ _ _ _ Hj1 Hb1). lia.
    + by injection E as ->.
Qed.

Lemma draws_ok_reachable d es s : run srv_step (srv_init d) es s → draws_ok s.
Proof.
  apply run_invariant; [intros a e b; apply draws_ok_step|].
  split; simpl; [intros i th a n|intros i j th th' a b n]; by rewrite lookup_empty.
Qed.

(** ** Tokens

    A token that no handler can put into the table any more: an insert is the third
    call after the draw. *)
Definition spent (s : Sys) (tok : string) : Prop :=
  ∀ n, tok = uuid n → (n < sys_uuids s)%nat ∧
    ∀ i th a, sys_threads s !! i = Some th → th_seen th !! a = Some (SawUuid n) → (3 ≤ a)%nat.

Lemma spent_step s e s' tok : spent s tok → srv_step s e s' → spent s' tok.
Proof.
  intros Hsp Hs n Hn. destruct (Hsp n Hn) as [Hlt Hpos]. pose proof (step_uuids _ _ _ Hs).
  split; [lia|]. intros i th a Hi Ha.
  destruct (draw_before _ _ _ _ _ _ _ Hs Hi Ha) as [(th0 & b & Hi0 & Hb & ->)|(_ & _ & -> & _)]; [|lia].
  pose proof (Hpos _ _ _ Hi0 Hb). destruct (calls e i); lia.
Qed.

(** What a step does to the sessions: nothing, an expiry, an end, or an insert by a
    handler that drew the token three calls before. *)
Lemma step_sessions d es s e s' :
  run srv_step (srv_init d) es s → srv_step s e s' →
  sessions s' = sessions s ∨
  (∃ k, sessions s' = delete k (sessions s)) ∨
  (∃ k x, sessions s' = alter (touch x) k (sessions s)) ∨
  ∃ i th n row, e = SCall i ∧ sys_threads s !! i = Some th ∧
    th_seen th !! 2%nat = Some (SawUuid n) ∧ sessions s' = <[uuid n := row]> (sessions s).
Proof.
  intros Hr Hs. destruct (sys_step_db _ _ _ _ _ _ _ _ _ Hs) as [[E _]|[i ->]].
  { left. unfold sessions, sys_tables. by rewrite E. }
  pose proof (threads_ok_reachable _ _ _ _ _ _ _ _ _ _ (serve_safe cfg jwt templates client)
    d es s Hr) as Hok.
  destruct (threads_ok_call _ _ i s s' Hok Hs)
    as (_ & th & req & Hth & _ & [_ _ [E|Hone] _]); [by left|right].
  destruct Hone as [(k & _ & [E|[x E]])|(n & k & now & seen' & row & Eseen & _ & E & _)].
  - left. by exists k.
  - right. left. by exists k, x.
  - right. right. exists i, th, n, row. rewrite Eseen. done.
Qed.

(** The same session: all but its expiry. *)
Definition same_session (row row' : SessionRow) : Prop :=
  sr_username row' = sr_username row ∧ sr_csrf_token row' = sr_csrf_token row.

(** A spent token stays what it is or goes. *)
Lemma spent_row d es s e s' tok row' :
  run srv_step (srv_init d) es s → srv_step s e s' → spent s tok →
  sessions s' !! tok = Some row' → ∃ row, sessions s !! tok = Some row ∧ same_session row row'.
Proof.
  intros Hr Hs Hsp Hrow.
  destruct (step_sessions _ _ _ _ _ Hr Hs) as [E|[[k E]|[(k & x & E)|(i & th & n & row & _ & Hi & Hn & E)]]];
    rewrite E in Hrow.
  - by exists row'.
  - apply lookup_delete_Some in Hrow as [_ Hrow]. by exists row'.
  - destruct (decide (k = tok)) as [->|Hne].
    + rewrite lookup_alter_eq in Hrow. destruct (sessions s !! tok) as [row|]; [|done].
      injection Hrow as <-. by exists row.
    + rewrite lookup_alter_ne in Hrow by done. by exists row'.
  - apply lookup_insert_Some in Hrow as [[<- _]|[_ Hrow]]; [|by exists row'].
    destruct (Hsp n eq_refl) as [_ Hpos]. pose proof (Hpos _ _ _ Hi Hn). lia.
Qed.

(** A token in the table is spent. *)
Lemma present_spent d es s tok row :
  (∀ m n, uuid m = uuid n → m = n) → (∀ n, t_sessions (tables d) !! uuid n = None) →
  run srv_step (srv_init d) es s → sessions s !! tok = Some row → spent s tok.
Proof.
  intros Hinj Hnew Hr. revert es s Hr row.
  apply (run_ind_r _ _ (λ _ s, ∀ row, sessions s !! tok = Some row → spent s tok)).
  { intros row Hrow n ->. change (sessions (srv_init d)) with (t_sessions (tables d)) in Hrow.
    by rewrite Hnew in Hrow. }
  intros es s e s' Hr IH Hs row Hrow.
  destruct (sessions s !! tok) as [row0|] eqn:E0; [by eapply spent_step, Hs; eapply IH|].
  destruct (step_sessions _ _ _ _ _ Hr Hs) as [E|[[k E]|[(k & x & E)|(i & th & n & row1 & -> & Hi & Hn & E)]]];
    rewrite E in Hrow.
  - congruence.
  - apply lookup_delete_Some in Hrow as [_ Hrow]. congruence.
  - apply lookup_alter_Some in Hrow as [(_ & r & Hr0 & _)|[_ Hr0]]; congruence.
  - apply lookup_insert_Some in Hrow as [[<- _]|[_ ?]]; [|congruence].
    destruct (draws_ok_reachable _ _ _ Hr) as [H1 H2]. intros m <-%Hinj.
    pose proof (step_uuids _ _ _ Hs). pose proof (H1 _ _ _ _ Hi Hn). split; [lia|].
    intros j th' a Hj Ha. destruct (draw_before _ _ _ _ _ _ _ Hs Hj Ha)
      as [(th0 & b & Hj0 & Hb & ->)|(_ & _ & -> & _)]; [|lia].
    destruct (H2 _ _ _ _ _ _ _ Hi Hj0 Hn Hb) as [-> <-].
    by rewrite (proj2 (calls_spec _ _)).
Qed.

(** Over a run. *)
Lemma spent_run d es s es' s' tok :
  run srv_step (srv_init d) es s → spent s tok → run srv_step s es' s' →
  ∀ row', sessions s' !! tok = Some row' →
  ∃ row, sessions s !! tok = Some row ∧ same_session row row'.
Proof.
  intros Hr Hsp Hr'. revert es Hr Hsp. induction Hr' as [s|s e s1 es' s2 Hs _ IH]; intros es Hr Hsp row' Hrow'.
  { by exists row'. }
  destruct (IH (es ++ [e])) with (row' := row') as (row1 & Hrow1 & E1 & E2); [|by eapply spent_step|done|].
  { apply run_snoc. eauto. }
  destruct (spent_row _ _ _ _ _ _ _ Hr Hs Hsp Hrow1) as (row & Hrow & E3 & E4).
  exists row. split; [done|]. split; congruence.
Qed.

(** ** Theorem *)

(** C2: a session never changes hands and its end is final: in every interleaving,
    once a token is in the session table, whatever requests run afterwards it stands
    for the same account with the same CSRF token for as long as it is there, and
    once it has been removed, by a logout or after its expiry, it never comes back,
    provided the UUIDs drawn are distinct and not already in use. *)
Theorem session_end_is_final d es s1 tok row es2 s2 :
  (∀ m n, uuid m = uuid n → m = n) → (∀ n, t_sessions (tables d) !! uuid n = None) →
  run srv_step (srv_init d) es s1 → t_sessions (sys_tables s1) !! tok = Some row →
  run srv_step s1 es2 s2 →
  (∀ row2, t_sessions (sys_tables s2) !! tok = Some row2 → same_session row row2) ∧
  (t_sessions (sys_tables s2) !! tok = None →
   ∀ es3 s3, run srv_step s2 es3 s3 → t_sessions (sys_tables s3) !! tok = None).
Proof.
  intros Hinj Hnew Hr1 Hrow Hr2. pose proof (present_spent _ _ _ _ _ Hinj Hnew Hr1 Hrow) as Hsp.
  split.
  - intros row2 Hrow2. destruct (spent_run _ _ _ _ _ _ Hr1 Hsp Hr2 _ Hrow2) as (row' & Hrow' & Hsame).
    change (sessions s1) with (t_sessions (sys_tables s1)) in Hrow'. by simplify_eq.
  - intros Hnone es3 s3 Hr3.
    assert (Hsp2 : spent s2 tok).
    { eapply (run_invariant _ (λ s, spent s tok)); [|exact Hsp|exact Hr2]. intros a e b. apply spent_step. }
    destruct (t_sessions (sys_tables s3) !! tok) as [row3|] eqn:E3; [|done].
    destruct (spent_run _ _ _ _ _ _ (run_app _ _ _ _ _ _ Hr1 Hr2) Hsp2 Hr3 _ E3) as (row' & Hrow' & _).
    change (sessions s2) with (t_sessions (sys_tables s2)) in Hrow'. congruence.
Qed.

End SessionSafety.

(** ** Instances

    A login, a logout, and another login. *)

Lemma toy_uuid_inj m n : uuid (Env := toy_env) m = uuid (Env := toy_env) n → m = n.
Proof.
  cbn [uuid toy_env]. intros H. apply Nat2Z.inj, (show_uint_inj (Z.of_nat (m + n))); [lia..|].
  by repeat (injection H as H).
Qed.

Definition account_db : MemDb := w_db admin_world.

Definition toy_step : Sys (SQ := mem_sql) → SysEvent → Sys (SQ := mem_sql) → Prop :=
  sys_step (HC := http_crate_ascii) (SQ := mem_sql) (AR := toy_argon2) (JW := toy_jwt)
    (EX := toy_externals) (EV := toy_env) 0 1000 (loaded (env_of [])) (jwt_secret_new "k") true false.

Definition toy_all (s : Sys (SQ := mem_sql)) (es : list SysEvent) : option (Sys (SQ := mem_sql)) :=
  sys_all (HC := http_crate_ascii) (SQ := mem_sql) (AR := toy_argon2) (JW := toy_jwt)
    (EX := toy_externals) (EV := toy_env) 0 1000 (loaded (env_of [])) (jwt_secret_new "k") true false
    s es.

Definition toy_start : Sys (SQ := mem_sql) := sys_init (SQ := mem_sql) 9 100 account_db.

(** The state after a run, and whether it is one. *)
Definition toy_after (s : Sys (SQ := mem_sql)) (es : list SysEvent) : Sys (SQ := mem_sql) :=
  default s (toy_all s es).

Definition toy_runs (s : Sys (SQ := mem_sql)) (es : list SysEvent) : bool :=
  match toy_all s es with Some _ => true | None => false end.

Lemma toy_after_run s es : toy_runs s es = true → run toy_step s es (toy_after s es).
Proof.
  unfold toy_runs, toy_after. destruct (toy_all s es) as [s'|] eqn:E; [|done].
  intros _. by apply sys_all_run.
Qed.

Definition post_parts (target : string) (hs : HeaderMap) : Parts := mkParts "POST" (mkUri target None) hs.

(** A form posted and its handler run for so many calls. *)
Definition posted (i : nat) (target : string) (hs : HeaderMap) (form : string) (n : nat) : list SysEvent :=
  [SArrive ip1 (sample_clock (Z.of_nat i)) (post_parts target hs) "r"; SStart i; SBody i (Some form)] ++
  replicate n (SCall i).

Definition login_events : list SysEvent := posted 0 "/ui/login" [] "username=admin&password=pw" 5.

Definition logout_events : list SysEvent :=
  posted 1 "/ui/logout" [("cookie", "session=uuid-0")] "_csrf=uuid-1" 4.

Definition again_events : list SysEvent := posted 2 "/ui/login" [] "username=admin&password=pw" 5.

Lemma session_end_is_final_witness :
  let s1 := toy_after toy_start login_events in
  let s2 := toy_after s1 logout_events in
  let s3 := toy_after s2 again_events in
  t_sessions (sys_tables (SQ := mem_sql) s1) !! "uuid-0" = Some (mkSessionRow "admin" "uuid-1" 4600) ∧
  t_sessions (sys_tables (SQ := mem_sql) s3) !! "uuid-0" = None.
Proof.
  intros s1 s2 s3.
  assert (H1 : t_sessions (sys_tables (SQ := mem_sql) s1) !! "uuid-0" =
    Some (mkSessionRow "admin" "uuid-1" 4600)) by (by vm_compute).
  split; [exact H1|].
  refine (proj2 (session_end_is_final (HC := http_crate_ascii) (SQ := mem_sql) (AR := toy_argon2)
    (JW := toy_jwt) (EX := toy_externals) (EV := toy_env) 0 1000 9 100 (loaded (env_of []))
    (jwt_secret_new "k") true false account_db login_events s1 "uuid-0" _ logout_events s2
    toy_uuid_inj _ _ H1 _) _ again_events s3 _).
  - intros n. assert (E : t_sessions (tables (Sql := mem_sql) account_db) = ∅) by (by vm_compute).
    by rewrite E, lookup_empty.
  - apply toy_after_run. by vm_compute.
  - apply toy_after_run. by vm_compute.
  - by vm_compute.
  - apply toy_after_run. by vm_compute.
Defined.
