(* ===== verification/Items.v ===== *)
(** * The item store in operation

    Items are created, read and deleted by requests over the API and the pages, each
    of several calls interleaved with those of all others.  The store they promise
    is atomic: every request that is answered with a result took effect, once, at
    one of its calls, as an operation of a table of items. *)
From S2P Require Import Prelude RustStr HttpTypes Request Response Router Config Metrics.
From S2P Require Import Net RateLimiter Semaphore Sql Effects Database Session Auth.
From S2P Require Import StaticFiles Proxy Task Handlers Connection Server SessionSafety.
Local Open Scope Z_scope.

(** ** The atomic store *)

Inductive ItemOp : Type :=
| OList
| OGet (i : string)
| OCreate (nm desc : string)
| ODelete (i : string).

Inductive ItemRes : Type :=
| RItems (its : list Item)
| RItem (it : option Item)
| RCreated (it : Item)
| RDeleted (found : bool).

Abbreviation Store := (gmap string ItemRow).

Inductive item_atomic (m : Store) : ItemOp → ItemRes → Store → Prop :=
| atomic_list l :
    l ≡ₚ map_to_list m → StronglySorted created_le l → item_atomic m OList (RItems (listed l)) m
| atomic_get i :
    item_atomic m (OGet i)
      (RItem ((λ row, mkItem i (ir_name row) (ir_description row)) <$> m !! i)) m
| atomic_create i nm desc at_ :
    m !! i = None →
    item_atomic m (OCreate nm desc) (RCreated (mkItem i nm desc)) (<[i := mkItemRow nm desc at_]> m)
| atomic_delete i :
    item_atomic m (ODelete i) (RDeleted (bool_decide (is_Some (m !! i)))) (delete i m).

#[export] Instance ItemRow_eq_dec : EqDecision ItemRow.
Proof. solve_decision. Defined.

(** What a call did to the items, if anything. *)
Definition change (o : Obs) : option (Store * Store) :=
  match o with
  | SawTables t t' =>
      if decide (t_items t' = t_items t) then None else Some (t_items t, t_items t')
  | _ => None
  end.

Lemma change_quiet t t' : t_items t' = t_items t → change (SawTables t t') = None.
Proof. intros E. simpl. by rewrite decide_True. Qed.

Lemma changes_quiet t t' seen :
  t_items t' = t_items t → omap change (SawTables t t' :: seen) = omap change seen.
Proof. intros E. unfold omap. cbn [list_omap]. by rewrite change_quiet. Qed.

Section Items.
Context `{HC : HttpCrate, SQ : Sql, AR : Argon2, JW : Jwt, EX : Externals, EV : Env}.
Context (instant_min max_body max_concurrent rps : Z).
Context (cfg : ServerConfig) (jwt : JwtSecret) (templates client : bool).

Abbreviation srv_step := (sys_step instant_min max_body cfg jwt templates client).
Abbreviation srv_init := (sys_init max_concurrent rps).

(** ** What requests ask of it *)

Inductive Via : Type := Api | Page.

(** The operation of a request, by its method, the components of its path and its
    body. *)
Definition request_op (req : HttpRequest) : option (Via * ItemOp) :=
  let m := req_method req in
  match path_segments (path req) with
  | ["api"; "items"] => if String.eqb m "GET" then Some (Api, OList) else None
  | ["api"; "items"; i] => if String.eqb m "GET" then Some (Api, OGet i) else None
  | ["api"; "admin"; "items"] =>
      if String.eqb m "POST" then (λ c, (Api, OCreate c.1 c.2)) <$> create_payload (req_body req)
      else None
  | ["api"; "admin"; "items"; i] => if String.eqb m "DELETE" then Some (Api, ODelete i) else None
  | ["ui"; "items"] =>
      if String.eqb m "POST" && templates then
        let f := form_fields "name" "description" (req_body req) in Some (Page, OCreate f.1 f.2)
      else None
  | ["ui"; "items"; i; "delete"] =>
      if String.eqb m "POST" && templates then Some (Page, ODelete i) else None
  | _ => None
  end.

(** The response to a result. *)
Definition result_response (via : Via) (res : ItemRes) : HttpResponse :=
  match via, res with
  | Api, RItems its => json_response 200 (JArr (map item_json its))
  | Api, RItem (Some it) => json_response 200 (item_json it)
  | Api, RItem None => json_error 404 "item not found"
  | Api, RCreated it => json_response 201 (item_json it)
  | Api, RDeleted true => json_response 200 (JObj [("deleted", JBool true)])
  | Api, RDeleted false => json_error 404 "item not found"
  | Page, RCreated _ => redirect_to "/ui/items?flash=Item+created"
  | Page, _ => redirect_to "/ui/items?flash=Item+deleted"
  end.

Section Answers.
(** From what the handler observed, *)
Context (saw : Obs → Prop) (req : HttpRequest).

(** why the request has no session, *)
Definition no_session : Prop :=
  session_token req = None ∨ saw SawFailed ∨
  ∃ tok now t, session_token req = Some tok ∧ saw (SawClock now) ∧ saw (SawTables t t) ∧
    live t tok now = None.

(** whether it may change items, *)
Definition allowed (via : Via) (op : ItemOp) : Prop :=
  match via, op with
  | Api, (OList | OGet _) => True
  | Api, _ => ∃ tok now c, extract_bearer (header req "authorization") = Some tok ∧
      saw (SawClock now) ∧ verify_token jwt now tok = Ok c
  | Page, _ => ∃ s, session_seen saw req s ∧ csrf_token s = csrf_of req
  end.

(** and the responses that say that nothing was done. *)
Definition unauthorised (via : Via) (op : ItemOp) (resp : HttpResponse) : Prop :=
  match via, op with
  | Api, (OList | OGet _) => False
  | Api, _ =>
      (resp = json_error 401 "missing Bearer token" ∧
       extract_bearer (header req "authorization") = None) ∨
      (resp = json_error 401 "invalid or expired token" ∧ ∃ tok now e,
         extract_bearer (header req "authorization") = Some tok ∧ saw (SawClock now) ∧
         verify_token jwt now tok = Err e)
  | Page, _ =>
      (resp = redirect_to "/ui/login" ∧ no_session) ∨
      (resp = csrf_failed ∧ ∃ s, session_seen saw req s ∧ csrf_token s ≠ csrf_of req)
  end.

Definition failure_response (via : Via) (op : ItemOp) (resp : HttpResponse) : Prop :=
  match via, op with
  | Api, _ => resp = error_empty
  | Page, OCreate _ _ => ∃ its, resp = render_template "items.html"
      [("items", CItems its); ("flash", CText "Failed to create item."); ("flash_type", CText "error")]
  | Page, _ => resp = redirect_to "/ui/items"
  end.

(** A request is refused when it is not allowed, or fails when a statement of its
    handler fails. *)
Definition refused (via : Via) (op : ItemOp) (resp : HttpResponse) : Prop :=
  unauthorised via op resp ∨ (failure_response via op resp ∧ saw SawFailed).

End Answers.

Section Mono.
Context (saw saw' : Obs → Prop) (Hsaw : ∀ o, saw o → saw' o) (req : HttpRequest).

Lemma session_seen_mono s : session_seen saw req s → session_seen saw' req s.
Proof. intros (tok & row & now & t & ? & ? & ? & ?). exists tok, row, now, t. auto. Qed.

Lemma no_session_mono : no_session saw req → no_session saw' req.
Proof.
  intros [?|[?|(tok & now & t & ? & ? & ? & ?)]]; [by left|right; left; auto|].
  right. right. exists tok, now, t. auto.
Qed.

Lemma allowed_mono via op : allowed saw req via op → allowed saw' req via op.
Proof.
  assert (H1 : (∃ s, session_seen saw req s ∧ csrf_token s = csrf_of req) →
    ∃ s, session_seen saw' req s ∧ csrf_token s = csrf_of req)
    by (intros (s & ? & ?); eauto using session_seen_mono).
  assert (H2 : (∃ tok now c, extract_bearer (header req "authorization") = Some tok ∧
      saw (SawClock now) ∧ verify_token jwt now tok = Ok c) →
    ∃ tok now c, extract_bearer (header req "authorization") = Some tok ∧
      saw' (SawClock now) ∧ verify_token jwt now tok = Ok c)
    by (intros (tok & now & c & ? & ? & ?); exists tok, now, c; auto).
  destruct via, op; auto.
Qed.

Lemma refused_mono via op resp : refused saw req via op resp → refused saw' req via op resp.
Proof.
  intros [H|[H Hf]]; [left|right; auto]. destruct via, op; simpl in *; try done.
  1, 2: destruct H as [?|(? & tok & now & e & ? & ? & ?)]; [by left|right];
    split; [done|]; exists tok, now, e; auto.
  all: destruct H as [[? ?]|(? & s & ? & ?)]; [left|right]; eauto using no_session_mono, session_seen_mono.
Qed.
End Mono.

(** Refused without a change, or allowed and one call that was the operation and all
    others without a change. *)
Definition took_effect (req : HttpRequest) (via : Via) (op : ItemOp) (resp : HttpResponse)
    (seen : list Obs) : Prop :=
  (refused (.∈ seen) req via op resp ∧ omap change seen = []) ∨
  (allowed (.∈ seen) req via op ∧ ∃ res t t', resp = result_response via res ∧
    SawTables t t' ∈ seen ∧
    item_atomic (t_items t) op res (t_items t') ∧ omap change seen = omap change [SawTables t t']).

(** ** Lemmas: each handler *)

Section Handlers.
Context (I : list Obs → World Db → World Db → Prop) (HI : ∀ seen w w', I seen w w').

(** The lookup of a session changes no items. *)
Lemma current_session_quiet req seen (Q : option Session → list Obs → Prop) :
  (∀ o seen', omap change seen' = omap change seen →
     match o with
     | Some s => session_seen (.∈ seen') req s
     | None => no_session (.∈ seen') req
     end → Q o seen') →
  always I Q (current_session req) seen.
Proof.
  intros HQ. unfold current_session. destruct (session_token req) as [tok|] eqn:Et;
    [|apply HQ; [done|by left]].
  apply always_bind, session_get_always; auto.
  - intros t t1 t2 now E. apply HQ.
    { rewrite changes_quiet by done. exact (changes_quiet t t (SawClock now :: seen) eq_refl). }
    simpl. destruct (live t tok now) as [row|] eqn:El; simpl.
    + exists tok, row, now, t. repeat split; set_solver.
    + right. right. exists tok, now, t. repeat split; set_solver.
  - intros t now e. apply HQ; [exact (changes_quiet t t (SawClock now :: seen) eq_refl)|].
    right. left. set_solver.
  - intros now e. apply HQ; [done|]. right. left. set_solver.
Qed.

Definition is_change (op : ItemOp) : bool :=
  match op with OCreate _ _ | ODelete _ => true | _ => false end.

(** The two guards: past them the request is allowed. *)
Lemma form_guard_quiet req op seen (Q : option HttpResponse → list Obs → Prop) :
  (∀ o seen', omap change seen' = omap change seen →
     match o with
     | None => allowed (.∈ seen') req Page op
     | Some resp => refused (.∈ seen') req Page op resp
     end → Q o seen') →
  always I Q (form_guard req) seen.
Proof.
  intros HQ. apply always_bind, current_session_quiet. intros o seen' E Ho. apply HQ; [done|].
  destruct o as [s|]; [|left; by destruct op; left].
  destruct (String.eqb_spec (csrf_token s) (csrf_of req)) as [Ec|Ec].
  - destruct op; by exists s.
  - left. destruct op; right; eauto.
Qed.

Lemma admin_guard_quiet req op seen (Q : option HttpResponse → list Obs → Prop) :
  is_change op = true →
  (∀ o seen', omap change seen' = omap change seen →
     match o with
     | None => allowed (.∈ seen') req Api op
     | Some resp => refused (.∈ seen') req Api op resp
     end → Q o seen') →
  always I Q (admin_guard jwt req) seen.
Proof.
  intros Hop HQ. unfold admin_guard. destruct (extract_bearer _) as [tok|] eqn:Et.
  - apply always_bind, always_clock; [done|]. intros now. apply HQ; [done|].
    destruct (verify_token jwt now tok) as [c|e] eqn:Ev.
    + destruct op; try done; exists tok, now, c; repeat split; set_solver.
    + left. destruct op; try done; right; (split; [done|]); exists tok, now, e;
        repeat split; set_solver.
  - apply HQ; [done|]. left. destruct op; try done; by left.
Qed.

(** The operation's own statement, after calls that changed nothing. *)
Lemma effect_now req via op res resp t t' seen :
  omap change seen = [] → allowed (.∈ seen) req via op → resp = result_response via res →
  item_atomic (t_items t) op res (t_items t') →
  took_effect req via op resp (SawTables t t' :: seen).
Proof.
  intros E Hal -> Hat. right. split; [eapply allowed_mono, Hal; set_solver|].
  exists res, t, t'. split; [done|]. split; [by left|]. split; [done|].
  unfold omap in *. cbn [list_omap]. by rewrite E.
Qed.

Lemma refused_now req via op resp seen :
  omap change seen = [] → SawFailed ∈ seen → failure_response via op resp →
  took_effect req via op resp seen.
Proof. intros E Hf Hr. left. split; [by right|done]. Qed.

(** The two writes. *)
Lemma create_item_effect req via nm desc seen (Q : result DbErr Item → list Obs → Prop) :
  omap change seen = [] → allowed (.∈ seen) req via (OCreate nm desc) →
  (∀ it seen', took_effect req via (OCreate nm desc) (result_response via (RCreated it)) seen' →
     Q (Ok it) seen') →
  (∀ e seen', omap change seen' = [] → SawFailed ∈ seen' → Q (Err e) seen') →
  always I Q (create_item nm desc) seen.
Proof.
  intros E Hal Hk He. apply create_item_always; auto.
  - intros t n at_ Hn. apply Hk. eapply effect_now; [done| |done|by apply atomic_create].
    eapply allowed_mono, Hal. set_solver.
  - intros n e. apply He; [done|]. by left.
Qed.

Lemma delete_item_effect req via i seen (Q : result DbErr bool → list Obs → Prop) :
  omap change seen = [] → allowed (.∈ seen) req via (ODelete i) →
  (∀ b seen', took_effect req via (ODelete i) (result_response via (RDeleted b)) seen' →
     Q (Ok b) seen') →
  (∀ e seen', omap change seen' = [] → SawFailed ∈ seen' → Q (Err e) seen') →
  always I Q (delete_item i) seen.
Proof.
  intros E Hal Hk He. apply delete_item_always; auto.
  - intros t. apply Hk. by eapply effect_now, atomic_delete.
  - intros e. apply He; [done|]. by left.
Qed.

(** The handlers of the six kinds of request. *)
Abbreviation effect req via op := (always I (λ resp seen, took_effect req via op resp seen)).

Lemma h_list_items_effect req : effect req Api OList (h_list_items req) [].
Proof.
  apply always_bind, list_items_always; [auto| |].
  - intros its t (l & Hp & Hs & ->). by eapply effect_now, atomic_list.
  - intros e. apply refused_now; [done|by left|done].
Qed.

Lemma h_get_item_effect req i :
  path_param req "id" = Some i → effect req Api (OGet i) (h_get_item req) [].
Proof.
  intros Hi. unfold h_get_item. rewrite Hi. apply always_bind, get_item_always; [auto| |].
  - intros t. eapply effect_now; [done|done| |apply atomic_get]. change (default "" (Some i)) with i.
    by destruct (t_items t !! i).
  - intros e. apply refused_now; [done|by left|done].
Qed.

Lemma h_admin_create_effect req nm desc :
  create_payload (req_body req) = Some (nm, desc) →
  effect req Api (OCreate nm desc) (h_admin_create jwt req) [].
Proof.
  intros Hpl. apply always_bind, (admin_guard_quiet req (OCreate nm desc)); [done|].
  intros o seen E Ho. destruct o as [refusal|]; [by left|]. rewrite Hpl.
  eapply always_bind, (create_item_effect req Api); [done|done|auto|]. intros e seen' E' Hf.
  by apply refused_now.
Qed.

Lemma h_admin_delete_effect req i :
  path_param req "id" = Some i → effect req Api (ODelete i) (h_admin_delete jwt req) [].
Proof.
  intros Hi. apply always_bind, (admin_guard_quiet req (ODelete i)); [done|].
  intros o seen E Ho. destruct o as [refusal|]; [by left|]. rewrite Hi.
  eapply always_bind, (delete_item_effect req Api); [done|done|by intros [|]|].
  intros e seen' E' Hf. by apply refused_now.
Qed.

Lemma h_ui_create_effect req :
  let f := form_fields "name" "description" (req_body req) in
  effect req Page (OCreate f.1 f.2) (h_ui_create req) [].
Proof.
  cbv zeta. destruct (form_fields _ _ _) as [nm desc] eqn:Ef. cbn [fst snd].
  apply always_bind, (form_guard_quiet req (OCreate nm desc)). intros o seen E Ho.
  destruct o as [refusal|]; [by left|]. rewrite Ef.
  eapply always_bind, (create_item_effect req Page); [done|done|auto|]. intros e seen' E' Hf.
  apply always_bind, list_items_always; [auto| |].
  - intros its t Hl. apply refused_now; [by rewrite changes_quiet|by right|by eexists].
  - intros e'. apply refused_now; [done|by right|by eexists].
Qed.

Lemma h_ui_delete_effect req i :
  path_param req "id" = Some i → effect req Page (ODelete i) (h_ui_delete req) [].
Proof.
  intros Hi. apply always_bind, (form_guard_quiet req (ODelete i)). intros o seen E Ho.
  destruct o as [refusal|]; [by left|]. rewrite Hi.
  eapply always_bind, (delete_item_effect req Page); [done|done|by intros [|]|].
  intros e seen' E' Hf. by apply refused_now.
Qed.

(** Serving any of them. *)
Lemma serve_effect req via op :
  request_op req = Some (via, op) → effect req via op (serve cfg jwt templates client req) [].
Proof.
  unfold request_op. intros H.
  assert (Hget : ∀ i, path_param (with_params req {["id" := i]}) "id" = Some i)
    by (intros i; apply lookup_singleton_eq).
  repeat (case_match; try done);
    repeat match goal with
    | E : String.eqb _ _ = true |- _ => apply String.eqb_eq in E
    | E : (_ && _) = true |- _ => apply andb_true_iff in E as [? ->]
    end; simplify_eq; try done.
  - rewrite ui_create_route by done. apply (h_ui_create_effect (with_params req ∅)).
  - erewrite ui_delete_route by done. by apply (h_ui_delete_effect (with_params req _)).
  - rewrite list_items_route by done. apply (h_list_items_effect (with_params req ∅)).
  - erewrite get_item_route by done. by apply (h_get_item_effect (with_params req _)).
  - rewrite admin_create_route by done. apply fmap_Some in H as ([nm desc] & Hpl & [= -> ->]).
    by apply (h_admin_create_effect (with_params req ∅)).
  - erewrite admin_delete_route by done. by apply (h_admin_delete_effect (with_params req _)).
Qed.

End Handlers.

(** ** The changes a request made in a run *)

Definition items (s : Sys) : Store := t_items (sys_tables s).

Definition step_changes (i : nat) (s : Sys) (e : SysEvent) : list (Store * Store) :=
  match sys_exec instant_min max_body cfg jwt templates client s e with
  | Some s' =>
      if calls e i then if decide (items s' = items s) then [] else [(items s, items s')] else []
  | None => []
  end.

Fixpoint item_changes (i : nat) (s : Sys) (es : list SysEvent) : list (Store * Store) :=
  match es with
  | [] => []
  | e :: es' =>
      step_changes i s e ++
      match sys_exec instant_min max_body cfg jwt templates client s e with
      | Some s' => item_changes i s' es'
      | None => []
      end
  end.

Lemma item_changes_snoc i s es s' e :
  run srv_step s es s' → item_changes i s (es ++ [e]) = item_changes i s es ++ step_changes i s' e.
Proof.
  induction 1 as [s|s e0 s1 es s2 Hs _ IH]; simpl.
  - by destruct (sys_exec _ _ _ _ _ _ s e); rewrite app_nil_r.
  - rewrite Hs, IH. apply app_assoc.
Qed.

(** A request that has not come to its handler. *)
Definition not_yet (p : Pipe) (i : nat) : Prop :=
  match rq_stage <$> reqs p !! i with
  | Some Unpolled | Some Collecting | None => True
  | _ => False
  end.

Lemma not_yet_set i r st sem' m p j :
  reqs p !! i = Some r → not_yet (set_stage i r st sem' m p) j →
  match rq_stage r with Unpolled | Collecting => True | _ => st ≠ Unpolled ∧ st ≠ Collecting end →
  not_yet p j.
Proof.
  unfold not_yet. simpl. intros Hi Hj Hst. destruct (decide (j = i)) as [->|Hne].
  - rewrite Hi. simpl. rewrite list_lookup_insert_eq in Hj by (by eapply lookup_lt_Some). simpl in Hj.
    destruct (rq_stage r); try done; destruct Hst; by destruct st.
  - by rewrite list_lookup_insert_ne in Hj.
Qed.
(** What has come to its handler does not go back. *)
Lemma not_yet_step p pe p' j : pipe_step instant_min max_body p pe p' → not_yet p' j → not_yet p j.
Proof.
  unfold pipe_step. destruct pe as [ip c parts fresh|i|i b|i h|i|rejected|at_]; simpl; intros H.
  - assert (Hnew : ∀ r, reqs p' = reqs p ++ [r] → not_yet p' j → not_yet p j).
    { intros r E. unfold not_yet. rewrite E. destruct (decide (j < length (reqs p))%nat).
      - by rewrite lookup_app_l.
      - by rewrite (lookup_ge_None_2 (reqs p)) by lia. }
    injection H as <-. unfold on_arrive in *. destruct (limiter_call _ _ _ _) as [[resp|] rl];
      [by eapply Hnew|]. by destruct (concurrency_call _); eapply Hnew.
  - unfold on_start in H. destruct (reqs p !! i) as [r|] eqn:Hi; simplify_eq/=.
    destruct (rq_stage r) eqn:Est; try done. destruct (content_length_too_large _ _); injection H as <-;
      intros Hj; (eapply not_yet_set; [done..|]); by rewrite Est.
  - unfold on_body in H. destruct (reqs p !! i) as [r|] eqn:Hi; simplify_eq/=.
    destruct (rq_stage r) eqn:Est; try done. destruct b as [b|]; [destruct (_ <? _)|]; injection H as <-;
      intros Hj; (eapply not_yet_set; [done..|]); by rewrite Est.
  - unfold on_finish in H. destruct (reqs p !! i) as [r|] eqn:Hi; simplify_eq/=.
    destruct (rq_stage r) eqn:Est; try done. destruct h; injection H as <-;
      intros Hj; (eapply not_yet_set; [done..|]); by rewrite Est.
  - unfold on_drop in H. destruct (reqs p !! i) as [r|] eqn:Hi; simplify_eq/=.
    destruct (rq_stage r) eqn:Est; try done; injection H as <-;
      intros Hj; (eapply not_yet_set; [done..|]); by rewrite Est.
  - by injection H as <-.
  - by injection H as <-.
Qed.

(** A handler starts for a request that had not come to one. *)
Lemma body_not_yet i col s s' : srv_step s (SBody i col) s' → not_yet (sys_pipe s) i.
Proof.
  unfold sys_step. simpl. unfold on_sys_body, on_body, not_yet.
  destruct (reqs (sys_pipe s) !! i) as [r|]; [|done]. simpl. by destruct (rq_stage r).
Qed.

Lemma not_yet_run s es s' j :
  run srv_step s es s' → not_yet (sys_pipe s') j → not_yet (sys_pipe s) j.
Proof.
  induction 1 as [s|s e s1 es s2 Hs _ IH]; [done|]. intros Hn%IH.
  destruct (sys_step_pipe _ _ _ _ _ _ _ _ _ Hs) as [<-|[pe Hpe]]; [done|]. by eapply not_yet_step.
Qed.

(** A call is by a request in its handler. *)
Lemma call_not_yet d es s i s' :
  run srv_step (srv_init d) es s → srv_step s (SCall i) s' → ¬ not_yet (sys_pipe s) i.
Proof.
  intros Hr Hs Hn. pose proof (threads_ok_reachable _ _ _ _ _ _ _ _ _ _
    (serve_safe cfg jwt templates client) d es s Hr) as Hok.
  destruct (threads_ok_call _ _ i s s' Hok Hs) as (_ & th & req & _ & Hreq & _).
  unfold handling_at in Hreq. unfold not_yet in Hn.
  destruct (reqs (sys_pipe s) !! i) as [r|]; [|done]. simpl in *. by destruct (rq_stage r).
Qed.

(** The changes a run shows of a request are those its handler has observed. *)
Lemma changes_observed d es s i :
  run srv_step (srv_init d) es s →
  (not_yet (sys_pipe s) i → item_changes i (srv_init d) es = []) ∧
  ∀ th, sys_threads s !! i = Some th → item_changes i (srv_init d) es = rev (omap change (th_seen th)).
Proof.
  revert es s. apply (run_ind_r _ _ (λ es s,
    (not_yet (sys_pipe s) i → item_changes i (srv_init d) es = []) ∧
    ∀ th, sys_threads s !! i = Some th →
      item_changes i (srv_init d) es = rev (omap change (th_seen th)))).
  { split; [done|]. simpl. intros th H. by rewrite lookup_empty in H. }
  intros es s e s' Hr [IH1 IH2] Hs. rewrite (item_changes_snoc _ _ _ _ _ Hr).
  assert (Hch : step_changes i s e =
    if calls e i then if decide (items s' = items s) then [] else [(items s, items s')] else []).
  { unfold step_changes. pose proof Hs as Es. unfold sys_step in Es. by rewrite Es. }
  rewrite Hch. clear Hch. destruct (calls e i) eqn:Ec.
  - apply calls_spec in Ec as ->.
    destruct (call_threads _ _ _ _ _ _ _ _ _ Hs) as (th0 & prog & o & Hi & Ho & E & _ & _ & Hdb).
    assert (Hpipe : sys_pipe s' = sys_pipe s).
    { unfold sys_step in Hs. simpl in Hs. unfold on_sys_call in Hs. rewrite Hi in Hs. simpl in Hs.
      destruct (advance _ _) as [[[? ?] ?]|]; [|done]. by injection Hs as <-. }
    split.
    + rewrite Hpipe. intros []%(call_not_yet _ _ _ _ _ Hr Hs).
    + intros th Hth. rewrite E, lookup_insert_eq in Hth. injection Hth as <-.
      rewrite (IH2 _ Hi). cbn [th_seen]. unfold omap at 2. cbn [list_omap]. fold (omap change (th_seen th0)).
      assert (Hno : sys_db s' = sys_db s → items s' = items s)
        by (intros Edb; unfold items, sys_tables; by rewrite Edb).
      assert (Hfail : statement_failed (sys_db s) (sys_db s') → items s' = items s)
        by (intros Hf; unfold items, sys_tables; by rewrite (statement_failed_tables _ _ Hf)).
      destruct o; cbn [change]; try (rewrite decide_True by auto; apply app_nil_r).
      destruct Ho as [-> ->]. unfold items. case_decide; [apply app_nil_r|done].
  - rewrite app_nil_r. split.
    + intros Hn. apply IH1. destruct (sys_step_pipe _ _ _ _ _ _ _ _ _ Hs) as [<-|[pe Hpe]]; [done|].
      by eapply not_yet_step.
    + intros th Hth. destruct (step_threads _ _ _ _ _ _ _ _ _ _ _ Hs Hth)
        as [Hold|[[[col ->] Hnil]|(th0 & o & -> & _)]].
      * by apply IH2.
      * rewrite Hnil. apply IH1. by eapply body_not_yet.
      * by rewrite (proj2 (calls_spec _ _) eq_refl) in Ec.
Qed.

(** ** Theorem *)

(** C15: the item store is linearizable: whatever other requests do between the
    calls of its handler, a request to list, read, create or delete items, over the
    API or a page, is answered in one of three ways.  It is refused, because its
    bearer token is missing or does not verify, because no session of its cookie was
    live (or its lookup failed), or because the form's CSRF token is not the
    session's; or it fails, because a statement of its handler failed; and then it
    changed nothing.  Otherwise it was allowed, by such a token or session, and is
    answered with the result of its operation on the items as they were at the moment
    of one of its calls, which left them as the operation does; and that is all it
    did to them. *)
Theorem items_linearizable d es s i s' req via op :
  run srv_step (srv_init d) es s → srv_step s (SDone i) s' →
  handling_at (sys_pipe s) i = Some req → request_op req = Some (via, op) →
  ∃ resp, replied s' i resp ∧
    let saw := observed instant_min max_body max_concurrent rps cfg jwt templates client d es i in
    ((refused saw req via op resp ∧ item_changes i (srv_init d) es = []) ∨
     allowed saw req via op ∧
     ∃ s0 s1 res, call_of instant_min max_body max_concurrent rps cfg jwt templates client d es i s0 s1 ∧
       resp = result_response via res ∧ item_atomic (items s0) op res (items s1) ∧
       item_changes i (srv_init d) es =
         if decide (items s1 = items s0) then [] else [(items s0, items s1)]).
Proof.
  intros Hr Hs Hreq Hop.
  assert (Hserve : ∀ req, always (λ _ _ _, True)
    (λ resp seen, ∀ via op, request_op req = Some (via, op) → took_effect req via op resp seen)
    (serve cfg jwt templates client req) []).
  { intros q. destruct (request_op q) as [[v o]|] eqn:E.
    - eapply always_mono; [|by apply serve_effect]. cbv beta. intros resp seen H v' o' [= <- <-]. exact H.
    - eapply always_mono; [|eapply always_weaken; [|apply serve_safe]]; [done|]. done. }
  destruct (promise_kept _ _ _ _ _ _ _ _ _ d es s i s' req Hserve Hr Hs Hreq)
    as (th & resp & Hth & Hrep & Ha & Hobs). exists resp. split; [done|].
  rewrite (proj2 (changes_observed _ _ _ _ Hr) th Hth).
  destruct (Ha via op Hop) as [[Href ->]|(Hal & res & t & t' & -> & Hin & Hat & ->)].
  { left. split; [exact (refused_mono _ _ Hobs _ _ _ _ Href)|done]. }
  right. split; [exact (allowed_mono _ _ Hobs _ _ _ Hal)|].
  destruct (seen_history _ _ _ _ _ _ _ _ _ _ _ Hr i th _ Hth Hin) as (s0 & s1 & Hc & -> & ->).
  exists s0, s1, res. do 3 (split; [done|]). unfold omap. cbn [list_omap change].
  unfold items. by case_decide.
Qed.

End Items.

(** ** Instances

    An item is created while the list is read, after the insert. *)
Definition both_events : list SysEvent := before_insert ++ [SCall 0; SCall 1; SDone 0].

Lemma items_linearizable_witness :
  let s := server_after both_events in
  let s' := server_after (both_events ++ [SDone 1]) in
  ∃ resp, replied (HC := http_crate_ascii) s' 1 resp ∧
    (resp = error_empty (HC := http_crate_ascii) ∨
     ∃ its, resp = json_response (HC := http_crate_ascii) (EX := toy_externals) 200
       (JArr (map item_json its))).
Proof.
  intros s s'.
  destruct (server_step_ok both_events (SDone 1) ltac:(by vm_compute)) as [Hr Hs].
  destruct (items_linearizable (HC := http_crate_ascii) (SQ := mem_sql) (AR := toy_argon2)
    (JW := toy_jwt) (EX := toy_externals) (EV := toy_env) 0 1000 2 100 (loaded (env_of []))
    (jwt_secret_new "k") true false mem_empty both_events s 1 s'
    (mkRequest "GET" (mkUri "/api/items" None) [("x-request-id", "r1")] "" ∅) Api OList Hr Hs
    ltac:(by vm_compute) ltac:(by vm_compute)) as (resp & Hrep & [[[[]|[H _]] _]|(_ & s0 & s1 & res & _ & H & Hat & _)]).
  - exists resp. split; [exact Hrep|by left].
  - exists resp. split; [exact Hrep|right].
    destruct res as [its| | |]; [exists its; exact H|exfalso; inversion Hat..].
Defined.

(** The changes of the two requests in this run. *)
Example both_changes :
  map (λ i, length (item_changes (HC := http_crate_ascii) (SQ := mem_sql) (AR := toy_argon2)
    (JW := toy_jwt) (EX := toy_externals) (EV := toy_env) 0 1000 (loaded (env_of []))
    (jwt_secret_new "k") true false i (sys_init (SQ := mem_sql) 2 100 mem_empty) both_events))
    [0%nat; 1%nat] = [1%nat; 0%nat].
Proof. by vm_compute. Qed.
