(* ===== verification/Tokens.v ===== *)
(** * Bearer tokens in operation

    One request trades credentials for a token, others use it: from the accounts
    that [POST /auth/token] reads to the answers of the admin routes, whatever other
    requests do in between. *)
From S2P Require Import Prelude RustStr HttpTypes Request Response Router Config Metrics.
From S2P Require Import Net RateLimiter Semaphore Sql Effects Database Session Auth.
From S2P Require Import StaticFiles Proxy Task Handlers Connection Server SessionSafety Items.
Local Open Scope Z_scope.

Section Tokens.
Context `{HC : HttpCrate, SQ : Sql, AR : Argon2, JW : Jwt, EX : Externals, EV : Env}.
Context (instant_min max_body max_concurrent rps : Z).
Context (cfg : ServerConfig) (secret : string) (templates client : bool).

Abbreviation jwt := (jwt_secret_new secret).
Abbreviation srv_step := (sys_step instant_min max_body cfg jwt templates client).
Abbreviation srv_init := (sys_init max_concurrent rps).
Abbreviation srv_calls := (call_of instant_min max_body max_concurrent rps cfg jwt templates client).
Abbreviation saw := (observed instant_min max_body max_concurrent rps cfg jwt templates client).
Abbreviation changes := (item_changes instant_min max_body cfg jwt templates client).

(** ** Specification *)

Definition token_request (req : HttpRequest) : Prop :=
  req_method req = "POST" ∧ path_segments (path req) = ["auth"; "token"].

Definition admin_request (req : HttpRequest) : Prop :=
  (req_method req = "POST" ∧ path_segments (path req) = ["api"; "admin"; "items"]) ∨
  (req_method req = "DELETE" ∧ ∃ i, path_segments (path req) = ["api"; "admin"; "items"; i]).

Definition issued (tok : string) : HttpResponse :=
  json_response 200 (JObj [("token", JStr tok)]).

(** The token opens the admin routes up to a time: in any run, an admin request with
    it is not refused if the handler reads the clock by then, and after that it is
    refused and changes nothing. *)
Definition opens (tok : string) (until : Z) : Prop :=
  ∀ d es s i s' req,
    run srv_step (srv_init d) es s → srv_step s (SDone i) s' →
    handling_at (sys_pipe s) i = Some req → admin_request req →
    extract_bearer (header req "authorization") = Some tok →
    ∃ now resp, saw d es i (SawClock now) ∧ replied s' i resp ∧
      if now <=? until then status resp ≠ 401
      else resp = json_error 401 "invalid or expired token" ∧ changes i (srv_init d) es = [].

(** ** Lemmas: the handlers *)

(** What a token request's handler answers, from what it saw. *)
Definition token_answer (req : HttpRequest) (resp : HttpResponse) (seen : list Obs) : Prop :=
  match login_payload (req_body req) with
  | None => resp = json_error 400 "invalid JSON body"
  | Some (user, password) =>
      (resp = error_empty ∧
       (SawFailed ∈ seen ∨
        ∃ now e, SawClock now ∈ seen ∧ create_token jwt now user = Err e)) ∨
      ∃ t, SawTables t t ∈ seen ∧
        if accepts t user password
        then ∃ now tok, SawClock now ∈ seen ∧ create_token jwt now user = Ok tok ∧ resp = issued tok
        else resp = json_error 401 "invalid credentials"
  end.

(** What an admin request's handler answers to a bearer token. *)
Definition admin_answer (req : HttpRequest) (resp : HttpResponse) (seen : list Obs) : Prop :=
  ∀ tok, extract_bearer (header req "authorization") = Some tok →
  ∃ now, SawClock now ∈ seen ∧
    match verify_token jwt now tok with
    | Ok _ => status resp ≠ 401
    | Err _ => resp = json_error 401 "invalid or expired token" ∧ omap change seen = []
    end.

Lemma json_response_status st j :
  status (json_response st j) = st ∨ status (json_response st j) = 500.
Proof.
  unfold json_response, json. destruct (json_to_vec j) as [v|].
  - rewrite build_stream.
    destruct (stream_body_cases (rb_new st) "application/json" (full_body v) (byte_len v)
      (byte_len_nonneg _)) as [->|(_ & more & ->)]; [right; by rewrite build_failed_eq|by left].
  - right. by setoid_rewrite (text_plain_response 500).
Qed.

Lemma json_response_not_401 st j : st ≠ 401 → status (json_response st j) ≠ 401.
Proof. intros H. destruct (json_response_status st j) as [->| ->]; [done|lia]. Qed.

Lemma error_empty_not_401 : status error_empty ≠ 401.
Proof. unfold error_empty, empty. by rewrite build_ok by (apply text_plain_valid || constructor). Qed.

Section Handlers.
Context (I : list Obs → World Db → World Db → Prop) (HI : ∀ seen w w', I seen w w').

Lemma h_auth_token_answer req : always I (token_answer req) (h_auth_token jwt req) [].
Proof.
  unfold h_auth_token, token_answer. destruct (login_payload _) as [[user password]|]; [|done].
  apply always_bind, verify_user_always; [auto| |].
  - intros t b Hb. destruct b.
    + apply always_bind, always_clock; [auto|]. intros now.
      destruct (create_token jwt now user) as [tok|e] eqn:E.
      2: { left. split; [done|]. right. exists now, e. split; [set_solver|done]. }
      right. exists t.
      split; [set_solver|]. rewrite <- Hb. exists now, tok. split; [set_solver|done].
    + right. exists t. split; [set_solver|]. by rewrite <- Hb.
  - intros e. left. split; [done|]. left. by left.
Qed.

(** The guard before an admin operation whose answers are not refusals. *)
Lemma admin_guard_answer req (k : Io HttpResponse) :
  (∀ seen, always I (λ resp _, status resp ≠ 401) k seen) →
  always I (admin_answer req)
    (g ← admin_guard jwt req; match g with Some refusal => mret refusal | None => k end) [].
Proof.
  intros Hk. apply always_bind. unfold admin_guard, admin_answer.
  destruct (extract_bearer _) as [tok|] eqn:Eb; [|by intros ? [=]].
  apply always_bind, always_clock; [auto|]. intros now.
  destruct (verify_token jwt now tok) as [c|e] eqn:Ev.
  - eapply (always_mono _ _ _ k); [|apply always_seen, (Hk [SawClock now])].
    intros resp seen [H Hs] tok' [= <-]. exists now. rewrite Ev. split; [|done].
    apply Hs. by left.
  - intros tok' [= <-]. exists now. rewrite Ev. split; [set_solver|done].
Qed.

Lemma h_admin_create_answer req : always I (admin_answer req) (h_admin_create jwt req) [].
Proof.
  apply admin_guard_answer. intros seen. destruct (create_payload _) as [[nm desc]|];
    [|by apply json_response_not_401].
  apply always_bind, create_item_always; auto; intros; simpl;
    auto using error_empty_not_401; by apply json_response_not_401.
Qed.

Lemma h_admin_delete_answer req : always I (admin_answer req) (h_admin_delete jwt req) [].
Proof.
  apply admin_guard_answer. intros seen. apply always_bind, delete_item_always; auto; intros; simpl;
    auto using error_empty_not_401. case_bool_decide; by apply json_response_not_401.
Qed.

Lemma serve_token_answer req :
  always I (λ resp seen, token_request req → token_answer req resp seen)
    (serve cfg jwt templates client req) [].
Proof.
  apply always_given; [done|]. intros [Hm Hp]. rewrite auth_token_route by done.
  apply (h_auth_token_answer (with_params req ∅)).
Qed.

Lemma serve_admin_answer req :
  always I (λ resp seen, admin_request req → admin_answer req resp seen)
    (serve cfg jwt templates client req) [].
Proof.
  apply always_given; [done|]. intros [[Hm Hp]|[Hm [i Hp]]].
  - rewrite admin_create_route by done. apply (h_admin_create_answer (with_params req ∅)).
  - erewrite admin_delete_route by done. apply (h_admin_delete_answer (with_params req {["id" := i]})).
Qed.

End Handlers.

(** ** Lemmas: the runs *)

Section Runs.
Context (d : Db) (es : list SysEvent) (s : Sys) (i : nat) (s' : Sys) (req : HttpRequest).
Context (Hrun : run srv_step (srv_init d) es s) (Hdone : srv_step s (SDone i) s').
Context (Hreq : handling_at (sys_pipe s) i = Some req).

Lemma admin_answered tok :
  admin_request req → extract_bearer (header req "authorization") = Some tok →
  ∃ now resp, saw d es i (SawClock now) ∧ replied s' i resp ∧
    match verify_token jwt now tok with
    | Ok _ => status resp ≠ 401
    | Err _ => resp = json_error 401 "invalid or expired token" ∧ changes i (srv_init d) es = []
    end.
Proof.
  intros Hadm Htok.
  destruct (promise_kept instant_min max_body max_concurrent rps cfg jwt templates client
    (λ q resp seen, admin_request q → admin_answer q resp seen) d es s i s' req)
    as (th & resp & Hth & Hans & Ha & Hsaw); [intros q; by apply serve_admin_answer|done..|].
  destruct (Ha Hadm tok Htok) as (now & Hn & Hv). exists now, resp.
  split; [by apply Hsaw|]. split; [done|].
  destruct (verify_token jwt now tok) as [c|e]; [done|]. destruct Hv as [-> Hch]. split; [done|].
  rewrite (proj2 (changes_observed _ _ _ _ _ _ _ _ _ _ _ _ Hrun) th Hth). by rewrite Hch.
Qed.

End Runs.

Lemma token_opens user now tok :
  0 ≤ now < 2 ^ 62 → create_token jwt now user = Ok tok →
  opens tok (now + TOKEN_TTL_SECS + LEEWAY).
Proof.
  intros Hnow Hc d es s i s' req Hr Hs Hreq Hadm Htok.
  destruct (admin_answered d es s i s' req Hr Hs Hreq tok Hadm Htok) as (later & resp & Hl & Ha & Hv).
  exists later, resp. split; [done|]. split; [done|].
  destruct (token_lifetime secret user now tok Hnow Hc later) as [Hvalid Hexp].
  destruct (Z.leb_spec later (now + TOKEN_TTL_SECS + LEEWAY)) as [Hle|Hgt].
  - by rewrite Hvalid in Hv.
  - destruct (Hexp Hgt) as [e He]. by rewrite He in Hv.
Qed.

(** ** Theorem *)

(** C3: what a bearer token is worth, from the accounts to the admin routes, in
    every interleaving: [POST /auth/token] is answered 400 to a body that is not
    credentials, 500 if a statement or the signing of the token failed, and otherwise
    by the accounts as they were at one of its handler's calls: 401 when they do not accept the credentials, and
    when they do a token that opens the admin routes for an hour and the leeway from
    the handler's reading of the clock: in any run, an admin request with it is not
    refused if its handler reads the clock in that time, and after that is refused
    with 401 and changes no item. *)
Theorem token_flow d es s i s' req :
  run srv_step (srv_init d) es s → srv_step s (SDone i) s' →
  handling_at (sys_pipe s) i = Some req → token_request req →
  ∃ resp, replied s' i resp ∧
    match login_payload (req_body req) with
    | None => resp = json_error 400 "invalid JSON body"
    | Some (user, password) =>
        (resp = error_empty ∧
         (saw d es i SawFailed ∨
          ∃ now e, saw d es i (SawClock now) ∧ create_token jwt now user = Err e)) ∨
        ∃ s0 s1, srv_calls d es i s0 s1 ∧ sys_tables s1 = sys_tables s0 ∧
          if accepts (sys_tables s0) user password
          then ∃ now tok, saw d es i (SawClock now) ∧ resp = issued tok ∧
                 (0 ≤ now < 2 ^ 62 → opens tok (now + TOKEN_TTL_SECS + LEEWAY))
          else resp = json_error 401 "invalid credentials"
    end.
Proof.
  intros Hr Hs Hreq Htr.
  destruct (promise_kept instant_min max_body max_concurrent rps cfg jwt templates client
    (λ q resp seen, token_request q → token_answer q resp seen) d es s i s' req)
    as (th & resp & Hth & Hans & Ha & Hsaw); [intros q; by apply serve_token_answer|done..|].
  specialize (Ha Htr). exists resp. split; [done|]. unfold token_answer in Ha.
  destruct (login_payload _) as [[user password]|]; [|done].
  destruct Ha as [[? [?|(now & e & ? & ?)]]|(t & Ht & Ha)]; [by left; auto|left; eauto 8|right].
  destruct (seen_history _ _ _ _ _ _ _ _ _ _ _ Hr i th _ Hth Ht) as (s0 & s1 & Hc & -> & E).
  exists s0, s1. split; [done|]. split; [done|].
  destruct (accepts _ _ _); [|done]. destruct Ha as (now & tok & Hn & Hcr & ->).
  exists now, tok. split; [by apply Hsaw|]. split; [done|].
  intros Hnow. by eapply token_opens.
Qed.

End Tokens.

(** ** Instances

    A token is issued to the administrator and used to create an item while it is
    valid. *)
Definition token_externals : Externals := {|
  login_payload := λ b, split_once " " b;
  create_payload := λ b, split_once " " b;
  json_to_vec := λ j,
    Ok (match j with
        | JObj [(k, JStr v)] => k +:+ "=" +:+ v
        | _ => "{}"
        end);
  tera_render := λ t _, Ok t;
  pct_decode_lossy := λ s, s;
  proxy_method_ok := λ _, true;
|}.

Definition token_parts : Parts := mkParts "POST" (mkUri "/auth/token" None) [].

Definition token_events : list SysEvent :=
  [SArrive ip1 (sample_clock 0) token_parts "r0"; SStart 0; SBody 0 (Some "admin pw"); SCall 0; SCall 0].

Definition use_parts : Parts :=
  mkParts "POST" (mkUri "/api/admin/items" None) [("authorization", "Bearer k.4600.admin")].

Definition use_events : list SysEvent :=
  [SDone 0; SArrive ip1 (sample_clock 1) use_parts "r1"; SStart 1; SBody 1 (Some "pen blue");
   SCall 1; SCall 1; SCall 1; SDone 1].

Definition token_run (es : list SysEvent) : option (Sys (SQ := mem_sql)) :=
  sys_all (HC := http_crate_ascii) (SQ := mem_sql) (AR := toy_argon2) (JW := toy_jwt)
    (EX := token_externals) (EV := toy_env) 0 1000 (loaded (env_of [])) (jwt_secret_new "k") true false
    (sys_init (SQ := mem_sql) 2 100 (w_db admin_world)) es.

Definition toy_token_step : Sys (SQ := mem_sql) → SysEvent → Sys (SQ := mem_sql) → Prop :=
  sys_step (HC := http_crate_ascii) (SQ := mem_sql) (AR := toy_argon2) (JW := toy_jwt)
    (EX := token_externals) (EV := toy_env) 0 1000 (loaded (env_of [])) (jwt_secret_new "k") true false.

(** The status and the body of a request's answer. *)
Definition answer_of (s : option (Sys (SQ := mem_sql))) (i : nat) : option (Z * HttpBody) :=
  s ← s; r ← reqs (sys_pipe s) !! i;
  match rq_stage r with Answered resp => Some (status resp, body resp) | _ => None end.

Definition token_server (es : list SysEvent) : Sys (SQ := mem_sql) :=
  default (sys_init (SQ := mem_sql) 2 100 (w_db admin_world)) (token_run es).

Lemma token_server_run es :
  answer_of (token_run (es ++ [SDone 0])) 0 ≠ None →
  run toy_token_step (sys_init (SQ := mem_sql) 2 100 (w_db admin_world)) es (token_server es) ∧
  toy_token_step (token_server es) (SDone 0) (token_server (es ++ [SDone 0])).
Proof.
  unfold token_server. destruct (token_run (es ++ [SDone 0])) as [s'|] eqn:E; [|done]. intros _.
  pose proof (sys_all_run _ _ _ _ _ _ _ _ _ E) as Hr. apply run_snoc in Hr as (s & Hr & Hs).
  assert (token_run es = Some s) as -> by (by apply run_sys_all). by split.
Qed.

(** The first request's answer and what the second does with it. *)
Lemma token_flow_witness :
  answer_of (token_run (token_events ++ use_events)) 0 = Some (200, FullBody "token=k.4600.admin") ∧
  answer_of (token_run (token_events ++ use_events)) 1 = Some (201, FullBody "{}") ∧
  ∃ resp, replied (HC := http_crate_ascii) (SQ := mem_sql)
            (token_server (token_events ++ [SDone 0])) 0 resp ∧
    (resp = error_empty (HC := http_crate_ascii) ∨
     resp = json_error (HC := http_crate_ascii) (EX := token_externals) 401 "invalid credentials" ∨
     ∃ tok, resp = issued (HC := http_crate_ascii) (EX := token_externals) tok).
Proof.
  split; [by vm_compute|]. split; [by vm_compute|].
  destruct (token_server_run token_events ltac:(by vm_compute)) as [Hr Hs].
  destruct (token_flow (HC := http_crate_ascii) (SQ := mem_sql) (AR := toy_argon2) (JW := toy_jwt)
    (EX := token_externals) (EV := toy_env) 0 1000 2 100 (loaded (env_of [])) "k" true false
    (w_db admin_world) token_events _ 0 _
    (mkRequest "POST" (mkUri "/auth/token" None) [("x-request-id", "r0")] "admin pw" ∅) Hr Hs
    ltac:(by vm_compute) ltac:(by split; vm_compute)) as (resp & Hans & Hresp).
  exists resp. split; [exact Hans|]. cbn in Hresp.
  destruct Hresp as [[H _]|(s0 & s1 & _ & _ & H)]; [by left|right].
  destruct (accepts _ _ _); [right|by left]. destruct H as (now & tok & _ & H & _). by exists tok.
Defined.
