(* ===== verification/Browser.v ===== *)
(** * Browser sessions over a run

    From the form that logs in to the form that logs out: whose session a cookie
    names, and that it names none afterwards, whatever other requests do in
    between. *)
From S2P Require Import Prelude RustStr HttpTypes Request Response Router Config Metrics.
From S2P Require Import Net RateLimiter Semaphore Sql Effects Database Session Auth.
From S2P Require Import StaticFiles Proxy Task Handlers Connection Server SessionSafety Items Tokens.
Local Open Scope Z_scope.

Section Browser.
Context `{HC : HttpCrate, SQ : Sql, AR : Argon2, JW : Jwt, EX : Externals, EV : Env}.
Context (instant_min max_body max_concurrent rps : Z).
Context (cfg : ServerConfig) (jwt : JwtSecret) (client : bool).

Abbreviation srv_step := (sys_step instant_min max_body cfg jwt true client).
Abbreviation srv_init := (sys_init max_concurrent rps).
Abbreviation srv_calls := (call_of instant_min max_body max_concurrent rps cfg jwt true client).
Abbreviation saw := (observed instant_min max_body max_concurrent rps cfg jwt true client).

(** ** Specification *)

Definition login_request (req : HttpRequest) : Prop :=
  req_method req = "POST" ∧ path_segments (path req) = ["ui"; "login"].

Definition logout_request (req : HttpRequest) : Prop :=
  req_method req = "POST" ∧ path_segments (path req) = ["ui"; "logout"].

Definition logged_in (tok : string) : HttpResponse :=
  empty (rb_header "set-cookie" (session_cookie tok (cookie_secure cfg))
           (rb_header "location" "/ui/items" (rb_new 302))).

Definition login_failed : HttpResponse :=
  render_template "login.html"
    [("flash", CText "Invalid username or password."); ("flash_type", CText "error")].

Definition logged_out : HttpResponse :=
  empty (rb_header "set-cookie" "session=; Max-Age=0; Path=/"
           (rb_header "location" "/ui/login" (rb_new 302))).

Definition inserted (tok : string) (row : SessionRow) (t t' : Tables) : Prop :=
  t_sessions t !! tok = None ∧ t' = with_sessions <[tok := row]> t.

(** From a state of a run on, the cookie names this session to every handler that
    finds one: its account and its CSRF token. *)
Definition names (d : Db) (es : list SysEvent) (s : Sys) (tok : string) (x : Session) : Prop :=
  ∀ es2 s2 j req y, run srv_step s es2 s2 →
    session_token req = Some tok → session_seen (saw d (es ++ es2) j) req y → y = x.

(** From a state of a run on, it names none to the requests that come to their
    handlers after it. *)
Definition names_none (d : Db) (es : list SysEvent) (s : Sys) (tok : string) : Prop :=
  ∀ es2 s2 j req y, run srv_step s es2 s2 → not_yet (sys_pipe s) j →
    session_token req = Some tok → ¬ session_seen (saw d (es ++ es2) j) req y.

(** ** Lemmas: the handlers *)

Definition login_answer (req : HttpRequest) (resp : HttpResponse) (seen : list Obs) : Prop :=
  let '(user, password) := form_fields "username" "password" (req_body req) in
  (resp = error_empty ∧ SawFailed ∈ seen) ∨
  ∃ t, SawTables t t ∈ seen ∧
    if accepts t user password
    then ∃ n m now t1 t2, SawClock now ∈ seen ∧ SawTables t1 t2 ∈ seen ∧
           inserted (uuid n) (mkSessionRow user (uuid m) (wrap_i64 (now + SESSION_TTL_SECS))) t1 t2 ∧
           resp = logged_in (uuid n)
    else resp = login_failed.

Definition logout_answer (req : HttpRequest) (resp : HttpResponse) (seen : list Obs) : Prop :=
  (resp = csrf_failed ∧
   (no_session (.∈ seen) req ∨ ∃ x, session_seen (.∈ seen) req x ∧ csrf_token x ≠ csrf_of req)) ∨
  (resp = logged_out ∧ ∃ tok x, session_token req = Some tok ∧ session_seen (.∈ seen) req x ∧
     csrf_token x = csrf_of req ∧
     (SawFailed ∈ seen ∨
      ∃ t l, seen = SawTables t (with_sessions (delete tok) t) :: l ∧
        session_seen (.∈ l) req x)).

Section Handlers.
Context (I : list Obs → World Db → World Db → Prop) (HI : ∀ seen w w', I seen w w').

Lemma h_ui_login_answer req :
  always I (login_answer req) (h_ui_login (cookie_secure cfg) req) [].
Proof.
  unfold h_ui_login, login_answer. destruct (form_fields _ _ _) as [user password].
  apply always_bind, verify_user_always; [auto| |].
  - intros t b Hb. destruct b.
    + apply always_bind, session_create_always; [auto|auto| |].
      * intros t1 n m now Hn row. right. exists t. split; [set_solver|]. rewrite <- Hb.
        exists n, m, now, t1, (with_sessions <[uuid n := row]> t1). repeat split; [set_solver..|done].
      * intros n m now e. left. split; [done|]. by left.
    + right. exists t. split; [set_solver|]. by rewrite <- Hb.
  - intros e. left. split; [done|]. by left.
Qed.

Lemma h_ui_logout_answer req : always I (logout_answer req) (h_ui_logout req) [].
Proof.
  apply always_bind, current_session_quiet; [auto|]. intros o seen _ Ho. destruct o as [x|].
  2: { left. split; [done|by left]. }
  destruct (String.eqb_spec (csrf_token x) (csrf_of req)) as [Ec|Ec].
  2: { left. split; [done|]. right. by exists x. }
  pose proof Ho as (tok & _ & _ & _ & Et & _). cbn [negb]. rewrite Et.
  assert (Hmono : ∀ o, session_seen (.∈ o :: seen) req x)
    by (intros o; eapply session_seen_mono, Ho; set_solver).
  apply always_bind, always_bind, session_remove_always; [auto..| |].
  - intros t. right. split; [done|]. exists tok, x. do 3 (split; [done|]). right. by exists t, seen.
  - intros e. right. split; [done|]. exists tok, x. do 3 (split; [done|]). left. by left.
Qed.

Lemma serve_login_answer req :
  always I (λ resp seen, login_request req → login_answer req resp seen)
    (serve cfg jwt true client req) [].
Proof.
  apply always_given; [done|]. intros [Hm Hp]. rewrite ui_login_route by done.
  apply (h_ui_login_answer (with_params req ∅)).
Qed.

Lemma serve_logout_answer req :
  always I (λ resp seen, logout_request req → logout_answer req resp seen)
    (serve cfg jwt true client req) [].
Proof.
  apply always_given; [done|]. intros [Hm Hp]. rewrite ui_logout_route by done.
  apply (h_ui_logout_answer (with_params req ∅)).
Qed.
End Handlers.

(** ** Lemmas: the token over a run *)

Section Token.
Context (d : Db) (Huuid : ∀ m n, uuid m = uuid n → m = n).
Context (Hnew : ∀ n, t_sessions (tables d) !! uuid n = None).

Lemma spent_over s es' s' tok : run srv_step s es' s' → spent s tok → spent s' tok.
Proof.
  intros Hr Hsp. eapply (run_invariant _ (λ s, spent s tok)); [|exact Hsp|exact Hr].
  intros a e b. apply spent_step.
Qed.

(** A session that a handler saw was in the table it saw. *)
Lemma seen_session_row (es : list SysEvent) j req tok y :
  session_token req = Some tok → session_seen (saw d es j) req y →
  ∃ b0 b1 row, srv_calls d es j b0 b1 ∧ sessions b0 !! tok = Some row ∧ y = session_of row.
Proof.
  intros Ht (tok' & row & now & t & Ht' & _ & (b0 & b1 & Hc & -> & _) & Hl & ->). simplify_eq.
  exists b0, b1, row. split; [done|]. split; [|done]. unfold live, sessions in *.
  destruct (t_sessions (sys_tables b0) !! tok) as [r|]; [|done]. simpl in Hl. by case_match; simplify_eq.
Qed.

(** Whoever sees it sees the session that was inserted. *)
Lemma inserted_names es i a0 a1 tok row s :
  run srv_step (srv_init d) es s → srv_calls d es i a0 a1 →
  inserted tok row (sys_tables a0) (sys_tables a1) → names d es s tok (session_of row).
Proof.
  intros Hr Hc [Hnone Hins] es2 s2 j req y Hr2 Ht Hy.
  destruct (seen_session_row _ _ _ _ _ Ht Hy) as (b0 & b1 & row' & Hcb & Hrow' & ->).
  assert (Ha1 : sessions a1 !! tok = Some row)
    by (unfold sessions; rewrite Hins; apply lookup_insert_eq).
  assert (Hc' : srv_calls d (es ++ es2) i a0 a1).
  { destruct Hc as (p & p' & -> & ?). exists p, (p' ++ es2). by rewrite <- app_assoc. }
  pose proof Hc' as (p & p' & _ & Hp & Ha). pose proof Hcb as (q & q' & _ & Hq & _).
  destruct (call_order _ _ _ _ _ _ _ _ _ _ _ _ _ _ _ _ Hc' Hcb) as [[r Hr']|[r Hr']].
  - exfalso. assert (Hsp : spent a0 tok).
    { eapply spent_over; [exact Hr'|]. by eapply present_spent. }
    edestruct spent_row as (row0 & Hrow0 & _); [exact Hp|exact Ha|exact Hsp|exact Ha1|].
    unfold sessions in Hrow0. congruence.
  - assert (Hp1 : run srv_step (srv_init d) (p ++ [SCall i]) a1) by (apply run_snoc; eauto).
    assert (Hsp : spent a1 tok) by (by eapply present_spent).
    edestruct spent_run as (row0 & Hrow0 & E1 & E2); [exact Hp1|exact Hsp|exact Hr'|exact Hrow'|].
    simplify_eq. unfold session_of. by rewrite E1, E2.
Qed.

(** Once it is removed after it was seen, nobody who comes later sees it. *)
Lemma removed_names_none es i tok a0 a1 b0 b1 r row s :
  run srv_step (srv_init d) es s → srv_calls d es i a0 a1 → srv_calls d es i b0 b1 →
  run srv_step b1 r a0 → sessions b0 !! tok = Some row →
  sys_tables a1 = with_sessions (delete tok) (sys_tables a0) → names_none d es s tok.
Proof.
  intros Hr Hc Hb Hba Hrow Hdel es2 s2 j req y Hr2 Hny Ht Hy.
  destruct (seen_session_row _ _ _ _ _ Ht Hy) as (c0 & c1 & row' & Hcc & Hrow' & _).
  pose proof Hc as (p & p' & Ees & Hp & Ha).
  assert (Hc' : srv_calls d (es ++ es2) i a0 a1).
  { exists p, (p' ++ es2). rewrite Ees, <- app_assoc. done. }
  destruct (call_order _ _ _ _ _ _ _ _ _ _ _ _ _ _ _ _ Hc' Hcc) as [[k Hk]|[k Hk]].
  - pose proof Hcc as (q & q' & _ & Hq & Hs). eapply (call_not_yet _ _ _ _ _ _ _ _ _ _ _ _ _ Hq Hs).
    rewrite Ees in Hr. apply run_split in Hr as (a & Hpa & Hrest).
    rewrite (run_unique _ _ _ _ _ _ _ _ _ _ Hpa Hp) in Hrest.
    by eapply not_yet_run, Hny; eapply run_app.
  - pose proof Hb as (q & q' & _ & Hq & Hs). assert (Hsp : spent a1 tok).
    { eapply spent_step; [|exact Ha]. eapply spent_over; [exact Hba|].
      eapply spent_step; [|exact Hs]. by eapply present_spent. }
    assert (Hp1 : run srv_step (srv_init d) (p ++ [SCall i]) a1) by (apply run_snoc; eauto).
    edestruct spent_run as (row0 & Hrow0 & _); [exact Hp1|exact Hsp|exact Hk|exact Hrow'|].
    unfold sessions in Hrow0. rewrite Hdel in Hrow0. simpl in Hrow0. by rewrite lookup_delete_eq in Hrow0.
Qed.

End Token.

(** A logout whose removal fails answers as if it had not: the browser forgets a
    cookie that still names a session. *)
Lemma logout_ignores_failure req tok x w w1 e :
  session_token req = Some tok → run_io (current_session req) w = (Some x, w1) →
  csrf_token x = csrf_of req → execute SQL_DELETE_SESSION [VText tok] (w_db w1) = (Err e, w_db w1) →
  run_io (h_ui_logout req) w = (logged_out, w1) ∧ is_Some (t_sessions (w_tables w1) !! tok).
Proof.
  intros Ht Hcur Ec Hfail. split.
  - unfold h_ui_logout. rewrite run_bind, Hcur. cbn [fst snd]. rewrite Ec, String.eqb_refl.
    cbn [negb]. rewrite Ht. unfold session_remove, execute_sql.
    cbn [mbind IoTree_bind call try_bind run_io perform mret IoTree_ret]. rewrite Hfail. simpl.
    by destruct w1.
  - unfold current_session in Hcur. rewrite Ht, run_bind in Hcur.
    destruct (session_get_spec tok w) as [(w2 & E & Ew & _)|(e' & w2 & E & _)]; rewrite E in Hcur;
      simpl in Hcur; simplify_eq. rewrite Ew. unfold get_result, live in *.
    destruct (t_sessions (w_tables w) !! tok) as [row|] eqn:Er; [|done]. simpl in *.
    destruct (_ <? _); [|done]. simpl. rewrite lookup_alter_eq, Er. by eexists.
Qed.

(** ** Theorems *)

(** C4: logging in, in every interleaving: [POST /ui/login] is answered 500 if a
    statement failed, and otherwise by the accounts as they were at one of its
    handler's calls: with the login page when they do not accept the form's
    credentials, and when they do with a cookie for a new session, live for an hour
    from the handler's reading of the clock, which from then on names the account that
    logged in, with the CSRF token the session was given, to every handler that finds
    a session for it (provided the UUIDs drawn are distinct and not already in
    use). *)
Theorem login_flow d es s i s' req user password :
  (∀ m n, uuid m = uuid n → m = n) → (∀ n, t_sessions (tables d) !! uuid n = None) →
  run srv_step (srv_init d) es s → srv_step s (SDone i) s' →
  handling_at (sys_pipe s) i = Some req → login_request req →
  form_fields "username" "password" (req_body req) = (user, password) →
  ∃ resp, replied s' i resp ∧
    ((resp = error_empty ∧ saw d es i SawFailed) ∨
     ∃ s0 s1, srv_calls d es i s0 s1 ∧ sys_tables s1 = sys_tables s0 ∧
       if accepts (sys_tables s0) user password
       then ∃ a0 a1 now tok csrf, srv_calls d es i a0 a1 ∧ saw d es i (SawClock now) ∧
              inserted tok (mkSessionRow user csrf (wrap_i64 (now + SESSION_TTL_SECS)))
                (sys_tables a0) (sys_tables a1) ∧
              resp = logged_in tok ∧ names d es s tok (mkSession user csrf)
       else resp = login_failed).
Proof.
  intros Hinj Hnew Hr Hs Hreq Hlog Hf.
  destruct (promise_kept instant_min max_body max_concurrent rps cfg jwt true client
    (λ q resp seen, login_request q → login_answer q resp seen) d es s i s' req)
    as (th & resp & Hth & Hrep & Ha & Hsaw); [intros q; by apply serve_login_answer|done..|].
  specialize (Ha Hlog). unfold login_answer in Ha. rewrite Hf in Ha. exists resp. split; [done|].
  destruct Ha as [[-> ?]|(t & Ht & Ha)]; [by left; auto|right].
  destruct (Hsaw _ Ht) as (s0 & s1 & Hc & -> & E). exists s0, s1. split; [done|]. split; [done|].
  destruct (accepts _ _ _); [|done].
  destruct Ha as (n & m & now & t1 & t2 & Hn & Ht12 & Hins & ->).
  destruct (Hsaw _ Ht12) as (a0 & a1 & Hca & -> & ->).
  exists a0, a1, now, (uuid n), (uuid m). do 4 (split; [by auto|]).
  by eapply (inserted_names d Hinj Hnew es i a0 a1 _ _ s Hr Hca Hins).
Qed.

(** C5: logging out, in every interleaving: [POST /ui/logout] is answered 403 when the
    request's cookie names no live session (or its lookup fails) or the form does not
    repeat its CSRF token; otherwise the session was live with that CSRF token, the
    answer clears the cookie, and, unless a statement failed, from then on the cookie
    names no session to any request that comes to its handler later (provided the
    UUIDs drawn are distinct and not already in use). *)
Theorem logout_flow d es s i s' req :
  (∀ m n, uuid m = uuid n → m = n) → (∀ n, t_sessions (tables d) !! uuid n = None) →
  run srv_step (srv_init d) es s → srv_step s (SDone i) s' →
  handling_at (sys_pipe s) i = Some req → logout_request req →
  ∃ resp, replied s' i resp ∧
    ((resp = csrf_failed ∧
      (no_session (saw d es i) req ∨
       ∃ x, session_seen (saw d es i) req x ∧ csrf_token x ≠ csrf_of req)) ∨
     (resp = logged_out ∧ ∃ tok x, session_token req = Some tok ∧
        session_seen (saw d es i) req x ∧ csrf_token x = csrf_of req ∧
        (saw d es i SawFailed ∨ names_none d es s tok))).
Proof.
  intros Hinj Hnew Hr Hs Hreq Hlog.
  destruct (promise_kept instant_min max_body max_concurrent rps cfg jwt true client
    (λ q resp seen, logout_request q → logout_answer q resp seen) d es s i s' req)
    as (th & resp & Hth & Hrep & Ha & Hsaw); [intros q; by apply serve_logout_answer|done..|].
  exists resp. split; [done|].
  destruct (Ha Hlog) as [[-> Hno]|(-> & tok & x & Ht & Hx & Ec & Hdel)]; [left|right].
  - split; [done|]. destruct Hno as [Hno|(x & Hx & ?)]; [left|right; exists x; split; [|done]].
    + exact (no_session_mono _ _ Hsaw _ Hno).
    + exact (session_seen_mono _ _ Hsaw _ _ Hx).
  - split; [done|]. exists tok, x. split; [done|].
    split; [exact (session_seen_mono _ _ Hsaw _ _ Hx)|]. split; [done|]. destruct Hdel as [?|(t & l & El & Hl)]; [by left; auto|right].
    destruct Hl as (tok' & row & now & t0 & Ht' & _ & Htab & Hlive & _).
    assert (tok' = tok) as -> by congruence.
    edestruct (seen_before _ _ _ _ _ _ _ _ d es s Hr i th [] _ l _ Hth El Htab)
      as (a0 & a1 & b0 & b1 & r & Hca & [Ea0 Ea1] & Hcb & [Eb0 _] & Hba).
    eapply (removed_names_none d Hinj Hnew es i tok a0 a1 b0 b1 r row s); try done; [|congruence].
    unfold sessions. rewrite <- Eb0. unfold live in Hlive.
    destruct (t_sessions t0 !! tok) as [r0|]; [|done]. simpl in Hlive. by case_match; simplify_eq.
Qed.

End Browser.

(** ** Instances

    A login and a logout, and a form posted with the old cookie. *)
Definition logged_in_events : list SysEvent := login_events ++ [SDone 0] ++ logout_events.

Lemma toy_step_after es e :
  toy_runs toy_start (es ++ [e]) = true →
  run toy_step toy_start es (toy_after toy_start es) ∧
  toy_step (toy_after toy_start es) e (toy_after toy_start (es ++ [e])).
Proof.
  intros H. pose proof (toy_after_run _ _ H) as Hr. apply run_snoc in Hr as (s & Hr & Hs).
  assert (E : toy_after toy_start es = s); [|by rewrite E].
  unfold toy_after, toy_all. by erewrite run_sys_all.
Qed.

Lemma account_db_new n : t_sessions (tables (Sql := mem_sql) account_db) !! uuid (Env := toy_env) n = None.
Proof.
  assert (E : t_sessions (tables (Sql := mem_sql) account_db) = ∅) by (by vm_compute).
  by rewrite E, lookup_empty.
Qed.

Lemma login_flow_witness :
  let s := toy_after toy_start login_events in
  t_sessions (sys_tables (SQ := mem_sql) s) !! "uuid-0" = Some (mkSessionRow "admin" "uuid-1" 4600) ∧
  ∃ resp, replied (HC := http_crate_ascii) (SQ := mem_sql)
            (toy_after toy_start (login_events ++ [SDone 0])) 0 resp ∧
    (resp = error_empty (HC := http_crate_ascii) ∨
     resp = login_failed (HC := http_crate_ascii) (EX := toy_externals) ∨
     ∃ tok, resp = logged_in (HC := http_crate_ascii) (loaded (env_of [])) tok).
Proof.
  intros s. split; [by vm_compute|].
  destruct (toy_step_after login_events (SDone 0) ltac:(by vm_compute)) as [Hr Hs].
  destruct (login_flow (HC := http_crate_ascii) (SQ := mem_sql) (AR := toy_argon2) (JW := toy_jwt)
    (EX := toy_externals) (EV := toy_env) 0 1000 9 100 (loaded (env_of [])) (jwt_secret_new "k") false
    account_db login_events s 0 _
    (mkRequest "POST" (mkUri "/ui/login" None) [("x-request-id", "r")] "username=admin&password=pw" ∅)
    "admin" "pw" toy_uuid_inj account_db_new Hr Hs
    ltac:(by vm_compute) ltac:(by split; vm_compute) ltac:(by vm_compute)) as (resp & Hrep & Hresp).
  exists resp. split; [exact Hrep|]. destruct Hresp as [[H _]|(s0 & s1 & _ & _ & H)]; [by left|right].
  destruct (accepts _ _ _); [right|by left]. destruct H as (a0 & a1 & now & tok & csrf & _ & _ & _ & H & _).
  by exists tok.
Defined.

Lemma logout_flow_witness :
  let s := toy_after toy_start logged_in_events in
  t_sessions (sys_tables (SQ := mem_sql) s) !! "uuid-0" = None ∧
  ∃ resp, replied (HC := http_crate_ascii) (SQ := mem_sql)
            (toy_after toy_start (logged_in_events ++ [SDone 1])) 1 resp ∧
    (resp = csrf_failed (HC := http_crate_ascii) ∨ resp = logged_out (HC := http_crate_ascii)).
Proof.
  intros s. split; [by vm_compute|].
  destruct (toy_step_after logged_in_events (SDone 1) ltac:(by vm_compute)) as [Hr Hs].
  destruct (logout_flow (HC := http_crate_ascii) (SQ := mem_sql) (AR := toy_argon2) (JW := toy_jwt)
    (EX := toy_externals) (EV := toy_env) 0 1000 9 100 (loaded (env_of [])) (jwt_secret_new "k") false
    account_db logged_in_events s 1 _
    (mkRequest "POST" (mkUri "/ui/logout" None)
       [("cookie", "session=uuid-0"); ("x-request-id", "r")] "_csrf=uuid-1" ∅)
    toy_uuid_inj account_db_new Hr Hs ltac:(by vm_compute) ltac:(by split; vm_compute))
    as (resp & Hrep & [[H _]|[H _]]); exists resp; auto.
Defined.
