(* ===== verification/System.v ===== *)
(** * The whole server

    The three state machines together: the accept loop and its tasks
    ([AcceptLoop]), the connection loop each task runs ([Connection.Conn]), and the
    requests that arrive over the connections ([Server]).  They meet in the address
    of the peer, the shutdown value the main task sends and the connections watch,
    the counters, and the requests a connection takes with it when it closes. *)
From S2P Require Import Prelude RustStr HttpTypes Config Metrics Net RateLimiter Semaphore.
From S2P Require Import AcceptLoop Sql Effects Database Session Auth StaticFiles Proxy Handlers.
From S2P Require Import Connection Server.
Local Open Scope Z_scope.

Section System.
Context `{HC : HttpCrate, SQ : Sql, AR : Argon2, JW : Jwt, EX : Externals, EV : Env}.
Context (instant_min : Z) (cfg : ServerConfig) (jwt : JwtSecret) (templates client tls : bool).

(** ** State *)

(** What a connection task is at: not in [handle_connection] yet (its TLS
    handshake, if any, under way); in its loop, serving HTTP/2 or HTTP/1, with the
    instant of its keep-alive timer; past a failed handshake; unwound, by a panic or
    because the runtime dropped it. *)
Inductive Link : Type :=
| Spawned
| Driving (h2 : bool) (deadline : Z) (c : Conn)
| HandshakeFailed
| Unwound.

(** The links are indexed like the tasks; [sy_owners] gives the task of each
    request. *)
Record System : Type := mkSystem {
  sy_loop : ServerState;
  sy_links : list Link;
  sy_sys : Sys;
  sy_owners : list nat;
}.

Definition system_init (d : Db) : System :=
  mkSystem (server_init (max_connections cfg)) []
    (sys_init (max_concurrent_requests cfg) (rate_limit_rps cfg) d) [].

Definition with_loop (l : ServerState) (s : System) : System :=
  mkSystem l (sy_links s) (sy_sys s) (sy_owners s).

Definition with_sys (sys : Sys) (s : System) : System :=
  mkSystem (sy_loop s) (sy_links s) sys (sy_owners s).

Definition set_link (id : nat) (l : Link) (s : System) : System :=
  mkSystem (sy_loop s) (<[id := l]> (sy_links s)) (sy_sys s) (sy_owners s).

(** ** Requests of a connection *)

Definition request_exec : Sys → SysEvent → option Sys :=
  sys_exec instant_min (max_body_bytes cfg) cfg jwt templates client.

Definition requests_of (id : nat) (owners : list nat) : list nat :=
  filter (λ i, owners !! i = Some id) (seq 0 (length owners)).

(** The futures of the requests still in progress are dropped. *)
Definition drop_requests (l : list nat) (sys : Sys) : Sys :=
  fold_left (λ sys i, default sys (request_exec sys (SDrop i))) l sys.

(** An HTTP/1 connection polls the futures of its requests itself, so they go when
    it goes; those of an HTTP/2 connection are tasks of their own. *)
Definition drop_with (id : nat) (h2 : bool) (s : System) : System :=
  if h2 then s else with_sys (drop_requests (requests_of id (sy_owners s)) (sy_sys s)) s.

Definition active (l : Link) : bool :=
  match l with
  | Driving h2 _ c => h2 || bool_decide (closed c = None)
  | _ => false
  end.

(** A connection that is not over yet. *)
Definition opening (l : Link) : bool :=
  match l with
  | Spawned => true
  | Driving _ _ c => bool_decide (closed c = None)
  | _ => false
  end.

(** ** Steps *)

Inductive SystemEvent : Type :=
| XLoop (e : Event)
| XAccept (ip : IpAddr)
| XBegin (id : nat) (at_ : Z) (handshake : bool) (h2 : bool)
| XPoll (id : nat) (at_ : Z) (completes : bool)
| XArrive (id : nat) (c : Clock) (parts : Parts) (fresh : string)
| XEvict (at_ : Z)
| XRequest (e : SysEvent)
| XEnd (id : nat)
| XPanic (id : nat)
| XTeardown (id : nat).

(** The events of the accept loop that no connection or request takes part in. *)
Definition of_loop (e : Event) : bool :=
  match e with EAccept _ | ETaskEnd _ | ETaskPanic _ => false | _ => true end.

(** A peer: counted, filtered, and given a task if there is a permit. *)
Definition on_system_accept (ip : IpAddr) (s : System) : option System :=
  l ← exec cfg (sy_loop s) (EAccept ip);
  let spawned := (length (tasks l) - length (tasks (sy_loop s)))%nat in
  let p := on_peer false (sys_pipe (sy_sys s)) in
  let p := if is_blocked cfg ip || negb (is_allowed cfg ip) then on_peer true p else p in
  Some (mkSystem l (sy_links s ++ replicate spawned Spawned) (with_pipe p (sy_sys s)) (sy_owners s)).

(** A task reaches [handle_connection], which arms the keep-alive timer; only a
    TLS handshake can fail before that. *)
Definition on_begin (id : nat) (at_ : Z) (handshake h2 : bool) (s : System) : option System :=
  l ← sy_links s !! id;
  match l with
  | Spawned =>
      if handshake
      then Some (set_link id (Driving h2 (at_ + keep_alive_timeout_secs cfg * NANOS_PER_SEC) conn_init) s)
      else if tls then Some (set_link id HandshakeFailed s) else None
  | _ => None
  end.

(** What [shutdown_rx.changed()] completes with: the main task sends once. *)
Definition news (s : System) : option bool :=
  if shutdown_sent (sy_loop s) then Some true else None.

(** One round of a connection's loop; when it breaks out, the connection's future
    is dropped. *)
Definition on_poll (id : nat) (at_ : Z) (completes : bool) (s : System) : option System :=
  l ← sy_links s !! id;
  match l with
  | Driving h2 deadline c =>
      if decide (closed c = None) then
        let c' := conn_step deadline c (mkPoll at_ completes (news s)) in
        let s' := set_link id (Driving h2 deadline c') s in
        Some (if decide (closed c' = None) then s' else drop_with id h2 s')
      else None
  | _ => None
  end.

(** A request over an open connection, rate-limited by its peer's address. *)
Definition on_request (id : nat) (c : Clock) (parts : Parts) (fresh : string) (s : System)
    : option System :=
  l ← sy_links s !! id;
  t ← tasks (sy_loop s) !! id;
  match l with
  | Driving _ _ conn =>
      if decide (closed conn = None) then
        sys ← request_exec (sy_sys s) (SArrive (peer t) c parts fresh);
        Some (mkSystem (sy_loop s) (sy_links s) sys (sy_owners s ++ [id]))
      else None
  | _ => None
  end.

(** The request an event is about. *)
Definition request_of (e : SysEvent) : option nat :=
  match e with
  | SStart i | SBody i _ | SCall i | SDone i | STimeout i | SDrop i => Some i
  | SArrive _ _ _ _ | SPeer _ | SEvict _ => None
  end.

Definition on_request_step (e : SysEvent) (s : System) : option System :=
  i ← request_of e;
  id ← sy_owners s !! i;
  l ← sy_links s !! id;
  if active l then sys ← request_exec (sy_sys s) e; Some (with_sys sys s) else None.

(** A task is past its connection. *)
Definition on_end (id : nat) (s : System) : option System :=
  l ← sy_links s !! id;
  let over := match l with
              | HandshakeFailed => true
              | Driving _ _ c => bool_decide (closed c ≠ None)
              | _ => false
              end in
  if over then l ← exec cfg (sy_loop s) (ETaskEnd id); Some (with_loop l s) else None.

(** A handler panics: over HTTP/1 the task of its connection unwinds. *)
Definition on_panic (id : nat) (s : System) : option System :=
  l ← sy_links s !! id;
  match l with
  | Driving false _ c =>
      if decide (closed c = None) then
        l ← exec cfg (sy_loop s) (ETaskPanic id);
        Some (drop_with id false (set_link id Unwound (with_loop l s)))
      else None
  | _ => None
  end.

(** Once the main task has returned, [main] drops the runtime, which drops the tasks
    one by one, each at an await, as it was left: its permit is given back and its
    accounting skipped, as for a panic.  Until it comes to a task the workers go on
    with it; the streams of an HTTP/2 connection are dropped on their own
    ([SDrop]).  The main task exits by itself if the drain ended, by force if it
    timed out. *)
Definition on_teardown (id : nat) (s : System) : option System :=
  match main (sy_loop s) with
  | Exited _ =>
      l ← sy_links s !! id;
      if opening l then
        loop ← exec cfg (sy_loop s) (ETaskPanic id);
        let s := with_loop loop s in
        Some (match l with
              | Driving h2 deadline c =>
                  let c' := mkConn (graceful c) (Some Dropped) in
                  drop_with id h2 (set_link id (Driving h2 deadline c') s)
              | _ => set_link id Unwound s
              end)
      else None
  | _ => None
  end.

Definition system_exec (s : System) (e : SystemEvent) : option System :=
  match e with
  | XLoop e => if of_loop e then l ← exec cfg (sy_loop s) e; Some (with_loop l s) else None
  | XAccept ip => on_system_accept ip s
  | XBegin id at_ handshake h2 => on_begin id at_ handshake h2 s
  | XPoll id at_ completes => on_poll id at_ completes s
  | XArrive id c parts fresh => on_request id c parts fresh s
  | XEvict at_ =>
      sys ← request_exec (sy_sys s) (SEvict at_); Some (with_sys sys s)
  | XRequest e => on_request_step e s
  | XEnd id => on_end id s
  | XPanic id => on_panic id s
  | XTeardown id => on_teardown id s
  end.

Definition system_step (s : System) (e : SystemEvent) (s' : System) : Prop :=
  system_exec s e = Some s'.

Definition system_reachable (d : Db) (s : System) : Prop :=
  ∃ es, run system_step (system_init d) es s.

(** ** Lemmas *)

(** *** Steps of the accept loop *)

Lemma accept_tasks ip l l' :
  exec cfg l (EAccept ip) = Some l' →
  main l' = main l ∧ shutdown_sent l' = shutdown_sent l ∧
  (tasks l' = tasks l ∨ tasks l' = tasks l ++ [mkTask ip Serving]) ∧
  conn_counters (metrics l') =
    (wrap_u64 (connections_accepted (metrics l) + 1),
     if is_blocked cfg ip || negb (is_allowed cfg ip)
     then wrap_u64 (connections_rejected_ip (metrics l) + 1)
     else connections_rejected_ip (metrics l)).
Proof.
  simpl. destruct (main l) eqn:Em; [|done..]. intros [= <-]. unfold on_accept.
  destruct (is_blocked cfg ip); simpl; [auto|]. destruct (is_allowed cfg ip); simpl; [|auto].
  destruct (try_acquire _); simpl; auto.
Qed.

(** Any other step changes at most one task, and only its end or a panic takes it
    out of serving. *)
Lemma loop_step_tasks e l l' :
  exec cfg l e = Some l' → (∀ ip, e ≠ EAccept ip) →
  metrics l' = metrics l ∧
  (tasks l' = tasks l ∨
   ∃ id t ph, tasks l !! id = Some t ∧ tasks l' = <[id := mkTask (peer t) ph]> (tasks l) ∧
     (phase t = Serving → e = ETaskEnd id ∨ e = ETaskPanic id)).
Proof.
  intros He Hna. destruct e as [ip| | | | | |id|id|id|id]; simpl in He; [by destruct (Hna ip)|..].
  1, 2: destruct (main l); simplify_eq; auto.
  1: unfold on_main in He; destruct (main l); simplify_eq; auto.
  1, 2: destruct (main l), (notified l); simplify_eq; auto.
  all: unfold on_task_end, on_task_notify, on_task_drop, on_task_panic in He; open_task He; simpl;
    (split; [done|]); right; eexists _, _, _; split_and!; eauto; congruence.
Qed.

(** *** Requests that are dropped *)

Definition drop_req (r : Req) : Req := mkReq (rq_id r) (rq_parts r) (drop_stage (rq_stage r)).

(** A step of a request past its arrival: only its stage may change, from one that
    holds a permit, and the connection counters stay. *)
Lemma request_step_reqs e i sys sys' :
  request_of e = Some i → request_exec sys e = Some sys' →
  sys_pipe sys' = sys_pipe sys ∨
  ∃ pe, request_event pe = Some i ∧ (∀ j, pe = Drop j → e = SDrop j) ∧
        pipe_exec instant_min (max_body_bytes cfg) (sys_pipe sys) pe = Some (sys_pipe sys').
Proof.
  intros Hi He. unfold request_exec in He.
  destruct e as [| | | | | | | |]; simplify_eq/=.
  - right. exists (Start i). simpl. do 2 (split; [done|]). destruct (on_start _ _ _); by simplify_eq/=.
  - right. unfold on_sys_body in He. exists (Body i collected). simpl. do 2 (split; [done|]).
    destruct (on_body _ _ _ _) as [p|]; simplify_eq/=.
    destruct (reqs p !! i) as [r|]; simplify_eq/=. by destruct (rq_stage r).
  - left. unfold on_sys_call in He. destruct (sys_threads sys !! i) as [th|]; simplify_eq/=.
    destruct (advance _ _) as [[[o prog] w]|]; by simplify_eq/=.
  - right. unfold on_sys_done in He. destruct (sys_threads sys !! i) as [th|]; simplify_eq/=.
    destruct (finished _) as [resp|]; simplify_eq/=. exists (Finish i (Some resp)). simpl.
    do 2 (split; [done|]). destruct (on_finish _ _ _); by simplify_eq/=.
  - right. exists (Finish i None). simpl. do 2 (split; [done|]).
    destruct (on_finish _ _ _); by simplify_eq/=.
  - right. exists (Drop i). simpl. split; [done|]. split; [by intros ? [= <-]|].
    destruct (on_drop _ _); by simplify_eq/=.
Qed.

Definition request_run : Sys → list SysEvent → Sys → Prop :=
  run (sys_step instant_min (max_body_bytes cfg) cfg jwt templates client).

(** What dropping some requests does: these requests only, and only to their
    stage. *)
Record dropped (l : list nat) (sys sys' : Sys) : Prop := {
  dropped_run : ∃ es, request_run sys es sys';
  dropped_db : sys_db sys' = sys_db sys;
  dropped_counters :
    conn_counters (gauges (sys_pipe sys')) = conn_counters (gauges (sys_pipe sys));
  dropped_length : length (reqs (sys_pipe sys')) = length (reqs (sys_pipe sys));
  dropped_reqs : ∀ j, reqs (sys_pipe sys') !! j =
    if decide (j ∈ l) then drop_req <$> reqs (sys_pipe sys) !! j else reqs (sys_pipe sys) !! j;
}.

Lemma drop_req_released r : holds_permit (drop_req r) = false.
Proof. unfold holds_permit. simpl. by destruct (rq_stage r). Qed.

Lemma drop_req_done r : holds_permit r = false → drop_req r = r.
Proof. unfold holds_permit, drop_req. destruct r as [a b st]. simpl. by destruct st. Qed.

Lemma drop_one sys i : dropped [i] sys (default sys (request_exec sys (SDrop i))).
Proof.
  destruct (request_exec sys (SDrop i)) as [sys'|] eqn:E; simpl.
  - pose proof E as E'. unfold request_exec in E. simpl in E.
    destruct (on_drop i (sys_pipe sys)) as [p|] eqn:Ed; [|done]. injection E as <-.
    destruct (request_step instant_min (max_body_bytes cfg) (Drop i) i (sys_pipe sys) p eq_refl Ed)
      as (r & st & sem' & m & Hr & _ & -> & Hm & _ & Hst).
    split; [by exists [SDrop i]; econstructor; [exact E'|constructor]|done|exact Hm|simpl; by rewrite length_insert|].
    intros j. simpl. destruct (decide (j ∈ [i])) as [->%list_elem_of_singleton|Hj].
    + rewrite Hr, Hst, list_lookup_insert_eq; [done|]. by eapply lookup_lt_Some.
    + rewrite list_lookup_insert_ne; [done|]. by intros ->; destruct Hj; left.
  - split; [exists []; constructor|done..|]. intros j. case_decide as Hj; [|done].
    apply list_elem_of_singleton in Hj as ->. unfold request_exec in E. simpl in E. unfold on_drop in E.
    destruct (reqs (sys_pipe sys) !! i) as [r|]; [|done]. simpl in *. f_equal. symmetry.
    apply drop_req_done. unfold holds_permit. by destruct (rq_stage r).
Qed.

Lemma dropped_trans i l sys sys1 sys2 :
  dropped [i] sys sys1 → dropped l sys1 sys2 → dropped (i :: l) sys sys2.
Proof.
  intros [[es1 H1] D1 C1 L1 R1] [[es2 H2] D2 C2 L2 R2]. split; [|congruence..|].
  - exists (es1 ++ es2). by eapply run_app.
  - intros j. rewrite R2, R1.
    destruct (decide (j ∈ [i])) as [Hi|Hi], (decide (j ∈ l)) as [Hl|Hl],
      (decide (j ∈ i :: l)) as [Hc|Hc]; try done;
      try (exfalso; set_solver).
    destruct (reqs (sys_pipe sys) !! j) as [r|]; [|done]. simpl. f_equal.
    apply drop_req_done, drop_req_released.
Qed.

Lemma drop_requests_dropped l sys : dropped l sys (drop_requests l sys).
Proof.
  revert sys. induction l as [|i l IH]; intros sys; simpl.
  - split; [exists []; constructor|done..|]. intros j. by case_decide as Hj; [apply not_elem_of_nil in Hj|].
  - eapply dropped_trans; [apply drop_one|apply IH].
Qed.

Lemma requests_of_spec id owners i : i ∈ requests_of id owners ↔ owners !! i = Some id.
Proof.
  unfold requests_of. rewrite list_elem_of_filter, elem_of_seq. split; [tauto|].
  intros H. split; [done|]. apply lookup_lt_Some in H. lia.
Qed.

(** *** The invariant of the composition *)

Record system_wf (s : System) : Prop := {
  wf_links : length (sy_links s) = length (tasks (sy_loop s));
  wf_owners : length (sy_owners s) = length (reqs (sys_pipe (sy_sys s)));
  wf_serving : ∀ id l t, sy_links s !! id = Some l → tasks (sy_loop s) !! id = Some t →
    opening l = true → phase t = Serving;
  wf_owned : ∀ i id, sy_owners s !! i = Some id → is_Some (tasks (sy_loop s) !! id);
  wf_active : ∀ i r, reqs (sys_pipe (sy_sys s)) !! i = Some r → holds_permit r = true →
    ∃ id l, sy_owners s !! i = Some id ∧ sy_links s !! id = Some l ∧ active l = true;
  wf_counters :
    conn_counters (gauges (sys_pipe (sy_sys s))) = conn_counters (metrics (sy_loop s));
}.

(** The accept loop moves, a task leaves serving only when its link is over. *)
Lemma wf_loop s l' :
  system_wf s → metrics l' = metrics (sy_loop s) →
  (tasks l' = tasks (sy_loop s) ∨
   ∃ id t ph, tasks (sy_loop s) !! id = Some t ∧
     tasks l' = <[id := mkTask (peer t) ph]> (tasks (sy_loop s)) ∧
     (phase t = Serving → ∀ l, sy_links s !! id = Some l → opening l = false)) →
  system_wf (with_loop l' s).
Proof.
  intros [H1 H2 H3 H4 H5 H6] Hm [Et|(id & t & ph & Ht & Et & Hover)]; split; simpl;
    rewrite ?Et, ?Hm, ?length_insert; try done.
  - intros id' l t' Hl Ht' Ho. apply list_lookup_insert_Some in Ht' as [(<- & <- & _)|[_ Ht']];
      [|by eapply H3]. rewrite (Hover (H3 _ _ _ Hl Ht Ho) _ Hl) in Ho. done.
  - intros i id' Hi. destruct (H4 i id' Hi) as [t' Ht'].
    destruct (decide (id = id')) as [<-|Hne].
    + rewrite list_lookup_insert_eq; [done|]. by eapply lookup_lt_Some.
    + rewrite list_lookup_insert_ne by done. by eexists.
Qed.

(** A link moves on without losing its requests. *)
Lemma wf_link s id l l' :
  system_wf s → sy_links s !! id = Some l → (opening l' = true → opening l = true) →
  (active l = true → active l' = true) → system_wf (set_link id l' s).
Proof.
  intros [H1 H2 H3 H4 H5 H6] Hl Ho Ha. split; simpl; rewrite ?length_insert; try done.
  - intros id' l1 t Hl1 Ht Hop. apply list_lookup_insert_Some in Hl1 as [(<- & <- & _)|[_ Hl1]]; eauto.
  - intros i r Hr Hh. destruct (H5 i r Hr Hh) as (id' & l1 & Hi & Hl1 & Ha1).
    destruct (decide (id = id')) as [<-|Hne].
    + exists id, l'. rewrite list_lookup_insert_eq by (by eapply lookup_lt_Some).
      split; [done|]. split; [done|]. rewrite Hl in Hl1. naive_solver.
    + exists id', l1. by rewrite list_lookup_insert_ne.
Qed.

(** A link is over, and its requests go. *)
Lemma wf_link_drop s id l l' :
  system_wf s → sy_links s !! id = Some l → opening l' = false →
  system_wf (drop_with id false (set_link id l' s)).
Proof.
  intros [H1 H2 H3 H4 H5 H6] Hl Ho.
  pose proof (drop_requests_dropped (requests_of id (sy_owners s)) (sy_sys s)) as [_ _ Dc Dl Dr].
  split; simpl; rewrite ?length_insert, ?Dl, ?Dc; try done.
  - intros id' l1 t Hl1 Ht Hop. apply list_lookup_insert_Some in Hl1 as [(<- & <- & _)|[_ Hl1]];
      [congruence|eauto].
  - intros i r Hr Hh. rewrite Dr in Hr.
    case_decide as Hin; rewrite requests_of_spec in Hin.
    { destruct (reqs (sys_pipe (sy_sys s)) !! i); simplify_eq/=. by rewrite drop_req_released in Hh. }
    destruct (H5 i r Hr Hh) as (id' & l1 & Hi & Hl1 & Ha1). exists id', l1.
    rewrite list_lookup_insert_ne by congruence. done.
Qed.

(** A peer is accepted. *)
Lemma wf_accept ip s s' : system_wf s → on_system_accept ip s = Some s' → system_wf s'.
Proof.
  intros [H1 H2 H3 H4 H5 H6] H. unfold on_system_accept in H.
  destruct (exec cfg (sy_loop s) (EAccept ip)) as [l|] eqn:El; cbn [mbind option_bind] in H; [|done].
  destruct (accept_tasks _ _ _ El) as (_ & _ & Ht & Hm). injection H as <-.
  set (p := if is_blocked cfg ip || negb (is_allowed cfg ip) then _ else _).
  assert (Hp : reqs p = reqs (sys_pipe (sy_sys s))) by (unfold p; by destruct (_ || _)).
  assert (Hc : conn_counters (gauges p) = conn_counters (metrics l)).
  { rewrite Hm. unfold conn_counters in H6. unfold p. injection H6 as E1 E2.
    destruct (_ || _); unfold conn_counters; simpl; by rewrite E1, E2. }
  destruct Ht as [Ht|Ht]; split; simpl; rewrite ?Hp, ?Ht; try done.
  - by rewrite Nat.sub_diag, app_nil_r.
  - rewrite Nat.sub_diag, app_nil_r. exact H3.
  - rewrite Nat.sub_diag, app_nil_r. exact H5.
  - rewrite !length_app, length_replicate. simpl. lia.
  - rewrite length_app. simpl. replace (_ + 1 - _)%nat with 1%nat by lia. simpl.
    intros id lk t Hlk Hid Ho. destruct (decide (id < length (tasks (sy_loop s)))%nat) as [Hlt|Hge].
    + rewrite lookup_app_l in Hlk by lia. rewrite lookup_app_l in Hid by lia. by eapply H3.
    + rewrite lookup_app_r in Hid by lia. apply list_lookup_singleton_Some in Hid as [_ <-]. done.
  - intros i id Hi. rewrite lookup_app_l by (by eapply lookup_lt_is_Some_1, H4). by eapply H4.
  - intros i r Hr Hh. destruct (H5 i r Hr Hh) as (id & lk & Hi & Hlk & Ha). exists id, lk.
    split; [done|]. split; [|done]. by apply lookup_app_l_Some.
Qed.

(** A request arrives. *)
Lemma wf_arrive id c parts fresh s s' :
  system_wf s → on_request id c parts fresh s = Some s' → system_wf s'.
Proof.
  intros [H1 H2 H3 H4 H5 H6] H. unfold on_request in H.
  destruct (sy_links s !! id) as [l|] eqn:El; [|done].
  destruct (tasks (sy_loop s) !! id) as [t|] eqn:Et; [|done]. simpl in H.
  destruct l as [|h2 dl conn| |]; try done. destruct (decide (closed conn = None)) as [Hc|]; [|done].
  injection H as <-.
  destruct (arrive_reqs instant_min (peer t) c parts fresh
    (sys_pipe (sy_sys s))) as (r & Er & Eg & _).
  split; simpl; rewrite ?Er, ?Eg, ?length_app; try done; simpl; try lia.
  - intros i id' [Hi|[_ Hi]]%lookup_app_Some; [by eapply H4|].
    apply list_lookup_singleton_Some in Hi as [_ <-]. by eexists.
  - intros i r' [Hr|[Hge Hr]]%lookup_app_Some Hh.
    + destruct (H5 i r' Hr Hh) as (id' & l' & Hi & Hl & Ha). exists id', l'.
      split; [by apply lookup_app_l_Some|done].
    + apply list_lookup_singleton_Some in Hr as [Hr _]. exists id, (Driving h2 dl conn).
      rewrite lookup_app_r by lia. rewrite H2, Hr. split; [done|]. split; [done|].
      simpl. by rewrite bool_decide_eq_true_2, orb_true_r.
Qed.

(** A request moves on. *)
Lemma wf_request e s s' : system_wf s → on_request_step e s = Some s' → system_wf s'.
Proof.
  intros [H1 H2 H3 H4 H5 H6] H. unfold on_request_step in H.
  destruct (request_of e) as [i|] eqn:Ei; [|done]. simpl in H.
  destruct (sy_owners s !! i) as [id|] eqn:Eo; [|done]. simpl in H.
  destruct (sy_links s !! id) as [l|] eqn:El; [|done]. simpl in H.
  destruct (active l) eqn:Ea; [|done].
  destruct (request_exec (sy_sys s) e) as [sys|] eqn:Ee; [|done]. injection H as <-.
  destruct (request_step_reqs _ _ _ _ Ei Ee) as [Ep|(pe & Hpe & _ & Hexec)].
  { split; simpl; rewrite ?Ep; done. }
  destruct (request_step _ _ _ _ _ _ Hpe Hexec) as (r & st & sem' & m & Hr & Hh & Ep & Hm & _).
  split; simpl; rewrite ?Ep; simpl; rewrite ?length_insert, ?Hm; try done.
  intros j r' Hr' Hh'. apply list_lookup_insert_Some in Hr' as [(<- & <- & _)|[_ Hr']];
    [by apply (H5 i r)|by eapply H5].
Qed.

(** A round of a connection's loop. *)
Lemma wf_poll id at_ completes s s' :
  system_wf s → on_poll id at_ completes s = Some s' → system_wf s'.
Proof.
  intros Hwf. unfold on_poll.
  destruct (sy_links s !! id) as [[|h2 dl conn| |]|] eqn:El; try done. simpl.
  destruct (decide (closed conn = None)) as [Hc|]; [|done]. intros [= <-].
  assert (Ho : opening (Driving h2 dl conn) = true) by (by apply bool_decide_eq_true_2).
  destruct (decide _) as [Hc'|Hc'].
  - eapply wf_link; [done..|]. intros _. simpl. by rewrite bool_decide_eq_true_2, orb_true_r.
  - destruct h2; [by eapply wf_link|]. eapply wf_link_drop; [done..|]. by apply bool_decide_eq_false_2.
Qed.

(** A task ends after its connection. *)
Lemma wf_end id s s' : system_wf s → on_end id s = Some s' → system_wf s'.
Proof.
  intros Hwf. unfold on_end. destruct (sy_links s !! id) as [l|] eqn:El; [|done].
  cbn [mbind option_bind]. set (over := match l with Spawned => _ | _ => _ end).
  destruct over eqn:Eover; [|done].
  destruct (exec cfg (sy_loop s) (ETaskEnd id)) as [l'|] eqn:E; [|done]. intros [= <-].
  destruct (loop_step_tasks (ETaskEnd id) _ _ E) as [Hm Ht]; [done|].
  apply wf_loop; [done..|]. destruct Ht as [Ht|(id' & t & ph & Ht & Et & Hs)]; [by left|right].
  exists id', t, ph. split; [done|]. split; [done|]. intros [[= <-]|[=]]%Hs l0 Hl0.
  assert (l0 = l) as -> by congruence. unfold over in Eover. destruct l; try done. simpl.
  apply bool_decide_eq_false_2. by apply bool_decide_eq_true in Eover.
Qed.

(** A task unwinds. *)
Lemma wf_panic id s s' : system_wf s → on_panic id s = Some s' → system_wf s'.
Proof.
  intros Hwf. unfold on_panic.
  destruct (sy_links s !! id) as [[|[|] dl conn| |]|] eqn:El; try done. cbn [mbind option_bind].
  destruct (decide (closed conn = None)) as [Hc|]; [|done].
  destruct (exec cfg (sy_loop s) (ETaskPanic id)) as [l'|] eqn:E; [|done]. intros [= <-].
  destruct (loop_step_tasks (ETaskPanic id) _ _ E) as [Hm Ht]; [done|].
  apply (wf_loop (drop_with id false (set_link id Unwound s))); [by eapply wf_link_drop|done|].
  destruct Ht as [Ht|(id' & t & ph & Ht & Et & Hs)]; [by left|right].
  exists id', t, ph. split; [done|]. split; [done|]. intros [[=]|[= <-]]%Hs l0. simpl.
  rewrite list_lookup_insert_eq by (by eapply lookup_lt_Some). by intros [= <-].
Qed.

(** The runtime drops a task. *)
Lemma wf_teardown id s s' : system_wf s → on_teardown id s = Some s' → system_wf s'.
Proof.
  intros Hwf. unfold on_teardown. destruct (main (sy_loop s)); try done.
  destruct (sy_links s !! id) as [l|] eqn:El; [|done]. cbn [mbind option_bind].
  destruct (opening l) eqn:Eo; [|done].
  destruct (exec cfg (sy_loop s) (ETaskPanic id)) as [l'|] eqn:E; [|done].
  destruct (loop_step_tasks (ETaskPanic id) _ _ E) as [Hm Ht]; [done|].
  assert (Hover : ∀ s1, system_wf s1 → sy_loop s1 = sy_loop s →
    (∀ l1, sy_links s1 !! id = Some l1 → opening l1 = false) → system_wf (with_loop l' s1)).
  { intros s1 Hwf1 El1 Hid. apply wf_loop; rewrite ?El1; [done..|].
    destruct Ht as [Ht|(id' & t & ph & Ht & Et & Hs)]; [by left|right].
    exists id', t, ph. split; [done|]. split; [done|]. by intros [[=]|[= <-]]%Hs. }
  assert (Hat : ∀ l1 l2, opening l1 = false → <[id := l1]> (sy_links s) !! id = Some l2 →
    opening l2 = false).
  { intros l1 l2 Ho. rewrite list_lookup_insert_eq by (by eapply lookup_lt_Some). by intros [= <-]. }
  destruct l as [|h2 deadline c| |]; intros [= <-]; try done.
  - apply (Hover (set_link id Unwound s)); [by eapply wf_link|done|]. intros l1. by apply Hat.
  - set (dl := Driving h2 deadline (mkConn (graceful c) (Some Dropped))).
    assert (Hd : system_wf (drop_with id h2 (set_link id dl s))).
    { destruct h2; [by eapply wf_link|]. by eapply wf_link_drop. }
    destruct h2; (eapply Hover in Hd; [exact Hd|done|]); intros l1; by apply Hat.
Qed.

Lemma wf_step s e s' : system_wf s → system_step s e s' → system_wf s'.
Proof.
  intros Hwf. unfold system_step.
  destruct e as [e|ip|id at_ hs h2|id at_ done_|id c parts fresh|tick|e|id|id|id]; cbn [system_exec];
    eauto using wf_accept, wf_poll, wf_arrive, wf_request, wf_end, wf_panic, wf_teardown.
  - destruct (of_loop e) eqn:Eo; [|done].
    destruct (exec cfg (sy_loop s) e) as [l|] eqn:El; [|done]. intros [= <-].
    destruct (loop_step_tasks _ _ _ El) as [Hm Ht]; [by intros ip ->|].
    apply wf_loop; [done..|]. destruct Ht as [Ht|(id & t & ph & Ht & Et & Hs)]; [by left|right].
    exists id, t, ph. split; [done|]. split; [done|]. by intros [->| ->]%Hs.
  - unfold on_begin. destruct (sy_links s !! id) as [[| | |]|] eqn:El; try done. simpl.
    destruct hs; [|destruct tls; [|done]]; intros [= <-]; by eapply wf_link.
  - intros [= <-]. by destruct Hwf; split.
Qed.

Lemma run_wf s es s' : system_wf s → run system_step s es s' → system_wf s'.
Proof. apply run_invariant. intros a e b. apply wf_step. Qed.

Lemma system_reachable_wf d s : system_reachable d s → system_wf s.
Proof. intros [es Hr]. eapply run_wf; [|exact Hr]. by split. Qed.

(** *** The machines inside *)

(** Once the shutdown is sent a round keeps the connection open unless its future
    completes. *)
Lemma conn_step_open deadline c at_ completes s :
  closed c = None → closed (conn_step deadline c (mkPoll at_ completes (news s))) ≠ None →
  completes = true ∨ shutdown_sent (sy_loop s) = false.
Proof.
  intros Hc. unfold conn_step, news. rewrite Hc. simpl. destruct completes; [by left|].
  destruct (graceful c); [done|]. destruct (shutdown_sent (sy_loop s)); [done|by right].
Qed.

(** What an event does to the requests; a connection takes its own along only when
    its task unwinds, the runtime drops it, its future completes, or its timer fires
    before a shutdown. *)
Inductive sys_effect (s : System) : SystemEvent → Sys → Prop :=
| eff_none e : sys_effect s e (sy_sys s)
| eff_peer ip (rejected : bool) :
    let p := on_peer false (sys_pipe (sy_sys s)) in
    sys_effect s (XAccept ip) (with_pipe (if rejected then on_peer true p else p) (sy_sys s))
| eff_evict at_ sys' :
    request_exec (sy_sys s) (SEvict at_) = Some sys' → sys_effect s (XEvict at_) sys'
| eff_arrive id t c parts fresh sys' :
    request_exec (sy_sys s) (SArrive (peer t) c parts fresh) = Some sys' →
    sys_effect s (XArrive id c parts fresh) sys'
| eff_request e i sys' :
    request_of e = Some i → request_exec (sy_sys s) e = Some sys' → sys_effect s (XRequest e) sys'
| eff_drop id e :
    e = XPanic id ∨ e = XTeardown id ∨
      (∃ at_ completes, e = XPoll id at_ completes ∧
         (completes = true ∨ shutdown_sent (sy_loop s) = false)) →
    sys_effect s e (drop_requests (requests_of id (sy_owners s)) (sy_sys s)).

#[local] Hint Constructors sys_effect : core.

Lemma system_step_parts s e s' :
  system_step s e s' →
  (sy_loop s' = sy_loop s ∨ ∃ le, exec cfg (sy_loop s) le = Some (sy_loop s')) ∧
  sys_effect s e (sy_sys s').
Proof.
  unfold system_step.
  destruct e as [e|ip|id at_ hs h2|id at_ done_|id c parts fresh|tick|e|id|id|id]; cbn [system_exec].
  - destruct (of_loop e); [|done]. destruct (exec _ _ _) eqn:E; [|done]. intros [= <-]. simpl. eauto.
  - unfold on_system_accept. destruct (exec _ _ _) eqn:E; [|done]. intros [= <-]. simpl. split; [eauto|].
    apply (eff_peer s ip (_ || _)).
  - unfold on_begin. destruct (sy_links s !! id) as [[| | |]|]; try done. simpl.
    destruct hs; [|destruct tls; [|done]]; intros [= <-]; simpl; auto.
  - unfold on_poll. destruct (sy_links s !! id) as [[|h2 dl conn| |]|]; try done. simpl.
    destruct (decide (closed conn = None)) as [Hc|]; [|done]. intros [= <-].
    destruct (decide _) as [|Hc']; [by simpl; auto|]. apply conn_step_open in Hc'; [|done].
    destruct h2; simpl; (split; [by left|]); [done|]. apply eff_drop. eauto 8.
  - unfold on_request. destruct (sy_links s !! id) as [l|]; [|done].
    destruct (tasks (sy_loop s) !! id) as [t|]; [|done]. simpl. destruct l; try done.
    destruct (decide _); [|done]. intros [= <-]. split; [by auto|]. by apply (eff_arrive _ _ t).
  - intros [= <-]. split; [by left|]. by apply eff_evict.
  - unfold on_request_step. destruct (request_of e) eqn:Ei; [|done]. simpl.
    destruct (sy_owners s !! _); [|done]. simpl. destruct (sy_links s !! _) as [l|]; [|done]. simpl.
    destruct (active l); [|done]. destruct (request_exec _ _) eqn:E; [|done]. intros [= <-]. eauto.
  - unfold on_end. destruct (sy_links s !! id) as [l|]; [|done]. cbn [mbind option_bind].
    set (over := match l with Spawned => _ | _ => _ end). destruct over; [|done].
    destruct (exec _ _ _) eqn:E; [|done]. intros [= <-]. simpl. eauto.
  - unfold on_panic. destruct (sy_links s !! id) as [[|[|] dl conn| |]|]; try done.
    cbn [mbind option_bind]. destruct (decide _); [|done]. destruct (exec _ _ _) eqn:E; [|done].
    intros [= <-]. simpl. split; [by eauto|]. apply eff_drop. by left.
  - unfold on_teardown. destruct (main (sy_loop s)); try done. destruct (sy_links s !! id) as [l|]; [|done].
    cbn [mbind option_bind]. destruct (opening l); [|done]. destruct (exec _ _ _) eqn:E; [|done].
    intros [= <-]. destruct l as [|[|] deadline c| |]; simpl; (split; [by eauto|]); auto 6.
Qed.

(** Whatever it is, the requests' machine can do it. *)
Lemma sys_effect_run s e sys' : sys_effect s e sys' → ∃ es, request_run (sy_sys s) es sys'.
Proof.
  intros [e'|ip rejected p|at_ sys1 E|id t c parts fresh sys1 E|e' i sys1 _ E|id e' _].
  - exists []. constructor.
  - destruct rejected; [exists [SPeer false; SPeer true]|exists [SPeer false]];
      repeat (econstructor; [reflexivity|]); constructor.
  - eexists. econstructor; [exact E|constructor].
  - eexists. econstructor; [exact E|constructor].
  - eexists. econstructor; [exact E|constructor].
  - eapply dropped_run, drop_requests_dropped.
Qed.

(** Only a call of a request's handler touches the database. *)
Lemma sys_effect_db s e sys' :
  sys_effect s e sys' →
  sys_db sys' = sys_db (sy_sys s) ∨
  ∃ i, e = XRequest (SCall i) ∧ request_exec (sy_sys s) (SCall i) = Some sys'.
Proof.
  intros [e'|ip rejected p|at_ sys1 E|id t c parts fresh sys1 E|e' i sys1 _ E|id e' _];
    [by left|by left|..].
  - left. by injection E as <-.
  - left. by injection E as <-.
  - destruct (sys_step_db _ _ _ _ _ _ _ _ _ E) as [[Ed _]|[j ->]]; [by left|right]. eauto.
  - left. eapply dropped_db, drop_requests_dropped.
Qed.

Lemma system_run_parts s es s' :
  run system_step s es s' →
  (∃ les, run (step cfg) (sy_loop s) les (sy_loop s')) ∧
  (∃ res, request_run (sy_sys s) res (sy_sys s')).
Proof.
  induction 1 as [s|s e s1 es s2 Hs _ [[les Hl] [res Hr]]].
  { split; exists []; constructor. }
  destruct (system_step_parts _ _ _ Hs) as [Hloop Heff]. split.
  - destruct Hloop as [E|[le E]]; [rewrite <- E; eauto|]. exists (le :: les). by econstructor.
  - destruct (sys_effect_run _ _ _ Heff) as [res' Hr']. exists (res' ++ res). by eapply run_app.
Qed.

Lemma system_reachable_parts d s :
  system_reachable d s →
  reachable cfg (sy_loop s) ∧
  ∃ res, request_run (sys_init (max_concurrent_requests cfg) (rate_limit_rps cfg) d) res (sy_sys s).
Proof. intros [es Hr]. exact (system_run_parts _ _ _ Hr). Qed.

(** The connection of a request in progress: its task serves it, or it is an
    HTTP/2 one. *)
Lemma in_progress_link s i r :
  system_wf s → reqs (sys_pipe (sy_sys s)) !! i = Some r → holds_permit r = true →
  ∃ id t h2 deadline c, sy_owners s !! i = Some id ∧ tasks (sy_loop s) !! id = Some t ∧
    sy_links s !! id = Some (Driving h2 deadline c) ∧
    (closed c = None ∧ phase t = Serving ∨ h2 = true).
Proof.
  intros Hwf Hr Hh. destruct (wf_active _ Hwf i r Hr Hh) as (id & l & Hi & Hl & Ha).
  destruct (wf_owned _ Hwf i id Hi) as [t Ht]. destruct l as [|h2 deadline c| |]; try done.
  exists id, t, h2, deadline, c. do 3 (split; [done|]). destruct h2; [by right|left].
  simpl in Ha. split; [by apply bool_decide_eq_true in Ha|]. by eapply (wf_serving _ Hwf id).
Qed.

Lemma call_handling d res sys i sys' :
  request_run (sys_init (max_concurrent_requests cfg) (rate_limit_rps cfg) d) res sys →
  request_exec sys (SCall i) = Some sys' →
  ∃ req r, handling_at (sys_pipe sys) i = Some req ∧ reqs (sys_pipe sys) !! i = Some r ∧
           holds_permit r = true.
Proof.
  intros Hr Hc. pose proof (threads_ok_reachable _ _ _ _ _ _ _ _ _ _
    (serve_safe cfg jwt templates client) d res sys Hr) as Hok.
  destruct (threads_ok_call _ _ i sys sys' Hok Hc) as (_ & th & req & _ & Hreq & _).
  pose proof Hreq as Hreq'. unfold handling_at in Hreq'.
  destruct (reqs (sys_pipe sys) !! i) as [r|]; [|done]. exists req, r. split; [done|]. split; [done|].
  unfold holds_permit. simpl in Hreq'. by destruct (rq_stage r).
Qed.

(** *** Shutdown *)

Lemma sent_stays le l l' :
  exec cfg l le = Some l' → shutdown_sent l = true → shutdown_sent l' = true.
Proof.
  intros He Hs. destruct le as [ip| | | | | |id|id|id|id]; simpl in He.
  - destruct (main l); simplify_eq. unfold on_accept. destruct (is_blocked cfg ip); [done|].
    destruct (is_allowed cfg ip); [|done]. simpl. by destruct (try_acquire _).
  - by destruct (main l); simplify_eq.
  - by destruct (main l); simplify_eq.
  - unfold on_main in He. by destruct (main l); simplify_eq.
  - by destruct (main l), (notified l); simplify_eq.
  - by destruct (main l), (notified l); simplify_eq.
  - unfold on_task_end in He. by open_task He.
  - unfold on_task_notify in He. by open_task He.
  - unfold on_task_drop in He. by open_task He.
  - unfold on_task_panic in He. by open_task He.
Qed.

(** The ends request [i] of connection [id] may come to that are not the server's
    doing: the connection's future completes, its task unwinds, the request's stream
    is reset. *)
Definition own_end (id i : nat) (e : SystemEvent) : bool :=
  match e with
  | XPoll id' _ completes => bool_decide (id' = id) && completes
  | XPanic id' => bool_decide (id' = id)
  | XRequest (SDrop j) => bool_decide (j = i)
  | _ => false
  end.

Definition teardown (e : SystemEvent) : bool :=
  match e with XTeardown _ => true | _ => false end.

Definition exited (s : System) : Prop := ∃ o, main (sy_loop s) = Exited o.

Lemma exit_stays s e s' o :
  system_step s e s' → main (sy_loop s) = Exited o → main (sy_loop s') = Exited o.
Proof.
  intros Hs Ho. destruct (proj1 (system_step_parts _ _ _ Hs)) as [->|[le He]]; [done|].
  destruct le as [ip| | | | | |id|id|id|id]; simpl in He; rewrite ?Ho in He; try done.
  - unfold on_main in He. by rewrite Ho in He.
  - unfold on_task_end in He. by open_task He.
  - unfold on_task_notify in He. by open_task He.
  - unfold on_task_drop in He. by open_task He.
  - unfold on_task_panic in He. by open_task He.
Qed.

Lemma exit_stays_run s es s' o :
  run system_step s es s' → main (sy_loop s) = Exited o → main (sy_loop s') = Exited o.
Proof.
  intros Hrun Ho. eapply (run_invariant system_step (λ s, main (sy_loop s) = Exited o)); [|done..].
  intros a e b Ha Hs. by eapply exit_stays.
Qed.

Lemma teardown_exited s e s' : system_step s e s' → teardown e = true → exited s.
Proof.
  unfold system_step, exited. destruct e as [| | | | | | | | |id]; try done. simpl. unfold on_teardown.
  destruct (main (sy_loop s)); try done. eauto.
Qed.

(** The runtime is not dropped before the main task has returned. *)
Lemma before_teardown s es s' :
  run system_step s es s' →
  ∃ es1 es2 s1, es = es1 ++ es2 ∧ run system_step s es1 s1 ∧ Forall (λ e, teardown e = false) es1 ∧
    main (sy_loop s1) = main (sy_loop s') ∧ (exited s1 ∨ s1 = s').
Proof.
  induction 1 as [s|s e s1 es s2 Hs Hrun IH].
  { exists [], [], s. split_and!; [done|constructor|constructor|done|by right]. }
  destruct (teardown e) eqn:Ht.
  - exists [], (e :: es), s. pose proof (teardown_exited _ _ _ Hs Ht) as [o Ho].
    split_and!; [done|constructor|constructor| |by left; exists o].
    rewrite Ho. symmetry. eapply exit_stays_run; [done|]. by eapply exit_stays.
  - destruct IH as (es1 & es2 & s' & -> & Hr & HF & Hm & Hor). exists (e :: es1), es2, s'.
    split_and!; [done|by econstructor|by constructor|done|done].
Qed.

Lemma no_teardown s es s' :
  run system_step s es s' → ¬ exited s' → Forall (λ e, teardown e = false) es.
Proof.
  intros Hrun Hne. induction Hrun as [s|s e s1 es s2 Hs Hrun IH]; [done|].
  constructor; [|by apply IH]. destruct (teardown e) eqn:Ht; [|done]. destruct Hne.
  destruct (teardown_exited _ _ _ Hs Ht) as [o Ho]. exists o.
  eapply exit_stays_run; [done|]. by eapply exit_stays.
Qed.

(** The events that can take request [i] of connection [id] away. *)
Definition cuts (id i : nat) (e : SystemEvent) : bool := own_end id i e || teardown e.

(** A request that has an open connection, and has its response or is in
    progress. *)
Record underway (id i : nat) (h2 : bool) (deadline : Z) (s : System) : Prop := {
  uw_sent : shutdown_sent (sy_loop s) = true;
  uw_owner : sy_owners s !! i = Some id;
  uw_link : ∃ c, sy_links s !! id = Some (Driving h2 deadline c) ∧ closed c = None;
  uw_req : ∃ r, reqs (sys_pipe (sy_sys s)) !! i = Some r ∧ lost (rq_stage r) = false;
}.

(** What an event does to the link of task [id]. *)
Inductive link_effect (s : System) (id : nat) : SystemEvent → Link → Link → Prop :=
| le_none e l : link_effect s id e l l
| le_begin at_ hs h2 l' : link_effect s id (XBegin id at_ hs h2) Spawned l'
| le_poll at_ completes h2 deadline c :
    closed c = None →
    link_effect s id (XPoll id at_ completes) (Driving h2 deadline c)
      (Driving h2 deadline (conn_step deadline c (mkPoll at_ completes (news s))))
| le_panic deadline c : link_effect s id (XPanic id) (Driving false deadline c) Unwound
| le_teardown l l' : link_effect s id (XTeardown id) l l'.

#[local] Hint Constructors link_effect : core.

Lemma set_link_effect s id e id' l l' l0 :
  sy_links s !! id' = Some l → link_effect s id' e l l' → sy_links s !! id = Some l0 →
  ∃ l1, <[id' := l']> (sy_links s) !! id = Some l1 ∧ link_effect s id e l0 l1.
Proof.
  intros Hl He Hl0. destruct (decide (id' = id)) as [->|Hne].
  - exists l'. assert (l0 = l) as -> by congruence. split; [|done].
    apply list_lookup_insert_eq. by eapply lookup_lt_Some.
  - exists l0. rewrite list_lookup_insert_ne by done. auto.
Qed.

Lemma system_step_links s e s' :
  system_step s e s' →
  (∀ i id, sy_owners s !! i = Some id → sy_owners s' !! i = Some id) ∧
  ∀ id l, sy_links s !! id = Some l → ∃ l', sy_links s' !! id = Some l' ∧ link_effect s id e l l'.
Proof.
  intros Hs. unfold system_step in Hs.
  destruct e as [e|ip|k at_ hs h2|k at_ done_|k cl parts fresh|tick|e|k|k|k]; cbn [system_exec] in Hs.
  - destruct (of_loop e); [|done]. destruct (exec _ _ _); [|done]. injection Hs as <-. eauto.
  - unfold on_system_accept in Hs. destruct (exec _ _ _); [|done]. injection Hs as <-. split; [done|].
    intros id l Hl. exists l. split; [by apply lookup_app_l_Some|auto].
  - unfold on_begin in Hs. destruct (sy_links s !! k) as [[| | |]|] eqn:El; try done. simpl in Hs.
    destruct hs; [|destruct tls; [|done]]; injection Hs as <-; (split; [done|]);
      intros id l; by apply (set_link_effect _ _ _ k Spawned).
  - unfold on_poll in Hs. destruct (sy_links s !! k) as [[|h2 dl conn| |]|] eqn:El; try done.
    simpl in Hs. destruct (decide (closed conn = None)) as [Hc|]; [|done]. injection Hs as <-.
    assert (Hd : ∀ s1, sy_owners (drop_with k h2 s1) = sy_owners s1 ∧
      sy_links (drop_with k h2 s1) = sy_links s1) by (by destruct h2).
    destruct (decide _); [|rewrite !(proj1 (Hd _)), !(proj2 (Hd _))]; (split; [done|]);
      intros id l; apply (set_link_effect _ _ _ k (Driving h2 dl conn)); auto.
  - unfold on_request in Hs. destruct (sy_links s !! k) as [l|]; [|done].
    destruct (tasks (sy_loop s) !! k) as [t|]; [|done]. simpl in Hs. destruct l; try done.
    destruct (decide _); [|done]. injection Hs as <-. split; [|eauto].
    intros i id Hi. by apply lookup_app_l_Some.
  - injection Hs as <-. eauto.
  - unfold on_request_step in Hs. destruct (request_of e) as [j|]; [|done].
    cbn [mbind option_bind] in Hs. destruct (sy_owners s !! j) as [k|]; [|done].
    cbn [mbind option_bind] in Hs. destruct (sy_links s !! k) as [l|]; [|done].
    cbn [mbind option_bind] in Hs. destruct (active l); [|done].
    destruct (request_exec _ _); [|done]. injection Hs as <-. eauto.
  - unfold on_end in Hs. destruct (sy_links s !! k) as [l|]; [|done]. cbn [mbind option_bind] in Hs.
    destruct (match l with Spawned => _ | _ => _ end); [|done].
    destruct (exec _ _ _); [|done]. injection Hs as <-. eauto.
  - unfold on_panic in Hs. destruct (sy_links s !! k) as [[|[|] dl conn| |]|] eqn:El; try done.
    cbn [mbind option_bind] in Hs. destruct (decide _); [|done]. destruct (exec _ _ _); [|done].
    injection Hs as <-. split; [done|]. intros id l.
    by apply (set_link_effect s _ _ k (Driving false dl conn)).
  - unfold on_teardown in Hs. destruct (main (sy_loop s)); try done.
    destruct (sy_links s !! k) as [l|] eqn:El; [|done]. cbn [mbind option_bind] in Hs.
    destruct (opening l); [|done]. destruct (exec _ _ _); [|done]. injection Hs as <-.
    destruct l as [|[|] dl conn| |]; (split; [done|]); intros id l;
      by apply (set_link_effect s id _ k _ _ l El).
Qed.

Lemma underway_link id i h2 deadline s e s' :
  underway id i h2 deadline s → system_step s e s' → cuts id i e = false →
  ∃ c, sy_links s' !! id = Some (Driving h2 deadline c) ∧ closed c = None.
Proof.
  intros [Hsent _ [c [Hl Hc]] _] Hs Hcut.
  destruct (proj2 (system_step_links _ _ _ Hs) _ _ Hl) as (l' & Hl' & He).
  unfold cuts in Hcut. inversion He; subst; eauto; simpl in Hcut;
    rewrite ?bool_decide_eq_true_2 in Hcut by done; try done. rewrite orb_false_r in Hcut.
  simpl in Hcut. subst. eexists. split; [exact Hl'|].
  destruct (decide (closed (conn_step deadline c (mkPoll at_ false (news s))) = None)) as [|Hn]; [done|].
  apply conn_step_open in Hn as [?|]; congruence.
Qed.

Lemma underway_req id i h2 deadline s e s' :
  underway id i h2 deadline s → system_step s e s' → cuts id i e = false →
  ∃ r, reqs (sys_pipe (sy_sys s')) !! i = Some r ∧ lost (rq_stage r) = false.
Proof.
  intros [Hsent Ho _ [r [Hr Hlost]]] Hs Hcut.
  destruct (proj2 (system_step_parts _ _ _ Hs)) as
    [e'|ip rejected p|at_ sys1 E|k t cl parts fresh sys1 E|e' j sys1 Hj E|k e' Hk]; [by eauto|..].
  - exists r. simpl. by destruct rejected.
  - injection E as <-. by exists r.
  - unfold request_exec in E. injection E as <-. exists r. split; [|done]. simpl.
    destruct (arrive_reqs instant_min (peer t) cl parts fresh
      (sys_pipe (sy_sys s))) as (r' & -> & _).
    by apply lookup_app_l_Some.
  - destruct (request_step_reqs _ _ _ _ Hj E) as [->|(pe & Hpe & Hdrop & Hexec)]; [by eauto|].
    destruct (request_step _ _ _ _ _ _ Hpe Hexec) as (r1 & st & sem' & m & Hr1 & Hh & -> & _ & _ & Hst).
    simpl. destruct (decide (j = i)) as [->|Hne]; [|exists r; by rewrite list_lookup_insert_ne].
    eexists. rewrite list_lookup_insert_eq by (by eapply lookup_lt_Some). split; [done|]. simpl.
    destruct pe as [| | | |k| |]; try done. rewrite (Hdrop k eq_refl) in Hcut, Hj. injection Hj as ->.
    unfold cuts in Hcut. simpl in Hcut. by rewrite bool_decide_eq_true_2 in Hcut.
  - exists (if decide (i ∈ requests_of k (sy_owners s)) then drop_req r else r).
    rewrite (dropped_reqs _ _ _ (drop_requests_dropped _ _)), Hr.
    case_decide as Hin; [|done]. rewrite requests_of_spec in Hin. exfalso.
    assert (k = id) as -> by congruence.
    unfold cuts in Hcut. destruct Hk as [->|[->|(at_ & completes & -> & [->|?])]]; [..|congruence];
      simpl in Hcut; by rewrite ?bool_decide_eq_true_2 in Hcut.
Qed.

Lemma underway_run id i h2 deadline s es s' :
  underway id i h2 deadline s → run system_step s es s' →
  Forall (λ e, own_end id i e = false) es → Forall (λ e, teardown e = false) es →
  underway id i h2 deadline s'.
Proof.
  intros Hu Hrun. induction Hrun as [s|s e s1 es s2 Hs Hrun IH]; [done|].
  intros [He HF]%Forall_cons [Ht HT]%Forall_cons. apply IH; [|done|done].
  assert (Hcut : cuts id i e = false) by (unfold cuts; by rewrite He, Ht). split.
  - destruct (proj1 (system_step_parts _ _ _ Hs)) as [->|[le Hle]]; [by destruct Hu|].
    eapply sent_stays; [done|]. by destruct Hu.
  - eapply system_step_links; [done|]. by destruct Hu.
  - by eapply underway_link.
  - by eapply underway_req.
Qed.

(** Such a request's connection is being served. *)
Lemma underway_serving id i h2 deadline s :
  system_wf s → underway id i h2 deadline s → 0 < count serving (tasks (sy_loop s)).
Proof.
  intros Hwf [_ Ho [c [Hl Hc]] _]. destruct (wf_owned _ Hwf i id Ho) as [t Ht].
  apply (count_pos _ _ id t); [done|]. unfold serving.
  rewrite (wf_serving _ Hwf id _ t Hl Ht); [done|]. by apply bool_decide_eq_true_2.
Qed.

(** The loop is left with no notification stored or about to be. *)
Record leaves_clean (s : System) : Prop := {
  lc_length : Z.of_nat (length (tasks (sy_loop s))) ≤ u64_max;
  lc_main : main (sy_loop s) = Broke;
  lc_notified : notified (sy_loop s) = false;
  lc_notify : count must_notify (tasks (sy_loop s)) = 0;
}.

(** What a drain that did not time out leaves behind. *)
Lemma clean_exit d s es s' o :
  0 ≤ max_connections cfg → system_reachable d s → leaves_clean s → run system_step s es s' →
  main (sy_loop s') = Exited o → o ≠ DrainTimedOut →
  in_flight (sy_loop s') = 0 ∧ count serving (tasks (sy_loop s')) = 0.
Proof.
  intros Hmax Hr [Hlen Hm Hn Hc] Hrun Ho Hne.
  destruct (system_reachable_parts _ _ Hr) as [Hl _].
  destruct (system_run_parts _ _ _ Hrun) as [[les Hles] _].
  by eapply drain_complete_from_clean.
Qed.

(** ** Theorems *)

(** C9: the whole server refines its parts: its accept loop, and its requests with
    their handlers, are in states these machines reach alone (so what is proved of
    them holds of the whole); a request in progress belongs to a connection whose
    task is serving it, or to an HTTP/2 connection, whose requests are tasks of
    their own; and the connection counters the handlers export are those of the
    accept loop. *)
Theorem system_refines d s :
  system_reachable d s →
  reachable cfg (sy_loop s) ∧
  sys_reachable instant_min (max_body_bytes cfg) (max_concurrent_requests cfg) (rate_limit_rps cfg)
    cfg jwt templates client d (sy_sys s) ∧
  (∀ i r, reqs (sys_pipe (sy_sys s)) !! i = Some r → holds_permit r = true →
     ∃ id t h2 deadline c, sy_owners s !! i = Some id ∧ tasks (sy_loop s) !! id = Some t ∧
       sy_links s !! id = Some (Driving h2 deadline c) ∧
       (closed c = None ∧ phase t = Serving ∨ h2 = true)) ∧
  connections_accepted (gauges (sys_pipe (sy_sys s))) = connections_accepted (metrics (sy_loop s)) ∧
  connections_rejected_ip (gauges (sys_pipe (sy_sys s))) =
    connections_rejected_ip (metrics (sy_loop s)).
Proof.
  intros Hr. pose proof (system_reachable_wf _ _ Hr) as Hwf.
  destruct (system_reachable_parts _ _ Hr) as [Hl Hs]. split; [done|]. split; [exact Hs|].
  split; [intros i r; by apply in_progress_link|]. pose proof (wf_counters _ Hwf) as Hc.
  by injection Hc.
Qed.

(** C8: only admitted peers reach the database: in every interleaving, a step that
    changes its tables is a call made by the handler of a request that came over a
    connection whose peer is not blocked and, if there is an allow list, is on
    it. *)
Theorem database_behind_filter d s e s' :
  0 ≤ max_connections cfg → system_reachable d s → system_step s e s' →
  sys_tables (sy_sys s') = sys_tables (sy_sys s) ∨
  ∃ i id t req, e = XRequest (SCall i) ∧ handling_at (sys_pipe (sy_sys s)) i = Some req ∧
    sy_owners s !! i = Some id ∧ tasks (sy_loop s) !! id = Some t ∧
    (peer t ∉ blocked_ips cfg) ∧ (allowed_ips cfg = [] ∨ peer t ∈ allowed_ips cfg).
Proof.
  intros Hmax Hr Hs. pose proof (system_reachable_wf _ _ Hr) as Hwf.
  destruct (system_reachable_parts _ _ Hr) as [Hl [res Hres]].
  destruct (system_step_parts _ _ _ Hs) as [_ [E|(i & -> & Hcall)]%sys_effect_db];
    [left; unfold sys_tables; by rewrite E|].
  right. destruct (call_handling _ _ _ _ _ Hres Hcall) as (req & r & Hreq & Hri & Hh).
  destruct (in_progress_link _ _ _ Hwf Hri Hh) as (id & t & _ & _ & _ & Hi & Ht & _).
  exists i, id, t, req. do 4 (split; [done|]). by eapply task_admitted.
Qed.

(** A client that never finishes its TLS handshake is never timed out: the
    keep-alive timer and the watch for the shutdown only start in
    [handle_connection], so whatever else happens its task goes on serving it and
    holds its permit until the main task returns. *)
Lemma handshake_never_times_out d s id t es s' :
  system_reachable d s → sy_links s !! id = Some Spawned → run system_step s es s' →
  (∀ at_ handshake h2, XBegin id at_ handshake h2 ∉ es) → ¬ exited s' →
  tasks (sy_loop s') !! id = Some t → phase t = Serving.
Proof.
  intros Hr Hl Hrun Hno Hne Ht.
  assert (Hwf : system_wf s') by eauto using run_wf, system_reachable_wf.
  eapply (wf_serving _ Hwf id Spawned); [|done..].
  pose proof (no_teardown _ _ _ Hrun Hne) as Htd. clear -Hl Hrun Hno Htd.
  induction Hrun as [s|s e s1 es s2 Hs _ IH]; [done|]. apply Forall_cons in Htd as [Hte Htd].
  apply IH; [| |done].
  - destruct (proj2 (system_step_links _ _ _ Hs) _ _ Hl) as (l & Hl1 & He).
    inversion He; subst; try done. edestruct Hno. by left.
  - intros at_ hs h2 Hin. eapply Hno. by right.
Qed.

(** C7: a drain that ends before its timeout leaves nothing behind, provided the
    notification was not already stored when the loop was left: no connection is
    being served, and the only requests still in progress are streams of HTTP/2
    connections that closed before them. *)
Theorem drain_leaves_nothing d s es s' o :
  0 ≤ max_connections cfg → system_reachable d s →
  Z.of_nat (length (tasks (sy_loop s))) ≤ u64_max → main (sy_loop s) = Broke →
  notified (sy_loop s) = false → count must_notify (tasks (sy_loop s)) = 0 →
  run system_step s es s' → main (sy_loop s') = Exited o → o ≠ DrainTimedOut →
  in_flight (sy_loop s') = 0 ∧ count serving (tasks (sy_loop s')) = 0 ∧
  ∀ i r, reqs (sys_pipe (sy_sys s')) !! i = Some r → holds_permit r = true →
    ∃ id deadline c, sy_owners s' !! i = Some id ∧
      sy_links s' !! id = Some (Driving true deadline c) ∧ closed c ≠ None.
Proof.
  intros Hmax Hr Hlen Hm Hn Hc Hrun Ho Hne.
  assert (Hwf : system_wf s') by eauto using run_wf, system_reachable_wf.
  destruct (clean_exit d s es s' o) as [H0 Hs0]; [done..|].
  split; [done|]. split; [done|]. intros i r Hri Hh.
  assert (Hnot : ∀ id t, tasks (sy_loop s') !! id = Some t → phase t ≠ Serving).
  { intros id t Ht Hp. assert (0 < count serving (tasks (sy_loop s'))); [|lia].
    apply (count_pos _ _ id t); [done|]. unfold serving. by rewrite Hp. }
  destruct (in_progress_link _ _ _ Hwf Hri Hh) as (id & t & h2 & dl & c & Hi & Ht & Hlk & Hor).
  destruct Hor as [[_ Hp]| ->]; [by destruct (Hnot id t)|]. exists id, dl, c.
  split; [done|]. split; [done|]. intros Hopen. apply (Hnot id t Ht).
  eapply (wf_serving _ Hwf); [done..|]. by apply bool_decide_eq_true_2.
Qed.

(** C6: the drain cuts no request short: once the shutdown is sent, and until the
    main task has returned, the connection of a request that is in progress, or has
    its response, stays open and the request is not dropped, whatever else happens,
    until the connection's own future completes, its handler panics or its stream is
    reset; and when the loop was left with no notification stored, the main task
    cannot return before that but by the drain timeout, which forces the exit. *)
Theorem shutdown_never_cuts s id i h2 deadline c r es s' :
  shutdown_sent (sy_loop s) = true →
  sy_owners s !! i = Some id → sy_links s !! id = Some (Driving h2 deadline c) → closed c = None →
  reqs (sys_pipe (sy_sys s)) !! i = Some r → holds_permit r = true →
  run system_step s es s' → Forall (λ e, own_end id i e = false) es →
  let kept :=
    (∃ c', sy_links s' !! id = Some (Driving h2 deadline c') ∧ closed c' = None) ∧
    ∃ r', reqs (sys_pipe (sy_sys s')) !! i = Some r' ∧
          (holds_permit r' = true ∨ is_Some (response_of r')) in
  (¬ exited s' → kept) ∧
  ∀ d s0 es0, 0 ≤ max_connections cfg → system_reachable d s0 → leaves_clean s0 →
    run system_step s0 es0 s → main (sy_loop s') = Exited DrainTimedOut ∨ kept ∧ ¬ exited s'.
Proof.
  intros Hsent Ho Hl Hc Hri Hh Hrun HF kept.
  assert (Hu : underway id i h2 deadline s).
  { split; eauto. exists r. split; [done|]. unfold holds_permit in Hh. by destruct (rq_stage r). }
  assert (Hkept : ¬ exited s' → kept).
  { intros Hne. destruct (underway_run _ _ _ _ _ _ _ Hu Hrun HF (no_teardown _ _ _ Hrun Hne))
      as [_ _ Hlink (r' & Hr' & Hlost)]. split; [exact Hlink|]. exists r'. split; [done|].
    unfold holds_permit, response_of. destruct (rq_stage r'); try done; (by left) || (right; by eexists). }
  split; [done|]. intros d s0 es0 Hmax Hr0 Hclean Hrun0.
  assert (Hexit : ∀ o, main (sy_loop s') = Exited o → o = DrainTimedOut).
  { intros o Hm. destruct (before_teardown _ _ _ Hrun) as (es1 & es2 & s1 & -> & Hrun1 & HT & Em & _).
    apply Forall_app in HF as [HF1 _].
    pose proof (underway_run _ _ _ _ _ _ _ Hu Hrun1 HF1 HT) as Hu1.
    pose proof (run_app _ _ _ _ _ _ Hrun0 Hrun1) as Hrun01.
    assert (Hwf1 : system_wf s1) by eauto using run_wf, system_reachable_wf.
    pose proof (underway_serving _ _ _ _ _ Hwf1 Hu1) as Hpos. rewrite <- Em in Hm.
    destruct o; [exfalso|exfalso|done].
    all: destruct (clean_exit _ _ _ _ _ Hmax Hr0 Hclean Hrun01 Hm) as [_ E]; [done|lia]. }
  destruct (main (sy_loop s')) as [| | | | | | |o] eqn:Em.
  8: { left. by rewrite (Hexit o). }
  all: assert (Hne : ¬ exited s') by (intros [o Ho']; congruence); right; by split; [apply Hkept|].
Qed.

End System.

(** ** Instances

    One client creates an item while the server is told to shut down. *)

Definition toy_system_exec : System (SQ := mem_sql) → SystemEvent → option (System (SQ := mem_sql)) :=
  system_exec (HC := http_crate_ascii) (SQ := mem_sql) (AR := toy_argon2) (JW := toy_jwt)
    (EX := toy_externals) (EV := toy_env) 0 open_config (jwt_secret_new "k") true false false.

Definition toy_system_step (s : System (SQ := mem_sql)) (e : SystemEvent) (s' : System (SQ := mem_sql))
  : Prop := toy_system_exec s e = Some s'.

Fixpoint system_all (s : System (SQ := mem_sql)) (es : list SystemEvent)
    : option (System (SQ := mem_sql)) :=
  match es with
  | [] => Some s
  | e :: es' => s' ← toy_system_exec s e; system_all s' es'
  end.

Definition toy_system : System (SQ := mem_sql) := system_init (SQ := mem_sql) open_config mem_empty.

Definition system_after (es : list SystemEvent) : System (SQ := mem_sql) :=
  default toy_system (system_all toy_system es).

Definition system_runs (es : list SystemEvent) : bool :=
  match system_all toy_system es with Some _ => true | None => false end.

Lemma system_all_app es es' s :
  system_all s (es ++ es') = (s' ← system_all s es; system_all s' es').
Proof.
  revert s. induction es as [|e es IH]; intros s; [done|]. simpl.
  destruct (toy_system_exec s e); [apply IH|done].
Qed.

Lemma system_all_run es s s' : system_all s es = Some s' → run toy_system_step s es s'.
Proof.
  revert s. induction es as [|e es IH]; intros s; simpl; [intros [= ->]; constructor|].
  destruct (toy_system_exec s e) as [s1|] eqn:E; [|done]. intros H. econstructor; [exact E|by apply IH].
Qed.

(** A run that is possible, from any of its points on. *)
Lemma system_runs_from es es' :
  system_runs (es ++ es') = true →
  run toy_system_step toy_system es (system_after es) ∧
  run toy_system_step (system_after es) es' (system_after (es ++ es')).
Proof.
  unfold system_runs, system_after. rewrite system_all_app.
  destruct (system_all toy_system es) as [s|] eqn:E; [|done]. cbn [mbind option_bind default].
  destruct (system_all s es') as [s'|] eqn:E'; [|done]. intros _.
  split; by apply system_all_run.
Qed.

Lemma system_step_from es e :
  system_runs (es ++ [e]) = true →
  run toy_system_step toy_system es (system_after es) ∧
  toy_system_step (system_after es) e (system_after (es ++ [e])).
Proof.
  intros [Hr Hs]%system_runs_from. split; [done|]. apply (run_snoc _ _ []) in Hs as (s' & Hn & Hs).
  by inversion Hn; subst.
Qed.

Definition one_client : list SystemEvent :=
  [XAccept client; XBegin 0 0 true false; XArrive 0 (sample_clock 0) create_parts "r0";
   XRequest (SStart 0)].

Definition in_handler : list SystemEvent :=
  one_client ++ [XRequest (SBody 0 (Some "{}")); XRequest (SCall 0); XRequest (SCall 0)].

Lemma system_refines_witness :
  let s := system_after in_handler in
  connections_accepted (gauges (sys_pipe (sy_sys s))) = 1 ∧
  reachable open_config (sy_loop s).
Proof.
  intros s. split; [by vm_compute|].
  destruct (system_runs_from in_handler [] ltac:(by vm_compute)) as [Hr _].
  apply (system_refines (HC := http_crate_ascii) (SQ := mem_sql) (AR := toy_argon2) (JW := toy_jwt)
    (EX := toy_externals) (EV := toy_env) 0 open_config (jwt_secret_new "k") true false false mem_empty s).
  exists in_handler. exact Hr.
Defined.

Lemma database_behind_filter_witness :
  let s := system_after in_handler in let s' := system_after (in_handler ++ [XRequest (SCall 0)]) in
  sys_tables (SQ := mem_sql) (sy_sys s') = sys_tables (SQ := mem_sql) (sy_sys s) ∨
  ∃ t, tasks (sy_loop s) !! 0%nat = Some t ∧ (peer t ∉ blocked_ips open_config).
Proof.
  intros s s'.
  destruct (system_step_from in_handler (XRequest (SCall 0)) ltac:(by vm_compute)) as [Hr Hs].
  destruct (database_behind_filter (HC := http_crate_ascii) (SQ := mem_sql) (AR := toy_argon2)
    (JW := toy_jwt) (EX := toy_externals) (EV := toy_env) 0 open_config (jwt_secret_new "k") true
    false false mem_empty s (XRequest (SCall 0)) s') as [H|(i & id & t & req & [= <-] & _ & Hi & Ht & Hb & _)].
  - by vm_compute.
  - exists in_handler. exact Hr.
  - exact Hs.
  - by left.
  - right. exists t. assert (id = 0%nat) as -> by (vm_compute in Hi; congruence). by split.
Defined.

Definition clean_drain : list SystemEvent :=
  [XBegin 0 0 true false; XPoll 0 1 true; XLoop EMain; XEnd 0; XLoop (ETaskNotify 0); XLoop EMain;
   XLoop EMain; XLoop EMain].

Lemma drain_leaves_nothing_witness :
  let s' := system_after ([XAccept client; XLoop EShutdown] ++ clean_drain) in
  in_flight (sy_loop s') = 0 ∧ count serving (tasks (sy_loop s')) = 0.
Proof.
  intros s'. destruct (system_runs_from [XAccept client; XLoop EShutdown] clean_drain
    ltac:(by vm_compute)) as [Hr Hr'].
  destruct (drain_leaves_nothing (HC := http_crate_ascii) (SQ := mem_sql) (AR := toy_argon2)
    (JW := toy_jwt) (EX := toy_externals) (EV := toy_env) 0 open_config (jwt_secret_new "k") true
    false false mem_empty (system_after [XAccept client; XLoop EShutdown]) clean_drain s'
    NothingInFlight) as (H1 & H2 & _).
  2: exists [XAccept client; XLoop EShutdown]; exact Hr.
  6: exact Hr'.
  8: by split.
  all: by vm_compute.
Defined.

(** The shutdown is sent while the body is awaited, and the keep-alive timer fires
    long before it is in. *)
Definition sent_early : list SystemEvent :=
  one_client ++ [XLoop EShutdown; XLoop EMain; XLoop EMain; XLoop EMain].

Definition slow_body : list SystemEvent :=
  [XPoll 0 (10 ^ 15) false; XRequest (SBody 0 (Some "{}")); XPoll 0 (10 ^ 16) false].

(** The drain then times out, and the runtime drops the connection with its
    request. *)
Definition forced_exit : list SystemEvent :=
  sent_early ++ [XLoop EMain; XLoop EMain; XLoop EDrainTimeout].

Example forced_exit_drops :
  system_runs (forced_exit ++ [XTeardown 0]) = true ∧
  (rq_stage <$> reqs (sys_pipe (sy_sys (system_after forced_exit))) !! 0%nat) = Some Collecting ∧
  (rq_stage <$> reqs (sys_pipe (sy_sys (system_after (forced_exit ++ [XTeardown 0])))) !! 0%nat) =
    Some DroppedStarted.
Proof. by vm_compute. Qed.

Definition told : list SystemEvent := one_client ++ [XLoop EShutdown].

Lemma shutdown_never_cuts_witness :
  let s' := system_after (sent_early ++ slow_body) in
  main (sy_loop s') = Exited DrainTimedOut ∨
  ∃ r, reqs (sys_pipe (sy_sys s')) !! 0%nat = Some r ∧
       (holds_permit r = true ∨ is_Some (response_of r)).
Proof.
  intros s'. destruct (system_runs_from sent_early slow_body ltac:(by vm_compute)) as [_ Hr'].
  destruct (system_runs_from told [XLoop EMain; XLoop EMain; XLoop EMain] ltac:(by vm_compute))
    as [H0 H1].
  destruct (reqs (sys_pipe (sy_sys (system_after sent_early))) !! 0%nat) as [r|] eqn:Er;
    [|by vm_compute in Er].
  destruct (shutdown_never_cuts (HC := http_crate_ascii) (SQ := mem_sql) (AR := toy_argon2)
    (JW := toy_jwt) (EX := toy_externals) (EV := toy_env) 0 open_config (jwt_secret_new "k") true
    false false (system_after sent_early) 0 0 false (keep_alive_timeout_secs open_config * NANOS_PER_SEC)
    conn_init r slow_body s') as [_ Hclean].
  5: exact Er.
  6: exact Hr'.
  6: by repeat constructor.
  5: vm_compute in Er; by injection Er as <-.
  1-4: by vm_compute.
  destruct (Hclean mem_empty (system_after told) [XLoop EMain; XLoop EMain; XLoop EMain])
    as [?|[[_ Hkept] _]]; [by vm_compute|exists told; exact H0|by split; vm_compute|exact H1|by left|].
  right. exact Hkept.
Defined.
