(* ===== verification/Tls.v ===== *)
(** * TLS certificates and key ([src/src/tls/acceptor.rs])

    Loading them at start-up.  The files, the PEM parser and rustls are arguments. *)
From S2P Require Import Prelude RustStr.
Local Open Scope Z_scope.

Section Tls.
(** An I/O error, a certificate, a key and an acceptor. *)
Context {IoErr Cert Key Acceptor RustlsErr : Type}.

Inductive TlsError : Type :=
| CertFileOpen (path : string) (source : IoErr)
| KeyFileOpen (path : string) (source : IoErr)
| NoCerts (path : string)
| ParseCert (path : string) (source : IoErr)
| NoPrivateKey (path : string)
| ParseKey (path : string) (source : IoErr)
| InvalidCertKey (source : RustlsErr).

(** [File::open] with [rustls_pemfile::certs] and [private_key] on its
    contents, and rustls's check of the pair. *)
Context (open_certs : string → result IoErr (list (result IoErr Cert)))
  (open_key : string → result IoErr (result IoErr (option Key)))
  (with_single_cert : list Cert → Key → result RustlsErr Acceptor).

(** [collect] into a [Result]: the first error, or all the values. *)
Fixpoint collect {E A} (l : list (result E A)) : result E (list A) :=
  match l with
  | [] => Ok []
  | Ok a :: l' => cons a <$> collect l'
  | Err e :: _ => Err e
  end.

Definition load_certs (p : string) : result TlsError (list Cert) :=
  items ← map_err (CertFileOpen p) (open_certs p);
  certs ← collect (map (map_err (ParseCert p)) items);
  match certs with [] => Err (NoCerts p) | _ => Ok certs end.

Definition load_private_key (p : string) : result TlsError Key :=
  parsed ← map_err (KeyFileOpen p) (open_key p);
  key ← map_err (ParseKey p) parsed;
  ok_or (NoPrivateKey p) key.

Definition load_tls_acceptor (cert_path key_path : string) : result TlsError Acceptor :=
  certs ← load_certs cert_path;
  key ← load_private_key key_path;
  map_err InvalidCertKey (with_single_cert certs key).

(** ** Lemmas *)

Lemma collect_Ok {E A} (l : list (result E A)) (xs : list A) : collect l = Ok xs ↔ l = map Ok xs.
Proof.
  revert xs. induction l as [|[a|e] l IH]; intros xs; simpl.
  - destruct xs; naive_solver.
  - destruct (collect l) as [ys|e] eqn:Ec; simpl; split.
    + intros [= <-]. simpl. f_equal. by apply IH.
    + destruct xs as [|x xs]; [done|]. intros [= -> Hl]. apply IH in Hl. congruence.
    + done.
    + destruct xs as [|x xs]; [done|]. intros [= -> Hl]. apply IH in Hl. done.
  - split; [done|]. by destruct xs.
Qed.

(** An acceptor comes from certificates and a key that were all read and that
    rustls accepted. *)
Lemma load_tls_acceptor_Ok cert key a :
  load_tls_acceptor cert key = Ok a →
  ∃ certs k, open_certs cert = Ok (map Ok certs) ∧ certs ≠ [] ∧
             open_key key = Ok (Ok (Some k)) ∧ with_single_cert certs k = Ok a.
Proof.
  intros El. apply bind_Ok in El as (certs & Hc & El). apply bind_Ok in El as (k & Hk & El).
  apply map_err_Ok in El. apply bind_Ok in Hc as (items & Hi%map_err_Ok & Hc).
  apply bind_Ok in Hc as (cs & Hcs%collect_Ok & Hc).
  apply bind_Ok in Hk as (parsed & Hp%map_err_Ok & Hk).
  apply bind_Ok in Hk as (key' & Hk'%map_err_Ok & Hk%ok_or_Ok). subst key' parsed.
  assert (Hcert : cs = certs ∧ certs ≠ []) by (destruct cs; simplify_eq; done).
  destruct Hcert as [-> Hne]. exists certs, k. split; [|done]. rewrite Hi. f_equal.
  clear -Hcs. revert items Hcs.
  induction certs as [|c certs IH]; intros [|[x|x] items]; simpl; try done.
  intros [= -> Hcs]. f_equal. by apply IH.
Qed.

End Tls.
