(* ===== verification/Redirect.v ===== *)
(** * The HTTP to HTTPS redirect ([src/src/server/mod.rs])

    The plain-HTTP listener of [run_http_redirect], as a step relation, and the
    response of [serve_redirect_connection]. *)
From S2P Require Import Prelude RustStr HttpTypes Response Net.
Local Open Scope Z_scope.

(** ** The listener *)

(** Not yet bound; accepting, with the connections spawned so far; returned, after
    a failed bind or a shutdown. *)
Inductive RedirectState : Type :=
| Unbound
| Listening (spawned : list SocketAddr)
| BindFailed
| Stopped (spawned : list SocketAddr).

(** The bind; then what one [select!] finds: [changed()] completed, with the value
    then borrowed, or a peer, or an accept error. *)
Inductive RedirectEvent : Type :=
| Bound (ok : bool)
| Changed (value : bool)
| Accepted (peer : SocketAddr)
| AcceptFailed.

Definition redirect_step (s : RedirectState) (e : RedirectEvent) : option RedirectState :=
  match s, e with
  | Unbound, Bound ok => Some (if ok then Listening [] else BindFailed)
  | Listening l, Changed value => Some (if value then Stopped l else Listening l)
  | Listening l, Accepted peer => Some (Listening (l ++ [peer]))
  | Listening l, AcceptFailed => Some (Listening l)
  | _, _ => None
  end.

(** Who is served: the peers accepted before the first shutdown. *)
Fixpoint redirect_run (s : RedirectState) (es : list RedirectEvent) : option RedirectState :=
  match es with
  | [] => Some s
  | e :: es' => s' ← redirect_step s e; redirect_run s' es'
  end.

Definition peer_of (e : RedirectEvent) : option SocketAddr :=
  match e with Accepted peer => Some peer | _ => None end.

Lemma redirect_run_listening l es s :
  redirect_run (Listening l) es = Some s →
  s = Listening (l ++ omap peer_of es) ∧ (Changed true ∉ es) ∨
  ∃ es', es = es' ++ [Changed true] ∧ (Changed true ∉ es') ∧ s = Stopped (l ++ omap peer_of es').
Proof.
  revert l. induction es as [|e es IH]; intros l; simpl.
  { intros [= <-]. left. rewrite app_nil_r. split; [done|apply not_elem_of_nil]. }
  destruct e as [b|[|]|p|]; simpl; [done| | | |].
  - destruct es as [|e es]; simpl; [|done]. intros [= <-]. right. exists []. simpl.
    rewrite app_nil_r. split; [done|]. split; [apply not_elem_of_nil|done].
  - intros [[-> Hn]|(es' & -> & Hn & ->)]%IH; [left|right].
    + split; [done|]. rewrite not_elem_of_cons. by split.
    + exists (Changed false :: es'). split; [done|]. rewrite not_elem_of_cons. by split.
  - intros [[-> Hn]|(es' & -> & Hn & ->)]%IH; rewrite <- app_assoc; [left|right].
    + split; [done|]. rewrite not_elem_of_cons. by split.
    + exists (Accepted p :: es'). split; [done|]. rewrite not_elem_of_cons. by split.
  - intros [[-> Hn]|(es' & -> & Hn & ->)]%IH; [left|right].
    + split; [done|]. rewrite not_elem_of_cons. by split.
    + exists (AcceptFailed :: es'). split; [done|]. rewrite not_elem_of_cons. by split.
Qed.

(** ** The response *)

(** The host without its port: up to the bracket of an IPv6 literal, otherwise
    up to the last colon. *)
Definition bare_host (host : string) : string :=
  if starts_with "[" host then default host (upto_first "]" host)
  else default host (before_last ":" host).

Definition redirect_location (host : string) (https_port : Z) (path_and_query : string) : string :=
  if https_port =? 443 then "https://" +:+ bare_host host +:+ path_and_query
  else "https://" +:+ bare_host host +:+ ":" +:+ show_uint https_port +:+ path_and_query.

Section Redirect.
Context `{HttpCrate}.

(** The service of [serve_redirect_connection]; [None] is the [unwrap] of a
    builder error. *)
Definition redirect_response (hs : HeaderMap) (path_and_query : option string) (https_port : Z)
    : option HttpResponse :=
  let host := default "localhost"
    (h ← header_get hs "host"; if hv_to_str_ok h then Some h else None) in
  let location := redirect_location host https_port (default "/" path_and_query) in
  let b := builder_status 308 in
  let b := builder_header b "Location" location in
  let b := builder_header b "Content-Length" "0" in
  builder_body b (FullBody "").

Lemma before_last_app c h s : no_char c s = true → before_last c (h +:+ String c s) = Some h.
Proof.
  intros Hs. induction h as [|a h IH]; simpl; [|by rewrite IH].
  assert (E : ∀ t, no_char c t = true → before_last c t = None).
  { clear. induction t as [|a t IH]; [done|]. unfold no_char in *. simpl. intros [Ha Ht]%andb_true_iff.
    rewrite IH by done. by destruct (Ascii.eqb a c). }
  by rewrite E, Ascii.eqb_refl.
Qed.

Lemma before_last_none c s : no_char c s = true → before_last c s = None.
Proof.
  induction s as [|a t IH]; [done|]. unfold no_char in *. simpl. intros [Ha Ht]%andb_true_iff.
  rewrite IH by done. by destruct (Ascii.eqb a c).
Qed.

Lemma upto_first_app c h s : no_char c h = true → upto_first c (h +:+ String c s) = Some (h +:+ String c "").
Proof.
  intros Hh. induction h as [|a h IH]; simpl; [by rewrite Ascii.eqb_refl|].
  unfold no_char in *. simpl in Hh. apply andb_true_iff in Hh as [Ha Hh].
  rewrite IH by done. by destruct (Ascii.eqb a c).
Qed.

(** A host a client may send: a name or IPv4 address, or an IPv6 literal. *)
Inductive host_name : string → Prop :=
| host_plain h : no_char ":" h = true → starts_with "[" h = false → h ≠ "" → host_name h
| host_v6 h : no_char "]" h = true → host_name (String "[" (h +:+ "]")).

Lemma bare_host_spec h port :
  host_name h → no_char ":" port = true → no_char "]" port = true →
  bare_host h = h ∧ bare_host (h +:+ String ":" port) = h.
Proof.
  intros Hh Hp Hp2. unfold bare_host. destruct Hh as [h Hc Hb Hne|h Hc].
  - rewrite Hb, before_last_none by done. split; [done|].
    assert (E : starts_with "[" (h +:+ String ":" port) = false).
    { destruct h as [|a h]; [done|]. unfold starts_with in *. simpl in *. by destruct (Ascii.eqb "[" a). }
    by rewrite E, before_last_app.
  - change (starts_with "[" (String "[" (h +:+ "]"))) with true. cbv iota.
    change (String "[" (h +:+ "]")) with (String "[" h +:+ String "]" "").
    assert (Hc' : no_char "]" (String "[" h) = true) by (unfold no_char in *; simpl; by rewrite Hc).
    split.
    + by rewrite upto_first_app.
    + rewrite append_assoc. change (String "]" "" +:+ String ":" port) with (String "]" (String ":" port)).
      change (starts_with "[" (String "[" h +:+ String "]" (String ":" port))) with true. cbv iota.
      by rewrite upto_first_app.
Qed.

Lemma redirect_location_spec h port https_port pq :
  host_name h → no_char ":" port = true → no_char "]" port = true →
  ∀ host, host = h ∨ host = h +:+ String ":" port →
  redirect_location host https_port pq =
    "https://" +:+ h +:+ (if https_port =? 443 then "" else ":" +:+ show_uint https_port) +:+ pq.
Proof.
  intros Hh Hp Hp2 host Hhost. destruct (bare_host_spec h port Hh Hp Hp2) as [E1 E2].
  unfold redirect_location.
  assert (E : bare_host host = h) by (destruct Hhost as [->| ->]; done).
  rewrite E. destruct (https_port =? 443); [done|]. by rewrite append_assoc.
Qed.

(** C40: the plain-HTTP listener upgrades a request to the same host, path and
    query over [https]: a port in the [Host] header is replaced by the HTTPS port,
    which is left out when it is 443, for host names, IPv4 addresses and IPv6
    literals alike; the response is always a 308 with an empty body. *)
Theorem redirect_upgrades hs h port https_port pq host :
  host_name h → no_char ":" port = true → no_char "]" port = true →
  host = h ∨ host = h +:+ String ":" port →
  header_get hs "host" = Some host → hv_to_str_ok host = true →
  let loc := "https://" +:+ h +:+ (if https_port =? 443 then "" else ":" +:+ show_uint https_port)
               +:+ pq in
  hv_valid loc = true →
  redirect_response hs (Some pq) https_port =
    Some (mkResponse 308 [("location", loc); ("content-length", "0")] (FullBody "")).
Proof.
  intros Hh Hp Hp2 Hhost Hg Hs loc Hv. unfold redirect_response. rewrite Hg.
  cbn [mbind option_bind]. rewrite Hs. change (default "localhost" (Some host)) with host.
  change (default "/" (Some pq)) with pq.
  rewrite (redirect_location_spec h port) by done. fold loc.
  assert (E1 : hn_parse "Location" = Some "location") by (by rewrite hn_parse_folds).
  assert (E2 : hn_parse "Content-Length" = Some "content-length") by (by rewrite hn_parse_folds).
  unfold builder_status, builder_header. rewrite E1, E2, Hv, visible_valid by done. done.
Qed.

End Redirect.

(** ** Instances *)

Lemma redirect_upgrades_witness :
  redirect_response (H := http_crate_ascii) [("host", "[::1]:8080")] (Some "/a?b=1") 8443 =
  Some (mkResponse 308 [("location", "https://[::1]:8443/a?b=1"); ("content-length", "0")]
          (FullBody "")).
Proof.
  apply (redirect_upgrades (H := http_crate_ascii) [("host", "[::1]:8080")] "[::1]" "8080" 8443
           "/a?b=1" "[::1]:8080"); try by vm_compute.
  - by apply (host_v6 "::1").
  - by right.
Defined.
