(* ===== verification/Startup.v ===== *)
(** * Start-up ([src/src/server/mod.rs])

    From [Server::run] to the loop of [accept_loop]: what is loaded and built, in the order
    the code does it, with what can fail, and what the server then starts with.
    Sockets, files, rustls, the template engine and the HTTP client of the proxy
    are arguments. *)
From S2P Require Import Prelude RustStr HttpTypes Net Config Metrics RateLimiter Semaphore.
From S2P Require Import Sql Effects Pool Database Session Auth StaticFiles Proxy Task Handlers.
From S2P Require Import Connection Server System Tls.
Local Open Scope Z_scope.

Section Startup.
Context `{HC : HttpCrate, SQ : Sql, AR : Argon2, JW : Jwt, EX : Externals, EV : Env}.
Context {IoErr Cert Key Acceptor RustlsErr Listener : Type}.

Inductive ServerError : Type :=
| Bind (addr : SocketAddr) (source : IoErr)
| Io (source : IoErr)
| Tls (e : TlsError (IoErr := IoErr) (RustlsErr := RustlsErr))
| Db (e : DbError).

(** [TcpListener::bind] and [local_addr]; the arguments of [Tls] and [Pool];
    whether [Tera::new] succeeds on a pattern; whether the proxy's client builds; the salt
    drawn for the bootstrap password. *)
Context (bind : SocketAddr → result IoErr Listener) (local_addr : Listener → result IoErr SocketAddr)
  (open_certs : string → result IoErr (list (result IoErr Cert)))
  (open_key : string → result IoErr (result IoErr (option Key)))
  (with_single_cert : list Cert → Key → result RustlsErr Acceptor)
  (postgres_feature : bool) (connect : string → Z → result DbErr Sql.Db)
  (tera_new : string → bool) (client_builds : bool) (salt : string).

(** [TemplateEngine::new]: whether there is an engine. *)
Definition template_engine (template_dir : string) : bool := tera_new (template_dir +:+ "/**/*.html").

(** The acceptor, when both paths are set. *)
Definition tls_setup (cfg : ServerConfig) : result TlsError (option Acceptor) :=
  match tls_cert_path cfg, tls_key_path cfg with
  | Some cert, Some key => Some <$> load_tls_acceptor open_certs open_key with_single_cert cert key
  | _, _ => Ok None
  end.

(** The bootstrap account. *)
Definition create_bootstrap (cfg : ServerConfig) (auth_password_hash : option string)
    : Effects.Io (result DbErr ()) :=
  match auth_password_hash with
  | Some hash => create_user_with_hash_if_missing (auth_username cfg) hash
  | None => create_user_if_missing salt (auth_username cfg) (auth_password cfg)
  end.

(** What the loop starts with. *)
Record Started : Type := mkStarted {
  st_listener : Listener;
  st_addr : SocketAddr;
  st_tls : option Acceptor;
  st_connections : Z;
  st_concurrency : Z;
  st_db : Sql.Db;
  st_jwt : JwtSecret;
  st_templates : bool;
  st_proxy_client : bool;
  (** the redirect listener spawned: its address and the HTTPS port *)
  st_redirect : option (SocketAddr * Z);
}.

(** [SocketAddr::new] on the address bound. *)
Definition with_port (a : SocketAddr) (p : Z) : SocketAddr := mkSocketAddr (sa_ip a) p 0.

(** [accept_loop] up to its loop: the start, an error, or a panic ([None]). *)
Definition startup (cfg : ServerConfig) (auth_password_hash : option string) (listener : Listener)
    : option (result ServerError Started) :=
  match local_addr listener with
  | Err e => Some (Err (Io e))
  | Ok a =>
      match tls_setup cfg with
      | Err e => Some (Err (Tls e))
      | Ok acceptor =>
          match semaphore_new (max_connections cfg), semaphore_new (max_concurrent_requests cfg) with
          | Some conns, Some reqs =>
              match init_pool postgres_feature connect (db_url cfg) (db_pool_size cfg) with
              | Err e => Some (Err (Db e))
              | Ok d =>
                  match run_io (create_bootstrap cfg auth_password_hash) (fresh_world d) with
                  | (Err e, _) => Some (Err (Db (Sqlx e)))
                  | (Ok _, w) =>
                      let wants_proxy := bool_decide (is_Some (proxy_upstream cfg)) in
                      if wants_proxy && negb client_builds then None
                      else
                        let redirect :=
                          match acceptor, http_redirect_port cfg with
                          | Some _, Some p => Some (with_port a p, sa_port a)
                          | _, _ => None
                          end in
                        Some (Ok (mkStarted listener a acceptor conns reqs (w_db w)
                                    (jwt_secret_new (jwt_secret cfg)) (template_engine "templates") wants_proxy redirect))
                  end
              end
          | _, _ => None
          end
      end
  end.

(** What [ready_tx] is sent: the address, once TLS is set up. *)
Definition ready_signal (cfg : ServerConfig) (listener : Listener) : option SocketAddr :=
  match local_addr listener, tls_setup cfg with Ok a, Ok _ => Some a | _, _ => None end.

(** [accept_loop] up to its loop, with what a caller that waits for the server to be
    ready is told. *)
Definition accept_loop (cfg : ServerConfig) (auth_password_hash : option string)
    (listener : Listener) (ready_tx : bool) : option SocketAddr * option (result ServerError Started) :=
  (if ready_tx then ready_signal cfg listener else None, startup cfg auth_password_hash listener).

(** The entry points; what resolves the shutdown future is an event of the loop. *)
Definition run_on_listener := accept_loop.

Definition run_with_shutdown (cfg : ServerConfig) (auth_password_hash : option string)
    : option (result ServerError Started) :=
  match bind (addr cfg) with
  | Err e => Some (Err (Bind (addr cfg) e))
  | Ok listener => (accept_loop cfg auth_password_hash listener false).2
  end.

(** [run]: [run_with_shutdown] with [shutdown_signal]. *)
Definition run_server (cfg : ServerConfig) (auth_password_hash : option string)
    : option (result ServerError Started) :=
  match bind (addr cfg) with
  | Err e => Some (Err (Bind (addr cfg) e))
  | Ok listener => (accept_loop cfg auth_password_hash listener false).2
  end.

(** A state the server that was started reaches. *)
Definition served (instant_min : Z) (cfg : ServerConfig) (s : Started) : System → Prop :=
  system_reachable instant_min cfg (st_jwt s) (st_templates s) (st_proxy_client s)
    (bool_decide (is_Some (st_tls s))) (st_db s).

(** ** Lemmas *)

(** The stages a successful start went through. *)
Lemma startup_stages cfg hash l s :
  startup cfg hash l = Some (Ok s) →
  ∃ d u w,
    local_addr l = Ok (st_addr s) ∧ st_listener s = l ∧ tls_setup cfg = Ok (st_tls s) ∧
    st_connections s = max_connections cfg ∧ st_concurrency s = max_concurrent_requests cfg ∧
    init_pool postgres_feature connect (db_url cfg) (db_pool_size cfg) = Ok d ∧
    run_io (create_bootstrap cfg hash) (fresh_world d) = (Ok u, w) ∧ st_db s = w_db w ∧
    st_redirect s = match st_tls s, http_redirect_port cfg with
                    | Some _, Some p => Some (with_port (st_addr s) p, sa_port (st_addr s))
                    | _, _ => None
                    end.
Proof.
  unfold startup. destruct (local_addr l) as [a|e]; [|done].
  destruct (tls_setup cfg) as [acc|e] eqn:Et; [|done]. unfold semaphore_new.
  destruct (_ <=? _); [|done]. destruct (_ <=? _); [|done].
  destruct (init_pool _ _ _ _) as [d|e] eqn:Ep; [|done].
  destruct (run_io _ _) as [[u|e] w] eqn:Er; [|done].
  destruct (_ && _); [done|]. intros [= <-]. by exists d, u, w.
Qed.

(** What the bootstrap does to the tables, and the hash it stores for a new
    account. *)
Definition bootstrap_hash (cfg : ServerConfig) (hash : option string) : option string :=
  match hash with Some h => Some h | None => hash_password (auth_password cfg) salt end.

Lemma create_bootstrap_spec cfg hash w u w' :
  run_io (create_bootstrap cfg hash) w = (Ok u, w') →
  ∃ h, bootstrap_hash cfg hash = Some h ∧ hash_parses h = true ∧
    w_tables w' = with_users (λ m, match m !! auth_username cfg with
                                   | Some _ => m
                                   | None => <[auth_username cfg := h]> m
                                   end) (w_tables w).
Proof.
  assert (Hwith : ∀ h, run_io (create_user_with_hash_if_missing (auth_username cfg) h) w = (Ok u, w') →
    hash_parses h = true ∧
    w_tables w' = with_users (λ m, match m !! auth_username cfg with
      | Some _ => m | None => <[auth_username cfg := h]> m end) (w_tables w)).
  { intros h E. destruct (hash_parses h) eqn:Hp.
    - destruct (create_user_spec (auth_username cfg) h w Hp) as [(d & E' & Ht)|(e & d & E' & _)];
        rewrite E' in E; [|done]. injection E as _ <-. by split.
    - unfold create_user_with_hash_if_missing in E. rewrite Hp in E. done. }
  unfold create_bootstrap, bootstrap_hash. destruct hash as [h|].
  - intros [??]%Hwith. by exists h.
  - unfold create_user_if_missing. destruct (hash_password _ _) as [h|]; [|done].
    intros [??]%Hwith. by exists h.
Qed.

(** ** Theorems *)

(** What a server that starts runs with: the socket it was told to bind; TLS
    exactly when both paths are configured, and then with the certificates and key
    that were read (at least one certificate, none of them unreadable) and accepted
    by rustls; the redirect listener exactly when it serves TLS and has a port for
    it, on the same address, pointing at the port bound; both semaphores at the
    configured limits; the database driver the URL asks for, and for a
    [sqlite::memory:] database a pool of a single connection. *)
Lemma startup_ok cfg hash s :
  run_server cfg hash = Some (Ok s) →
  bind (addr cfg) = Ok (st_listener s) ∧ local_addr (st_listener s) = Ok (st_addr s) ∧
  (is_Some (st_tls s) ↔ is_Some (tls_cert_path cfg) ∧ is_Some (tls_key_path cfg)) ∧
  (∀ cert key a, tls_cert_path cfg = Some cert → tls_key_path cfg = Some key → st_tls s = Some a →
     ∃ certs k, open_certs cert = Ok (map Ok certs) ∧ certs ≠ [] ∧
                open_key key = Ok (Ok (Some k)) ∧ with_single_cert certs k = Ok a) ∧
  (∀ p, st_redirect s = Some (with_port (st_addr s) p, sa_port (st_addr s)) ↔
        is_Some (st_tls s) ∧ http_redirect_port cfg = Some p) ∧
  st_connections s = max_connections cfg ∧ st_concurrency s = max_concurrent_requests cfg ∧
  is_postgres (db_url cfg) = postgres_feature ∧
  (db_url cfg = "sqlite::memory:" → is_Some (ok (connect (db_url cfg) 1))).
Proof.
  unfold run_server. destruct (bind (addr cfg)) as [l|e] eqn:Eb; [|done]. intros Hs.
  destruct (startup_stages _ _ _ _ Hs) as (d & u & w & Ha & El & Et & Ec & Er & Hp & _ & _ & Hred).
  subst l. apply init_pool_Ok in Hp as (Hpg & d0 & Hc & _). unfold tls_setup in Et.
  split; [done|]. split; [done|]. split; [|split; [|split; [|split; [done|split; [done|split; [done|]]]]]].
  - rewrite <- !not_eq_None_Some.
    destruct (tls_cert_path cfg), (tls_key_path cfg);
      [destruct (load_tls_acceptor _ _ _ _ _); [|done]|..]; injection Et as <-; tauto || naive_solver.
  - intros cert key a Hcert Hkey Ha'. rewrite Hcert, Hkey in Et.
    destruct (load_tls_acceptor _ _ _ cert key) as [a'|e] eqn:Ell; simplify_eq/=.
    rewrite Ha' in *. simplify_eq. by apply load_tls_acceptor_Ok.
  - intros p. rewrite Hred. unfold with_port.
    destruct (st_tls s), (http_redirect_port cfg); naive_solver.
  - intros Hurl. unfold effective_pool_size in Hc. rewrite Hurl in *.
    destruct postgres_feature; [done|]. simpl in Hc. rewrite Hc. by eexists.
Qed.

(** C33: the bootstrap account, from start-up to every state the server reaches: the
    accounts that were in the database keep their hashes, there is one for the
    configured name, and if that one is new it accepts exactly the passwords the
    configured hash accepts, or, when a password was configured instead, accepts
    that password. *)
Theorem bootstrap_account instant_min cfg hash l s sys d0 :
  startup cfg hash l = Some (Ok s) → served instant_min cfg s sys →
  connect (db_url cfg) (effective_pool_size postgres_feature (db_url cfg) (db_pool_size cfg)) = Ok d0 →
  (∀ u h, t_users (tables d0) !! u = Some h → t_users (sys_tables (sy_sys sys)) !! u = Some h) ∧
  is_Some (t_users (sys_tables (sy_sys sys)) !! auth_username cfg) ∧
  (t_users (tables d0) !! auth_username cfg = None →
   (∀ h p, hash = Some h → accepts (sys_tables (sy_sys sys)) (auth_username cfg) p = verify_password p h) ∧
   (hash = None → accepts (sys_tables (sy_sys sys)) (auth_username cfg) (auth_password cfg) = true)).
Proof.
  intros Hs [_ [es Hrun]]%system_reachable_parts Hconn.
  destruct (startup_stages _ _ _ _ Hs) as (d & u & w & _ & _ & _ & _ & _ & Hp & Hb & Hdb & _).
  apply init_pool_Ok in Hp as (_ & d0' & Hc & Ht). rewrite Hconn in Hc. injection Hc as <-.
  apply create_bootstrap_spec in Hb as (h & Hh & Hparse & Htab).
  apply run_users in Hrun. rewrite Hdb in Hrun.
  assert (Hu : t_users (sys_tables (sy_sys sys)) = match t_users (tables d0) !! auth_username cfg with
    | Some _ => t_users (tables d0) | None => <[auth_username cfg := h]> (t_users (tables d0)) end).
  { rewrite Hrun. change (tables (w_db w)) with (w_tables w). rewrite Htab. simpl.
    change (w_tables (fresh_world d)) with (tables d). by rewrite Ht. }
  unfold accepts. rewrite Hu. destruct (t_users (tables d0) !! auth_username cfg) as [h0|] eqn:E0.
  { split; [done|]. rewrite E0. split; [by eexists|done]. }
  split; [|split].
  - intros u' h' Hu'. rewrite lookup_insert_ne by congruence. done.
  - rewrite lookup_insert_eq. by eexists.
  - intros _. rewrite lookup_insert_eq, Hparse. simpl. split.
    + intros h' p ->. simpl in Hh. by simplify_eq.
    + intros ->. simpl in Hh. by destruct (hash_verifies _ _ _ Hh).
Qed.

(** A limit a semaphore cannot hold makes the server panic at start-up, although
    the configuration accepts it. *)
Lemma startup_panics cfg hash l a :
  local_addr l = Ok a → tls_setup cfg = Ok None → MAX_PERMITS < max_connections cfg →
  startup cfg hash l = None.
Proof.
  intros Ea Et Hm. unfold startup. rewrite Ea, Et. unfold semaphore_new.
  by replace (max_connections cfg <=? MAX_PERMITS) with false by (symmetry; by apply Z.leb_gt).
Qed.

(** A caller is told that the server is ready although it then fails to start: the
    signal is sent before the database is opened. *)
Lemma ready_before_database cfg hash l a e :
  local_addr l = Ok a → tls_setup cfg = Ok None →
  max_connections cfg <= MAX_PERMITS → max_concurrent_requests cfg <= MAX_PERMITS →
  init_pool postgres_feature connect (db_url cfg) (db_pool_size cfg) = Err e →
  run_on_listener cfg hash l true = (Some a, Some (Err (Db e))).
Proof.
  intros Ea Et H1%Z.leb_le H2%Z.leb_le Ep. unfold run_on_listener, accept_loop, ready_signal, startup.
  rewrite Ea, Et. unfold semaphore_new. by rewrite H1, H2, Ep.
Qed.

End Startup.

(** ** Instances *)

Definition tls_config : ServerConfig :=
  loaded (env_of [("TLS_CERT_PATH", "c.pem"); ("TLS_KEY_PATH", "k.pem");
                  ("HTTP_REDIRECT_PORT", "8080"); ("DATABASE_URL", "sqlite::memory:")]).

Definition local : SocketAddr := mkSocketAddr (V4 127 0 0 1) 8443 0.

Definition toy_startup (cfg : ServerConfig) :=
  run_server (SQ := mem_sql) (AR := toy_argon2) (EV := toy_env) (IoErr := string)
    (Cert := string) (Key := string) (RustlsErr := string) (λ _, Ok ()) (λ _, Ok local)
    (λ _, Ok [Ok "leaf"]) (λ _, Ok (Ok (Some "key"))) (λ _ _, Ok "acceptor") false
    (λ _ _, Ok mem_empty) (λ _, true) true "salt" cfg None.

(** A start that succeeds. *)
Definition starts (cfg : ServerConfig) : bool :=
  match toy_startup cfg with Some (Ok _) => true | _ => false end.

Example startup_example :
  ∃ s, toy_startup tls_config = Some (Ok s) ∧ is_Some (st_tls s) ∧
       st_redirect s = Some (mkSocketAddr (V4 127 0 0 1) 8080 0, 8443).
Proof.
  assert (Hs : starts tls_config = true) by (vm_compute; reflexivity).
  unfold starts in Hs. destruct (toy_startup tls_config) as [[s|e]|] eqn:E; [|done..].
  destruct (startup_ok _ _ _ _ _ _ _ _ _ _ _ _ _ E) as (_ & Ha & Htls & _ & Hred & _).
  injection Ha as Ha. exists s. split; [done|].
  assert (Ht : is_Some (st_tls s)).
  { apply Htls. split; [by exists "c.pem"; vm_compute|by exists "k.pem"; vm_compute]. }
  split; [done|]. rewrite <- Ha in Hred. apply (Hred 8080). split; [done|by vm_compute].
Defined.

Lemma bootstrap_account_witness :
  ∃ s, toy_startup tls_config = Some (Ok s) ∧
       accepts (H0 := toy_argon2) (tables (Sql := mem_sql) (st_db s)) "admin" "secret" = true.
Proof.
  assert (Hs : starts tls_config = true) by (vm_compute; reflexivity).
  unfold starts in Hs. destruct (toy_startup tls_config) as [[s|e]|] eqn:E; [|done..].
  exists s. split; [done|].
  destruct (bootstrap_account (HC := http_crate_ascii) (EX := toy_externals) (JW := toy_jwt)
              _ _ _ _ _ _ _ _ _ 0 tls_config None () s (system_init tls_config (st_db s)) mem_empty E)
    as (_ & _ & Hnew).
  - exists []. constructor.
  - by vm_compute.
  - by apply Hnew.
Defined.
