(* ===== verification/Main.v ===== *)
(** * The programs ([src/src/main.rs], [src/src/bin/password_hash.rs])

    [main]: the configuration, the warnings about insecure defaults, the runtime,
    and the server; the signal that shuts it down; and the tool that prints a
    password hash for [AUTH_PASSWORD_HASH]. *)
From S2P Require Import Prelude RustStr Net Config Sql Effects Pool Database Startup.
Local Open Scope Z_scope.

(** ** [main] *)

Inductive Warning : Type := InsecureJwtSecret | DefaultBootstrapPassword.

Definition security_warnings (cfg : ServerConfig) (auth_password_hash : option string)
    : list Warning :=
  (if String.eqb (jwt_secret cfg) "change-me-in-production" then [InsecureJwtSecret] else []) ++
  (if String.eqb (auth_username cfg) "admin" && String.eqb (auth_password cfg) "secret" &&
      bool_decide (auth_password_hash = None)
   then [DefaultBootstrapPassword] else []).

Section Main.
Context `{SQ : Sql, AR : Argon2, EV : Effects.Env}.
Context {IoErr Cert Key Acceptor RustlsErr Listener : Type}.

(** What [Startup] takes, and Tokio's builder, given the worker and blocking thread
    counts. *)
Context (bind : SocketAddr → result IoErr Listener) (local_addr : Listener → result IoErr SocketAddr)
  (open_certs : string → result IoErr (list (result IoErr Cert)))
  (open_key : string → result IoErr (result IoErr (option Key)))
  (with_single_cert : list Cert → Key → result RustlsErr Acceptor)
  (postgres_feature : bool) (connect : string → Z → result DbErr Sql.Db)
  (tera_new : string → bool) (client_builds : bool) (salt : string)
  (build_runtime : Z → Z → result IoErr ()).

Definition run : ServerConfig → option string → option (result ServerError Started) :=
  run_server bind local_addr open_certs open_key with_single_cert postgres_feature connect tera_new
    client_builds salt.

Inductive MainError : Type :=
| LoadConfig (e : ConfigError)
| BuildRuntime (e : IoErr)
| Serve (e : ServerError (IoErr := IoErr) (RustlsErr := RustlsErr)).

(** The warnings logged, and the server started, an error, or a panic. *)
Definition main (env : Config.Env) (parallelism : option Z)
    : option (result MainError (list Warning * Started)) :=
  match from_env env parallelism with
  | Err e => Some (Err (LoadConfig e))
  | Ok cfg =>
      let hash := env "AUTH_PASSWORD_HASH" in
      let warnings := security_warnings cfg hash in
      match build_runtime (workers cfg) (max_blocking_threads cfg) with
      | Err e => Some (Err (BuildRuntime e))
      | Ok _ => r ← run cfg hash; Some (map_err Serve (pair warnings <$> r))
      end
  end.

(** ** The shutdown signal *)

Inductive Signal : Type := SIGINT | SIGTERM.

#[export] Instance Signal_eq_dec : EqDecision Signal.
Proof. solve_decision. Defined.

(** Whether [shutdown_signal] has resolved, given which handlers could be
    registered and the signals that came; a [ctrl_c] that cannot listen completes
    at once, with its error ignored. *)
Definition shutdown_resolved (sigterm_ok ctrl_c_ok : bool) (signals : list Signal) : bool :=
  negb ctrl_c_ok || bool_decide (SIGINT ∈ signals) || (sigterm_ok && bool_decide (SIGTERM ∈ signals)).

(** ** [password_hash] *)

(** The exit without an argument, or the line printed; [None] is the panic of
    [expect]. *)
Inductive HashOutput : Type := Usage | Printed (hash : string).

Definition password_hash (drawn : string) (args : list string) : option HashOutput :=
  match args !! 1%nat with
  | None => Some Usage
  | Some password => h ← hash_password password drawn; Some (Printed h)
  end.

(** ** Lemmas *)

(** What [main] starts is what [run] starts on the configuration that was loaded. *)
Lemma main_starts env parallelism ws s :
  main env parallelism = Some (Ok (ws, s)) →
  ∃ cfg, from_env env parallelism = Ok cfg ∧ ws = security_warnings cfg (env "AUTH_PASSWORD_HASH") ∧
         run cfg (env "AUTH_PASSWORD_HASH") = Some (Ok s).
Proof.
  unfold main. destruct (from_env env parallelism) as [cfg|e]; [|done].
  destruct (build_runtime _ _) as [u|e]; [|done].
  destruct (run cfg (env "AUTH_PASSWORD_HASH")) as [[s'|e]|] eqn:E; intros [=]; subst. by exists cfg.
Qed.

(** The two programs agree: a hash the tool prints is one the bootstrap accepts, and
    it verifies the password it was printed for. *)
Lemma password_hash_usable drawn args h :
  password_hash drawn args = Some (Printed h) →
  ∃ password, args !! 1%nat = Some password ∧ hash_parses h = true ∧ verify_password password h = true.
Proof.
  unfold password_hash. destruct (args !! 1%nat) as [pw|]; [|done]. simpl.
  destruct (hash_password pw drawn) as [h'|] eqn:E; [|done]. intros [= <-].
  exists pw. split; [done|]. by eapply hash_verifies.
Qed.

(** An account whose password is still the default is never started silently. *)
Lemma default_password_warned cfg :
  auth_username cfg = "admin" → auth_password cfg = "secret" →
  DefaultBootstrapPassword ∈ security_warnings cfg None.
Proof.
  intros Hu Hp. unfold security_warnings. rewrite Hu, Hp. simpl.
  apply elem_of_app. right. left.
Qed.

End Main.
